(* ===== verification/_CoqProject ===== *)
-Q . S2P
Prelude.v
HashSet.v
MessageType.v
Wire.v
Errors.v
Messages.v
Hashing.v
Service.v
Timing.v
Config.v
NodeState.v
MessageLog.v
Sys.v
Handlers.v
Node.v
Protocol.v
NodeFrames.v
Storage.v
Fixture.v
NodeInvariants.v
Refinement.v
BlockCommit.v
Votes.v
Termination.v
Seals.v
Engine.v
Main.v
Safety.v
Agreement.v
NodeTheorems.v
Progress.v
Stalls.v
ViewChanges.v
SealTheorems.v
CatchUp.v
Forgery.v
LogTheorems.v
StateTheorems.v
Totality.v
EngineTheorems.v
RoundSteps.v
Decisions.v
Origins.v
TypeSafety.v
Survival.v
Network.v
NetworkProgress.v
NetworkCommits.v
Runs.v
HashOrders.v
Testing.v
NodeTests.v
ComponentTests.v
NetworkRuns.v
Witnesses.v
