(* ===== verification/Prelude.v ===== *)
(** * Sawtooth PBFT: a verification of the consensus engine

    The program is the PBFT consensus engine of Hyperledger Sawtooth.  It sits
    beside a validator, which delivers updates (new, valid, invalid and
    committed blocks, messages of other peers) and takes orders (check, commit,
    fail or ignore a block; initialize, summarize and finalize a block;
    broadcast a message).  This development translates the Rust code under
    src/src/ into executable definitions and proves what they do.

    ** Parts and files

    The code, from the bottom up; names are those of the source.

    - Prelude.v: [Result]; [Outcome], the result of code that can panic (or, in
      the model, run out of fuel); the state monad [SM] with Rust's [?] as
      [x ←? e; k]; the u64 operations; the program logic ([wp], [respects],
      [frame], [keeps], [returns]) and its automation.
    - HashSet.v: std's [HashSet], with its order of iteration.
    - MessageType.v, Messages.v: message_type.rs.  Wire.v: the messages of
      protos/pbft_message.proto and the SDK structs the engine reads.
    - Hashing.v: the [Hash] impls of message_extensions.rs and message_type.rs.
    - Errors.v: error.rs, hash.rs.
    - Service.v: the validator's service.
    - Timing.v: timing.rs ([Ticker], [Timeout]).
    - Config.v: config.rs ([load_pbft_config]).
    - NodeState.v: state.rs ([PbftState] and its operations).
    - MessageLog.v: message_log.rs ([PbftLog], the predicates
      [check_prepared] and [check_committable], consensus seals, garbage
      collection, backlog) and what the predicates mean.
    - Sys.v: the state a handler works on: [PbftNode] (service and log) with
      the [PbftState] it borrows.
    - Handlers.v: handlers.rs ([pre_prepare], [commit], [view_change]).
    - Node.v: node.rs ([on_peer_message], [on_block_new], [on_block_valid],
      [on_block_commit], [catchup], [verify_consensus_seal], [build_seal],
      [try_publish], [propose_view_change], [update_membership], ...).
    - Storage.v: storage/ (memory and disk storages, their guards,
      [get_storage]); the trait is the class [Storage], what a client relies on
      the class [StorageLaws].
    - Engine.v: engine.rs ([handle_update], the event loop, [start]).
    - Main.v: main.rs (arguments, log configuration, start and exit codes).
    - Testing.v, NodeTests.v, ComponentTests.v: the tests under
      [#[cfg(test)]], with their mock service, run on the model.

    What is proved about it.

    - Protocol.v: an abstract machine for one PBFT node, each step with the
      guard PBFT puts on it, and its invariants.  NodeFrames.v,
      NodeInvariants.v, Refinement.v, BlockCommit.v: the handlers only take
      its steps.  Safety.v: hence what a node commits and which views it
      enters is justified by its log.  EngineTheorems.v: the same for every
      state the engine reaches, with the persistence of the state and the
      start of the engine.
    - Agreement.v: quorums of 2f+1.  Votes.v: a node broadcasts at most one
      prepare at every height and view.  Origins.v: what a node has stored it
      has broadcast itself, was delivered, or announces a block.  Network.v: the
      free network of engines, in which faulty peers send anything in their own
      name, and the restricted one, in which every peer, faulty or not, signs its
      prepare for a block at a height and view once and no honest peer catches
      up on a sealed block.  In every state the restricted network can reach,
      honest peers agree on the block of a height and view; in the free one they
      need not, since the code counts messages and not their signers
      (NetworkRuns.v), and since votes in a seal can be in any name (Forgery.v).
      Restarts are left out there, and have to be: the log is not persisted, so
      a node that restarts may vote again.  Decisions.v, NetworkCommits.v: what
      honest peers commit at a height and view agrees as well, under the same
      restrictions, if validators carry out commits and find a block valid only
      where it is pre-prepared.  NetworkRuns.v: runs of the restricted network
      without that condition in which two honest peers commit different blocks
      of a height, in two views, and in one view in spite of agreeing logs; a run
      of the free network in which the logs differ as well; and a run of a round
      that ends.
    - Progress.v: a node that gets enough votes and its validator's approval
      finishes the round, in whatever order they come and whatever other votes
      come with them.  RoundSteps.v: so does its engine, iteration by iteration,
      the tickers having nothing to do.  NetworkProgress.v: hence a round ends at
      every honest peer of a network, once its pre-prepare and the votes of the
      honest peers have been delivered, however often faulty peers sign their
      votes, as long as no honest peer catches up.  Stalls.v: unless the pre-prepare came
      before the height began.  ViewChanges.v: a node that gets enough view
      changes enters the next view, if it has proposed the change or has the seal
      it needs to join.
    - Termination.v, Totality.v, TypeSafety.v: the recursion through a node's
      own broadcasts ends, and an engine that is delivered well-typed messages
      does not crash on the next.  Survival.v: nor does it crash on any sequence
      of updates, new blocks, catching up and periodic work included, while the
      settings name enough peers and a period of forced view changes that is not
      zero, and seals have keys that parse and ids that can be printed; and it
      does crash where these conditions fail.
    - Seals.v, SealTheorems.v, CatchUp.v: what a consensus seal shows; a seal
      built by a primary is accepted; catching up.  Forgery.v: what a seal does
      not show, the type and height of its votes and whose key has signed them.
    - NodeTheorems.v, LogTheorems.v, StateTheorems.v: the behaviour of single
      operations on all branches.
    - HashOrders.v: handling peer messages does not depend on the order in
      which hash sets are iterated; the block a node works on after a commit
      does.
    - Runs.v: a run that shows where the code does less than its comments say,
      and further inputs.
    - Fixture.v, Witnesses.v: a concrete environment, and every theorem that
      has hypotheses applied in it.

    ** How the code is modelled

    A method that takes [&mut self] and [&mut PbftState] and returns
    [Result<A, PbftError>] is a [NodeM A]: a function from a [Sys] to an
    outcome and the [Sys] it leaves, which a panic or an error leaves changed
    as far as the method got.  Every index, [unwrap], [expect], [panic!] and
    remainder that can panic does so in the model.  A u64 is an [N] below 2^64;
    arithmetic that overflows panics or wraps as the build's
    [overflow_checks] say, and the theorems hold for both builds.  [usize] is
    64 bits wide.  An [Instant] or a [Duration] is a number of nanoseconds;
    subtracting a later instant gives zero, as std documents since Rust 1.60.

    The order in which a hash set is iterated is arbitrary ([HashOrder]).  The
    validator is arbitrary too: each answer of the service is a function of the
    calls made before, and the state of the service is that list of calls, in
    which broadcasts and commits can be read.  Clock readings, the protobuf
    codec, SHA-2, secp256k1, hex, JSON and the file system are parameters, the
    classes of Wire.v, Service.v and Storage.v; theorems that need their
    documented behaviour assume [CodecLaws], [SerdeLaws] or say it in their
    hypotheses.  Unknown fields of a protobuf message are not represented.

    In the engine the write guard of the state lives for one iteration of the
    loop and is dropped, and the state so written, however the iteration ends
    ([with_guard]).

    ** Fuel

    A node handles its own broadcasts by a nested call of [on_peer_message];
    the model gives that recursion fuel.  Fuel 2 is enough for every message
    and state, and more changes nothing ([Totality.self_sends_end]).  The
    event loop runs over the list of updates it receives.  The test of the
    ticker spins until 100 ms have passed; its fuel, 600, is more than the 500
    clock readings, 0.2 ms apart, that this takes.

    ** Not modelled

    Log output: the macros format only when the level is enabled, so neither
    their text nor a panic while formatting it (the ids of states and blocks
    are cut to six digits) is part of the handlers; [display_state] and
    [display_error] are modelled on their own.  Texts of [InternalError] keep
    their holes.  clap, log4rs, the ZeroMQ driver and the code protoc
    generates are outside the repository.  [version] and [name] of the engine
    return constants of the build. *)

From stdpp Require Export prelude list gmap strings sorting pretty.
From Stdlib Require Export NArith.

#[global] Open Scope N_scope.

Declare Scope pbft_scope.
#[global] Open Scope pbft_scope.

(** ** Rust's [Result], panics, and state-passing computations *)

(** [std::result::Result]. *)
Inductive Result (T E : Type) :=
| Ok (t : T)
| Err (e : E).
Arguments Ok {_ _} _.
Arguments Err {_ _} _.

#[export] Instance Result_eq_dec `{EqDecision T, EqDecision E} :
  EqDecision (Result T E).
Proof. solve_decision. Defined.

(** How a Rust call ends: it returns, it panics, or the fuel of the model ran
    out (only the self-sending recursion of [node.rs] uses fuel). *)
Inductive Outcome (A : Type) :=
| Done (a : A)
| Panic (reason : string)
| OutOfFuel.
Arguments Done {_} _.
Arguments Panic {_} _.
Arguments OutOfFuel {_}.

#[export] Instance outcome_ret : MRet Outcome := @Done.
#[export] Instance outcome_bind : MBind Outcome := λ A B f m,
  match m with
  | Done a => f a
  | Panic e => Panic e
  | OutOfFuel => OutOfFuel
  end.

#[export] Instance Outcome_eq_dec `{EqDecision A} : EqDecision (Outcome A).
Proof. solve_decision. Defined.

Definition is_done {A} (o : Outcome A) : Prop :=
  match o with Done _ => True | _ => False end.

Lemma done_bind {A B} (a : A) (k : A → Outcome B) : (Done a ≫= k) = k a.
Proof. done. Qed.

(** Computations over a mutable state that may panic.  A panic keeps the state
    reached so far: Rust's unwinding does not undo writes. *)
Definition SM (S A : Type) : Type := S → Outcome A * S.

#[export] Instance sm_ret {S} : MRet (SM S) := λ A a s, (Done a, s).
#[export] Instance sm_bind {S} : MBind (SM S) := λ A B f m s,
  match m s with
  | (Done a, s') => f a s'
  | (Panic e, s') => (Panic e, s')
  | (OutOfFuel, s') => (OutOfFuel, s')
  end.

Definition sm_lift {S A} (o : Outcome A) : SM S A := λ s, (o, s).
Definition sm_gets {S A} (f : S → A) : SM S A := λ s, (Done (f s), s).
Definition sm_modify {S} (f : S → S) : SM S () := λ s, (Done tt, f s).

(** The [?] operator: an [Err] returns from the enclosing function. *)
Definition try_bind {M : Type → Type} `{MBind M, MRet M} {A B E}
    (k : A → M (Result B E)) (m : M (Result A E)) : M (Result B E) :=
  m ≫= λ r, match r with Ok a => k a | Err e => mret (Err e) end.

Notation "x ←? y ; z" := (try_bind (λ x, z) y)
  (at level 20, y at level 100, z at level 200) : pbft_scope.
Notation "y ;? z" := (try_bind (λ _ : (), z) y)
  (at level 100, z at level 200, right associativity) : pbft_scope.

(** [Result::map_err] for a call whose error the code replaces. *)
Definition map_err {T E F} (f : E → F) (r : Result T E) : Result T F :=
  match r with Ok t => Ok t | Err e => Err (f e) end.

(** ** 64-bit unsigned arithmetic *)

(** [u64] and [usize] (64-bit targets) are values of [N]; every arithmetic
    operation of the source goes through the checked operations below.  The
    build profile decides what an overflow does: a debug build panics, a
    release build wraps around. *)
Abbreviation u64 := N (only parsing).

Class Platform := { overflow_checks : bool }.

Definition two64 : N := 18446744073709551616.

Definition u64_overflow `{Platform} (what : string) (wrapped : N) : Outcome N :=
  if overflow_checks then Panic what else Done wrapped.

Definition u64_add `{Platform} (a b : N) : Outcome N :=
  if bool_decide (a + b < two64) then Done (a + b)
  else u64_overflow "attempt to add with overflow" ((a + b) mod two64).

Definition u64_mul `{Platform} (a b : N) : Outcome N :=
  if bool_decide (a * b < two64) then Done (a * b)
  else u64_overflow "attempt to multiply with overflow" ((a * b) mod two64).

Definition u64_sub `{Platform} (a b : N) : Outcome N :=
  if bool_decide (b ≤ a) then Done (a - b)
  else u64_overflow "attempt to subtract with overflow" (a + two64 - b).

(** Division by zero panics in every profile. *)
Definition u64_rem (a b : N) : Outcome N :=
  if bool_decide (b = 0) then
    Panic "attempt to calculate the remainder with a divisor of zero"
  else Done (a mod b).

Definition len {A} (l : list A) : N := N.of_nat (length l).

Section arithmetic.
Context `{Platform}.

Lemma u64_add_small a b : a + b < two64 → u64_add a b = Done (a + b).
Proof. intros. unfold u64_add. by rewrite bool_decide_true. Qed.

Lemma u64_mul_small a b : a * b < two64 → u64_mul a b = Done (a * b).
Proof. intros. unfold u64_mul. by rewrite bool_decide_true. Qed.

Lemma u64_sub_small a b : b ≤ a → u64_sub a b = Done (a - b).
Proof. intros. unfold u64_sub. by rewrite bool_decide_true. Qed.

Lemma u64_rem_pos a b : 0 < b → u64_rem a b = Done (a mod b).
Proof. intros. unfold u64_rem. rewrite bool_decide_false; [done|lia]. Qed.

Lemma u64_add_range a b r : u64_add a b = Done r → r < two64.
Proof.
  unfold u64_add, u64_overflow. case_bool_decide; [by intros [= <-]|].
  destruct overflow_checks; intros [= <-].
  by apply N.mod_lt.
Qed.

Lemma u64_sub_range a b r : a < two64 → u64_sub a b = Done r → r < two64.
Proof.
  unfold u64_sub, u64_overflow. case_bool_decide; [intros ? [= <-]; lia|].
  destruct overflow_checks; intros ? [= <-]. lia.
Qed.
End arithmetic.

(** ** Loops whose body may panic *)

Section outcome_lists.
Context {A B : Type}.

(** [iter().any(p)]: stops at the first success. *)
Fixpoint any_o (p : A → Outcome bool) (l : list A) : Outcome bool :=
  match l with
  | [] => Done false
  | x :: l => b ← p x; if b : bool then Done true else any_o p l
  end.

(** [iter().filter(p).collect()]. *)
Fixpoint filter_o (p : A → Outcome bool) (l : list A) : Outcome (list A) :=
  match l with
  | [] => Done []
  | x :: l => b ← p x; r ← filter_o p l; Done (if b : bool then x :: r else r)
  end.

(** [iter().map(f).collect()]. *)
Fixpoint map_o (f : A → Outcome B) (l : list A) : Outcome (list B) :=
  match l with
  | [] => Done []
  | x :: l => y ← f x; r ← map_o f l; Done (y :: r)
  end.

(** When no element panics the loops are the list functions. *)
Lemma any_o_done (p : A → Outcome bool) (q : A → bool) l :
  (∀ x, x ∈ l → p x = Done (q x)) → any_o p l = Done (existsb q l).
Proof.
  induction l as [|x l IH]; intros Hp; [done|].
  cbn. rewrite Hp by set_solver. cbn.
  destruct (q x); [done|]. apply IH. set_solver.
Qed.

Lemma filter_o_subset (p : A → Outcome bool) l r x : filter_o p l = Done r → x ∈ r → x ∈ l.
Proof.
  revert r. induction l as [|y l IH]; intros r; cbn [filter_o]; [by intros [= <-]|].
  destruct (p y) as [b| |]; cbn; [|done..]. destruct (filter_o p l) as [r'| |]; cbn; [|done..].
  intros [= <-]. specialize (IH r' eq_refl). destruct b; [|set_solver].
  intros [->|?]%elem_of_cons; [by left|right; auto].
Qed.

Lemma filter_o_done (p : A → Outcome bool) (P : A → Prop) `{∀ x, Decision (P x)} l :
  (∀ x, x ∈ l → p x = Done (bool_decide (P x))) → filter_o p l = Done (filter P l).
Proof.
  induction l as [|x l IH]; intros Hp; [done|].
  cbn. rewrite Hp by set_solver. cbn. rewrite IH by set_solver. cbn.
  f_equal. case_bool_decide; [by rewrite decide_True|by rewrite decide_False].
Qed.
End outcome_lists.

(** ** Reasoning about [SM] *)

(** Equations that run a computation one operation further. *)
Section run.
Context {S : Type}.

Lemma run_bind {A B} (m : SM S A) (k : A → SM S B) s :
  (m ≫= k) s = match m s with
               | (Done a, s') => k a s'
               | (Panic e, s') => (Panic e, s')
               | (OutOfFuel, s') => (OutOfFuel, s')
               end.
Proof. done. Qed.

Lemma run_bind_done {A B} (m : SM S A) (k : A → SM S B) s a s' :
  m s = (Done a, s') → (m ≫= k) s = k a s'.
Proof. intros Hm. by rewrite run_bind, Hm. Qed.

Lemma run_gets {A B} (f : S → A) (k : A → SM S B) s : (sm_gets f ≫= k) s = k (f s) s.
Proof. done. Qed.

Lemma run_modify {B} (f : S → S) (k : () → SM S B) s : (sm_modify f ≫= k) s = k tt (f s).
Proof. done. Qed.

Lemma run_lift_bind {A B} (a : A) (k : A → SM S B) s : (sm_lift (Done a) ≫= k) s = k a s.
Proof. done. Qed.

Lemma run_ret_bind {A B} (a : A) (k : A → SM S B) s : ((mret a : SM S A) ≫= k) s = k a s.
Proof. done. Qed.

Lemma run_try_ret_ok {A B E} (a : A) (k : A → SM S (Result B E)) s :
  try_bind k (mret (Ok a)) s = k a s.
Proof. done. Qed.

Lemma run_try_ret_err {A B E} (e : E) (k : A → SM S (Result B E)) s :
  try_bind k (mret (Err e)) s = (Done (Err e), s).
Proof. done. Qed.

Lemma run_ret {A} (a : A) (s : S) : (mret a : SM S A) s = (Done a, s).
Proof. done. Qed.

Lemma run_try {A B E} (m : SM S (Result A E)) (k : A → SM S (Result B E)) s :
  try_bind k m s = match m s with
                   | (Done (Ok a), s') => k a s'
                   | (Done (Err e), s') => (Done (Err e), s')
                   | (Panic e, s') => (Panic e, s')
                   | (OutOfFuel, s') => (OutOfFuel, s')
                   end.
Proof. unfold try_bind. rewrite run_bind. by destruct (m s) as [[[]| |] ?]. Qed.

Lemma run_try_ok {A B E} (m : SM S (Result A E)) (k : A → SM S (Result B E)) s a s' :
  m s = (Done (Ok a), s') → try_bind k m s = k a s'.
Proof. intros Hm. by rewrite run_try, Hm. Qed.

Lemma run_try_err {A B E} (m : SM S (Result A E)) (k : A → SM S (Result B E)) s e s' :
  m s = (Done (Err e), s') → try_bind k m s = (Done (Err e), s').
Proof. intros Hm. by rewrite run_try, Hm. Qed.

Lemma run_lift_done {A B} (o : Outcome A) (k : A → SM S B) s a :
  o = Done a → (sm_lift o ≫= k) s = k a s.
Proof. by intros ->. Qed.
End run.

Create Rewrite HintDb run.
#[export] Hint Rewrite @run_gets @run_modify @run_lift_bind @run_ret_bind
  @run_try_ret_ok @run_try_ret_err @run_ret : run.

(** Runs a computation through its deterministic prefix. *)
Ltac run := autorewrite with run.

(** Weakest precondition: [Q] holds of the outcome and of the final state. *)
Definition wp {S A} (m : SM S A) (Q : Outcome A → S → Prop) (s : S) : Prop :=
  Q (m s).1 (m s).2.

(** Continues a postcondition after a normal return only. *)
Definition on_done {S A B} (Q : Outcome B → S → Prop) (K : A → S → Prop)
    (o : Outcome A) (s : S) : Prop :=
  match o with
  | Done a => K a s
  | Panic e => Q (Panic e) s
  | OutOfFuel => Q OutOfFuel s
  end.

Section wp.
Context {S : Type}.

Lemma wp_mono {A} (m : SM S A) (Q Q' : Outcome A → S → Prop) s :
  wp m Q s → (∀ o s', Q o s' → Q' o s') → wp m Q' s.
Proof. unfold wp. auto. Qed.

Lemma wp_ret {A} (a : A) (Q : Outcome A → S → Prop) s :
  Q (Done a) s → wp (mret a) Q s.
Proof. done. Qed.

Lemma wp_bind {A B} (m : SM S A) (k : A → SM S B) (Q : Outcome B → S → Prop) s :
  wp m (on_done Q (λ a, wp (k a) Q)) s → wp (m ≫= k) Q s.
Proof. unfold wp. rewrite run_bind. by destruct (m s) as [[] ?]. Qed.

Lemma wp_gets {A} (f : S → A) (Q : Outcome A → S → Prop) s :
  Q (Done (f s)) s → wp (sm_gets f) Q s.
Proof. done. Qed.

Lemma wp_modify (f : S → S) (Q : Outcome () → S → Prop) s :
  Q (Done tt) (f s) → wp (sm_modify f) Q s.
Proof. done. Qed.

Lemma wp_lift {A} (o : Outcome A) (Q : Outcome A → S → Prop) s :
  Q o s → wp (sm_lift o) Q s.
Proof. done. Qed.

Lemma wp_try {A B E} (m : SM S (Result A E)) (k : A → SM S (Result B E)) Q s :
  wp m (on_done Q (λ r s', match r with
                           | Ok a => wp (k a) Q s'
                           | Err e => Q (Done (Err e)) s'
                           end)) s →
  wp (try_bind k m) Q s.
Proof.
  intros H. apply wp_bind. eapply wp_mono; [exact H|].
  by intros [[]| |] s'.
Qed.
End wp.

(** A computation respects a relation when it relates the state before to the
    state after, however it ends.  For a preorder this composes, so invariants
    ([λ s s', I s → I s']), frames ([λ s s', f s = f s']) and monotonicity
    facts of a whole handler follow from those of the operations it calls. *)
Definition respects {S A} (R : relation S) (m : SM S A) : Prop :=
  ∀ s, R s (m s).2.

Create HintDb respects discriminated.
#[export] Hint Constants Opaque : respects.
#[export] Hint Variables Opaque : respects.

Section respects.
Context {S : Type} (R : relation S) `{!PreOrder R}.

Lemma respects_ret {A} (a : A) : respects R (mret a : SM S A).
Proof. intros s. cbn. reflexivity. Qed.

Lemma respects_lift {A} (o : Outcome A) : respects R (sm_lift o).
Proof. intros s. cbn. reflexivity. Qed.

Lemma respects_gets {A} (f : S → A) : respects R (sm_gets f).
Proof. intros s. cbn. reflexivity. Qed.

Lemma respects_modify (f : S → S) : (∀ s, R s (f s)) → respects R (sm_modify f).
Proof. intros Hf s. apply Hf. Qed.

Lemma respects_bind {A B} (m : SM S A) (k : A → SM S B) :
  respects R m → (∀ a, respects R (k a)) → respects R (m ≫= k).
Proof.
  intros Hm Hk s. rewrite run_bind. specialize (Hm s).
  destruct (m s) as [[a| |] s']; cbn in *; [|done..].
  etrans; [exact Hm|apply Hk].
Qed.

Lemma respects_try {A B E} (m : SM S (Result A E)) (k : A → SM S (Result B E)) :
  respects R m → (∀ a, respects R (k a)) → respects R (try_bind k m).
Proof.
  intros Hm Hk. apply respects_bind; [done|].
  intros []; [apply Hk|apply respects_ret].
Qed.
End respects.

#[export] Hint Resolve respects_ret respects_lift respects_gets : respects.

(** Decomposes a handler down to the operations it calls, whose own [respects]
    lemmas are in the hypotheses or in the database. *)
Ltac solve_respects :=
  repeat first
    [ progress intros
    | solve [eauto with respects typeclass_instances]
    | apply respects_bind; [apply _| |]
    | apply respects_try; [apply _| |]
    | match goal with
      | |- respects _ (match ?x with _ => _ end) => destruct x eqn:?
      end ].

(** The preorders used as frames and invariants. *)
Definition frame {S A} (f : S → A) : relation S := λ s s', f s = f s'.
Definition keeps {S} (I : S → Prop) : relation S := λ s s', I s → I s'.

#[export] Instance frame_preorder {S A} (f : S → A) : PreOrder (frame f).
Proof. split; [by intros ?|intros ???; unfold frame; congruence]. Qed.

#[export] Instance keeps_preorder {S} (I : S → Prop) : PreOrder (keeps I).
Proof. split; unfold keeps; [by intros ?|intros ???; auto]. Qed.

(** Splits a goal on the next [match] or decision in it. *)
Ltac split_match := repeat (case_match; simplify_eq/=; try done).

Lemma elem_of_prefix {A} (l l' : list A) x : l `prefix_of` l' → x ∈ l → x ∈ l'.
Proof. intros [k ->] Hx. rewrite elem_of_app. by left. Qed.

(** ** Strings *)

(** [&s[..n]]: slicing past the end panics. *)
Definition str_prefix (n : nat) (s : string) : Outcome string :=
  if bool_decide (n ≤ String.length s)%nat then Done (String.substring 0 n s)
  else Panic "byte index is out of bounds".

(** [&v[..n]] on a byte vector. *)
Definition slice_prefix {A} (n : nat) (l : list A) : Outcome (list A) :=
  if bool_decide (n ≤ length l)%nat then Done (take n l)
  else Panic "range end index out of range for slice".

Lemma slice_prefix_done {A} n (l : list A) :
  (n ≤ length l)%nat → slice_prefix n l = Done (take n l).
Proof. intros. unfold slice_prefix. by rewrite bool_decide_true. Qed.

Lemma str_prefix_done n s :
  (n ≤ String.length s)%nat → str_prefix n s = Done (String.substring 0 n s).
Proof. intros. unfold str_prefix. by rewrite bool_decide_true. Qed.

(** Runs a computation on one component of the state. *)
Definition zoom {S T A} (get : S → T) (put : T → S → S) (m : SM T A) : SM S A :=
  λ s, let '(o, t) := m (get s) in (o, put t s).

(** ** Lists *)

Lemma head_elem_of {A} (l : list A) x : head l = Some x → x ∈ l.
Proof. destruct l; cbn; [done|]. intros [= ->]. by left. Qed.

Lemma head_none {A} (l : list A) : head l = None ↔ ∀ x, x ∉ l.
Proof.
  destruct l as [|y l]; cbn; split; try done.
  - intros _ x. apply not_elem_of_nil.
  - intros Hl. destruct (Hl y). by left.
Qed.

Lemma len_perm {A} (l k : list A) : l ≡ₚ k → len l = len k.
Proof. unfold len. by intros ->. Qed.

Lemma filter_and {A} (P Q : A → Prop) `{∀ x, Decision (P x), ∀ x, Decision (Q x)} (l : list A) :
  filter Q (filter P l) = filter (λ x, P x ∧ Q x) l.
Proof.
  induction l as [|x l IH]; [done|]. rewrite (filter_cons (λ x, P x ∧ Q x)), filter_cons.
  destruct (decide (P x)); [rewrite filter_cons|];
    repeat case_decide; naive_solver congruence.
Qed.

(** The last element of a list sorted by [R] is an upper bound. *)
Lemma StronglySorted_last {A} (R : relation A) (l : list A) x y :
  StronglySorted R l → last l = Some x → y ∈ l → y = x ∨ R y x.
Proof.
  intros Hs [k ->]%last_Some Hy. apply elem_of_app in Hy as [Hy|Hy].
  2: { left. by apply list_elem_of_singleton. }
  right. eapply StronglySorted_app_1_elem_of; [done..|]. by apply list_elem_of_singleton.
Qed.

Lemma filter_empty_iff {A} (P : A → Prop) `{∀ x, Decision (P x)} (l : list A) :
  filter P l = [] ↔ ∀ x, x ∈ l → ¬ P x.
Proof.
  split.
  - intros Hl x Hx HP. by eapply filter_nil_not_elem_of.
  - intros Hl. apply elem_of_nil_inv. intros x [??]%list_elem_of_filter. by eapply Hl.
Qed.

(** Two duplicate-free lists that agree on a selection select equally many. *)
Lemma filter_length_agree {A} (P : A → Prop) `{∀ x, Decision (P x)} (l k : list A) :
  NoDup l → NoDup k → (∀ x, P x → x ∈ l ↔ x ∈ k) → filter P l ≡ₚ filter P k.
Proof.
  intros Hl Hk Hlk. apply NoDup_Permutation; [by apply NoDup_filter..|].
  intros x. rewrite !list_elem_of_filter. specialize (Hlk x). tauto.
Qed.

(** A partner for each element of a list. *)
Lemma list_choice {A B} (P : A → B → Prop) (l : list A) :
  (∀ x, x ∈ l → ∃ y, P x y) → ∃ k, Forall2 P l k.
Proof.
  induction l as [|x l IH]; intros Hl; [by exists []|]. destruct (Hl x) as [y Hy]; [by left|].
  destruct IH as [k Hk]; [by intros z Hz; apply Hl; right|]. exists (y :: k). by constructor.
Qed.

Lemma list_all_or {A} (Q : Prop) (P : A → Prop) (l : list A) :
  (∀ x, x ∈ l → Q ∨ P x) → Q ∨ ∀ x, x ∈ l → P x.
Proof.
  induction l as [|x l IH]; intros Hl; [right; by intros x ?%elem_of_nil|]. destruct (Hl x) as [?|Hx]; [by left|by left|].
  destruct IH as [?|Hall]; [by intros y Hy; apply Hl; right|by left|]. right. by intros y [->|?]%elem_of_cons; [|apply Hall].
Qed.

(** ** Normal returns *)

Lemma bind_done_inv {S A B} (m : SM S A) (k : A → SM S B) s b s'' :
  (m ≫= k) s = (Done b, s'') ↔ ∃ a s', m s = (Done a, s') ∧ k a s' = (Done b, s'').
Proof.
  rewrite run_bind. destruct (m s) as [[a| |] s']; split.
  - intros Hk. by exists a, s'.
  - by intros (? & ? & [= <- <-] & ?).
  - done.
  - by intros (? & ? & ? & ?).
  - done.
  - by intros (? & ? & ? & ?).
Qed.

Lemma lift_done_inv {S A} (o : Outcome A) (s : S) a s' :
  sm_lift o s = (Done a, s') → o = Done a ∧ s' = s.
Proof. by intros [= -> ->]. Qed.

Lemma respects_eq {S A} (R : relation S) (m : SM S A) s o s' :
  respects R m → m s = (o, s') → R s s'.
Proof. intros Hm Hs. specialize (Hm s). by rewrite Hs in Hm. Qed.

(** [returns R m]: [R] relates the states before and after a normal return. *)
Definition returns {S A} (R : relation S) (m : SM S A) : Prop :=
  ∀ s a s', m s = (Done a, s') → R s s'.

Lemma respects_returns {S A} (R : relation S) (m : SM S A) : respects R m → returns R m.
Proof. intros Hm s a s' Hs. by eapply respects_eq. Qed.

Lemma returns_bind {S A B} (R : relation S) `{!Transitive R} (m : SM S A) (k : A → SM S B) :
  returns R m → (∀ a, returns R (k a)) → returns R (m ≫= k).
Proof.
  intros Hm Hk s b s'' (a & s' & Ha & Hb)%bind_done_inv. etrans; [by eapply Hm|by eapply Hk].
Qed.

Lemma returns_try {S A B E} (R : relation S) `{!PreOrder R} (m : SM S (Result A E)) (k : A → SM S (Result B E)) :
  returns R m → (∀ a, returns R (k a)) → returns R (try_bind k m).
Proof.
  intros Hm Hk. apply returns_bind; [apply _|done|]. intros []; [done|].
  apply respects_returns, respects_ret. apply _.
Qed.

(** [never_stuck m]: [m] does not run out of fuel. *)
Definition never_stuck {S A} (m : SM S A) : Prop := ∀ s, (m s).1 ≠ OutOfFuel.

Section never_stuck.
Context {S : Type}.

Lemma never_stuck_ret {A} (a : A) : never_stuck (mret a : SM S A).
Proof. by intros s. Qed.
Lemma never_stuck_gets {A} (f : S → A) : never_stuck (sm_gets f).
Proof. by intros s. Qed.
Lemma never_stuck_modify (f : S → S) : never_stuck (sm_modify f).
Proof. by intros s. Qed.
Lemma never_stuck_lift {A} (o : Outcome A) : o ≠ OutOfFuel → never_stuck (sm_lift o : SM S A).
Proof. by intros ? s. Qed.
Lemma never_stuck_bind {A B} (m : SM S A) (k : A → SM S B) :
  never_stuck m → (∀ a, never_stuck (k a)) → never_stuck (m ≫= k).
Proof.
  intros Hm Hk s. specialize (Hm s). rewrite run_bind.
  destruct (m s) as [[a| |] s']; [apply Hk|done|done].
Qed.
Lemma never_stuck_try {A B E} (m : SM S (Result A E)) (k : A → SM S (Result B E)) :
  never_stuck m → (∀ a, never_stuck (k a)) → never_stuck (try_bind k m).
Proof. intros Hm Hk. apply never_stuck_bind; [done|]. intros []; [apply Hk|done]. Qed.
End never_stuck.

(** Pure computations that cannot run out of fuel. *)
Section outcome_not_stuck.
Context {A B : Type}.

Lemma outcome_bind_not_stuck (o : Outcome A) (k : A → Outcome B) :
  o ≠ OutOfFuel → (∀ a, k a ≠ OutOfFuel) → (o ≫= k) ≠ OutOfFuel.
Proof. intros Ho Hk. destruct o; [apply Hk|done|done]. Qed.
End outcome_not_stuck.

Create HintDb fuel discriminated.
#[export] Hint Resolve never_stuck_ret never_stuck_gets never_stuck_modify never_stuck_lift : fuel.

Lemma NoDup_take_drop {A} (l : list A) n : NoDup l → NoDup (take n l) ∧ NoDup (drop n l).
Proof. rewrite <- (take_drop n l) at 1. rewrite NoDup_app. tauto. Qed.
