(* ===== verification/HashSet.v ===== *)
(** * [std::collections::HashSet]

    The log keeps its messages and seals in hash sets and takes the "first"
    element of an iteration, so the iteration order matters.  Rust leaves it
    unspecified: it depends on the random keys of the set and on the history of
    insertions.  A set is modelled by the number of its random keys
    ([hs_gen], a fresh one per set that is built) and by its elements in order
    of insertion; [iter_order] turns the two into the order of iteration.  All
    theorems hold for every [HashOrder]. *)

From S2P Require Import Prelude.

Class HashOrder := {
  iter_order : ∀ {A : Type}, nat → list A → list A;
  iter_order_perm : ∀ {A : Type} (g : nat) (l : list A), iter_order g l ≡ₚ l
}.

Record HashSet (A : Type) := mkHashSet {
  hs_gen : nat;
  hs_items : list A
}.
Arguments mkHashSet {_} _ _.
Arguments hs_gen {_} _.
Arguments hs_items {_} _.

Definition hs_new {A} (g : nat) : HashSet A := mkHashSet g [].

Definition hs_len {A} (s : HashSet A) : N := len (hs_items s).

(** [HashSet::iter]. *)
Definition hs_iter `{HashOrder} {A} (s : HashSet A) : list A :=
  iter_order (hs_gen s) (hs_items s).

(** [HashSet::insert]: an element equal to one of the set is dropped. *)
Definition hs_insert `{EqDecision A} (x : A) (s : HashSet A) : HashSet A :=
  if decide (x ∈ hs_items s) then s
  else mkHashSet (hs_gen s) (hs_items s ++ [x]).

(** [collect::<HashSet<_>>()]. *)
Definition hs_collect `{EqDecision A} (g : nat) (l : list A) : HashSet A :=
  foldl (λ s x, hs_insert x s) (hs_new g) l.

(** What the hash table maintains. *)
Definition hs_wf {A} (s : HashSet A) : Prop := NoDup (hs_items s).

#[export] Instance hs_elem_of {A} : ElemOf A (HashSet A) := λ x s, x ∈ hs_items s.
#[export] Instance hs_elem_of_dec `{EqDecision A} : RelDecision (∈@{HashSet A}) :=
  λ x s, decide (x ∈ hs_items s).

Section facts.
Context `{HashOrder} `{EqDecision A}.
Implicit Types (x y : A) (s : HashSet A) (l : list A).

Lemma hs_iter_perm s : hs_iter s ≡ₚ hs_items s.
Proof. apply iter_order_perm. Qed.

Lemma elem_of_hs_iter x s : x ∈ hs_iter s ↔ x ∈ s.
Proof. unfold elem_of at 2, hs_elem_of. by rewrite hs_iter_perm. Qed.

Lemma elem_of_hs_new x g : ¬ x ∈ (hs_new g : HashSet A).
Proof. unfold elem_of, hs_elem_of, hs_new. cbn. set_solver. Qed.

Lemma elem_of_hs_insert x y s : y ∈ hs_insert x s ↔ y = x ∨ y ∈ s.
Proof.
  unfold elem_of, hs_elem_of, hs_insert.
  case_decide; cbn; set_solver.
Qed.

Lemma hs_insert_present x s : x ∈ s → hs_insert x s = s.
Proof. intros. unfold hs_insert. by rewrite decide_True. Qed.

Lemma hs_new_wf g : hs_wf (hs_new g : HashSet A).
Proof. constructor. Qed.

Lemma hs_insert_wf x s : hs_wf s → hs_wf (hs_insert x s).
Proof.
  unfold hs_wf, hs_insert. intros Hs. case_decide; [done|]. cbn.
  apply NoDup_app. split_and!; [done|set_solver|apply NoDup_singleton].
Qed.

Lemma foldl_insert_wf l s : hs_wf s → hs_wf (foldl (λ s x, hs_insert x s) s l).
Proof. revert s. induction l; cbn; auto using hs_insert_wf. Qed.

Lemma hs_collect_wf g l : hs_wf (hs_collect g l).
Proof. apply foldl_insert_wf, hs_new_wf. Qed.

Lemma elem_of_foldl_insert x l s :
  x ∈ foldl (λ s x, hs_insert x s) s l ↔ x ∈ l ∨ x ∈ s.
Proof.
  revert s. induction l as [|y l IH]; intros s; cbn; [set_solver|].
  rewrite IH, elem_of_hs_insert. set_solver.
Qed.

Lemma elem_of_hs_collect x g l : x ∈ hs_collect g l ↔ x ∈ l.
Proof.
  unfold hs_collect. rewrite elem_of_foldl_insert.
  pose proof (elem_of_hs_new x g). tauto.
Qed.

(** Counting after an insertion, for any decidable selection: the count of the
    iteration does not depend on the order. *)
Lemma hs_iter_filter_length (P : A → Prop) `{∀ x, Decision (P x)} s :
  length (filter P (hs_iter s)) = length (filter P (hs_items s)).
Proof. by rewrite hs_iter_perm. Qed.

Lemma hs_iter_wf s : hs_wf s → NoDup (hs_iter s).
Proof. unfold hs_wf. by rewrite hs_iter_perm. Qed.

Lemma hs_insert_filter_mono (P : A → Prop) `{∀ x, Decision (P x)} x s :
  (length (filter P (hs_items s)) ≤ length (filter P (hs_items (hs_insert x s))))%nat.
Proof.
  unfold hs_insert. case_decide; [done|]. cbn.
  rewrite filter_app, length_app. lia.
Qed.

Lemma hs_insert_len x s : hs_len (hs_insert x s) = if decide (x ∈ s) then hs_len s else hs_len s + 1.
Proof.
  unfold hs_insert, hs_len, len. destruct (decide (x ∈ hs_items s)) as [Hx|Hx].
  - by rewrite decide_True.
  - rewrite decide_False by done. cbn. rewrite length_app. cbn. lia.
Qed.
End facts.

#[export] Hint Resolve hs_new_wf hs_insert_wf hs_collect_wf : core.
