(* ===== verification/MessageType.v ===== *)
(** * [PbftMessageType] (src/src/message_type.rs, lines 217-278)

    The six message types, their textual names and the two conversions.  The
    log compares messages by these names. *)

From S2P Require Import Prelude.

Inductive PbftMessageType :=
| PrePrepare
| Prepare
| Commit
| BlockNew
| ViewChange
| Unset.

#[export] Instance PbftMessageType_eq_dec : EqDecision PbftMessageType.
Proof. solve_decision. Defined.

(** [Display]. *)
Definition display_message_type (t : PbftMessageType) : string :=
  match t with
  | PrePrepare => "PP"
  | Prepare => "Pr"
  | Commit => "Co"
  | BlockNew => "BN"
  | ViewChange => "VC"
  | Unset => "Un"
  end.

Definition is_multicast (t : PbftMessageType) : bool :=
  match t with
  | PrePrepare | Prepare | Commit => true
  | _ => false
  end.

(** [From<&str>]. *)
Definition message_type_of_str (s : string) : PbftMessageType :=
  if decide (s = "PrePrepare") then PrePrepare
  else if decide (s = "Prepare") then Prepare
  else if decide (s = "Commit") then Commit
  else if decide (s = "BlockNew") then BlockNew
  else if decide (s = "ViewChange") then ViewChange
  else Unset.

(** [From<&PbftMessageType> for String], which prints with the derived [Debug]. *)
Definition string_of_message_type (t : PbftMessageType) : string :=
  match t with
  | PrePrepare => "PrePrepare"
  | Prepare => "Prepare"
  | Commit => "Commit"
  | BlockNew => "BlockNew"
  | ViewChange => "ViewChange"
  | Unset => "Unset"
  end.

Lemma message_type_of_string_of t :
  message_type_of_str (string_of_message_type t) = t.
Proof. by destruct t. Qed.

#[export] Instance string_of_message_type_inj : Inj (=) (=) string_of_message_type.
Proof. by intros [] []. Qed.

(** A name other than "Unset" that is read as a type is that type's name. *)
Lemma message_type_of_str_inv s t :
  message_type_of_str s = t → t ≠ Unset → s = string_of_message_type t.
Proof. intros <-. unfold message_type_of_str. by repeat case_decide. Qed.

(** The text a type is written as determines it, and every text is read as some
    type; unknown texts (and the text of [Unset] itself) as [Unset]. *)
Lemma message_type_of_str_unset s :
  message_type_of_str s = Unset ↔
  ∀ t, t ≠ Unset → s ≠ string_of_message_type t.
Proof.
  split.
  - intros Hs t Ht ->. rewrite message_type_of_string_of in Hs. done.
  - intros Hs. destruct (decide (message_type_of_str s = Unset)) as [|Hne]; [done|].
    destruct (Hs (message_type_of_str s) Hne). by apply message_type_of_str_inv.
Qed.
