(* ===== verification/Wire.v ===== *)
(** * Data on the wire and in the Sawtooth SDK

    The messages of src/protos/pbft_message.proto as the Rust code sees them
    (rust-protobuf structs: sub-messages are optional, scalar fields have
    proto3 defaults, getters of an absent sub-message return its default
    instance), and the SDK structs the engine receives.  Unknown protobuf fields
    are not represented. *)

From S2P Require Import Prelude.
From Stdlib Require Import Strings.Byte.

Abbreviation bytes := (list Byte.byte).

(** [PeerId] and [BlockId] of the SDK are both [Vec<u8>]. *)
Abbreviation PeerId := bytes (only parsing).
Abbreviation BlockId := bytes (only parsing).

#[export] Instance byte_eq_dec : EqDecision Byte.byte := Byte.byte_eq_dec.
#[export] Program Instance byte_countable : Countable Byte.byte :=
  inj_countable Byte.to_N Byte.of_N _.
Next Obligation. intros b. apply Byte.of_to_N. Qed.

Record PbftBlock := mkPbftBlock {
  pb_block_id : bytes;
  pb_signer_id : bytes;
  pb_block_num : N;
  pb_summary : bytes
}.

Record PbftMessageInfo := mkPbftMessageInfo {
  mi_msg_type : string;
  mi_view : N;
  mi_seq_num : N;
  mi_signer_id : bytes
}.

Record PbftMessage := mkPbftMessage {
  pm_info : option PbftMessageInfo;
  pm_block : option PbftBlock
}.

Record PbftSignedCommitVote := mkPbftSignedCommitVote {
  sv_header_bytes : bytes;
  sv_header_signature : bytes;
  sv_message_bytes : bytes
}.

Record PbftSeal := mkPbftSeal {
  ps_previous_id : bytes;
  ps_summary : bytes;
  ps_previous_commit_votes : list PbftSignedCommitVote
}.

Record PbftViewChange := mkPbftViewChange {
  pv_info : option PbftMessageInfo;
  pv_seal : option PbftSeal
}.

#[export] Instance PbftBlock_eq_dec : EqDecision PbftBlock.
Proof. solve_decision. Defined.
#[export] Instance PbftMessageInfo_eq_dec : EqDecision PbftMessageInfo.
Proof. solve_decision. Defined.
#[export] Instance PbftMessage_eq_dec : EqDecision PbftMessage.
Proof. solve_decision. Defined.
#[export] Instance PbftSignedCommitVote_eq_dec : EqDecision PbftSignedCommitVote.
Proof. solve_decision. Defined.
#[export] Instance PbftSeal_eq_dec : EqDecision PbftSeal.
Proof. solve_decision. Defined.
#[export] Instance PbftViewChange_eq_dec : EqDecision PbftViewChange.
Proof. solve_decision. Defined.

(** Default instances ([X::new()]) and the getters of optional sub-messages. *)
Definition default_block : PbftBlock := mkPbftBlock [] [] 0 [].
Definition default_info : PbftMessageInfo := mkPbftMessageInfo "" 0 0 [].
Definition default_seal : PbftSeal := mkPbftSeal [] [] [].

Definition pm_get_info (m : PbftMessage) : PbftMessageInfo := default default_info (pm_info m).
Definition pm_get_block (m : PbftMessage) : PbftBlock := default default_block (pm_block m).
Definition pv_get_info (m : PbftViewChange) : PbftMessageInfo := default default_info (pv_info m).
Definition pv_get_seal (m : PbftViewChange) : PbftSeal := default default_seal (pv_seal m).

(** ** Structs of [sawtooth_sdk::consensus::engine] *)

Record Block := mkBlock {
  bk_block_id : bytes;
  bk_previous_id : bytes;
  bk_signer_id : bytes;
  bk_block_num : N;
  bk_payload : bytes;
  bk_summary : bytes
}.

(** The fields of a consensus peer message header that the engine reads. *)
Record PeerMessageHeader := mkPeerMessageHeader {
  ph_signer_id : bytes;
  ph_content_sha512 : bytes
}.

Record PeerMessage := mkPeerMessage {
  pe_header : PeerMessageHeader;
  pe_header_bytes : bytes;
  pe_header_signature : bytes;
  pe_content : bytes
}.

(** [sawtooth_sdk::consensus::engine::Error]; the engine singles out
    [BlockNotReady]. *)
Inductive EngineError :=
| BlockNotReady
| OtherEngineError (description : string).

(** [protobuf::ProtobufError], of which the engine only keeps the value. *)
Inductive ProtobufError := mkProtobufError (description : string).

#[export] Instance PeerMessageHeader_eq_dec : EqDecision PeerMessageHeader.
Proof. solve_decision. Defined.
#[export] Instance PeerMessage_eq_dec : EqDecision PeerMessage.
Proof. solve_decision. Defined.
#[export] Instance EngineError_eq_dec : EqDecision EngineError.
Proof. solve_decision. Defined.
#[export] Instance ProtobufError_eq_dec : EqDecision ProtobufError.
Proof. solve_decision. Defined.

(** ** Code outside the repository

    The protobuf runtime and the code generated from the .proto file. *)
Class Codec := {
  message_to_bytes : PbftMessage → Result bytes ProtobufError;
  message_of_bytes : bytes → Result PbftMessage ProtobufError;
  view_change_to_bytes : PbftViewChange → Result bytes ProtobufError;
  view_change_of_bytes : bytes → Result PbftViewChange ProtobufError;
  seal_to_bytes : PbftSeal → Result bytes ProtobufError;
  seal_of_bytes : bytes → Result PbftSeal ProtobufError;
  header_of_bytes : bytes → Result PeerMessageHeader ProtobufError
}.

(** What protobuf documents of it: writing succeeds and parsing inverts it; and
    field 1 is the [PbftMessageInfo] in both top-level messages, so bytes of one
    that happen to parse as the other give the same info. *)
Class CodecLaws `{!Codec} : Prop := {
  message_roundtrip : ∀ m, ∃ b, message_to_bytes m = Ok b ∧ message_of_bytes b = Ok m;
  view_change_roundtrip : ∀ m, ∃ b,
    view_change_to_bytes m = Ok b ∧ view_change_of_bytes b = Ok m;
  seal_roundtrip : ∀ m, ∃ b, seal_to_bytes m = Ok b ∧ seal_of_bytes b = Ok m;
  view_change_as_message : ∀ vc b m,
    view_change_to_bytes vc = Ok b → message_of_bytes b = Ok m → pm_info m = pv_info vc
}.

(** OpenSSL's SHA-2, the [hex] crate and the SDK's secp256k1 context. *)
Class Crypto := {
  sha256 : bytes → bytes;
  sha512 : bytes → bytes;
  hex_encode : bytes → string;
  hex_decode : string → option bytes;
  PublicKey : Type;
  public_key_from_hex : string → option PublicKey;
  create_context : Result () string;
  verify_signature : string → bytes → PublicKey → Result bool string
}.

(** [serde_json::from_str::<Vec<String>>]. *)
Class Json := {
  json_strings : string → option (list string)
}.
