(* ===== verification/Errors.v ===== *)
(** * [PbftError] (src/src/error.rs) and hash verification (src/src/hash.rs)

    Formatted descriptions of [InternalError] are kept as the source's format
    string with its holes unfilled. *)

From S2P Require Import Prelude MessageType Wire.

Inductive PbftError :=
| SerializationError (e : ProtobufError)
| WrongNumMessages (t : PbftMessageType) (expected got : N)
| WrongNumSeals (expected got : N)
| BlockMismatch (expected got : PbftBlock)
| MessageMismatch (t : PbftMessageType)
| ViewMismatch (expected got : N)
| InternalError (description : string)
| NodeNotFound
| WrongNumBlocks
| TimeoutError
| NoWorkingBlock
| NotReadyForMessage
| NotFromPrimary
| NoBlockNew.

#[export] Instance PbftError_eq_dec : EqDecision PbftError.
Proof. solve_decision. Defined.

(** [Error::description]. *)
Definition error_description (e : PbftError) : string :=
  match e with
  | SerializationError _ => "SerializationError"
  | WrongNumMessages _ _ _ => "WrongNumMessages"
  | WrongNumSeals _ _ => "WrongNumSeals"
  | BlockMismatch _ _ => "BlockMismatch"
  | MessageMismatch _ => "MessageMismatch"
  | ViewMismatch _ _ => "ViewMismatch"
  | InternalError _ => "InternalError"
  | NodeNotFound => "NodeNotFound"
  | WrongNumBlocks => "WrongNumBlocks"
  | TimeoutError => "Timeout"
  | NoWorkingBlock => "NoWorkingBlock"
  | NotReadyForMessage => "NotReadyForMessage"
  | NotFromPrimary => "NotFromPrimary"
  | NoBlockNew => "NoBlockNew"
  end.

(** [{:?}] of a string without characters to escape. *)
Definition debug_str (s : string) : string :=
  String (Ascii.ascii_of_nat 34) s +:+ String (Ascii.ascii_of_nat 34) "".

Section errors.
Context `{Crypto}.

(** [Display]; only a block mismatch can panic, on ids of under three bytes. *)
Definition display_error (e : PbftError) : Outcome string :=
  body ← match e with
         | SerializationError (mkProtobufError d) => Done d
         | WrongNumMessages t exp got =>
             Done ("Wrong number of " +:+ string_of_message_type t +:+
                   " messages in this sequence (expected " +:+ pretty exp +:+
                   ", got " +:+ pretty got +:+ ")")
         | WrongNumSeals exp got =>
             Done ("Wrong number of consensus seals found (expected " +:+
                   pretty exp +:+ ", got " +:+ pretty got +:+ ")")
         | MessageMismatch t => Done (string_of_message_type t +:+ " message mismatch")
         | ViewMismatch exp got =>
             Done ("View mismatch: " +:+ pretty exp +:+ " != " +:+ pretty got)
         | BlockMismatch exp got =>
             a ← str_prefix 6 (hex_encode (pb_block_id exp));
             b ← str_prefix 6 (hex_encode (pb_block_id got));
             Done (debug_str a +:+ " != " +:+ debug_str b)
         | NodeNotFound => Done "Couldn't find node in the network"
         | WrongNumBlocks => Done "Incorrect number of blocks"
         | TimeoutError => Done "Timed out"
         | InternalError d => Done d
         | NoWorkingBlock => Done "There is no working block"
         | NotReadyForMessage => Done "Not ready"
         | NotFromPrimary =>
             Done "Message should be from primary, but was sent by secondary"
         | NoBlockNew => Done "Got a PrePrepare without a matching BlockNew"
         end;
  Done (error_description e +:+ ": " +:+ body).

(** [hash_sha256], [hash_sha512]. *)
Definition hash_sha256 (b : bytes) : bytes := sha256 b.
Definition hash_sha512 (b : bytes) : bytes := sha512 b.

Definition verify_sha512 (content content_hash : bytes) : Result () PbftError :=
  let computed_sha512 := hash_sha512 content in
  if decide (computed_sha512 ≠ content_hash) then
    Err (InternalError "Hash verification failed! Content: `{:?}`, Hash: `{:?}`")
  else Ok tt.

Lemma verify_sha512_ok content content_hash :
  verify_sha512 content content_hash = Ok tt ↔ sha512 content = content_hash.
Proof.
  unfold verify_sha512, hash_sha512. by case_decide; split.
Qed.
End errors.
