(* ===== verification/Messages.v ===== *)
(** * [ParsedMessage] (src/src/message_type.rs, lines 32-215)

    A message together with the signed header it came with. *)

From S2P Require Import Prelude MessageType Wire Errors.

(** [PbftMessageWrapper]. *)
Inductive PbftMessageWrapper :=
| WMessage (m : PbftMessage)
| WViewChange (m : PbftViewChange).

Record ParsedMessage := mkParsedMessage {
  header_bytes : bytes;
  header_signature : bytes;
  message : PbftMessageWrapper;
  message_bytes : bytes;
  from_self : bool
}.

#[export] Instance PbftMessageWrapper_eq_dec : EqDecision PbftMessageWrapper.
Proof. solve_decision. Defined.
#[export] Instance ParsedMessage_eq_dec : EqDecision ParsedMessage.
Proof. solve_decision. Defined.

Definition info (p : ParsedMessage) : PbftMessageInfo :=
  match message p with
  | WMessage m => pm_get_info m
  | WViewChange m => pv_get_info m
  end.

(** The type by which [on_peer_message] and [add_message] tell messages apart. *)
Definition msg_type_of (m : ParsedMessage) : PbftMessageType :=
  message_type_of_str (mi_msg_type (info m)).

Definition get_block (p : ParsedMessage) : Outcome PbftBlock :=
  match message p with
  | WMessage m => Done (pm_get_block m)
  | WViewChange _ => Panic "ParsedPeerMessage.get_block found a view change message!"
  end.

Definition get_pbft_message (p : ParsedMessage) : Outcome PbftMessage :=
  match message p with
  | WMessage m => Done m
  | WViewChange _ => Panic "ParsedPeerMessage.get_pbft_message found a view change message!"
  end.

Definition get_view_change_message (p : ParsedMessage) : Outcome PbftViewChange :=
  match message p with
  | WMessage _ => Panic "ParsedPeerMessage.get_view_change_message found a pbft message!"
  | WViewChange m => Done m
  end.

(** [info_mut], as the update it allows; [mut_info] fills in an absent info. *)
Definition info_mut (f : PbftMessageInfo → PbftMessageInfo) (p : ParsedMessage) : ParsedMessage :=
  mkParsedMessage (header_bytes p) (header_signature p)
    match message p with
    | WMessage m => WMessage (mkPbftMessage (Some (f (pm_get_info m))) (pm_block m))
    | WViewChange m => WViewChange (mkPbftViewChange (Some (f (pv_get_info m))) (pv_seal m))
    end
    (message_bytes p) (from_self p).

(** [as_msg_type]: only the parsed message changes, not its serialized bytes. *)
Definition as_msg_type (p : ParsedMessage) (t : PbftMessageType) : Outcome ParsedMessage :=
  new_msg ← get_pbft_message p;
  let i := pm_get_info new_msg in
  let i := mkPbftMessageInfo (string_of_message_type t) (mi_view i) (mi_seq_num i) (mi_signer_id i) in
  Done (mkParsedMessage (header_bytes p) (header_signature p)
          (WMessage (mkPbftMessage (Some i) (pm_block new_msg)))
          (message_bytes p) (from_self p)).

Section parsing.
Context `{Codec} `{Crypto}.

Definition from_pbft_message (m : PbftMessage) : Outcome ParsedMessage :=
  match message_to_bytes m with
  | Ok b => Done (mkParsedMessage [] [] (WMessage m) b false)
  | Err _ => Panic "called `Result::unwrap()` on an `Err` value"
  end.

Definition from_view_change_message (m : PbftViewChange) : Outcome ParsedMessage :=
  match view_change_to_bytes m with
  | Ok b => Done (mkParsedMessage [] [] (WViewChange m) b false)
  | Err _ => Panic "called `Result::unwrap()` on an `Err` value"
  end.

(** The parsing chain of [from_peer_message]: a [PbftMessage] unless that fails
    or its type is "ViewChange", then a [PbftViewChange]. *)
Definition parse_wrapper (content : bytes) : option PbftMessageWrapper :=
  match
    match message_of_bytes content with
    | Ok m => if decide (mi_msg_type (pm_get_info m) = "ViewChange") then None
              else Some (WMessage m)
    | Err _ => None
    end
  with
  | Some w => Some w
  | None =>
      match view_change_of_bytes content with
      | Ok m => Some (WViewChange m)
      | Err _ => None
      end
  end.

Definition from_peer_message (p : PeerMessage) (self : bool) : Result ParsedMessage PbftError :=
  match (if self then Ok tt
         else verify_sha512 (pe_content p) (ph_content_sha512 (pe_header p))) with
  | Err e => Err e
  | Ok _ =>
      match parse_wrapper (pe_content p) with
      | None => Err (InternalError "Couldn't parse message!")
      | Some w =>
          Ok (mkParsedMessage (pe_header_bytes p) (pe_header_signature p) w
                (pe_content p) self)
      end
  end.

Definition from_bytes (b : bytes) : Result ParsedMessage PbftError :=
  from_peer_message (mkPeerMessage (mkPeerMessageHeader [] []) [] [] b) true.

(** [Display for PbftMessageInfo] (src/src/message_extensions.rs). *)
Definition display_message_info (i : PbftMessageInfo) : Outcome string :=
  signer ← str_prefix 6 (hex_encode (mi_signer_id i));
  Done ("MsgInfo (" +:+ display_message_type (message_type_of_str (mi_msg_type i)) +:+
        " S " +:+ pretty (mi_seq_num i) +:+ " V " +:+ pretty (mi_view i) +:+
        " <- " +:+ signer +:+ ")").

(** ** Lemmas *)

Lemma parse_wrapper_message content m :
  message_of_bytes content = Ok m → mi_msg_type (pm_get_info m) ≠ "ViewChange" →
  parse_wrapper content = Some (WMessage m).
Proof. intros Hm Ht. unfold parse_wrapper. rewrite Hm. by rewrite decide_False. Qed.

Lemma parse_wrapper_inv content m : parse_wrapper content = Some (WMessage m) → message_of_bytes content = Ok m.
Proof. unfold parse_wrapper. split_match; congruence. Qed.

(** A wrapped [PbftMessage] never claims to be a view change. *)
Lemma parse_wrapper_not_view_change content m :
  parse_wrapper content = Some (WMessage m) → mi_msg_type (pm_get_info m) ≠ "ViewChange".
Proof. unfold parse_wrapper. split_match; congruence. Qed.

Lemma from_peer_message_ok p self r :
  from_peer_message p self = Ok r →
  parse_wrapper (pe_content p) = Some (message r) ∧
  message_bytes r = pe_content p ∧ from_self r = self ∧
  header_bytes r = pe_header_bytes p ∧ header_signature r = pe_header_signature p.
Proof.
  unfold from_peer_message. intros Hr. repeat case_match; simplify_eq/=.
  all: by split_and!.
Qed.

(** A message the node writes and sends to itself is the message it meant. *)
Lemma from_bytes_message `{!CodecLaws} m :
  mi_msg_type (pm_get_info m) ≠ "ViewChange" →
  ∃ b, message_to_bytes m = Ok b ∧
       from_bytes b = Ok (mkParsedMessage [] [] (WMessage m) b true).
Proof.
  intros Ht. destruct (message_roundtrip m) as (b & Hw & Hp).
  exists b. split; [done|]. unfold from_bytes, from_peer_message. cbn.
  by rewrite (parse_wrapper_message b m).
Qed.

Lemma from_bytes_view_change `{!CodecLaws} vc :
  mi_msg_type (pv_get_info vc) = "ViewChange" →
  ∃ b, view_change_to_bytes vc = Ok b ∧
       from_bytes b = Ok (mkParsedMessage [] [] (WViewChange vc) b true).
Proof.
  intros Ht. destruct (view_change_roundtrip vc) as (b & Hw & Hp).
  exists b. split; [done|]. unfold from_bytes, from_peer_message, parse_wrapper. cbn.
  rewrite Hp. destruct (message_of_bytes b) as [m|] eqn:Hm; [|done].
  rewrite decide_True; [done|].
  pose proof (view_change_as_message _ _ _ Hw Hm) as Hi.
  unfold pm_get_info. by rewrite Hi.
Qed.

Lemma from_pbft_message_done `{!CodecLaws} m :
  ∃ b, message_to_bytes m = Ok b ∧
       from_pbft_message m = Done (mkParsedMessage [] [] (WMessage m) b false).
Proof.
  destruct (message_roundtrip m) as (b & Hw & _). exists b.
  unfold from_pbft_message. by rewrite Hw.
Qed.

Lemma from_pbft_message_inv m p :
  from_pbft_message m = Done p → message p = WMessage m ∧ from_self p = false.
Proof. unfold from_pbft_message. by case_match; intros [= <-]. Qed.
End parsing.

Lemma get_block_done p b :
  get_block p = Done b ↔ ∃ m, message p = WMessage m ∧ b = pm_get_block m.
Proof. unfold get_block. destruct (message p); naive_solver. Qed.

Lemma as_msg_type_spec p t q :
  as_msg_type p t = Done q →
  mi_msg_type (info q) = string_of_message_type t ∧
  mi_view (info q) = mi_view (info p) ∧
  mi_seq_num (info q) = mi_seq_num (info p) ∧
  mi_signer_id (info q) = mi_signer_id (info p) ∧
  get_block q = get_block p ∧ message_bytes q = message_bytes p.
Proof.
  unfold as_msg_type, get_pbft_message, info, get_block.
  destruct (message p) eqn:Hp; cbn; [|done]. by intros [= <-].
Qed.
