(* ===== verification/Hashing.v ===== *)
(** * Hashing of messages (src/src/message_extensions.rs, message_type.rs)

    The [Hash] impls by hand, as what they feed to a hasher.  std's hash sets
    need that equal values feed the same; the sets themselves are modelled by
    equality (HashSet.v). *)

From S2P Require Import Prelude MessageType Wire Messages.

(** A hasher's input: a string, an integer, a byte vector with its length. *)
Inductive Feed := FeedStr (s : string) | FeedU64 (n : N) | FeedBytes (b : bytes).

#[export] Instance Feed_eq_dec : EqDecision Feed.
Proof. solve_decision. Defined.

(** [Hash]: the state of a hasher is what it has been fed. *)
Class Hash (A : Type) := hash : A → list Feed.

#[export] Instance hash_message_info : Hash PbftMessageInfo := λ i,
  [FeedStr (mi_msg_type i); FeedU64 (mi_view i); FeedU64 (mi_seq_num i); FeedBytes (mi_signer_id i)].

#[export] Instance hash_block : Hash PbftBlock := λ b,
  [FeedBytes (pb_block_id b); FeedU64 (pb_block_num b); FeedBytes (pb_summary b); FeedBytes (pb_signer_id b)].

#[export] Instance hash_message : Hash PbftMessage := λ m,
  hash (pm_get_info m) ++ hash (pm_get_block m).

#[export] Instance hash_vote : Hash PbftSignedCommitVote := λ v,
  [FeedBytes (sv_header_bytes v); FeedBytes (sv_header_signature v); FeedBytes (sv_message_bytes v)].

#[export] Instance hash_seal : Hash PbftSeal := λ s,
  [FeedBytes (ps_previous_id s); FeedBytes (ps_summary s)] ++ (ps_previous_commit_votes s ≫= hash).

#[export] Instance hash_view_change : Hash PbftViewChange := λ m,
  hash (pv_get_info m) ++ hash (pv_get_seal m).

#[export] Instance hash_parsed_message : Hash ParsedMessage := λ p,
  match message p with
  | WMessage m => hash m
  | WViewChange m => hash m
  end.

(** ** What a hash determines *)

#[export] Instance hash_message_info_inj : Inj (=) (=) (hash : PbftMessageInfo → _).
Proof. intros [] [] [=]. by subst. Qed.

#[export] Instance hash_block_inj : Inj (=) (=) (hash : PbftBlock → _).
Proof. intros [] [] [=]. by subst. Qed.

Lemma hash_votes_inj (vs ws : list PbftSignedCommitVote) : vs ≫= hash = ws ≫= hash → vs = ws.
Proof.
  revert ws. induction vs as [|[] vs IH]; intros [|[] ws]; try done.
  cbn. intros [= -> -> -> Hs]. f_equal. by apply IH.
Qed.

#[export] Instance hash_seal_inj : Inj (=) (=) (hash : PbftSeal → _).
Proof. intros [] [] [= -> -> Hv%hash_votes_inj]. by subst. Qed.

(** Two messages of one kind feed a hasher the same exactly when they agree in
    every field that is read through the getters: an absent sub-message hashes
    like its default. *)
Lemma hash_message_eq (m m' : PbftMessage) :
  hash m = hash m' ↔ pm_get_info m = pm_get_info m' ∧ pm_get_block m = pm_get_block m'.
Proof.
  split; [|intros [Hi Hb]; unfold hash, hash_message; by rewrite Hi, Hb].
  intros [Hi Hb]%app_inj_1; [|done]. by apply (inj hash) in Hi, Hb.
Qed.

Lemma hash_view_change_eq (m m' : PbftViewChange) :
  hash m = hash m' ↔ pv_get_info m = pv_get_info m' ∧ pv_get_seal m = pv_get_seal m'.
Proof.
  split; [|intros [Hi Hb]; unfold hash, hash_view_change; by rewrite Hi, Hb].
  intros [Hi Hb]%app_inj_1; [|done]. by apply (inj hash) in Hi, Hb.
Qed.
