(* ===== verification/Service.v ===== *)
(** * The validator's consensus service

    [sawtooth_sdk::consensus::service::Service] is code outside the repository:
    each method is an arbitrary function of the calls made so far, so the
    theorems hold for every behaviour of the validator.  The state of the
    service is that history of calls, oldest first. *)

From S2P Require Import Prelude HashSet Wire.

Inductive ServiceCall :=
| InitializeBlock (previous_id : option BlockId)
| SummarizeBlock
| FinalizeBlock (data : bytes)
| CheckBlocks (priority : list BlockId)
| CommitBlock (block_id : BlockId)
| IgnoreBlock (block_id : BlockId)
| FailBlock (block_id : BlockId)
| GetSettings (block_id : BlockId) (keys : list string)
| Broadcast (message_type : string) (payload : bytes).

#[export] Instance ServiceCall_eq_dec : EqDecision ServiceCall.
Proof. solve_decision. Defined.

Abbreviation History := (list ServiceCall) (only parsing).

Class Service := {
  on_initialize_block : History → option BlockId → Result () EngineError;
  on_summarize_block : History → Result bytes EngineError;
  on_finalize_block : History → bytes → Result BlockId EngineError;
  on_check_blocks : History → list BlockId → Result () EngineError;
  on_commit_block : History → BlockId → Result () EngineError;
  on_ignore_block : History → BlockId → Result () EngineError;
  on_fail_block : History → BlockId → Result () EngineError;
  on_get_settings : History → BlockId → list string → Result (gmap string string) EngineError;
  on_broadcast : History → string → bytes → Result () EngineError
}.

(** A method call: it is recorded and answered from the history before it. *)
Definition call {A} (answer : History → A) (c : ServiceCall) : SM (list ServiceCall) A :=
  λ h, (Done (answer h), h ++ [c]).

Section methods.
Context `{Service}.

Definition svc_initialize_block (p : option BlockId) : SM (list ServiceCall) (Result () EngineError) :=
  call (λ h, on_initialize_block h p) (InitializeBlock p).
Definition svc_summarize_block : SM (list ServiceCall) (Result bytes EngineError) :=
  call on_summarize_block SummarizeBlock.
Definition svc_finalize_block (d : bytes) : SM (list ServiceCall) (Result BlockId EngineError) :=
  call (λ h, on_finalize_block h d) (FinalizeBlock d).
Definition svc_check_blocks (l : list BlockId) : SM (list ServiceCall) (Result () EngineError) :=
  call (λ h, on_check_blocks h l) (CheckBlocks l).
Definition svc_commit_block (b : BlockId) : SM (list ServiceCall) (Result () EngineError) :=
  call (λ h, on_commit_block h b) (CommitBlock b).
Definition svc_ignore_block (b : BlockId) : SM (list ServiceCall) (Result () EngineError) :=
  call (λ h, on_ignore_block h b) (IgnoreBlock b).
Definition svc_fail_block (b : BlockId) : SM (list ServiceCall) (Result () EngineError) :=
  call (λ h, on_fail_block h b) (FailBlock b).
Definition svc_get_settings (b : BlockId) (ks : list string) :
    SM (list ServiceCall) (Result (gmap string string) EngineError) :=
  call (λ h, on_get_settings h b ks) (GetSettings b ks).
Definition svc_broadcast (t : string) (p : bytes) : SM (list ServiceCall) (Result () EngineError) :=
  call (λ h, on_broadcast h t p) (Broadcast t p).
End methods.

(** [Instant::now()]: the n-th reading of the monotonic clock, in nanoseconds. *)
Class Clock := { clock_at : nat → N }.

(** Everything the engine depends on that is not in the repository. *)
Class Externals := {
  ext_platform :: Platform;
  ext_order :: HashOrder;
  ext_codec :: Codec;
  ext_crypto :: Crypto;
  ext_json :: Json;
  ext_service :: Service;
  ext_clock :: Clock
}.
