(* ===== verification/Timing.v ===== *)
(** * Timers (src/src/timing.rs)

    [Duration] and [Instant] are nanoseconds in [N]; [now] is the instant the
    operation reads.  Subtracting a later instant gives zero. *)

From S2P Require Import Prelude.

Definition from_millis (ms : N) : N := ms * 1000000.
Definition from_secs (s : N) : N := s * 1000000000.

Definition instant_sub (later earlier : N) : N := later - earlier.

Record Ticker := mkTicker {
  ticker_last : N;
  ticker_timeout : N
}.

Definition ticker_new (now period : N) : Ticker := mkTicker now period.

(** [tick]: the clock is read on entry and, after the callback, once more. *)
Definition tick {S} (read_now : SM S N) (callback : SM S ()) (t : Ticker) : SM S Ticker :=
  now ← read_now;
  let elapsed := instant_sub now (ticker_last t) in
  if bool_decide (ticker_timeout t ≤ elapsed) then
    _ ← callback;
    now' ← read_now;
    mret (mkTicker now' (ticker_timeout t))
  else mret t.

Inductive TimeoutState := Active | Inactive | Expired.

#[export] Instance TimeoutState_eq_dec : EqDecision TimeoutState.
Proof. solve_decision. Defined.

Record Timeout := mkTimeout {
  timeout_state : TimeoutState;
  timeout_duration : N;
  timeout_start : N
}.

#[export] Instance Timeout_eq_dec : EqDecision Timeout.
Proof. solve_decision. Defined.

Definition timeout_new (now duration : N) : Timeout := mkTimeout Inactive duration now.

Definition check_expired (now : N) (t : Timeout) : bool * Timeout :=
  let t' :=
    if bool_decide (timeout_state t = Active ∧
                    timeout_duration t < instant_sub now (timeout_start t))
    then mkTimeout Expired (timeout_duration t) (timeout_start t)
    else t in
  (match timeout_state t' with
   | Active | Inactive => false
   | Expired => true
   end, t').

Definition start (now : N) (t : Timeout) : Timeout :=
  mkTimeout Active (timeout_duration t) now.

Definition stop (now : N) (t : Timeout) : Timeout :=
  mkTimeout Inactive (timeout_duration t) now.

(** ** Facts *)

Lemma check_expired_true now t :
  (check_expired now t).1 = true ↔
  timeout_state t = Expired ∨
  timeout_state t = Active ∧ timeout_start t + timeout_duration t < now.
Proof.
  unfold check_expired, instant_sub. case_bool_decide as Hd; cbn.
  - destruct Hd. split; [|done]. intros _. right. split; [done|lia].
  - destruct (timeout_state t) eqn:Hs; split; try done.
    + intros [|[_ ?]]; [done|]. destruct Hd. split; [done|lia].
    + by intros [|[? _]].
    + by left.
Qed.

(** The timer reports expiry exactly when it ends up [Expired]. *)
Lemma check_expired_state now t :
  (check_expired now t).1 = true ↔ timeout_state (check_expired now t).2 = Expired.
Proof.
  unfold check_expired. case_bool_decide; cbn; [done|]. by destruct (timeout_state t).
Qed.

Lemma check_expired_sticky now now' t :
  (check_expired now t).1 = true → (check_expired now' (check_expired now t).2).1 = true.
Proof. rewrite check_expired_state, (check_expired_true now'). by left. Qed.
