(* ===== verification/Config.v ===== *)
(** * Configuration (src/src/config.rs)

    Settings are the string map the validator returns. *)

From S2P Require Import Prelude HashSet Wire Service Timing.

Record PbftConfig := mkPbftConfig {
  cfg_peers : list PeerId;
  cfg_block_duration : N;
  cfg_message_timeout : N;
  cfg_faulty_primary_timeout : N;
  cfg_forced_view_change_period : N;
  cfg_max_log_size : N;
  cfg_storage : string
}.

(** [PbftConfig::default]. *)
Definition default_config : PbftConfig := {|
  cfg_peers := [];
  cfg_block_duration := from_millis 200;
  cfg_message_timeout := from_millis 10;
  cfg_faulty_primary_timeout := from_secs 30;
  cfg_forced_view_change_period := 30;
  cfg_max_log_size := 1000;
  cfg_storage := "memory"
|}.

(** [str::parse::<u64>]: an optional plus sign and at least one decimal digit,
    below 2^64. *)
Fixpoint parse_digits (acc : N) (s : string) : option N :=
  match s with
  | EmptyString => Some acc
  | String c s =>
      let d := Ascii.N_of_ascii c in
      if bool_decide (48 ≤ d ≤ 57) then
        let acc := acc * 10 + (d - 48) in
        if bool_decide (acc < two64) then parse_digits acc s else None
      else None
  end.

Definition parse_u64 (s : string) : option N :=
  match s with
  | EmptyString => None
  | String c s' =>
      if decide (c = Ascii.ascii_of_N 43) then
        match s' with EmptyString => None | _ => parse_digits 0 s' end
      else parse_digits 0 s
  end.

(** The value a numeric field ends up with: the setting mapped by [map] when it
    is present and parses, the old value otherwise. *)
Definition merge_setting_if_set_and_map {U} (settings : gmap string string)
    (field : U) (key : string) (map : N → U) : U :=
  match settings !! key with
  | Some setting =>
      match parse_u64 setting with
      | Some v => map v
      | None => field
      end
  | None => field
  end.

Definition merge_setting_if_set (settings : gmap string string) (field : N) (key : string) : N :=
  merge_setting_if_set_and_map settings field key (λ setting, setting).

Definition merge_secs_setting_if_set (settings : gmap string string) (field : N) (key : string) : N :=
  merge_setting_if_set_and_map settings field key from_secs.

Definition merge_millis_setting_if_set (settings : gmap string string) (field : N) (key : string) : N :=
  merge_setting_if_set_and_map settings field key from_millis.

Definition peers_key : string := "sawtooth.consensus.pbft.peers".

(** The keys [load_pbft_config] asks for. *)
Definition config_keys : list string :=
  [ peers_key;
    "sawtooth.consensus.pbft.block_duration";
    "sawtooth.consensus.pbft.faulty_primary_timeout";
    "sawtooth.consensus.pbft.forced_view_change_period";
    "sawtooth.consensus.pbft.message_timeout";
    "sawtooth.consensus.pbft.max_log_size" ].

Section config.
Context `{Crypto} `{Json}.

Definition get_peers_from_settings (settings : gmap string string) : Outcome (list PeerId) :=
  match settings !! peers_key with
  | None => Panic "'sawtooth.consensus.pbft.peers' must be set to use PBFT"
  | Some v =>
      match json_strings v with
      | None => Panic "Invalid value at 'sawtooth.consensus.pbft.peers'"
      | Some peers =>
          map_o (λ s, match hex_decode s with
                      | Some p => Done p
                      | None => Panic "PeerId is not valid hex"
                      end) peers
      end
  end.

(** [load_pbft_config], from the settings on. *)
Definition config_of_settings (settings : gmap string string) : Outcome PbftConfig :=
  peers ← get_peers_from_settings settings;
  let block_duration := merge_millis_setting_if_set settings
    (cfg_block_duration default_config) "sawtooth.consensus.pbft.block_duration" in
  let message_timeout := merge_millis_setting_if_set settings
    (cfg_message_timeout default_config) "sawtooth.consensus.pbft.message_timeout" in
  let faulty_primary_timeout := merge_secs_setting_if_set settings
    (cfg_faulty_primary_timeout default_config) "sawtooth.consensus.pbft.faulty_primary_timeout" in
  if bool_decide (faulty_primary_timeout ≤ block_duration) then
    Panic "Block duration must be less than the view change timeout"
  else
    Done {|
      cfg_peers := peers;
      cfg_block_duration := block_duration;
      cfg_message_timeout := message_timeout;
      cfg_faulty_primary_timeout := faulty_primary_timeout;
      cfg_forced_view_change_period := merge_setting_if_set settings
        (cfg_forced_view_change_period default_config)
        "sawtooth.consensus.pbft.forced_view_change_period";
      cfg_max_log_size := merge_setting_if_set settings
        (cfg_max_log_size default_config) "sawtooth.consensus.pbft.max_log_size";
      cfg_storage := cfg_storage default_config
    |}.

Context `{Service}.

Definition load_pbft_config (block_id : BlockId) : SM (list ServiceCall) PbftConfig :=
  r ← svc_get_settings block_id config_keys;
  match r with
  | Err _ => sm_lift (Panic "Failed to get on-chain settings")
  | Ok settings => sm_lift (config_of_settings settings)
  end.
End config.

(** ** Numbers in decimal are read back *)

Lemma pretty_digit_value x :
  let d := Ascii.N_of_ascii (pretty_N_char (x mod 10)) in 48 ≤ d ≤ 57 ∧ d - 48 = x mod 10.
Proof.
  pose proof (N.mod_lt x 10 ltac:(done)) as Hlt. revert Hlt. generalize (x mod 10). intros y Hy.
  assert (y = 0 ∨ y = 1 ∨ y = 2 ∨ y = 3 ∨ y = 4 ∨ y = 5 ∨ y = 6 ∨ y = 7 ∨ y = 8 ∨ y = 9) as Hcases by lia.
  by repeat destruct Hcases as [-> | Hcases]; [..|subst y].
Qed.

Lemma parse_digits_pretty x s :
  x < two64 → parse_digits 0 (pretty_N_go x s) = parse_digits x s.
Proof.
  revert s. induction (N.lt_wf_0 x) as [x _ IH]. intros s Hx.
  destruct (decide (0 < x)) as [Hpos|Hz].
  - rewrite pretty_N_go_step by done. rewrite IH.
    + cbn. destruct (pretty_digit_value x) as [Hd Hv]. rewrite bool_decide_true by done.
      rewrite Hv. replace (x / 10 * 10 + x mod 10) with x; [by rewrite bool_decide_true|].
      rewrite (N.div_mod' x 10) at 1. lia.
    + apply N.div_lt; lia.
    + eapply N.le_lt_trans; [apply N.Div0.div_le_upper_bound with (q := x)|exact Hx]. lia.
  - assert (x = 0) as -> by lia. done.
Qed.

Lemma parse_u64_pretty n : n < two64 → parse_u64 (pretty n) = Some n.
Proof.
  intros Hn. assert (parse_digits 0 (pretty n) = Some n) as Hp.
  { unfold pretty, pretty_N. case_decide as Hz; [by subst|]. by rewrite parse_digits_pretty. }
  unfold parse_u64. destruct (pretty n) as [|c s] eqn:Hs.
  - injection Hp as <-. by vm_compute in Hs.
  - case_decide as Hc; [|done]. by rewrite Hc in Hp.
Qed.
