(* ===== verification/NodeState.v ===== *)
(** * [PbftState] (src/src/state.rs)

    The node's view of the algorithm: phase, mode, role, view and sequence
    number, the peers and the number [f] of faulty ones it tolerates. *)

From S2P Require Import Prelude HashSet MessageType Wire Service Timing Config.

Inductive PbftNodeRole := Primary | Secondary.

Inductive PbftPhase := PrePreparing | Preparing | Checking | Committing | Finished.

Inductive PbftMode := Normal | ViewChanging.

#[export] Instance PbftNodeRole_eq_dec : EqDecision PbftNodeRole.
Proof. solve_decision. Defined.
#[export] Instance PbftPhase_eq_dec : EqDecision PbftPhase.
Proof. solve_decision. Defined.
#[export] Instance PbftMode_eq_dec : EqDecision PbftMode.
Proof. solve_decision. Defined.

Record PbftState := mkPbftState {
  st_id : PeerId;
  seq_num : N;
  view : N;
  phase : PbftPhase;
  role : PbftNodeRole;
  mode : PbftMode;
  peer_ids : list PeerId;
  st_f : N;
  faulty_primary_timeout : Timeout;
  forced_view_change_period : N;
  working_block : option PbftBlock
}.

(** Field assignments. *)
Definition set_seq_num (n : N) (s : PbftState) : PbftState :=
  mkPbftState (st_id s) n (view s) (phase s) (role s) (mode s) (peer_ids s) (st_f s)
    (faulty_primary_timeout s) (forced_view_change_period s) (working_block s).
Definition set_view (v : N) (s : PbftState) : PbftState :=
  mkPbftState (st_id s) (seq_num s) v (phase s) (role s) (mode s) (peer_ids s) (st_f s)
    (faulty_primary_timeout s) (forced_view_change_period s) (working_block s).
Definition set_phase (p : PbftPhase) (s : PbftState) : PbftState :=
  mkPbftState (st_id s) (seq_num s) (view s) p (role s) (mode s) (peer_ids s) (st_f s)
    (faulty_primary_timeout s) (forced_view_change_period s) (working_block s).
Definition set_role (r : PbftNodeRole) (s : PbftState) : PbftState :=
  mkPbftState (st_id s) (seq_num s) (view s) (phase s) r (mode s) (peer_ids s) (st_f s)
    (faulty_primary_timeout s) (forced_view_change_period s) (working_block s).
Definition set_mode (m : PbftMode) (s : PbftState) : PbftState :=
  mkPbftState (st_id s) (seq_num s) (view s) (phase s) (role s) m (peer_ids s) (st_f s)
    (faulty_primary_timeout s) (forced_view_change_period s) (working_block s).
Definition set_peer_ids (ps : list PeerId) (s : PbftState) : PbftState :=
  mkPbftState (st_id s) (seq_num s) (view s) (phase s) (role s) (mode s) ps (st_f s)
    (faulty_primary_timeout s) (forced_view_change_period s) (working_block s).
Definition set_f (f : N) (s : PbftState) : PbftState :=
  mkPbftState (st_id s) (seq_num s) (view s) (phase s) (role s) (mode s) (peer_ids s) f
    (faulty_primary_timeout s) (forced_view_change_period s) (working_block s).
Definition set_timeout (t : Timeout) (s : PbftState) : PbftState :=
  mkPbftState (st_id s) (seq_num s) (view s) (phase s) (role s) (mode s) (peer_ids s) (st_f s)
    t (forced_view_change_period s) (working_block s).
Definition set_working_block (b : option PbftBlock) (s : PbftState) : PbftState :=
  mkPbftState (st_id s) (seq_num s) (view s) (phase s) (role s) (mode s) (peer_ids s) (st_f s)
    (faulty_primary_timeout s) (forced_view_change_period s) b.

(** ** Operations *)

Definition check_msg_type (s : PbftState) : PbftMessageType :=
  match phase s with
  | PrePreparing => PrePrepare
  | Preparing => Prepare
  | Checking => Prepare
  | Committing => Commit
  | Finished => Unset
  end.

(** [get_primary_id]: indexes the peers by the view modulo their number. *)
Definition get_primary_id (s : PbftState) : Outcome PeerId :=
  primary_index ← u64_rem (view s) (len (peer_ids s));
  match peer_ids s !! N.to_nat primary_index with
  | Some p => Done p
  | None => Panic "index out of bounds"
  end.

Definition is_primary (s : PbftState) : bool := bool_decide (role s = Primary).

Definition upgrade_role (s : PbftState) : PbftState := set_role Primary s.
Definition downgrade_role (s : PbftState) : PbftState := set_role Secondary s.

Definition next_phase (p : PbftPhase) : PbftPhase :=
  match p with
  | PrePreparing => Preparing
  | Preparing => Checking
  | Checking => Committing
  | Committing => Finished
  | Finished => PrePreparing
  end.

Definition switch_phase (desired_phase : PbftPhase) (s : PbftState) : option PbftPhase * PbftState :=
  let next := next_phase (phase s) in
  if decide (desired_phase = next) then (Some desired_phase, set_phase desired_phase s)
  else (None, s).

Definition at_forced_view_change (s : PbftState) : Outcome bool :=
  if bool_decide (0 < seq_num s) then
    r ← u64_rem (seq_num s) (forced_view_change_period s);
    Done (bool_decide (r = 0))
  else Done false.

Definition discard_current_block (now : N) (s : PbftState) : PbftState :=
  let s := set_working_block None s in
  let s := set_phase PrePreparing s in
  let s := set_mode Normal s in
  set_timeout (start now (faulty_primary_timeout s)) s.

Section state.
Context `{Platform}.

(** [((peers.len() - 1) / 3) as u64], which [new] and [update_membership]
    compute. *)
Definition max_faulty (peers : list PeerId) : Outcome N :=
  n ← u64_sub (len peers) 1;
  Done (n / 3).

(** [PbftState::new]. *)
Definition state_new (now : N) (i : PeerId) (head_block_num : N) (config : PbftConfig) : Outcome PbftState :=
  f ← max_faulty (cfg_peers config);
  if bool_decide (f = 0) then
    Panic "This network does not contain enough nodes to be fault tolerant"
  else
    n ← u64_add head_block_num 1;
    match cfg_peers config with
    | [] => Panic "index out of bounds"
    | p :: _ =>
        Done {|
          st_id := i;
          seq_num := n;
          view := 0;
          phase := PrePreparing;
          role := if decide (p = i) then Primary else Secondary;
          mode := Normal;
          peer_ids := cfg_peers config;
          st_f := f;
          faulty_primary_timeout := timeout_new now (cfg_faulty_primary_timeout config);
          forced_view_change_period := cfg_forced_view_change_period config;
          working_block := None
        |}
    end.
End state.

(** [Display]: slices the ids to six hex digits, so it panics on shorter ones.
    The handlers print states only to the log and are modelled without it. *)
Definition display_state `{Crypto} (s : PbftState) : Outcome string :=
  let ast := if is_primary s then "*" else " " in
  let m := match mode s with Normal => "N" | ViewChanging => "V" end in
  let ph := match phase s with
            | PrePreparing => "PP"
            | Preparing => "Pr"
            | Checking => "Ch"
            | Committing => "Co"
            | Finished => "Fi"
            end in
  wb ← match working_block s with
       | Some b =>
           h ← str_prefix 6 (hex_encode (pb_block_id b));
           Done (pretty (pb_block_num b) +:+ "/" +:+ h)
       | None => Done "~none~"
       end;
  i ← str_prefix 6 (hex_encode (st_id s));
  Done ("(" +:+ ph +:+ " " +:+ m +:+ " " +:+ pretty (view s) +:+ ", seq " +:+
        pretty (seq_num s) +:+ ", wb " +:+ wb +:+ "), Node " +:+ ast +:+ i).

(** ** Well-formedness *)

(** The network is large enough and [f] is its number of tolerated faults. *)
Definition tolerant (s : PbftState) : Prop :=
  4 ≤ len (peer_ids s) ∧ st_f s = (len (peer_ids s) - 1) / 3.

(** The stored role is the one the current view gives this node. *)
Definition role_ok (s : PbftState) : Prop :=
  ∃ p, get_primary_id s = Done p ∧ (role s = Primary ↔ p = st_id s).

(** ** Lemmas *)

Lemma tolerant_f s : tolerant s → 1 ≤ st_f s ∧ 3 * st_f s + 1 ≤ len (peer_ids s).
Proof.
  intros [Hn ->]. split; [apply N.div_le_lower_bound; lia|].
  pose proof (N.Div0.mul_div_le (len (peer_ids s) - 1) 3). lia.
Qed.

Lemma get_primary_id_lookup s p :
  get_primary_id s = Done p ↔
  peer_ids s ≠ [] ∧ peer_ids s !! N.to_nat (view s mod len (peer_ids s)) = Some p.
Proof.
  unfold get_primary_id, u64_rem, len. destruct (peer_ids s) as [|q l].
  { split; [done|]. by intros [??]. }
  rewrite bool_decide_false by (cbn; lia). cbn -[lookup N.modulo length].
  match goal with |- context [(q :: l) !! ?i] => destruct ((q :: l) !! i) end.
  - split; [intros [= ->]; done|]. by intros [_ [= ->]].
  - split; [done|]. by intros [_ ?].
Qed.

Lemma view_mod_lt (v : N) {A} (l : list A) :
  l ≠ [] → (N.to_nat (v mod len l) < length l)%nat.
Proof.
  intros Hne. unfold len.
  assert (0 < length l)%nat by (destruct l; [done|apply Nat.lt_0_succ]).
  pose proof (N.mod_lt v (N.of_nat (length l)) ltac:(lia)). lia.
Qed.

Lemma get_primary_id_done s : peer_ids s ≠ [] → ∃ p, get_primary_id s = Done p.
Proof.
  intros Hne.
  destruct (lookup_lt_is_Some_2 _ _ (view_mod_lt (view s) _ Hne)) as [p Hp].
  exists p. by apply get_primary_id_lookup.
Qed.

Lemma get_primary_id_in s p : get_primary_id s = Done p → p ∈ peer_ids s.
Proof. rewrite get_primary_id_lookup. intros [_ Hp]. by eapply list_elem_of_lookup_2. Qed.

Lemma tolerant_nonempty s : tolerant s → peer_ids s ≠ [].
Proof. intros [Hn _] He. rewrite He in Hn. change (len []) with 0 in Hn. lia. Qed.

Lemma switch_phase_some d s d' s' :
  switch_phase d s = (Some d', s') ↔ d' = d ∧ d = next_phase (phase s) ∧ s' = set_phase d s.
Proof. unfold switch_phase. case_decide; naive_solver. Qed.

Lemma switch_phase_none d s :
  d ≠ next_phase (phase s) → switch_phase d s = (None, s).
Proof. intros. unfold switch_phase. by rewrite decide_False. Qed.

Lemma switch_phase_cases d s :
  (switch_phase d s).2 = s ∨
  d = next_phase (phase s) ∧ (switch_phase d s).2 = set_phase d s.
Proof. unfold switch_phase. case_decide; naive_solver. Qed.
