(* ===== verification/MessageLog.v ===== *)
(** * [PbftLog] (src/src/message_log.rs)

    The messages and consensus seals a node has stored, and the predicates on
    them that drive the algorithm. *)

From S2P Require Import Prelude HashSet MessageType Wire Service Errors Messages.
From S2P Require Import Timing Config NodeState.

Record PbftSealEntry := mkPbftSealEntry {
  se_block_id : BlockId;
  se_seq_num : N;
  se_seal : PbftSeal
}.

#[export] Instance PbftSealEntry_eq_dec : EqDecision PbftSealEntry.
Proof. solve_decision. Defined.

Record PbftLog := mkPbftLog {
  messages : HashSet ParsedMessage;
  max_log_size : N;
  backlog : list ParsedMessage;
  seals : HashSet PbftSealEntry
}.

Definition set_messages (ms : HashSet ParsedMessage) (l : PbftLog) : PbftLog :=
  mkPbftLog ms (max_log_size l) (backlog l) (seals l).
Definition set_backlog (b : list ParsedMessage) (l : PbftLog) : PbftLog :=
  mkPbftLog (messages l) (max_log_size l) b (seals l).
Definition set_seals (s : HashSet PbftSealEntry) (l : PbftLog) : PbftLog :=
  mkPbftLog (messages l) (max_log_size l) (backlog l) s.

Definition log_new (config : PbftConfig) : PbftLog :=
  mkPbftLog (hs_new 0) (cfg_max_log_size config) [] (hs_new 0).

(** The selections of the three lookups. *)
Definition has_type_seq (t : PbftMessageType) (seq : N) (m : ParsedMessage) : Prop :=
  mi_msg_type (info m) = string_of_message_type t ∧ mi_seq_num (info m) = seq.

Definition has_type_seq_view (t : PbftMessageType) (seq v : N) (m : ParsedMessage) : Prop :=
  mi_msg_type (info m) = string_of_message_type t ∧ mi_seq_num (info m) = seq ∧
  mi_view (info m) = v.

#[export] Instance has_type_seq_dec t seq m : Decision (has_type_seq t seq m).
Proof. unfold has_type_seq. apply _. Defined.
#[export] Instance has_type_seq_view_dec t seq v m : Decision (has_type_seq_view t seq v m).
Proof. unfold has_type_seq_view. apply _. Defined.

(** The key [sorted_by_key] compares. *)
Definition view_le (a b : N * list ParsedMessage) : Prop := a.1 ≤ b.1.

#[export] Instance view_le_dec a b : Decision (view_le a b).
Proof. unfold view_le. apply _. Defined.

Section log.
Context `{HashOrder}.

Definition get_messages_of_type_seq (l : PbftLog) (t : PbftMessageType) (seq : N) : list ParsedMessage :=
  filter (has_type_seq t seq) (hs_iter (messages l)).

Definition get_messages_of_type_seq_view (l : PbftLog) (t : PbftMessageType) (seq v : N) : list ParsedMessage :=
  filter (has_type_seq_view t seq v) (hs_iter (messages l)).

Definition get_one_msg (l : PbftLog) (i : PbftMessageInfo) (t : PbftMessageType) : option ParsedMessage :=
  head (get_messages_of_type_seq_view l t (mi_seq_num i) (mi_view i)).

(** [msg.get_block() == ref_msg.get_block()]. *)
Definition same_block (m ref_msg : ParsedMessage) : Outcome bool :=
  b ← get_block m;
  b' ← get_block ref_msg;
  Done (bool_decide (b = b')).

Definition log_has_required_msgs (l : PbftLog) (t : PbftMessageType) (ref_msg : ParsedMessage)
    (check_block : bool) (required : N) : Outcome bool :=
  let msgs := get_messages_of_type_seq_view l t (mi_seq_num (info ref_msg)) (mi_view (info ref_msg)) in
  msgs ← (if check_block then filter_o (λ m, same_block m ref_msg) msgs else Done msgs);
  Done (bool_decide (required ≤ len msgs)).

Definition two_f_plus_one `{Platform} (f : N) : Outcome N :=
  n ← u64_mul 2 f; u64_add n 1.

Definition check_prepared `{Platform} (l : PbftLog) (i : PbftMessageInfo) (f : N) : Outcome bool :=
  match get_one_msg l i PrePrepare with
  | Some msg => required ← two_f_plus_one f; log_has_required_msgs l Prepare msg true required
  | None => Done false
  end.

Definition check_committable `{Platform} (l : PbftLog) (i : PbftMessageInfo) (f : N) : Outcome bool :=
  prepared ← check_prepared l i f;
  if prepared : bool then
    match get_one_msg l i PrePrepare with
    | Some msg => required ← two_f_plus_one f; log_has_required_msgs l Commit msg true required
    | None => Panic "called `Option::unwrap()` on a `None` value"
    end
  else Done false.

Definition add_message (msg : ParsedMessage) (s : PbftState) (l : PbftLog) : Result () PbftError * PbftLog :=
  let msg_type := message_type_of_str (mi_msg_type (info msg)) in
  if decide (msg_type ≠ ViewChange ∧ mi_view (info msg) ≠ view s) then
    (Err (ViewMismatch (mi_view (info msg)) (view s)), l)
  else (Ok tt, set_messages (hs_insert msg (messages l)) l).

Definition add_consensus_seal (block_id : BlockId) (seq : N) (seal : PbftSeal) (l : PbftLog) : PbftLog :=
  set_seals (hs_insert (mkPbftSealEntry block_id seq seal) (seals l)) l.

Definition get_consensus_seal (l : PbftLog) (seq : N) : Result PbftSeal PbftError :=
  let possible_seals := filter (λ e, se_seq_num e = seq) (hs_iter (seals l)) in
  match possible_seals with
  | [e] => Ok (se_seal e)
  | _ => Err (WrongNumSeals 1 (len possible_seals))
  end.

(** [into_group_map] on (view, message) pairs: the messages of each view, in
    order of iteration. *)
Definition group_by_view (ms : list ParsedMessage) : gmap N (list ParsedMessage) :=
  foldl (λ g m, let v := mi_view (info m) in <[v := default [] (g !! v) ++ [m]]> g) ∅ ms.

Definition get_enough_messages (l : PbftLog) (t : PbftMessageType) (seq minimum : N) : option (list ParsedMessage) :=
  let candidates :=
    filter (λ m, has_type_seq t seq m ∧ from_self m = false) (hs_iter (messages l)) in
  let enough := filter (λ g, minimum ≤ len g.2) (map_to_list (group_by_view candidates)) in
  snd <$> last (merge_sort view_le enough).

Definition garbage_collect `{Platform} (current_seq_num : N) (block_id : BlockId) (l : PbftLog) : Outcome PbftLog :=
  l ← (if bool_decide (max_log_size l ≤ hs_len (messages l)) then
         kept ← filter_o (λ m, lowest ← u64_sub current_seq_num 1;
                               Done (bool_decide (lowest ≤ mi_seq_num (info m))))
                  (hs_iter (messages l));
         Done (set_messages (hs_collect (S (hs_gen (messages l))) kept) l)
       else Done l);
  Done (set_seals (hs_collect (S (hs_gen (seals l)))
                     (filter (λ e, se_block_id e = block_id) (hs_iter (seals l)))) l).

Definition push_backlog (msg : ParsedMessage) (l : PbftLog) : PbftLog :=
  set_backlog (backlog l ++ [msg]) l.

Definition pop_backlog (l : PbftLog) : option ParsedMessage * PbftLog :=
  match backlog l with
  | [] => (None, l)
  | m :: ms => (Some m, set_backlog ms l)
  end.

(** [Display for PbftLog]: the messages in order of iteration, one per line. *)
Definition display_log `{Crypto} (l : PbftLog) : string :=
  let newline := String (Ascii.ascii_of_N 10) EmptyString in
  let string_infos := (λ m, let i := info m in
    "    { " +:+ mi_msg_type i +:+ ", view: " +:+ pretty (mi_view i) +:+ ", seq: " +:+
    pretty (mi_seq_num i) +:+ ", signer: " +:+ hex_encode (mi_signer_id i) +:+ " }")
    <$> hs_iter (messages l) in
  newline +:+ "PbftLog:" +:+ newline +:+ String.concat newline string_infos.
End log.

(** ** What the predicates mean

    They speak of the collection of stored messages only, not of the order of
    iteration. *)

Definition stored (l : PbftLog) : list ParsedMessage := hs_items (messages l).

Definition votes (ms : list ParsedMessage) (t : PbftMessageType) (seq v : N) (b : PbftBlock) : list ParsedMessage :=
  filter (λ m, has_type_seq_view t seq v m ∧ get_block m = Done b) ms.

Definition pre_prepared (ms : list ParsedMessage) (seq v : N) (b : PbftBlock) : Prop :=
  ∃ m, m ∈ ms ∧ has_type_seq_view PrePrepare seq v m ∧ get_block m = Done b.

#[export] Instance pre_prepared_dec ms n v b : Decision (pre_prepared ms n v b).
Proof.
  refine (cast_if (decide (Exists (λ m, has_type_seq_view PrePrepare n v m ∧ get_block m = Done b) ms)));
    abstract (by rewrite Exists_exists in *).
Defined.

Definition prepared (ms : list ParsedMessage) (seq v q : N) (b : PbftBlock) : Prop :=
  pre_prepared ms seq v b ∧ q ≤ len (votes ms Prepare seq v b).

Definition committable (ms : list ParsedMessage) (seq v q : N) (b : PbftBlock) : Prop :=
  prepared ms seq v q b ∧ q ≤ len (votes ms Commit seq v b).

#[export] Instance committable_dec ms n v q b : Decision (committable ms n v q b).
Proof. unfold committable, prepared. apply _. Defined.

(** Only view changes are stored without a block. *)
Definition blocks_typed (ms : list ParsedMessage) : Prop :=
  ∀ m, m ∈ ms → mi_msg_type (info m) ≠ "ViewChange" → ∃ b, get_block m = Done b.

(** At most one block is pre-prepared per sequence number and view. *)
Definition unique_pre_prepare (ms : list ParsedMessage) : Prop :=
  ∀ m m' seq v, m ∈ ms → m' ∈ ms →
    has_type_seq_view PrePrepare seq v m → has_type_seq_view PrePrepare seq v m' →
    get_block m = get_block m'.

Lemma has_type_seq_view_not_vc t seq v m :
  has_type_seq_view t seq v m → t ≠ ViewChange → mi_msg_type (info m) ≠ "ViewChange".
Proof. intros (-> & _ & _) Ht. by destruct t. Qed.

Section log_facts.
Context `{HashOrder}.
Implicit Types (l : PbftLog) (m : ParsedMessage).

Lemma elem_of_type_seq_view l t seq v m :
  m ∈ get_messages_of_type_seq_view l t seq v ↔ has_type_seq_view t seq v m ∧ m ∈ messages l.
Proof. unfold get_messages_of_type_seq_view. by rewrite list_elem_of_filter, elem_of_hs_iter. Qed.

Lemma elem_of_type_seq l t seq m :
  m ∈ get_messages_of_type_seq l t seq ↔ has_type_seq t seq m ∧ m ∈ messages l.
Proof. unfold get_messages_of_type_seq. by rewrite list_elem_of_filter, elem_of_hs_iter. Qed.

Lemma get_one_msg_some l i t m :
  get_one_msg l i t = Some m → has_type_seq_view t (mi_seq_num i) (mi_view i) m ∧ m ∈ messages l.
Proof. intros Hm%head_elem_of. by apply elem_of_type_seq_view. Qed.

Lemma get_one_msg_none l i t :
  get_one_msg l i t = None ↔ ∀ m, m ∈ messages l → ¬ has_type_seq_view t (mi_seq_num i) (mi_view i) m.
Proof.
  unfold get_one_msg. rewrite head_none. setoid_rewrite elem_of_type_seq_view. naive_solver.
Qed.

(** Counting without comparing blocks never panics. *)
Lemma log_has_required_msgs_any l t m n :
  log_has_required_msgs l t m false n =
  Done (bool_decide (n ≤ len (filter (has_type_seq_view t (mi_seq_num (info m)) (mi_view (info m)))
                                (hs_items (messages l))))).
Proof.
  unfold log_has_required_msgs. cbn. do 2 f_equal. apply bool_decide_ext.
  unfold get_messages_of_type_seq_view. by rewrite (len_perm _ _ (filter_Permutation _ _ _ (hs_iter_perm _))).
Qed.

(** Comparing blocks counts the votes for the block of the reference message,
    if what is compared has a block. *)
Lemma log_has_required_msgs_votes l t m n b :
  (∀ x, x ∈ stored l → has_type_seq_view t (mi_seq_num (info m)) (mi_view (info m)) x → ∃ b', get_block x = Done b') →
  get_block m = Done b →
  log_has_required_msgs l t m true n =
  Done (bool_decide (n ≤ len (votes (stored l) t (mi_seq_num (info m)) (mi_view (info m)) b))).
Proof.
  intros Hty Hb. unfold log_has_required_msgs.
  rewrite (filter_o_done _ (λ x, get_block x = Done b)).
  - cbn. do 2 f_equal. apply bool_decide_ext.
    unfold get_messages_of_type_seq_view, votes. rewrite filter_and.
    by rewrite (len_perm _ _ (filter_Permutation _ _ _ (hs_iter_perm _))).
  - intros x [Hx Hin]%elem_of_type_seq_view. destruct (Hty x Hin Hx) as [b' Hb'].
    unfold same_block. rewrite Hb', Hb. cbn. f_equal. apply bool_decide_ext. naive_solver.
Qed.

Lemma log_has_required_msgs_block l t m n b :
  blocks_typed (stored l) → t ≠ ViewChange → get_block m = Done b →
  log_has_required_msgs l t m true n =
  Done (bool_decide (n ≤ len (votes (stored l) t (mi_seq_num (info m)) (mi_view (info m)) b))).
Proof.
  intros Hty Ht Hb. apply log_has_required_msgs_votes; [|done]. intros x Hin Hx.
  apply (Hty x Hin). by eapply has_type_seq_view_not_vc.
Qed.
End log_facts.

Section predicates.
Context `{HashOrder} `{Platform}.
Implicit Types (l : PbftLog) (m : ParsedMessage) (i : PbftMessageInfo).

Lemma two_f_plus_one_small f : 2 * f + 1 < two64 → two_f_plus_one f = Done (2 * f + 1).
Proof.
  intros Hf. unfold two_f_plus_one. rewrite u64_mul_small by lia. cbn -[N.mul].
  by rewrite u64_add_small.
Qed.

Lemma pre_prepared_get_one l i b :
  unique_pre_prepare (stored l) → blocks_typed (stored l) →
  pre_prepared (stored l) (mi_seq_num i) (mi_view i) b ↔
  ∃ m, get_one_msg l i PrePrepare = Some m ∧ get_block m = Done b.
Proof.
  intros Hu Hty. split.
  - intros (m & Hin & Hm & Hb).
    destruct (get_one_msg l i PrePrepare) as [m'|] eqn:Hone.
    + exists m'. split; [done|]. apply get_one_msg_some in Hone as [Hm' Hin'].
      rewrite <- Hb. by apply (Hu m' m (mi_seq_num i) (mi_view i)).
    + rewrite get_one_msg_none in Hone. by destruct (Hone m Hin).
  - intros (m & [Hm Hin]%get_one_msg_some & Hb). by exists m.
Qed.

(** [check_prepared] decides [prepared], whatever the order of iteration. *)
Lemma check_prepared_prepared l i f q :
  unique_pre_prepare (stored l) → blocks_typed (stored l) → two_f_plus_one f = Done q →
  ∃ r, check_prepared l i f = Done r ∧
       (r = true ↔ ∃ b, prepared (stored l) (mi_seq_num i) (mi_view i) q b).
Proof.
  intros Hu Hty Hq. unfold check_prepared, prepared.
  setoid_rewrite pre_prepared_get_one; [|done..].
  destruct (get_one_msg l i PrePrepare) as [m|] eqn:Hone.
  - apply get_one_msg_some in Hone as [Hm Hin].
    destruct (Hty m Hin) as [b Hb]; [by eapply has_type_seq_view_not_vc|].
    rewrite Hq, done_bind, (log_has_required_msgs_block _ _ _ _ b) by done.
    destruct Hm as (_ & -> & ->). eexists. split; [done|]. rewrite bool_decide_eq_true. split.
    + intros Hn. exists b. split; [by exists m|done].
    + intros (b' & (m' & [= <-] & Hb') & Hn). congruence.
  - exists false. split; [done|]. split; [done|]. by intros (b & (m & ? & _) & _).
Qed.

Lemma check_committable_committable l i f q :
  unique_pre_prepare (stored l) → blocks_typed (stored l) → two_f_plus_one f = Done q →
  ∃ r, check_committable l i f = Done r ∧
       (r = true ↔ ∃ b, committable (stored l) (mi_seq_num i) (mi_view i) q b).
Proof.
  intros Hu Hty Hq. unfold check_committable.
  destruct (check_prepared_prepared l i f q Hu Hty Hq) as ([] & -> & Hr); rewrite done_bind.
  - destruct (proj1 Hr eq_refl) as (b & Hb & Hn). pose proof Hb as Hb'.
    apply pre_prepared_get_one in Hb' as (m & Hone & Hmb); [|done..].
    rewrite Hone, Hq, done_bind. apply get_one_msg_some in Hone as [(Hm1 & Hm2 & Hm3) Hin].
    rewrite (log_has_required_msgs_block _ _ _ _ b), Hm2, Hm3 by done.
    eexists. split; [done|]. rewrite bool_decide_eq_true. split; [by exists b|].
    intros (b' & [Hpp Hn'] & Hc). assert (b' = b) as ->; [|done].
    destruct Hb as (m1 & ? & ? & Hb1), Hpp as (m2 & ? & ? & Hb2).
    enough (get_block m1 = get_block m2) by congruence. by eapply Hu.
  - exists false. split; [done|]. split; [done|]. intros (b & Hb & _).
    apply Hr. by exists b.
Qed.
End predicates.

(** ** Soundness of the predicates, without assumptions on the log *)

Section soundness.
Context `{HashOrder} `{Platform}.
Implicit Types (l : PbftLog) (m : ParsedMessage) (i : PbftMessageInfo).

(** [2f + 1] is odd, so it does not wrap around to zero. *)
Lemma two_f_plus_one_pos f q : two_f_plus_one f = Done q → 1 ≤ q.
Proof.
  unfold two_f_plus_one, u64_mul, u64_overflow.
  assert (∀ a q, a mod 2 = 0 → a < two64 → u64_add a 1 = Done q → 1 ≤ q) as Hodd.
  { intros a r Ha Hlt. rewrite u64_add_small; [intros [= <-]; lia|].
    unfold two64 in *. pose proof (N.div_mod' a 2). lia. }
  case_bool_decide; cbn -[N.mul u64_add].
  - apply Hodd; [|done]. rewrite N.mul_comm. apply N.Div0.mod_mul.
  - destruct overflow_checks; cbn -[N.mul u64_add N.modulo]; [done|]. apply Hodd.
    + pose proof (N.div_mod' (2 * f) two64) as Hdiv.
      replace ((2 * f) mod two64) with ((f - two64 / 2 * (2 * f / two64)) * 2).
      { apply N.Div0.mod_mul. }
      change (two64 / 2) with 9223372036854775808. revert Hdiv.
      generalize (2 * f / two64), ((2 * f) mod two64). unfold two64. lia.
    + by apply N.mod_lt.
Qed.

Lemma same_block_inv m m' c :
  same_block m m' = Done c →
  ∃ b, get_block m' = Done b ∧ c = bool_decide (get_block m = Done b).
Proof.
  unfold same_block. destruct (get_block m) as [b| |]; [|done..].
  destruct (get_block m') as [b'| |]; [|done..]. intros [= <-].
  exists b'. split; [done|]. apply bool_decide_ext. split; congruence.
Qed.

Lemma filter_o_same_block m b ms r :
  get_block m = Done b → filter_o (λ x, same_block x m) ms = Done r →
  r = filter (λ x, get_block x = Done b) ms.
Proof.
  intros Hm. revert r. induction ms as [|x ms IH]; intros r; [by intros [= <-]|].
  rewrite filter_cons. cbn -[filter same_block].
  destruct (same_block x m) as [c| |] eqn:Hc; [|done..]. rewrite done_bind.
  apply same_block_inv in Hc as (b' & Hb' & ->). rewrite Hm in Hb'. injection Hb' as <-.
  destruct (filter_o _ ms) as [r'| |]; [|done..]. intros [= <-].
  rewrite (IH r') by done. case_bool_decide; by case_decide.
Qed.

(** Every message compared has a block. *)
Lemma filter_o_same_block_typed m ms r x :
  filter_o (λ x, same_block x m) ms = Done r → x ∈ ms → ∃ b, get_block x = Done b.
Proof.
  revert r. induction ms as [|y ms IH]; intros r; [by intros _ ?%elem_of_nil|].
  cbn -[same_block]. destruct (same_block y m) as [c| |] eqn:Hc; [|done..]. rewrite done_bind.
  destruct (filter_o _ ms) as [r'| |]; [|done..]. intros _ [->|Hin]%elem_of_cons; [|by eapply IH].
  unfold same_block in Hc. destruct (get_block y) as [b| |]; [|done..]. by exists b.
Qed.

Lemma log_has_required_msgs_typed l t m n r x :
  log_has_required_msgs l t m true n = Done r →
  x ∈ stored l → has_type_seq_view t (mi_seq_num (info m)) (mi_view (info m)) x → ∃ b, get_block x = Done b.
Proof.
  unfold log_has_required_msgs. destruct (filter_o _ _) as [k| |] eqn:Hk; [|done..]. intros _ Hin Hx.
  eapply filter_o_same_block_typed; [exact Hk|]. by apply elem_of_type_seq_view.
Qed.

(** A message is compared only when there is one to compare with. *)
Lemma filter_o_same_block_some m ms r :
  filter_o (λ x, same_block x m) ms = Done r → r ≠ [] → ∃ b, get_block m = Done b.
Proof.
  destruct ms as [|x ms]; [by intros [= <-]|]. cbn -[same_block].
  destruct (same_block x m) as [c| |] eqn:Hc; [|done..].
  apply same_block_inv in Hc as (b & Hb & _). by exists b.
Qed.

Lemma log_has_required_msgs_true l t m n :
  log_has_required_msgs l t m true n = Done true → 1 ≤ n →
  ∃ b, get_block m = Done b ∧ n ≤ len (votes (stored l) t (mi_seq_num (info m)) (mi_view (info m)) b).
Proof.
  unfold log_has_required_msgs. destruct (filter_o _ _) as [r| |] eqn:Hr; [|done..].
  rewrite done_bind. intros [= Hn%bool_decide_eq_true] Hpos.
  destruct (filter_o_same_block_some _ _ _ Hr) as [b Hb].
  { intros ->. change (len []) with 0 in Hn. lia. }
  rewrite (filter_o_same_block _ _ _ _ Hb Hr) in Hn.
  exists b. split; [done|]. unfold votes, get_messages_of_type_seq_view in *.
  by rewrite filter_and, (len_perm _ _ (filter_Permutation _ _ _ (hs_iter_perm _))) in Hn.
Qed.

Lemma check_prepared_true l i f :
  check_prepared l i f = Done true →
  ∃ q b m, two_f_plus_one f = Done q ∧ get_one_msg l i PrePrepare = Some m ∧ get_block m = Done b ∧
           prepared (stored l) (mi_seq_num i) (mi_view i) q b.
Proof.
  unfold check_prepared. destruct (get_one_msg _ _ _) as [m|] eqn:Hone; [|done].
  destruct (two_f_plus_one f) as [q| |] eqn:Hq; [|done..]. rewrite done_bind.
  intros (b & Hb & Hn)%log_has_required_msgs_true; [|by eapply two_f_plus_one_pos].
  pose proof Hone as [(Hm1 & Hm2 & Hm3) Hin]%get_one_msg_some. rewrite Hm2, Hm3 in Hn.
  exists q, b, m. split_and!; [done..|]. split; [|done]. by exists m.
Qed.

Lemma check_committable_true l i f :
  check_committable l i f = Done true →
  ∃ q b, two_f_plus_one f = Done q ∧ committable (stored l) (mi_seq_num i) (mi_view i) q b.
Proof.
  unfold check_committable. destruct (check_prepared l i f) as [[]| |] eqn:Hp; try done.
  rewrite done_bind. apply check_prepared_true in Hp as (q & b & m & Hq & Hone & Hb & Hp).
  rewrite Hone, Hq, done_bind.
  intros (b' & Hb' & Hn)%log_has_required_msgs_true; [|by eapply two_f_plus_one_pos].
  apply get_one_msg_some in Hone as [(Hm1 & Hm2 & Hm3) Hin]. rewrite Hm2, Hm3 in Hn.
  exists q, b. split; [done|]. split; [done|]. by rewrite Hb in Hb'; injection Hb' as ->.
Qed.

(** The votes that the predicates compare at a height and view have blocks. *)
Definition votes_typed (ms : list ParsedMessage) (seq v : N) : Prop :=
  ∀ t m, t = Prepare ∨ t = Commit → m ∈ ms → has_type_seq_view t seq v m → ∃ b, get_block m = Done b.

Lemma check_committable_votes_typed l i f :
  check_committable l i f = Done true → votes_typed (stored l) (mi_seq_num i) (mi_view i).
Proof.
  unfold check_committable, check_prepared. destruct (get_one_msg l i PrePrepare) as [pp|] eqn:Hone; [|done].
  apply get_one_msg_some in Hone as [(_ & Hn & Hv) _].
  destruct (two_f_plus_one f) as [q| |]; [|done..]. rewrite !done_bind.
  destruct (log_has_required_msgs l Prepare pp true q) as [[]| |] eqn:Hp; [|done..]. rewrite done_bind.
  intros Hc t m Ht Hin Hm. rewrite <- Hn, <- Hv in Hm.
  destruct Ht as [-> | ->]; [by apply (log_has_required_msgs_typed _ _ _ _ _ _ Hp)|by apply (log_has_required_msgs_typed _ _ _ _ _ _ Hc)].
Qed.

(** So compared, they decide. *)
Lemma check_committable_of_typed l i f q b :
  unique_pre_prepare (stored l) → votes_typed (stored l) (mi_seq_num i) (mi_view i) →
  two_f_plus_one f = Done q → committable (stored l) (mi_seq_num i) (mi_view i) q b →
  check_committable l i f = Done true.
Proof.
  intros Hu Hty Hq [[(m & Hin & Hm & Hb) Hp] Hc].
  unfold check_committable, check_prepared. destruct (get_one_msg l i PrePrepare) as [pp|] eqn:Hone.
  2: { rewrite get_one_msg_none in Hone. by destruct (Hone m Hin). }
  apply get_one_msg_some in Hone as [Hpp Hin']. assert (get_block pp = Done b) as Hppb.
  { rewrite <- Hb. by eapply Hu. }
  destruct Hpp as (_ & Hn & Hv). rewrite Hq, !done_bind.
  assert (∀ t, t = Prepare ∨ t = Commit → q ≤ len (votes (stored l) t (mi_seq_num i) (mi_view i) b) →
            log_has_required_msgs l t pp true q = Done true) as Hreq.
  { intros t Ht Hle. rewrite (log_has_required_msgs_votes _ _ _ _ b), Hn, Hv; [by rewrite bool_decide_true|..|done].
    rewrite Hn, Hv. intros x. by apply Hty. }
  rewrite (Hreq Prepare), done_bind by auto. by apply Hreq; auto.
Qed.
End soundness.

(** ** Monotonicity *)

Section monotone.
Context (ms ms' : list ParsedMessage) (Hms : ms `prefix_of` ms').

Lemma filter_prefix (P : ParsedMessage → Prop) `{∀ m, Decision (P m)} :
  len (filter P ms) ≤ len (filter P ms').
Proof. destruct Hms as [k ->]. unfold len. rewrite filter_app, length_app. lia. Qed.

Lemma pre_prepared_prefix seq v b : pre_prepared ms seq v b → pre_prepared ms' seq v b.
Proof. intros (m & Hin & Hm). exists m. split; [by eapply elem_of_prefix|done]. Qed.

Lemma prepared_prefix seq v q b : prepared ms seq v q b → prepared ms' seq v q b.
Proof.
  intros [Hp Hq]. split; [by apply pre_prepared_prefix|]. etrans; [exact Hq|apply filter_prefix].
Qed.

Lemma committable_prefix seq v q b : committable ms seq v q b → committable ms' seq v q b.
Proof.
  intros [Hp Hq]. split; [by apply prepared_prefix|]. etrans; [exact Hq|apply filter_prefix].
Qed.
End monotone.

(** ** [get_enough_messages] *)

Lemma group_by_view_lookup ms v :
  group_by_view ms !! v =
  match filter (λ m, mi_view (info m) = v) ms with [] => None | k => Some k end.
Proof.
  unfold group_by_view. induction ms as [|m ms IH] using rev_ind; [done|].
  rewrite foldl_snoc, filter_app. cbn -[filter].
  destruct (decide (mi_view (info m) = v)) as [<-|Hne].
  - rewrite lookup_insert_eq, filter_singleton_True by done.
    rewrite IH. by destruct (filter _ ms).
  - rewrite lookup_insert_ne, filter_singleton_False, app_nil_r by done. apply IH.
Qed.

(** The messages [get_enough_messages] chooses from: of the given type and
    sequence number, of one view, received from others. *)
Definition received_in_view `{HashOrder} (l : PbftLog) (t : PbftMessageType) (seq v : N) : list ParsedMessage :=
  filter (λ m, mi_view (info m) = v)
    (filter (λ m, has_type_seq t seq m ∧ from_self m = false) (hs_iter (messages l))).

Lemma elem_of_received_in_view `{HashOrder} l t seq v m :
  m ∈ received_in_view l t seq v ↔
  m ∈ messages l ∧ has_type_seq_view t seq v m ∧ from_self m = false.
Proof.
  unfold received_in_view, has_type_seq, has_type_seq_view.
  rewrite !list_elem_of_filter, elem_of_hs_iter. tauto.
Qed.

Section get_enough.
Context `{HashOrder}.
Implicit Types (l : PbftLog) (ms : list ParsedMessage).

#[local] Instance view_le_trans : Transitive view_le.
Proof. intros ???. unfold view_le. lia. Qed.
#[local] Instance view_le_total : Total view_le.
Proof. intros ??. unfold view_le. lia. Qed.

Lemma elem_of_groups l t seq minimum g :
  g ∈ filter (λ g, minimum ≤ len g.2)
        (map_to_list (group_by_view (filter (λ m, has_type_seq t seq m ∧ from_self m = false)
                                       (hs_iter (messages l))))) ↔
  g.2 = received_in_view l t seq g.1 ∧ g.2 ≠ [] ∧ minimum ≤ len g.2.
Proof.
  rewrite list_elem_of_filter. destruct g as [v ms]. cbn -[filter].
  rewrite elem_of_map_to_list, group_by_view_lookup. fold (received_in_view l t seq v).
  destruct (received_in_view l t seq v) eqn:Hr; naive_solver.
Qed.

Lemma get_enough_messages_some l t seq minimum ms :
  get_enough_messages l t seq minimum = Some ms →
  ∃ v, ms = received_in_view l t seq v ∧ ms ≠ [] ∧ minimum ≤ len ms ∧
       ∀ v', v < v' → received_in_view l t seq v' = [] ∨
                      len (received_in_view l t seq v') < minimum.
Proof.
  unfold get_enough_messages. intros ([v ms'] & Hlast & ->)%fmap_Some. exists v.
  set (groups := filter _ _) in Hlast.
  pose proof (StronglySorted_merge_sort view_le groups) as Hsort.
  assert ((v, ms') ∈ groups) as Hin.
  { rewrite <- (merge_sort_Permutation view_le groups). by apply last_Some_elem_of. }
  apply elem_of_groups in Hin as (Hms & Hne & Hmin). cbn in Hms, Hne, Hmin.
  split_and!; [done..|]. intros v' Hv'.
  destruct (decide (received_in_view l t seq v' = [])) as [|Hne']; [by left|]. right.
  apply N.nle_gt. intros Hmin'.
  assert ((v', received_in_view l t seq v') ∈ groups) as Hin'.
  { by apply elem_of_groups. }
  rewrite <- (merge_sort_Permutation view_le groups) in Hin'.
  destruct (StronglySorted_last _ _ _ _ Hsort Hlast Hin') as [[= -> _]|Hle]; [lia|].
  unfold view_le in Hle. cbn in Hle. lia.
Qed.

Lemma get_enough_messages_none l t seq minimum :
  get_enough_messages l t seq minimum = None →
  ∀ v, received_in_view l t seq v = [] ∨ len (received_in_view l t seq v) < minimum.
Proof.
  unfold get_enough_messages. intros Hn v. apply fmap_None in Hn.
  set (groups := filter _ _) in Hn. rewrite last_None in Hn.
  destruct (decide (received_in_view l t seq v = [])) as [|Hne]; [by left|]. right.
  apply N.nle_gt. intros Hmin.
  assert ((v, received_in_view l t seq v) ∈ groups) as Hin by by apply elem_of_groups.
  rewrite <- (merge_sort_Permutation view_le groups), Hn in Hin. by apply elem_of_nil in Hin.
Qed.
End get_enough.

(** ** Well-formedness and the effect of each update *)

Definition log_wf (l : PbftLog) : Prop := hs_wf (messages l) ∧ hs_wf (seals l).

Section updates.
Context `{HashOrder}.
Implicit Types (l : PbftLog) (m : ParsedMessage) (s : PbftState).

(** [add_message] accepts or rejects by the view alone. *)
Lemma add_message_cases m s l :
  add_message m s l =
  if decide (message_type_of_str (mi_msg_type (info m)) = ViewChange ∨ mi_view (info m) = view s)
  then (Ok tt, set_messages (hs_insert m (messages l)) l)
  else (Err (ViewMismatch (mi_view (info m)) (view s)), l).
Proof. unfold add_message. repeat case_decide; naive_solver. Qed.

Lemma add_message_ok m s l l' :
  add_message m s l = (Ok tt, l') → l' = set_messages (hs_insert m (messages l)) l.
Proof. rewrite add_message_cases. case_decide; naive_solver. Qed.

Lemma add_message_elem m s l m' :
  m' ∈ messages l → m' ∈ messages (add_message m s l).2.
Proof. rewrite add_message_cases. case_decide; [|done]. cbn. rewrite elem_of_hs_insert. by right. Qed.

Lemma add_message_wf m s l : log_wf l → log_wf (add_message m s l).2.
Proof.
  intros [Hm Hs]. rewrite add_message_cases. case_decide; [|done].
  split; cbn; [by apply hs_insert_wf|done].
Qed.

Lemma add_consensus_seal_wf b n seal l : log_wf l → log_wf (add_consensus_seal b n seal l).
Proof. intros [Hm Hs]. split; cbn; [done|by apply hs_insert_wf]. Qed.

(** More messages mean more votes. *)
Lemma votes_mono m s l t seq v b :
  len (votes (stored l) t seq v b) ≤ len (votes (stored (add_message m s l).2) t seq v b).
Proof.
  rewrite add_message_cases. case_decide; [|apply N.le_refl]. unfold votes, stored, len. cbn.
  pose proof (hs_insert_filter_mono (λ m, has_type_seq_view t seq v m ∧ get_block m = Done b) m (messages l)).
  lia.
Qed.

Lemma pre_prepared_mono m s l seq v b :
  pre_prepared (stored l) seq v b → pre_prepared (stored (add_message m s l).2) seq v b.
Proof. intros (m' & Hin & Hm'). exists m'. split; [by apply add_message_elem|done]. Qed.

Context `{Platform}.

Lemma garbage_collect_done cur b l :
  1 ≤ cur →
  ∃ l', garbage_collect cur b l = Done l' ∧
    (∀ m, m ∈ messages l' ↔
          m ∈ messages l ∧ (max_log_size l ≤ hs_len (messages l) → cur - 1 ≤ mi_seq_num (info m))) ∧
    (∀ e, e ∈ seals l' ↔ e ∈ seals l ∧ se_block_id e = b) ∧
    backlog l' = backlog l ∧ max_log_size l' = max_log_size l ∧
    (log_wf l → log_wf l').
Proof.
  intros Hcur. unfold garbage_collect, log_wf. case_bool_decide as Hsize.
  - rewrite (filter_o_done _ (λ m, cur - 1 ≤ mi_seq_num (info m)));
      [|intros x _; by rewrite u64_sub_small].
    eexists. split; [done|]. cbn. split_and!; [..|done|done|intros _; split; apply hs_collect_wf].
    + intros m. rewrite elem_of_hs_collect, list_elem_of_filter, elem_of_hs_iter. tauto.
    + intros e. rewrite elem_of_hs_collect, list_elem_of_filter, elem_of_hs_iter. tauto.
  - eexists. split; [done|]. cbn. split_and!; [..|done|done|intros []; split; [done|apply hs_collect_wf]].
    + intros m. split; [done|tauto].
    + intros e. rewrite elem_of_hs_collect, list_elem_of_filter, elem_of_hs_iter. tauto.
Qed.

(** Collection never adds a message. *)
Lemma garbage_collect_stored cur b l l' m :
  garbage_collect cur b l = Done l' → m ∈ stored l' → m ∈ stored l.
Proof.
  unfold garbage_collect, stored. case_bool_decide; cbn.
  - destruct (filter_o _ _) as [kept| |] eqn:Hk; cbn; [|done..]. intros [= <-]. cbn.
    intros Hm%elem_of_hs_collect. eapply (filter_o_subset _ _ _ _ Hk) in Hm. by apply elem_of_hs_iter in Hm.
  - by intros [= <-].
Qed.

(** Votes of the current and the previous sequence number survive. *)
Lemma garbage_collect_votes cur b l l' t seq v blk :
  1 ≤ cur → cur - 1 ≤ seq → log_wf l → garbage_collect cur b l = Done l' →
  votes (stored l') t seq v blk ≡ₚ votes (stored l) t seq v blk.
Proof.
  intros Hcur Hseq Hwf Hgc.
  destruct (garbage_collect_done cur b l Hcur) as (l'' & Hgc' & Hm & _ & _ & _ & Hwf').
  rewrite Hgc in Hgc'. injection Hgc' as <-. unfold votes, stored.
  apply filter_length_agree; [by apply Hwf'|by apply Hwf|].
  intros x [(_ & Hx & _) _]. pose proof (Hm x) as Hmx.
  unfold elem_of, hs_elem_of in Hmx. rewrite Hmx. split; [tauto|].
  intros Hin. split; [done|]. intros _. by rewrite Hx.
Qed.
End updates.

#[export] Hint Resolve add_message_wf add_consensus_seal_wf : core.
