(* ===== verification/Sys.v ===== *)
(** * The state a handler works on

    The Rust methods borrow [&mut self] (a [PbftNode]: the service and the
    message log) and [&mut PbftState]; both are in [Sys], with the number of
    clock readings made so far.  [NodeM A] is a method returning
    [Result<A, PbftError>]. *)

From S2P Require Import Prelude HashSet MessageType Wire Service Errors Messages.
From S2P Require Import Timing Config NodeState MessageLog.

(** [PbftNode] with the state it is given. *)
Record Sys := mkSys {
  service : list ServiceCall;
  msg_log : PbftLog;
  pbft_state : PbftState;
  ticks : nat
}.

Abbreviation NodeM A := (SM Sys (Result A PbftError)) (only parsing).

Definition set_service (h : list ServiceCall) (s : Sys) : Sys :=
  mkSys h (msg_log s) (pbft_state s) (ticks s).
Definition set_log (l : PbftLog) (s : Sys) : Sys :=
  mkSys (service s) l (pbft_state s) (ticks s).
Definition set_state (st : PbftState) (s : Sys) : Sys :=
  mkSys (service s) (msg_log s) st (ticks s).

Definition get_state : SM Sys PbftState := sm_gets pbft_state.
Definition get_log : SM Sys PbftLog := sm_gets msg_log.
Definition modify_state (f : PbftState → PbftState) : SM Sys () :=
  sm_modify (λ s, set_state (f (pbft_state s)) s).
Definition modify_log (f : PbftLog → PbftLog) : SM Sys () :=
  sm_modify (λ s, set_log (f (msg_log s)) s).

(** A call of the service. *)
Definition with_service {A} (m : SM (list ServiceCall) A) : SM Sys A :=
  zoom service set_service m.

(** [Instant::now()]. *)
Definition now `{Clock} : SM Sys N :=
  λ s, (Done (clock_at (ticks s)), mkSys (service s) (msg_log s) (pbft_state s) (S (ticks s))).

(** [self.msg_log.add_message(msg, state)]. *)
Definition log_add_message (msg : ParsedMessage) : NodeM () := λ s,
  let '(r, l) := add_message msg (pbft_state s) (msg_log s) in (Done r, set_log l s).

(** [state.switch_phase(phase)], its result dropped as everywhere in the code. *)
Definition state_switch_phase (p : PbftPhase) : SM Sys () :=
  modify_state (λ st, (switch_phase p st).2).

Definition start_timeout `{Clock} : SM Sys () :=
  t ← now;
  modify_state (λ st, set_timeout (start t (faulty_primary_timeout st)) st).

Definition stop_timeout `{Clock} : SM Sys () :=
  t ← now;
  modify_state (λ st, set_timeout (stop t (faulty_primary_timeout st)) st).

(** ** Running the basic operations *)

Section running.
Context {A : Type}.
Implicit Types (s : Sys).

Lemma run_get_state (k : PbftState → SM Sys A) s : (get_state ≫= k) s = k (pbft_state s) s.
Proof. done. Qed.

Lemma run_get_log (k : PbftLog → SM Sys A) s : (get_log ≫= k) s = k (msg_log s) s.
Proof. done. Qed.

Lemma run_modify_state f (k : () → SM Sys A) s :
  (modify_state f ≫= k) s = k tt (set_state (f (pbft_state s)) s).
Proof. done. Qed.

Lemma run_modify_log f (k : () → SM Sys A) s :
  (modify_log f ≫= k) s = k tt (set_log (f (msg_log s)) s).
Proof. done. Qed.

Lemma run_switch_phase p (k : () → SM Sys A) s :
  (state_switch_phase p ≫= k) s = k tt (set_state (switch_phase p (pbft_state s)).2 s).
Proof. done. Qed.

Lemma run_call {B} (answer : list ServiceCall → B) c (k : B → SM Sys A) s :
  (with_service (call answer c) ≫= k) s = k (answer (service s)) (set_service (service s ++ [c]) s).
Proof. done. Qed.

Lemma run_now `{Clock} (k : N → SM Sys A) s :
  (now ≫= k) s = k (clock_at (ticks s)) (mkSys (service s) (msg_log s) (pbft_state s) (S (ticks s))).
Proof. done. Qed.

Lemma run_add_message m (k : () → SM Sys (Result A PbftError)) s :
  try_bind k (log_add_message m) s =
  if decide (message_type_of_str (mi_msg_type (info m)) = ViewChange ∨ mi_view (info m) = view (pbft_state s))
  then k tt (set_log (set_messages (hs_insert m (messages (msg_log s))) (msg_log s)) s)
  else (Done (Err (ViewMismatch (mi_view (info m)) (view (pbft_state s)))), s).
Proof.
  rewrite run_try. unfold log_add_message. rewrite add_message_cases.
  case_decide; [done|]. by destruct s.
Qed.
End running.

#[export] Hint Rewrite @run_get_state @run_get_log @run_modify_state @run_modify_log
  @run_switch_phase @run_call @run_now : run.

(** ** Frames of the basic operations *)

Section frames.
Context (R : relation Sys) `{!PreOrder R}.

Lemma respects_get_state : respects R get_state.
Proof. unfold get_state. eauto with respects. Qed.

Lemma respects_get_log : respects R get_log.
Proof. unfold get_log. eauto with respects. Qed.

Lemma respects_modify_state f :
  (∀ s, R s (set_state (f (pbft_state s)) s)) → respects R (modify_state f).
Proof. intros Hf. by apply respects_modify. Qed.

Lemma respects_modify_log f :
  (∀ s, R s (set_log (f (msg_log s)) s)) → respects R (modify_log f).
Proof. intros Hf. by apply respects_modify. Qed.

Lemma log_add_message_snd m s :
  (log_add_message m s).2 = set_log (add_message m (pbft_state s) (msg_log s)).2 s.
Proof. unfold log_add_message. by destruct (add_message m (pbft_state s) (msg_log s)). Qed.

Lemma respects_log_add_message m :
  (∀ s, R s (set_log (add_message m (pbft_state s) (msg_log s)).2 s)) →
  respects R (log_add_message m).
Proof. intros Hm s. rewrite log_add_message_snd. apply Hm. Qed.

Lemma respects_with_service {A} (answer : list ServiceCall → A) c :
  (∀ s, R s (set_service (service s ++ [c]) s)) → respects R (with_service (call answer c)).
Proof. intros Hc s. apply Hc. Qed.
End frames.

#[export] Hint Resolve respects_get_state respects_get_log : respects.
