(* ===== verification/Handlers.v ===== *)
(** * Handlers of message types (src/src/handlers.rs) *)

From S2P Require Import Prelude HashSet MessageType Wire Service Errors Messages.
From S2P Require Import Timing Config NodeState MessageLog Sys.

(** [make_msg_info]. *)
Definition make_msg_info (t : PbftMessageType) (v seq : N) (signer_id : PeerId) : PbftMessageInfo :=
  mkPbftMessageInfo (string_of_message_type t) v seq signer_id.

(** [pbft_block_from_block]. *)
Definition pbft_block_from_block (b : Block) : PbftBlock :=
  mkPbftBlock (bk_block_id b) (bk_signer_id b) (bk_block_num b) (bk_summary b).

Section handlers.
Context `{Externals}.

Definition pre_prepare (msg : ParsedMessage) : NodeM () :=
  st ← get_state;
  primary ← sm_lift (get_primary_id st);
  if decide (mi_signer_id (info msg) ≠ primary) then mret (Err NotFromPrimary) else
  log ← get_log;
  block_new_exists ← sm_lift (any_o (λ block_new_msg, same_block block_new_msg msg)
                                (get_messages_of_type_seq log BlockNew (mi_seq_num (info msg))));
  if negb block_new_exists then mret (Err NoBlockNew) else
  match get_one_msg log (info msg) PrePrepare with
  | Some existing_msg =>
      existing ← sm_lift (get_block existing_msg);
      block ← sm_lift (get_block msg);
      mret (if decide (existing ≠ block) then Err (BlockMismatch existing block) else Ok tt)
  | None => mret (Ok tt)
  end ;?
  log_add_message msg ;?
  st ← get_state;
  if decide (mi_seq_num (info msg) = seq_num st) then
    _ ← state_switch_phase Preparing;
    _ ← stop_timeout;
    mret (Ok tt)
  else mret (Ok tt).

Definition commit (msg : ParsedMessage) : NodeM () :=
  block ← sm_lift (get_block msg);
  r ← with_service (svc_commit_block (pb_block_id block));
  mret (map_err (λ _, InternalError "Failed to commit block: {:?}") r) ;?
  _ ← state_switch_phase Finished;
  mret (Ok tt).

Definition check_received_enough_view_changes (vc_message : ParsedMessage) : SM Sys bool :=
  st ← get_state;
  log ← get_log;
  required ← sm_lift (two_f_plus_one (st_f st));
  sm_lift (log_has_required_msgs log ViewChange vc_message false required).

Definition set_current_view (v : N) : SM Sys () := modify_state (set_view v).

Definition set_current_view_from_msg (vc_message : ParsedMessage) : SM Sys () :=
  set_current_view (mi_view (info vc_message)).

Definition check_is_primary : SM Sys bool :=
  st ← get_state;
  primary ← sm_lift (get_primary_id st);
  mret (bool_decide (st_id st = primary)).

(** Errors of the service are only logged. *)
Definition become_primary : SM Sys () :=
  _ ← modify_state upgrade_role;
  st ← get_state;
  _ ← match working_block st with
      | Some b => _ ← with_service (svc_ignore_block (pb_block_id b)); mret tt
      | None => mret tt
      end;
  _ ← with_service (svc_initialize_block None);
  mret tt.

Definition become_secondary : SM Sys () := modify_state downgrade_role.

Definition view_change (vc_message : ParsedMessage) : NodeM () :=
  enough ← check_received_enough_view_changes vc_message;
  if negb enough then mret (Ok tt) else
  _ ← set_current_view_from_msg vc_message;
  primary ← check_is_primary;
  _ ← (if primary : bool then become_primary else become_secondary);
  t ← now;
  _ ← modify_state (discard_current_block t);
  mret (Ok tt).

Definition force_view_change : SM Sys () :=
  st ← get_state;
  next_view ← sm_lift (u64_add (view st) 1);
  _ ← set_current_view next_view;
  primary ← check_is_primary;
  if primary : bool then become_primary else become_secondary.
End handlers.
