(* ===== verification/Node.v ===== *)
(** * [PbftNode] (src/src/node.rs)

    The handlers of validator updates.  A node sends every message it broadcasts
    to itself as well, so [on_peer_message] calls itself through
    [_broadcast_message]; the model indexes that recursion with fuel. *)

From S2P Require Import Prelude HashSet MessageType Wire Service Errors Messages.
From S2P Require Import Timing Config NodeState MessageLog Sys Handlers.

Section node.
Context `{Externals}.

(** [make_msg_bytes]; its caller replaces an error by no bytes. *)
Definition make_msg_bytes (i : PbftMessageInfo) (block : PbftBlock) : Result bytes ProtobufError :=
  message_to_bytes (mkPbftMessage (Some i) (Some block)).

(** [_broadcast_message]: to the peers, then to the node itself. *)
Definition broadcast_message (on_own_message : ParsedMessage → NodeM ()) (t : PbftMessageType) (msg : bytes) : NodeM () :=
  _ ← with_service (svc_broadcast (string_of_message_type t) msg);
  parsed_message ←? mret (from_bytes msg);
  on_own_message parsed_message.

(** Under [cfg(test)] it does nothing. *)
Definition broadcast_message_disabled (t : PbftMessageType) (msg : bytes) : NodeM () := mret (Ok tt).

(** Operations that send messages take the [_broadcast_message] of the build. *)
Section sending.
Context (send : PbftMessageType → bytes → NodeM ()).

Definition broadcast_pbft_message (seq : N) (t : PbftMessageType) (block : PbftBlock) : NodeM () :=
  st ← get_state;
  let expected_type := check_msg_type st in
  if is_multicast t && bool_decide (t ≠ expected_type) then mret (Ok tt) else
  let msg_bytes :=
    match make_msg_bytes (make_msg_info t (view st) seq (st_id st)) block with
    | Ok b => b
    | Err _ => []
    end in
  send t msg_bytes.

Definition broadcast_pre_prepare (pbft_message : ParsedMessage) : NodeM () :=
  block ← sm_lift (get_block pbft_message);
  broadcast_pbft_message (mi_seq_num (info pbft_message)) Prepare block.

Definition propose_view_change_with : NodeM () :=
  st ← get_state;
  if decide (mode st = ViewChanging) then mret (Ok tt) else
  _ ← modify_state (set_mode ViewChanging);
  v ← sm_lift (u64_add (view st) 1);
  n ← sm_lift (u64_sub (seq_num st) 1);
  let i := make_msg_info ViewChange v n (st_id st) in
  log ← get_log;
  seal ←? mret (get_consensus_seal log n);
  msg_bytes ←? mret (map_err SerializationError
                       (view_change_to_bytes (mkPbftViewChange (Some i) (Some seal))));
  send ViewChange msg_bytes.

Definition propose_view_change_if_enough_messages (msg : ParsedMessage) : NodeM bool :=
  st ← get_state;
  if decide (mode st ≠ ViewChanging) then
    log ← get_log;
    required ← sm_lift (u64_add (st_f st) 1);
    enough ← sm_lift (log_has_required_msgs log ViewChange msg false required);
    if enough && bool_decide (view st < mi_view (info msg)) then
      propose_view_change_with ;?
      mret (Ok false)
    else mret (Ok true)
  else mret (Ok false).
End sending.

Definition check_blocks_if_not_checking (pbft_message : ParsedMessage) : NodeM () :=
  st ← get_state;
  if decide (phase st ≠ Checking) then
    _ ← state_switch_phase Checking;
    block ← sm_lift (get_block pbft_message);
    r ← with_service (svc_check_blocks [pb_block_id block]);
    mret (map_err (λ _, InternalError "Failed to check blocks") r)
  else mret (Ok tt).

Definition commit_block_if_committing (msg : ParsedMessage) : NodeM () :=
  st ← get_state;
  if decide (phase st = Committing) then commit msg else mret (Ok tt).

(** One call of [on_peer_message]. *)
Definition on_peer_message_body (send : PbftMessageType → bytes → NodeM ()) (msg : ParsedMessage) : NodeM () :=
  match message_type_of_str (mi_msg_type (info msg)) with
  | PrePrepare =>
      r ← pre_prepare msg;
      match r with
      | Ok _ => broadcast_pre_prepare send msg
      | Err NoBlockNew => _ ← modify_log (push_backlog msg); mret (Ok tt)
      | Err e => mret (Err e)
      end
  | Prepare =>
      log_add_message msg ;?
      st ← get_state;
      log ← get_log;
      go ← (if decide (mi_seq_num (info msg) = seq_num st)
            then sm_lift (check_prepared log (info msg) (st_f st)) else mret false);
      if go : bool then check_blocks_if_not_checking msg else mret (Ok tt)
  | Commit =>
      log_add_message msg ;?
      st ← get_state;
      log ← get_log;
      go ← (if decide (mi_seq_num (info msg) = seq_num st)
            then sm_lift (check_committable log (info msg) (st_f st)) else mret false);
      if go : bool then commit_block_if_committing msg else mret (Ok tt)
  | ViewChange =>
      log_add_message msg ;?
      stop ←? propose_view_change_if_enough_messages send msg;
      if stop : bool then mret (Ok tt) else view_change msg
  | BlockNew | Unset => mret (Ok tt)
  end.

Fixpoint on_peer_message (fuel : nat) (msg : ParsedMessage) : NodeM () :=
  match fuel with
  | O => sm_lift OutOfFuel
  | S fuel => on_peer_message_body (broadcast_message (on_peer_message fuel)) msg
  end.

Definition propose_view_change (fuel : nat) : NodeM () :=
  propose_view_change_with (broadcast_message (on_peer_message fuel)).

(** ** Consensus seals *)

Definition verify_consensus_vote (vote : PbftSignedCommitVote) (seal : PbftSeal) : Outcome (Result bytes PbftError) :=
  match message_of_bytes (sv_message_bytes vote) with
  | Err e => Done (Err (SerializationError e))
  | Ok msg =>
      if decide (pb_block_id (pm_get_block msg) ≠ ps_previous_id seal) then
        Done (Err (InternalError "PbftMessage block ID ({:?}) doesn't match seal's previous id ({:?})!"))
      else
        match header_of_bytes (sv_header_bytes vote) with
        | Err e => Done (Err (SerializationError e))
        | Ok header =>
            match public_key_from_hex (hex_encode (ph_signer_id header)) with
            | None => Panic "called `Result::unwrap()` on an `Err` value"
            | Some key =>
                match create_context with
                | Err _ => Done (Err (InternalError "Couldn't create context: {}"))
                | Ok _ =>
                    match verify_signature (hex_encode (sv_header_signature vote)) (sv_header_bytes vote) key with
                    | Ok true =>
                        match verify_sha512 (sv_message_bytes vote) (ph_content_sha512 header) with
                        | Err e => Done (Err e)
                        | Ok _ => Done (Ok (mi_signer_id (pm_get_info msg)))
                        end
                    | Ok false => Done (Err (InternalError "Header failed verification!"))
                    | Err _ => Done (Err (InternalError "Error while verifying header: {:?}"))
                    end
                end
            end
        end
  end.

(** The [try_fold] that verifies the votes and collects their signers. *)
Fixpoint verify_votes (votes : list PbftSignedCommitVote) (seal : PbftSeal) (ids : gset PeerId) :
    Outcome (Result (gset PeerId) PbftError) :=
  match votes with
  | [] => Done (Ok ids)
  | v :: votes =>
      vid ←? verify_consensus_vote v seal;
      verify_votes votes seal ({[vid]} ∪ ids)
  end.

Definition get_peers_at (block_id : BlockId) : SM Sys (list PeerId) :=
  r ← with_service (svc_get_settings block_id [peers_key]);
  match r with
  | Err _ => sm_lift (Panic "Failed to get settings")
  | Ok settings => sm_lift (get_peers_from_settings settings)
  end.

Definition verify_consensus_seal (block : Block) : NodeM (option PbftSeal) :=
  if bool_decide (bk_block_num block < 2) then mret (Ok None) else
  if decide (bk_payload block = []) then
    mret (Err (InternalError "Got empty payload for non-genesis block!")) else
  seal ←? mret (map_err SerializationError (seal_of_bytes (bk_payload block)));
  if decide (ps_previous_id seal ≠ bk_previous_id block) then
    _ ← sm_lift (slice_prefix 3 (ps_previous_id seal));
    _ ← sm_lift (slice_prefix 3 (bk_previous_id block));
    mret (Err (InternalError "Consensus seal failed verification. Seal's previous ID `{}` doesn't match block's previous ID `{}`")) else
  if decide (ps_summary seal ≠ bk_summary block) then
    mret (Err (InternalError "Consensus seal failed verification. Seal's summary {:?} doesn't match block's summary {:?}")) else
  voter_ids ←? sm_lift (verify_votes (ps_previous_commit_votes seal) seal ∅);
  peers ← get_peers_at (bk_previous_id block);
  let peer_ids : gset PeerId := list_to_set (filter (λ pid, pid ≠ bk_signer_id block) peers) in
  if decide (¬ voter_ids ⊆ peer_ids) then
    mret (Err (InternalError "Got unexpected vote IDs: {:?}")) else
  st ← get_state;
  needed ← sm_lift (u64_mul 2 (st_f st));
  if bool_decide (N.of_nat (size voter_ids) < needed) then
    mret (Err (InternalError "Need {} votes, only found {}!"))
  else mret (Ok (Some seal)).

(** ** Committed blocks *)

(** [update_membership]: the new peers are stored before the size of the
    network is checked. *)
Definition update_membership (block_id : BlockId) : SM Sys bool :=
  peers ← get_peers_at block_id;
  st ← get_state;
  let new_peers_set : gset PeerId := list_to_set peers in
  let old_peers_set : gset PeerId := list_to_set (peer_ids st) in
  if decide (new_peers_set ≠ old_peers_set) then
    _ ← modify_state (set_peer_ids peers);
    f ← sm_lift (max_faulty peers);
    if bool_decide (f = 0) then
      sm_lift (Panic "This network no longer contains enough nodes to be fault tolerant")
    else
      _ ← modify_state (set_f f);
      mret true
  else mret false.

Definition on_block_commit (block_id : BlockId) : SM Sys () :=
  st ← get_state;
  let is_working_block := match working_block st with
                          | Some b => bool_decide (pb_block_id b = block_id)
                          | None => false
                          end in
  if decide (phase st ≠ Finished) then mret tt else
  if negb is_working_block then mret tt else
  _ ← state_switch_phase PrePreparing;
  n ← sm_lift (u64_add (seq_num st) 1);
  _ ← modify_state (set_seq_num n);
  log ← get_log;
  wb ← sm_lift (match head (get_messages_of_type_seq log BlockNew n) with
                | Some msg => b ← get_block msg; Done (Some b)
                | None => Done None
                end);
  _ ← modify_state (set_working_block wb);
  st ← get_state;
  forced ← sm_lift (at_forced_view_change st);
  change ← (if forced : bool then mret true else update_membership block_id);
  _ ← (if change : bool then force_view_change else mret tt);
  st ← get_state;
  log ← get_log;
  log' ← sm_lift (garbage_collect (seq_num st) block_id log);
  _ ← modify_log (λ _, log');
  _ ← start_timeout;
  st ← get_state;
  if is_primary st && bool_decide (working_block st = None) then
    _ ← with_service (svc_initialize_block (Some block_id));
    mret tt
  else mret tt.

(** ** Catching up *)

(** The messages in the votes of a seal. *)
Fixpoint parse_votes (votes : list PbftSignedCommitVote) : Outcome (Result (list ParsedMessage) PbftError) :=
  match votes with
  | [] => Done (Ok [])
  | v :: votes =>
      match message_of_bytes (sv_message_bytes v) with
      | Err e => Done (Err (SerializationError e))
      | Ok m =>
          p ← from_pbft_message m;
          ps ←? parse_votes votes;
          Done (Ok (p :: ps))
      end
  end.

Fixpoint add_all_messages (ms : list ParsedMessage) : NodeM () :=
  match ms with
  | [] => mret (Ok tt)
  | m :: ms => log_add_message m ;? add_all_messages ms
  end.

Definition catchup (block : Block) : NodeM () :=
  st ← get_state;
  match working_block st with
  | Some working_block =>
      next ← sm_lift (u64_add (pb_block_num working_block) 1);
      mret (if decide (bk_block_num block = next ∧ bk_previous_id block = pb_block_id working_block)
            then Ok tt
            else Err (BlockMismatch (pbft_block_from_block block) working_block))
  | None => mret (Err NoWorkingBlock)
  end ;?
  seal ←? mret (map_err SerializationError (seal_of_bytes (bk_payload block)));
  messages ←? sm_lift (parse_votes (ps_previous_commit_votes seal));
  match messages with
  | [] => sm_lift (Panic "index out of bounds")
  | first :: _ =>
      let v := mi_view (info first) in
      st ← get_state;
      _ ← (if bool_decide (view st < v) then modify_state (set_view v) else mret tt);
      add_all_messages messages ;?
      _ ← modify_state (set_phase Committing);
      first_commit ← sm_lift (as_msg_type first Commit);
      commit first_commit ;?
      first_block ← sm_lift (get_block first);
      _ ← on_block_commit (pb_block_id first_block);
      mret (Ok tt)
  end.

(** ** New blocks *)

Definition on_block_new_body (send : PbftMessageType → bytes → NodeM ()) (block : Block) : NodeM () :=
  st ← get_state;
  if bool_decide (bk_block_num block < seq_num st) then mret (Ok tt) else
  verified ← verify_consensus_seal block;
  match verified with
  | Ok (Some seal) =>
      _ ← modify_log (add_consensus_seal (bk_block_id block) (seq_num st) seal);
      mret (Ok tt)
  | Ok None => mret (Ok tt)
  | Err err =>
      r ← with_service (svc_fail_block (bk_block_id block));
      mret (map_err (λ _, InternalError "Couldn't fail block: {}") r) ;?
      propose_view_change_with send ;?
      mret (Err err)
  end ;?
  st ← get_state;
  let pbft_block := pbft_block_from_block block in
  let i := make_msg_info BlockNew (view st) (bk_block_num block) (st_id st) in
  msg ← sm_lift (from_pbft_message (mkPbftMessage (Some i) (Some pbft_block)));
  log_add_message msg ;?
  next ← sm_lift (u64_add (seq_num st) 1);
  if decide (bk_block_num block = next ∧ phase st ≠ Finished) then
    catchup block
  else if decide (bk_block_num block = seq_num st) then
    _ ← modify_state (set_working_block (Some pbft_block));
    st ← get_state;
    if is_primary st then
      broadcast_pbft_message send (seq_num st) PrePrepare pbft_block
    else mret (Ok tt)
  else mret (Ok tt).

Definition on_block_valid_body (send : PbftMessageType → bytes → NodeM ()) (block_id : BlockId) : NodeM () :=
  st ← get_state;
  block ←? mret match working_block st with
                | Some block => if decide (pb_block_id block = block_id) then Ok block
                                else Err NotReadyForMessage
                | None => Err NoWorkingBlock
                end;
  _ ← state_switch_phase Committing;
  broadcast_pbft_message send (seq_num st) Commit block.

(** The two handlers as the node runs them. *)
Definition on_block_new (fuel : nat) (block : Block) : NodeM () :=
  on_block_new_body (broadcast_message (on_peer_message fuel)) block.

Definition on_block_valid (fuel : nat) (block_id : BlockId) : NodeM () :=
  on_block_valid_body (broadcast_message (on_peer_message fuel)) block_id.

(** ** Publishing and periodic work *)

Definition build_seal (summary : bytes) : NodeM bytes :=
  st ← get_state;
  min_votes ← sm_lift (u64_mul 2 (st_f st));
  n ← sm_lift (u64_sub (seq_num st) 1);
  log ← get_log;
  messages ←? mret match get_enough_messages log Commit n min_votes with
                   | Some ms => Ok ms
                   | None => Err (InternalError "Couldn't find {} commit messages in the message log for building a seal!")
                   end;
  match messages with
  | [] => sm_lift (Panic "index out of bounds")
  | first :: _ =>
      block ← sm_lift (get_block first);
      let seal := mkPbftSeal (pb_block_id block) summary
        ((λ m, mkPbftSignedCommitVote (header_bytes m) (header_signature m) (message_bytes m)) <$> messages) in
      mret (map_err SerializationError (seal_to_bytes seal))
  end.

Definition try_publish : NodeM () :=
  st ← get_state;
  if negb (is_primary st) || bool_decide (phase st ≠ PrePreparing) then mret (Ok tt) else
  summarized ← with_service svc_summarize_block;
  match summarized with
  | Err _ => mret (Ok tt)
  | Ok summary =>
      data ←? (if bool_decide (seq_num st ≤ 1) then mret (Ok []) else build_seal summary);
      r ← with_service (svc_finalize_block data);
      match r with
      | Ok _ => mret (Ok tt)
      | Err BlockNotReady => mret (Ok tt)
      | Err _ => mret (Err (InternalError "Couldn't finalize block!"))
      end
  end.

(** The clock is read only for an active timer, the one case in which
    [check_expired] looks at the reading. *)
Definition check_faulty_primary_timeout_expired : SM Sys bool :=
  st ← get_state;
  t ← (if decide (timeout_state (faulty_primary_timeout st) = Active) then now else mret 0);
  st ← get_state;
  let '(b, timeout) := check_expired t (faulty_primary_timeout st) in
  _ ← modify_state (set_timeout timeout);
  mret b.

Definition start_faulty_primary_timeout : SM Sys () := start_timeout.

Definition retry_backlog (fuel : nat) : NodeM () :=
  log ← get_log;
  let '(popped, log') := pop_backlog log in
  _ ← modify_log (λ _, log');
  match popped with
  | Some msg => on_peer_message fuel msg
  | None => mret (Ok tt)
  end.

(** [PbftNode::new], on the service it is given. *)
Definition node_new (config : PbftConfig) (is_primary : bool) : SM (list ServiceCall) PbftLog :=
  let log := log_new config in
  _ ← (if is_primary then _ ← svc_initialize_block None; mret tt else mret tt);
  mret log.
End node.
