(* ===== verification/Protocol.v ===== *)
(** * The protocol a node follows

    An abstract machine for one node: its height, view, phase, mode and role,
    the messages it has stored and the blocks it has asked the validator to
    commit.  Each step carries the guard PBFT puts on it.  Refinement.v shows
    that the handlers of node.rs and handlers.rs only ever take these steps. *)

From S2P Require Import Prelude HashSet MessageType Wire Service Errors Messages.
From S2P Require Import Timing Config NodeState MessageLog Sys Handlers.

Record Protocol := mkProtocol {
  a_self : PeerId;
  a_peers : list PeerId;
  a_f : N;
  a_height : N;
  a_view : N;
  a_phase : PbftPhase;
  a_mode : PbftMode;
  a_role : PbftNodeRole;
  a_log : list ParsedMessage;
  a_commits : list BlockId
}.

Definition with_log (log : list ParsedMessage) (a : Protocol) : Protocol :=
  mkProtocol (a_self a) (a_peers a) (a_f a) (a_height a) (a_view a) (a_phase a) (a_mode a)
    (a_role a) log (a_commits a).
Definition with_phase (p : PbftPhase) (a : Protocol) : Protocol :=
  mkProtocol (a_self a) (a_peers a) (a_f a) (a_height a) (a_view a) p (a_mode a)
    (a_role a) (a_log a) (a_commits a).
Definition with_mode (m : PbftMode) (a : Protocol) : Protocol :=
  mkProtocol (a_self a) (a_peers a) (a_f a) (a_height a) (a_view a) (a_phase a) m
    (a_role a) (a_log a) (a_commits a).
Definition with_commit (b : BlockId) (a : Protocol) : Protocol :=
  mkProtocol (a_self a) (a_peers a) (a_f a) (a_height a) (a_view a) (a_phase a) (a_mode a)
    (a_role a) (a_log a) (a_commits a ++ [b]).

(** The primary of a view, round robin over the peers. *)
Definition primary_of (peers : list PeerId) (v : N) : option PeerId :=
  peers !! N.to_nat (v mod len peers).

Definition role_in (a : Protocol) (v : N) : PbftNodeRole :=
  if decide (primary_of (a_peers a) v = Some (a_self a)) then Primary else Secondary.

(** A view starts over in normal mode. *)
Definition enter_view (v : N) (a : Protocol) : Protocol :=
  mkProtocol (a_self a) (a_peers a) (a_f a) (a_height a) v PrePreparing Normal
    (role_in a v) (a_log a) (a_commits a).

(** The log is a set. *)
Definition store (m : ParsedMessage) (log : list ParsedMessage) : list ParsedMessage :=
  if decide (m ∈ log) then log else log ++ [m].

Definition quorum (a : Protocol) : N := 2 * a_f a + 1.

(** [a] has pre-prepared, prepared, may commit [b] at its height and view. *)
Definition pre_prepared_at (a : Protocol) (b : PbftBlock) : Prop :=
  pre_prepared (a_log a) (a_height a) (a_view a) b.
Definition prepared_at (a : Protocol) (b : PbftBlock) : Prop :=
  prepared (a_log a) (a_height a) (a_view a) (quorum a) b.
Definition committable_at (a : Protocol) (b : PbftBlock) : Prop :=
  committable (a_log a) (a_height a) (a_view a) (quorum a) b.

(** What happens between two committed blocks. *)
Inductive protocol_step (a : Protocol) : Protocol → Prop :=
| step_receive m :
    msg_type_of m ≠ PrePrepare →
    msg_type_of m = ViewChange ∨ mi_view (info m) = a_view a →
    protocol_step a (with_log (store m (a_log a)) a)
| step_accept_pre_prepare m :
    msg_type_of m = PrePrepare →
    mi_view (info m) = a_view a →
    primary_of (a_peers a) (a_view a) = Some (mi_signer_id (info m)) →
    (∃ bn, bn ∈ a_log a ∧ has_type_seq BlockNew (mi_seq_num (info m)) bn ∧ get_block bn = get_block m) →
    (∀ pp, pp ∈ a_log a → has_type_seq_view PrePrepare (mi_seq_num (info m)) (a_view a) pp →
       ∃ pp', pp' ∈ a_log a ∧ has_type_seq_view PrePrepare (mi_seq_num (info m)) (a_view a) pp' ∧
              get_block pp' = get_block m) →
    protocol_step a (with_log (store m (a_log a)) a)
| step_preparing b :
    a_phase a = PrePreparing → pre_prepared_at a b →
    protocol_step a (with_phase Preparing a)
| step_checking b :
    a_phase a = Preparing → prepared_at a b →
    protocol_step a (with_phase Checking a)
| step_committing :
    a_phase a = Checking →
    protocol_step a (with_phase Committing a)
| step_commit_block b m b' :
    a_phase a = Committing → committable_at a b →
    m ∈ a_log a → has_type_seq_view Commit (a_height a) (a_view a) m → get_block m = Done b' →
    protocol_step a (with_commit (pb_block_id b') a)
| step_finished b :
    a_phase a = Committing → committable_at a b →
    protocol_step a (with_phase Finished a)
| step_propose_view_change :
    protocol_step a (with_mode ViewChanging a)
| step_new_view seq v :
    quorum a ≤ len (filter (has_type_seq_view ViewChange seq v) (a_log a)) →
    protocol_step a (enter_view v a).

(** ** Invariants of the protocol *)

(** Every phase past the first is backed by the messages that lead to it. *)
Definition phase_backed (a : Protocol) : Prop :=
  match a_phase a with
  | PrePreparing => True
  | Preparing => ∃ b, pre_prepared_at a b
  | Checking | Committing => ∃ b, prepared_at a b
  | Finished => ∃ b, committable_at a b
  end.

Definition protocol_ok (a : Protocol) : Prop :=
  phase_backed a ∧ unique_pre_prepare (a_log a) ∧ a_role a = role_in a (a_view a).

Lemma store_prefix m log : log `prefix_of` store m log.
Proof. unfold store. case_decide; [done|]. by apply prefix_app_r. Qed.

Lemma elem_of_store x m log : x ∈ store m log ↔ x = m ∨ x ∈ log.
Proof. unfold store. case_decide; set_solver. Qed.

Lemma phase_backed_log a log :
  a_log a `prefix_of` log → phase_backed a → phase_backed (with_log log a).
Proof.
  intros Hp. unfold phase_backed. cbn. destruct (a_phase a); [done|..]; intros [b Hb]; exists b.
  - by eapply pre_prepared_prefix.
  - by eapply prepared_prefix.
  - by eapply prepared_prefix.
  - by eapply committable_prefix.
Qed.

Lemma unique_pre_prepare_store m log :
  (∀ pp, pp ∈ log → ∀ seq v, has_type_seq_view PrePrepare seq v m →
     has_type_seq_view PrePrepare seq v pp → get_block pp = get_block m) →
  unique_pre_prepare log → unique_pre_prepare (store m log).
Proof.
  intros Hm Hu x y seq v [->|Hx]%elem_of_store [->|Hy]%elem_of_store Tx Ty; [done|..].
  - symmetry. by eapply Hm.
  - by eapply Hm.
  - by eapply Hu.
Qed.

Lemma msg_type_of_type_seq_view t seq v m : has_type_seq_view t seq v m → msg_type_of m = t.
Proof. intros (Ht & _). unfold msg_type_of. rewrite Ht. apply message_type_of_string_of. Qed.

Lemma protocol_step_ok a a' : protocol_step a a' → protocol_ok a → protocol_ok a'.
Proof.
  intros Hstep (Hb & Hu & Hr). destruct Hstep as [m Ht _|m Ht Hv _ _ Hpp|b ? ?|b ? ?|Hp|b m b' Hp ? ? ? ?|b Hp ?| |seq v ?];
    try (split; [|split; [exact Hu|exact Hr]]).
  - split; [by apply phase_backed_log; [apply store_prefix|]|]. split; [|exact Hr]. apply unique_pre_prepare_store; [|done].
    intros pp _ seq v Hm%msg_type_of_type_seq_view _. by rewrite Hm in Ht.
  - split; [by apply phase_backed_log; [apply store_prefix|]|]. split; [|exact Hr]. apply unique_pre_prepare_store; [|done].
    intros pp Hin seq v (_ & Hs & Hw) Hpp'. subst seq v. rewrite Hv in Hpp'.
    destruct (Hpp pp Hin Hpp') as (pp' & Hin' & Ht' & <-). by eapply Hu.
  - by exists b.
  - by exists b.
  - revert Hb. unfold phase_backed. by rewrite Hp.
  - exact Hb.
  - by exists b.
  - exact Hb.
  - done.
Qed.

Lemma protocol_steps_ok a a' : rtc protocol_step a a' → protocol_ok a → protocol_ok a'.
Proof. induction 1; eauto using protocol_step_ok. Qed.

(** ** What the steps leave alone and what they leave behind *)

Definition static_part (a : Protocol) : PeerId * list PeerId * N * N :=
  (a_self a, a_peers a, a_f a, a_height a).

Lemma protocol_step_static a a' :
  protocol_step a a' → static_part a' = static_part a ∧ a_log a `prefix_of` a_log a'.
Proof. destruct 1; split; try done; apply store_prefix. Qed.

Lemma protocol_steps_static a a' :
  rtc protocol_step a a' → static_part a' = static_part a ∧ a_log a `prefix_of` a_log a'.
Proof.
  induction 1 as [|a1 a2 a3 [Hs Hl]%protocol_step_static _ [Hs' Hl']]; [done|].
  split; [congruence|by etrans].
Qed.

(** The evidence for a commit: the block pre-prepared at the node's height was
    committable, and a stored commit names the block. *)
Definition commit_backed (a : Protocol) (id : BlockId) : Prop :=
  ∃ v b m b', committable (a_log a) (a_height a) v (quorum a) b ∧
    m ∈ a_log a ∧ has_type_seq_view Commit (a_height a) v m ∧ get_block m = Done b' ∧ pb_block_id b' = id.

Definition view_backed (a : Protocol) (v : N) : Prop :=
  ∃ seq, quorum a ≤ len (filter (has_type_seq_view ViewChange seq v) (a_log a)).

Lemma commit_backed_steps a a' id :
  rtc protocol_step a a' → commit_backed a id → commit_backed a' id.
Proof.
  intros [Hst Hlog]%protocol_steps_static (v & b & m & b' & Hc & Hin & Hrest).
  injection Hst as _ _ Hf Hh. exists v, b, m, b'. unfold quorum. rewrite Hf, Hh.
  split_and!; [by eapply committable_prefix|by eapply elem_of_prefix|apply Hrest..].
Qed.

Lemma protocol_steps_commits a a' :
  rtc protocol_step a a' →
  ∃ new, a_commits a' = a_commits a ++ new ∧ ∀ id, id ∈ new → commit_backed a' id.
Proof.
  induction 1 as [a|a1 a2 a3 Hstep Hsteps (new & Heq & Hnew)].
  { exists []. split; [by rewrite app_nil_r|]. intros id Hid. by apply elem_of_nil in Hid. }
  enough (∃ new1, a_commits a2 = a_commits a1 ++ new1 ∧ ∀ id, id ∈ new1 → commit_backed a2 id)
    as (new1 & Heq1 & Hnew1).
  { exists (new1 ++ new). rewrite Heq, Heq1, app_assoc. split; [done|].
    intros id [Hid|Hid]%elem_of_app; [|by apply Hnew]. eapply commit_backed_steps; eauto. }
  destruct Hstep as [m|m|b|b| |b m b' Hp Hc Hin Ht Hb'|b| |seq v];
    try (exists []; split; [symmetry; apply app_nil_r|intros id Hid; by apply elem_of_nil in Hid]).
  exists [pb_block_id b']. split; [done|]. intros id ->%list_elem_of_singleton.
  by exists (a_view a1), b, m, b'.
Qed.

Lemma protocol_steps_view a a' :
  rtc protocol_step a a' → a_view a' = a_view a ∨ view_backed a' (a_view a').
Proof.
  revert a'. apply (rtc_ind_r (λ a', a_view a' = a_view a ∨ view_backed a' (a_view a'))); [by left|].
  intros a2 a3 _ Hstep IH.
  apply protocol_step_static in Hstep as Hst. destruct Hst as [Hst Hlog].
  assert (∀ v, view_backed a2 v → view_backed a3 v) as Hmono.
  { intros v [seq Hq]. injection Hst as _ _ Hf Hh. exists seq. unfold quorum. rewrite Hf.
    etrans; [exact Hq|]. by apply filter_prefix. }
  destruct Hstep as [m|m|b|b| |b m b' Hp Hc Hin Ht Hb'|b| |seq v Hq];
    [..|right; by exists seq]; (destruct IH as [IH|IH]; [left; exact IH|right; by apply Hmono]).
Qed.

(** ** Committing a block *)

(** Garbage collection drops the messages below some height up to the one left
    behind. *)
Definition collected (height : N) (log log' : list ParsedMessage) : Prop :=
  NoDup log' ∧ ∃ low, low ≤ height ∧ ∀ m, m ∈ log' ↔ m ∈ log ∧ low ≤ mi_seq_num (info m).

Lemma collected_subset height log log' m : collected height log log' → m ∈ log' → m ∈ log.
Proof. intros (_ & low & _ & Hm) Hin. by apply Hm. Qed.

Definition tolerates (peers : list PeerId) (f : N) : Prop := 4 ≤ len peers ∧ f = (len peers - 1) / 3.

(** The next height: in the same view, or, on a change of membership or a
    forced view change, in the next one. *)
Inductive advance_step (a : Protocol) : Protocol → Prop :=
| advance_same_view log :
    a_phase a = Finished → collected (a_height a) (a_log a) log →
    advance_step a (mkProtocol (a_self a) (a_peers a) (a_f a) (a_height a + 1) (a_view a)
                      PrePreparing (a_mode a) (a_role a) log (a_commits a))
| advance_next_view peers f log role :
    a_phase a = Finished → collected (a_height a) (a_log a) log →
    (peers = a_peers a ∧ f = a_f a) ∨ tolerates peers f →
    role = (if decide (primary_of peers (a_view a + 1) = Some (a_self a)) then Primary else Secondary) →
    advance_step a (mkProtocol (a_self a) peers f (a_height a + 1) (a_view a + 1)
                      PrePreparing (a_mode a) role log (a_commits a)).

Lemma advance_step_log a a' :
  advance_step a a' → a_height a' = a_height a + 1 ∧ collected (a_height a) (a_log a) (a_log a').
Proof. by destruct 1. Qed.

Lemma unique_pre_prepare_subset log log' :
  (∀ m, m ∈ log' → m ∈ log) → unique_pre_prepare log → unique_pre_prepare log'.
Proof. intros Hsub Hu x y seq v Hx Hy. eapply Hu; eauto. Qed.

Lemma advance_step_ok a a' : advance_step a a' → protocol_ok a → protocol_ok a'.
Proof.
  intros Hstep (_ & Hu & Hr). destruct Hstep as [log _ Hc|peers f log r _ Hc _ ->];
    (split; [done|]; split; [|done]); (eapply unique_pre_prepare_subset; [|exact Hu]);
    intros m; by eapply collected_subset.
Qed.

Lemma advance_step_tolerates a a' :
  advance_step a a' → tolerates (a_peers a) (a_f a) → tolerates (a_peers a') (a_f a').
Proof. destruct 1 as [|? ? ? ? ? ? [[-> ->]|?] ?]; done. Qed.
