(* ===== verification/NodeFrames.v ===== *)
(** * Frames and invariants of the node's handlers

    [peer_effects R] lists what the handlers of peer messages do to the state,
    at the grain of the smallest operations whose parts need not preserve an
    invariant on their own; [effects R] adds what a valid block does.  A
    preorder closed under these is respected by every handler of peer messages
    ([respects_on_peer_message]) and by the update handlers built on them;
    [commit_effects] adds what committing a block does. *)

From S2P Require Import Prelude HashSet MessageType Wire Service Errors Messages.
From S2P Require Import Timing Config NodeState MessageLog Sys Handlers Node.

Section arms.
Context `{Externals}.

(** The arms of [on_peer_message] for prepares and commits. *)
Definition prepare_arm (msg : ParsedMessage) : NodeM () :=
  log_add_message msg ;?
  st ← get_state;
  log ← get_log;
  go ← (if decide (mi_seq_num (info msg) = seq_num st)
        then sm_lift (check_prepared log (info msg) (st_f st)) else mret false);
  if go : bool then check_blocks_if_not_checking msg else mret (Ok tt).

Definition commit_arm (msg : ParsedMessage) : NodeM () :=
  log_add_message msg ;?
  st ← get_state;
  log ← get_log;
  go ← (if decide (mi_seq_num (info msg) = seq_num st)
        then sm_lift (check_committable log (info msg) (st_f st)) else mret false);
  if go : bool then commit_block_if_committing msg else mret (Ok tt).

Lemma on_peer_message_body_arms h msg :
  on_peer_message_body (broadcast_message h) msg =
  match message_type_of_str (mi_msg_type (info msg)) with
  | PrePrepare =>
      r ← pre_prepare msg;
      match r with
      | Ok _ => broadcast_pre_prepare (broadcast_message h) msg
      | Err NoBlockNew => _ ← modify_log (push_backlog msg); mret (Ok tt)
      | Err e => mret (Err e)
      end
  | Prepare => prepare_arm msg
  | Commit => commit_arm msg
  | ViewChange =>
      log_add_message msg ;?
      stop ←? propose_view_change_if_enough_messages (broadcast_message h) msg;
      if stop : bool then mret (Ok tt) else view_change msg
  | BlockNew | Unset => mret (Ok tt)
  end.
Proof. done. Qed.
End arms.

(** ** What [pre_prepare] does *)

Section pre_prepare.
Context `{Externals}.
Implicit Types (s : Sys) (m : ParsedMessage).

Definition stored_state m s : Sys :=
  set_log (set_messages (hs_insert m (messages (msg_log s))) (msg_log s)) s.

Lemma elem_of_stored_state m s : m ∈ stored (msg_log (stored_state m s)).
Proof. apply (elem_of_hs_insert m m). by left. Qed.

Definition preparing_state m s : Sys :=
  if decide (mi_seq_num (info m) = seq_num (pbft_state s)) then
    let s1 := set_state (switch_phase Preparing (pbft_state s)).2 s in
    let s2 := mkSys (service s1) (msg_log s1) (pbft_state s1) (S (ticks s1)) in
    set_state (set_timeout (stop (clock_at (ticks s1)) (faulty_primary_timeout (pbft_state s2))) (pbft_state s2)) s2
  else s.

(** What [pre_prepare] checks before it stores a message. *)
Definition pre_prepare_guard m s : Prop :=
  get_primary_id (pbft_state s) = Done (mi_signer_id (info m)) ∧
  any_o (λ bn, same_block bn m) (get_messages_of_type_seq (msg_log s) BlockNew (mi_seq_num (info m))) = Done true ∧
  match get_one_msg (msg_log s) (info m) PrePrepare with
  | Some pp => ∃ b, get_block pp = Done b ∧ get_block m = Done b
  | None => True
  end ∧
  (msg_type_of m = ViewChange ∨ mi_view (info m) = view (pbft_state s)).

Lemma pre_prepare_cases m s o s' :
  pre_prepare m s = (o, s') →
  (s' = s ∧ o ≠ Done (Ok tt)) ∨
  (o = Done (Ok tt) ∧ pre_prepare_guard m s ∧ s' = preparing_state m (stored_state m s)).
Proof.
  unfold pre_prepare. rewrite run_get_state, run_bind. unfold sm_lift at 1.
  destruct (get_primary_id (pbft_state s)) as [p| |] eqn:Hp; [|intros [= <- <-]; by left..].
  case_decide as Hsig; [intros [= <- <-]; by left|].
  rewrite run_get_log, run_bind. unfold sm_lift at 1.
  destruct (any_o _ _) as [[]| |] eqn:Hbn; cbn [negb]; [|intros [= <- <-]; by left..].
  assert (∀ o s', (try_bind (λ _ : (), st ← get_state;
       (if decide (mi_seq_num (info m) = seq_num st)
        then _ ← state_switch_phase Preparing; _ ← stop_timeout; mret (Ok tt) else mret (Ok tt)))
       (log_add_message m)) s = (o, s') →
     (s' = s ∧ o ≠ Done (Ok tt)) ∨
     (o = Done (Ok tt) ∧ (msg_type_of m = ViewChange ∨ mi_view (info m) = view (pbft_state s)) ∧
      s' = preparing_state m (stored_state m s))) as Hrest.
  { intros o' s''. rewrite run_add_message. case_decide as Hv; [|intros [= <- <-]; by left].
    fold (stored_state m s). rewrite run_get_state. unfold preparing_state.
    case_decide; intros [= <- <-]; by right. }
  unfold pre_prepare_guard. rewrite Hp, Hsig, Hbn.
  rewrite run_try. destruct (get_one_msg _ _ _) as [pp|] eqn:Hone.
  - rewrite run_bind. unfold sm_lift at 1. destruct (get_block pp) as [b| |]; [|intros [= <- <-]; by left..].
    rewrite run_bind. unfold sm_lift at 1. destruct (get_block m) as [b'| |]; [|intros [= <- <-]; by left..].
    rewrite run_ret. case_decide as Hb; [intros [= <- <-]; by left|]. subst b'.
    intros [?|(? & ? & ?)]%Hrest; [by left|]. right. split_and!; try done. by eexists.
  - rewrite run_ret. intros [?|(? & ? & ?)]%Hrest; [by left|]. by right.
Qed.

Lemma pre_prepare_ok m s s' :
  pre_prepare m s = (Done (Ok tt), s') →
  pre_prepare_guard m s ∧ m ∈ stored (msg_log s') ∧ view (pbft_state s') = view (pbft_state s).
Proof.
  intros [[_ ?]|(_ & Hg & ->)]%pre_prepare_cases; [done|]. split; [done|]. unfold preparing_state.
  case_decide; (split; [apply elem_of_stored_state|]); [|done].
  cbn. unfold switch_phase. by case_decide.
Qed.
End pre_prepare.

(** [on_block_new] with a parameter for catching up. *)
Section block_new.
Context `{Externals}.

(** What follows once the seal of the block is verified. *)
Definition announce_block (catchup : NodeM ()) (fuel : nat) (block : Block) : NodeM () :=
  st ← get_state;
  let pbft_block := pbft_block_from_block block in
  let i := make_msg_info BlockNew (view st) (bk_block_num block) (st_id st) in
  msg ← sm_lift (from_pbft_message (mkPbftMessage (Some i) (Some pbft_block)));
  log_add_message msg ;?
  next ← sm_lift (u64_add (seq_num st) 1);
  if decide (bk_block_num block = next ∧ phase st ≠ Finished) then catchup
  else if decide (bk_block_num block = seq_num st) then
    _ ← modify_state (set_working_block (Some pbft_block));
    st ← get_state;
    if is_primary st then
      broadcast_pbft_message (broadcast_message (on_peer_message fuel)) (seq_num st) PrePrepare pbft_block
    else mret (Ok tt)
  else mret (Ok tt).

(** What follows a seal that does not verify; it always ends in an error. *)
Definition fail_block (fuel : nat) (block : Block) (err : PbftError) : NodeM () :=
  r ← with_service (svc_fail_block (bk_block_id block));
  mret (map_err (λ _, InternalError "Couldn't fail block: {}") r) ;?
  propose_view_change fuel ;?
  mret (Err err).

Lemma fail_block_fails fuel block err s s' : fail_block fuel block err s ≠ (Done (Ok tt), s').
Proof.
  unfold fail_block. rewrite run_bind. destruct (with_service _ s) as [[r| |] s1]; [|done..].
  destruct r; cbn [map_err]; [|by rewrite run_try_ret_err]. rewrite run_try_ret_ok, run_try.
  by destruct (propose_view_change fuel s1) as [[[]| |] s2].
Qed.

Definition on_block_new_with (catchup : NodeM ()) (fuel : nat) (block : Block) : NodeM () :=
  st ← get_state;
  if bool_decide (bk_block_num block < seq_num st) then mret (Ok tt) else
  verified ← verify_consensus_seal block;
  match verified with
  | Ok (Some seal) =>
      _ ← modify_log (add_consensus_seal (bk_block_id block) (seq_num st) seal);
      mret (Ok tt)
  | Ok None => mret (Ok tt)
  | Err err => fail_block fuel block err
  end ;?
  announce_block catchup fuel block.

Lemma on_block_new_catchup fuel block : on_block_new fuel block = on_block_new_with (catchup block) fuel block.
Proof. done. Qed.

(** The condition under which a new block is caught up on. *)
Definition catching_up (block : Block) (st : PbftState) : Prop :=
  u64_add (seq_num st) 1 = Done (bk_block_num block) ∧ phase st ≠ Finished.

Lemma verify_consensus_seal_state block s :
  pbft_state (verify_consensus_seal block s).2 = pbft_state s.
Proof.
  assert (respects (frame pbft_state) (get_peers_at (bk_previous_id block))) as Hg.
  { unfold get_peers_at, svc_get_settings.
    apply respects_bind; [apply _|by apply respects_with_service|]. solve_respects. }
  symmetry. enough (respects (frame pbft_state) (verify_consensus_seal block)) as Hv by exact (Hv s).
  unfold verify_consensus_seal. solve_respects.
Qed.

Lemma add_message_state m s : pbft_state (log_add_message m s).2 = pbft_state s.
Proof. unfold log_add_message. by destruct (add_message _ _ _). Qed.

(** Unless it is caught up on, catching up does not matter. *)
Lemma on_block_new_no_catchup fuel block c c' s :
  ¬ catching_up block (pbft_state s) → on_block_new_with c fuel block s = on_block_new_with c' fuel block s.
Proof.
  intros Hno. unfold on_block_new_with, announce_block. rewrite !run_get_state. destruct (bool_decide _); [done|].
  rewrite !run_bind. pose proof (verify_consensus_seal_state block s) as Hst.
  destruct (verify_consensus_seal block s) as [[v| |] s1]; cbn [snd] in Hst; [|done..].
  rewrite !run_try.
  set (first := match v with Ok _ => _ | Err _ => _ end).
  assert (∀ s2, first s1 = (Done (Ok tt), s2) → pbft_state s2 = pbft_state s) as Hfirst.
  { intros s2. unfold first. destruct v as [[seal|]|e].
    - by intros [= <-].
    - by intros [= <-].
    - by intros ?%fail_block_fails. }
  destruct (first s1) as [[[[]|]| |] s2]; [|done..]. specialize (Hfirst s2 eq_refl).
  rewrite !run_get_state, !run_bind. unfold sm_lift at 1 3.
  destruct (from_pbft_message _) as [m| |]; [|done..]. rewrite !run_try.
  pose proof (add_message_state m s2) as Hadd.
  destruct (log_add_message m s2) as [[[[]|]| |] s3]; cbn [snd] in Hadd; [|done..].
  rewrite !run_bind. unfold sm_lift at 1 2. destruct (u64_add _ _) as [n| |] eqn:Hn; [|done..].
  case_decide as Hc; [|done]. destruct Hno. rewrite <- Hfirst. unfold catching_up. by destruct Hc as [-> Hp].
Qed.
End block_new.

Section frames.
Context `{Externals}.

(** Calls other than committing a block and voting for one. *)
Definition quiet (c : ServiceCall) : Prop :=
  (∀ b, c ≠ CommitBlock b) ∧ ∀ bs, c ≠ Broadcast (string_of_message_type Prepare) bs.

(** The bytes a node broadcasts of a message. *)
Definition sent_bytes (i : PbftMessageInfo) (b : PbftBlock) : bytes :=
  match make_msg_bytes i b with Ok bs => bs | Err _ => [] end.

(** The vote of a node for a pre-prepare. *)
Definition vote_call m b (st : PbftState) : ServiceCall :=
  Broadcast (string_of_message_type Prepare)
    (sent_bytes (make_msg_info Prepare (view st) (mi_seq_num (info m)) (st_id st)) b).

Record peer_effects (R : relation Sys) : Prop := {
  eff_call s c : quiet c → R s (set_service (service s ++ [c]) s);
  eff_vote s m b :
    m ∈ stored (msg_log s) → msg_type_of m = PrePrepare → mi_view (info m) = view (pbft_state s) →
    get_block m = Done b → R s (set_service (service s ++ [vote_call m b (pbft_state s)]) s);
  eff_now s : R s (mkSys (service s) (msg_log s) (pbft_state s) (S (ticks s)));
  eff_push s m : R s (set_log (push_backlog m (msg_log s)) s);
  eff_pop s : R s (set_log (pop_backlog (msg_log s)).2 s);
  eff_add s m :
    msg_type_of m = ViewChange ∨ msg_type_of m = BlockNew ∧ seq_num (pbft_state s) ≤ mi_seq_num (info m) →
    R s (set_log (add_message m (pbft_state s) (msg_log s)).2 s);
  eff_timeout s t :
    timeout_duration t = timeout_duration (faulty_primary_timeout (pbft_state s)) →
    R s (set_state (set_timeout t (pbft_state s)) s);
  eff_mode s : R s (set_state (set_mode ViewChanging (pbft_state s)) s);
  eff_pre_prepare m :
    msg_type_of m = PrePrepare → respects R (pre_prepare m);
  eff_prepare m :
    msg_type_of m = Prepare → respects R (prepare_arm m);
  eff_commit m :
    msg_type_of m = Commit → respects R (commit_arm m);
  eff_view_change m : respects R (view_change m)
}.

(** A valid block makes the node commit, before it handles its own commit. *)
Record effects (R : relation Sys) : Prop := {
  eff_peer :> peer_effects R;
  eff_committing s : R s (set_state (switch_phase Committing (pbft_state s)).2 s)
}.

Context (R : relation Sys) `{!PreOrder R}.

Lemma respects_now : (∀ s, R s (mkSys (service s) (msg_log s) (pbft_state s) (S (ticks s)))) → respects R now.
Proof. intros Hn s. apply Hn. Qed.

(** Derived operations, from unrestricted updates. *)
Lemma respects_switch_phase p :
  (∀ s, R s (set_state (switch_phase p (pbft_state s)).2 s)) → respects R (state_switch_phase p).
Proof. intros Hp. by apply respects_modify. Qed.

Lemma respects_set_timeout (f : N → Timeout → Timeout) :
  (∀ s, R s (mkSys (service s) (msg_log s) (pbft_state s) (S (ticks s)))) →
  (∀ s t, R s (set_state (set_timeout (f t (faulty_primary_timeout (pbft_state s))) (pbft_state s)) s)) →
  respects R (t ← now; modify_state (λ st, set_timeout (f t (faulty_primary_timeout st)) st)).
Proof.
  intros Hn Ht. apply respects_bind; [done|by apply respects_now|].
  intros t. apply respects_modify. intros s. apply Ht.
Qed.

Lemma respects_pre_prepare m :
  (∀ s, R s (mkSys (service s) (msg_log s) (pbft_state s) (S (ticks s)))) →
  (∀ s, R s (set_log (add_message m (pbft_state s) (msg_log s)).2 s)) →
  (∀ s p, R s (set_state (switch_phase p (pbft_state s)).2 s)) →
  (∀ s t, R s (set_state (set_timeout (stop t (faulty_primary_timeout (pbft_state s))) (pbft_state s)) s)) →
  respects R (pre_prepare m).
Proof.
  intros Hn Ha Hp Ht. pose proof (respects_log_add_message R m Ha).
  pose proof (λ p, respects_switch_phase p (λ s, Hp s p)).
  pose proof (respects_set_timeout stop Hn Ht : respects R stop_timeout).
  unfold pre_prepare. solve_respects.
Qed.

Lemma respects_commit m :
  (∀ s b, R s (set_service (service s ++ [CommitBlock b]) s)) →
  (∀ s p, R s (set_state (switch_phase p (pbft_state s)).2 s)) →
  respects R (commit m).
Proof.
  intros Hc Hp. pose proof (λ p, respects_switch_phase p (λ s, Hp s p)).
  pose proof (λ A (a : list ServiceCall → A) b, respects_with_service R a (CommitBlock b) (λ s, Hc s b)).
  unfold commit, svc_commit_block. solve_respects.
Qed.

Lemma respects_publish :
  respects R (with_service svc_summarize_block) → (∀ d, respects R (with_service (svc_finalize_block d))) →
  respects R try_publish.
Proof. intros Hs Hf. unfold try_publish, build_seal. solve_respects. Qed.

Lemma respects_check_expired :
  (∀ s, R s (mkSys (service s) (msg_log s) (pbft_state s) (S (ticks s)))) →
  (∀ s t, timeout_duration t = timeout_duration (faulty_primary_timeout (pbft_state s)) →
          R s (set_state (set_timeout t (pbft_state s)) s)) →
  respects R check_faulty_primary_timeout_expired.
Proof.
  intros Hn Ht. unfold check_faulty_primary_timeout_expired.
  apply respects_bind; [done|unfold get_state; eauto with respects|intros st].
  apply respects_bind; [done| |intros t].
  { case_decide; [by apply respects_now|apply (respects_ret R)]. }
  intros s. rewrite run_bind. cbn -[check_expired modify_state].
  destruct (check_expired t (faulty_primary_timeout (pbft_state s))) as [b t'] eqn:Hc.
  rewrite run_bind. cbn. apply Ht. revert Hc. unfold check_expired.
  case_bool_decide; by intros [= _ <-].
Qed.

Section from_effects.
Context (HR : peer_effects R).

Lemma respects_call {A} (answer : list ServiceCall → A) c :
  quiet c → respects R (with_service (call answer c)).
Proof. intros Hc. apply respects_with_service. intros s. by apply HR. Qed.

Lemma respects_add_view_change m : msg_type_of m = ViewChange → respects R (log_add_message m).
Proof. intros Hm. apply respects_log_add_message. intros s. apply (eff_add R HR). by left. Qed.

Lemma respects_mode : respects R (modify_state (set_mode ViewChanging)).
Proof. apply respects_modify. intros s. apply HR. Qed.

Lemma respects_push m : respects R (modify_log (push_backlog m)).
Proof. apply respects_modify. intros s. apply HR. Qed.

#[local] Hint Extern 1 (respects _ (with_service (call _ _))) => apply respects_call; split; intros; discriminate : respects.
#[local] Hint Resolve respects_mode respects_push eff_view_change : respects.

(** Only votes need the log to back them. *)
Lemma respects_broadcast_message h t b :
  t ≠ Prepare → (∀ m, respects R (h m)) → respects R (broadcast_message h t b).
Proof.
  intros Ht Hh. assert (quiet (Broadcast (string_of_message_type t) b)) as Hq.
  { split; [done|]. intros bs [= Hs _]. by apply Ht, (inj string_of_message_type). }
  unfold broadcast_message, svc_broadcast.
  apply respects_bind; [done|by apply respects_call|]. solve_respects.
Qed.

Lemma respects_broadcast_pbft_message h n t b :
  t ≠ Prepare → (∀ m, respects R (h m)) → respects R (broadcast_pbft_message (broadcast_message h) n t b).
Proof. intros Ht Hh. pose proof respects_broadcast_message. unfold broadcast_pbft_message. solve_respects. Qed.

Lemma respects_vote h m s :
  (∀ m, respects R (h m)) → m ∈ stored (msg_log s) → msg_type_of m = PrePrepare →
  mi_view (info m) = view (pbft_state s) → R s (broadcast_pre_prepare (broadcast_message h) m s).2.
Proof.
  intros Hh Hin Ht Hv. unfold broadcast_pre_prepare. rewrite run_bind. unfold sm_lift.
  destruct (get_block m) as [b| |] eqn:Hb; [|done..].
  unfold broadcast_pbft_message. rewrite run_get_state. case_match; [done|].
  unfold broadcast_message, svc_broadcast. rewrite run_call.
  etrans; [by apply (eff_vote R HR s m b)|].
  match goal with |- R ?s1 (?k ?s2).2 => change s2 with s1; enough (respects R k) as Hk by exact (Hk s1) end.
  solve_respects.
Qed.

Lemma respects_propose_view_change_with h :
  (∀ m, respects R (h m)) → respects R (propose_view_change_with (broadcast_message h)).
Proof.
  intros Hh. assert (∀ b, respects R (broadcast_message h ViewChange b)) by (intros; by apply respects_broadcast_message).
  unfold propose_view_change_with. solve_respects.
Qed.

#[local] Hint Resolve respects_propose_view_change_with : respects.

Lemma respects_propose_if_enough h m :
  (∀ m, respects R (h m)) → respects R (propose_view_change_if_enough_messages (broadcast_message h) m).
Proof. intros Hh. unfold propose_view_change_if_enough_messages. solve_respects. Qed.

#[local] Hint Resolve respects_propose_if_enough : respects.

Lemma respects_pre_prepare_arm h m :
  (∀ m, respects R (h m)) → msg_type_of m = PrePrepare →
  respects R (r ← pre_prepare m;
              match r with
              | Ok _ => broadcast_pre_prepare (broadcast_message h) m
              | Err NoBlockNew => _ ← modify_log (push_backlog m); mret (Ok tt)
              | Err e => mret (Err e)
              end).
Proof.
  intros Hh Ht s. rewrite run_bind. pose proof (eff_pre_prepare R HR m Ht s) as Hpp.
  destruct (pre_prepare m s) as [[[[]|e]| |] s1] eqn:Hrun; [|trans s1; [exact Hpp|]|exact Hpp..].
  - apply pre_prepare_ok in Hrun as ((_ & _ & _ & Hv) & Hin & Hview). trans s1; [exact Hpp|].
    apply respects_vote; [done..|]. rewrite Hview. destruct Hv as [Hv|Hv]; [congruence|done].
  - destruct e; try reflexivity. apply (eff_push R HR).
Qed.

Lemma respects_on_peer_message_body h m :
  (∀ m, respects R (h m)) → respects R (on_peer_message_body (broadcast_message h) m).
Proof.
  intros Hh. rewrite on_peer_message_body_arms. fold (msg_type_of m).
  destruct (msg_type_of m) eqn:Ht.
  - by apply respects_pre_prepare_arm.
  - by apply (eff_prepare R HR).
  - by apply (eff_commit R HR).
  - solve_respects.
  - pose proof (respects_add_view_change m Ht). solve_respects.
  - solve_respects.
Qed.

Lemma respects_on_peer_message fuel m : respects R (on_peer_message fuel m).
Proof.
  revert m. induction fuel as [|fuel IH]; intros m; cbn; [apply respects_lift; apply _|].
  by apply respects_on_peer_message_body.
Qed.

#[local] Hint Resolve respects_on_peer_message : respects.

Lemma respects_propose_view_change fuel : respects R (propose_view_change fuel).
Proof. unfold propose_view_change. solve_respects. Qed.

Lemma respects_broadcast_own fuel n t b :
  t ≠ Prepare → respects R (broadcast_pbft_message (broadcast_message (on_peer_message fuel)) n t b).
Proof. intros Ht. apply respects_broadcast_pbft_message; auto with respects. Qed.

Lemma respects_retry_backlog fuel : respects R (retry_backlog fuel).
Proof.
  intros s. unfold retry_backlog, get_log, modify_log.
  rewrite run_bind. cbn -[on_peer_message pop_backlog].
  destruct (pop_backlog (msg_log s)) as [popped log'] eqn:Hpop.
  rewrite run_bind. cbn -[on_peer_message].
  trans (set_log log' s).
  - pose proof (eff_pop R HR s) as Hp. by rewrite Hpop in Hp.
  - destruct popped; [apply respects_on_peer_message|reflexivity].
Qed.

Lemma respects_try_publish : respects R try_publish.
Proof. apply respects_publish; unfold svc_summarize_block, svc_finalize_block; eauto with respects. Qed.

Lemma respects_start_timeout : respects R start_timeout.
Proof. apply respects_set_timeout; intros; apply HR. done. Qed.

Lemma respects_check_timeout : respects R check_faulty_primary_timeout_expired.
Proof. apply respects_check_expired; apply HR. Qed.

Lemma respects_get_peers_at b : respects R (get_peers_at b).
Proof. unfold get_peers_at, svc_get_settings. solve_respects. Qed.

#[local] Hint Resolve respects_get_peers_at : respects.

Lemma respects_verify_consensus_seal b : respects R (verify_consensus_seal b).
Proof. unfold verify_consensus_seal. solve_respects. Qed.

#[local] Hint Resolve respects_propose_view_change respects_verify_consensus_seal : respects.

(** [on_block_new], given its effects on the log of seals and the working
    block, and catching up as a whole. *)
Section new_block.
Context (fuel : nat) (b : Block) (catchup : NodeM ()).
Context (Hseal : ∀ s n seal, R s (set_log (add_consensus_seal (bk_block_id b) n seal (msg_log s)) s)).
Context (Hwb : ∀ s wb, R s (set_state (set_working_block wb (pbft_state s)) s)).
Context (Hcatch : respects R catchup).

Lemma respects_announced s :
  seq_num (pbft_state s) ≤ bk_block_num b → R s (announce_block catchup fuel b s).2.
Proof.
  assert (∀ wb, respects R (modify_state (set_working_block wb))) as Hw
    by (intros; by apply respects_modify).
  assert (∀ n blk, respects R (broadcast_pbft_message (broadcast_message (on_peer_message fuel)) n PrePrepare blk))
    by (intros; apply respects_broadcast_pbft_message; auto with respects; done).
  intros Hn. unfold announce_block. rewrite run_get_state, run_bind. unfold sm_lift at 1.
  destruct (from_pbft_message _) as [p| |] eqn:Hp; [|done..].
  assert (info p = make_msg_info BlockNew (view (pbft_state s)) (bk_block_num b) (st_id (pbft_state s))) as Hi.
  { apply from_pbft_message_inv in Hp as [Hp _]. unfold info. by rewrite Hp. }
  assert (R s (log_add_message p s).2) as Hadd.
  { rewrite log_add_message_snd. apply (eff_add R HR). right. unfold msg_type_of. by rewrite Hi. }
  rewrite run_try. destruct (log_add_message p s) as [[[[]|]| |] s1]; [|done..].
  etrans; [exact Hadd|]. revert s1 Hadd. intros s1 _.
  match goal with |- R ?s1 (?k ?s2).2 => enough (respects R k) as Hk by exact (Hk s1) end.
  solve_respects.
Qed.

Lemma respects_on_block_new_with : respects R (on_block_new_with catchup fuel b).
Proof.
  intros s. unfold on_block_new_with. rewrite run_get_state.
  destruct (bool_decide _) eqn:Hn; [done|]. apply bool_decide_eq_false in Hn.
  rewrite run_bind. pose proof (respects_verify_consensus_seal b s) as Hv.
  pose proof (verify_consensus_seal_state b s) as Hst.
  destruct (verify_consensus_seal b s) as [[v| |] s1]; cbn [snd] in Hst, Hv; [|done..].
  etrans; [exact Hv|]. destruct v as [[seal|]|e].
  - rewrite run_try, run_modify_log, run_ret. etrans; [apply Hseal|]. apply respects_announced. cbn. rewrite Hst. lia.
  - rewrite run_try_ret_ok. apply respects_announced. rewrite Hst. lia.
  - rewrite run_try. assert (respects R (fail_block fuel b e)) as Hf.
    { unfold fail_block, svc_fail_block. solve_respects. }
    specialize (Hf s1). pose proof (fail_block_fails fuel b e s1) as Hno.
    destruct (fail_block fuel b e s1) as [[[[]|]| |] s2]; [by destruct (Hno s2)|exact Hf..].
Qed.
End new_block.
End from_effects.

Lemma respects_on_block_valid (HR : effects R) fuel b : respects R (on_block_valid fuel b).
Proof.
  pose proof (λ n blk, respects_broadcast_own HR fuel n Commit blk ltac:(done)).
  assert (respects R (state_switch_phase Committing)) by (apply respects_switch_phase; intros s; by apply HR).
  unfold on_block_valid, on_block_valid_body. solve_respects.
Qed.

(** When the guards of the phase changes do not matter. *)
Lemma effects_of_plain :
  (∀ s c, R s (set_service (service s ++ [c]) s)) →
  (∀ s, R s (mkSys (service s) (msg_log s) (pbft_state s) (S (ticks s)))) →
  (∀ s m, R s (set_log (push_backlog m (msg_log s)) s)) →
  (∀ s, R s (set_log (pop_backlog (msg_log s)).2 s)) →
  (∀ s m, R s (set_log (add_message m (pbft_state s) (msg_log s)).2 s)) →
  (∀ s p, R s (set_state (switch_phase p (pbft_state s)).2 s)) →
  (∀ s t, timeout_duration t = timeout_duration (faulty_primary_timeout (pbft_state s)) →
          R s (set_state (set_timeout t (pbft_state s)) s)) →
  (∀ s, R s (set_state (set_mode ViewChanging (pbft_state s)) s)) →
  (∀ m, respects R (view_change m)) →
  effects R.
Proof.
  intros Hc Hn Hpush Hpop Ha Hp Ht Hm Hv.
  pose proof (λ m, respects_log_add_message R m (λ s, Ha s m)) as Hadd.
  pose proof (λ p, respects_switch_phase p (λ s, Hp s p)) as Hphase.
  pose proof (λ A (a : list ServiceCall → A) c, respects_with_service R a c (λ s, Hc s c)) as Hcall.
  pose proof (λ m, respects_commit m (λ s b, Hc s (CommitBlock b)) Hp) as Hcommit.
  split; [split|]; auto; intros m _.
  - apply respects_pre_prepare; auto.
  - unfold prepare_arm, check_blocks_if_not_checking, svc_check_blocks. solve_respects.
  - unfold commit_arm, commit_block_if_committing. solve_respects.
Qed.
End frames.

(** ** Committing a block

    What [on_block_commit] and [catchup] do besides calling the service, for
    relations that do not look at several state fields at once. *)
Section commit_frames.
Context `{Externals}.

Record commit_effects (R : relation Sys) : Prop := {
  ce_seq s n : R s (set_state (set_seq_num n (pbft_state s)) s);
  ce_working_block s wb : R s (set_state (set_working_block wb (pbft_state s)) s);
  ce_peer_ids s ps : R s (set_state (set_peer_ids ps (pbft_state s)) s);
  ce_f s f : R s (set_state (set_f f (pbft_state s)) s);
  ce_view s v : R s (set_state (set_view v (pbft_state s)) s);
  ce_role s r : R s (set_state (set_role r (pbft_state s)) s);
  ce_phase s p : R s (set_state (set_phase p (pbft_state s)) s);
  ce_mode s m : R s (set_state (set_mode m (pbft_state s)) s);
  ce_timeout s t :
    timeout_duration t = timeout_duration (faulty_primary_timeout (pbft_state s)) →
    R s (set_state (set_timeout t (pbft_state s)) s);
  ce_call s c : (∀ t bs, c ≠ Broadcast t bs) → R s (set_service (service s ++ [c]) s);
  ce_now s : R s (mkSys (service s) (msg_log s) (pbft_state s) (S (ticks s)));
  ce_gc s n b l' : garbage_collect n b (msg_log s) = Done l' → R s (set_log l' s)
}.

Context (R : relation Sys) `{!PreOrder R} (HC : commit_effects R).

Lemma ce_switch s p : R s (set_state (switch_phase p (pbft_state s)).2 s).
Proof.
  destruct (switch_phase_cases p (pbft_state s)) as [->|[_ ->]]; [by destruct s|apply HC].
Qed.

Lemma ce_set_timeout f :
  (∀ t x, timeout_duration (f t x) = timeout_duration x) →
  respects R (t ← now; modify_state (λ st, set_timeout (f t (faulty_primary_timeout st)) st)).
Proof. intros Hf. apply respects_set_timeout; [done|apply HC|]. intros s t. by apply (ce_timeout R HC). Qed.

Lemma ce_respects_call {A} (answer : list ServiceCall → A) c :
  (∀ t bs, c ≠ Broadcast t bs) → respects R (with_service (call answer c)).
Proof. intros Hc. apply respects_with_service. intros s. by apply HC. Qed.

#[local] Hint Extern 1 (respects _ (with_service (call _ _))) => apply ce_respects_call; intros; discriminate : respects.

Lemma ce_start_timeout : respects R start_timeout.
Proof. by apply ce_set_timeout. Qed.

Lemma ce_modify_role r : respects R (modify_state (set_role r)).
Proof. apply respects_modify. intros. apply HC. Qed.
Lemma ce_modify_view v : respects R (modify_state (set_view v)).
Proof. apply respects_modify. intros. apply HC. Qed.
Lemma ce_modify_seq v : respects R (modify_state (set_seq_num v)).
Proof. apply respects_modify. intros. apply HC. Qed.
Lemma ce_modify_wb v : respects R (modify_state (set_working_block v)).
Proof. apply respects_modify. intros. apply HC. Qed.
Lemma ce_modify_peers v : respects R (modify_state (set_peer_ids v)).
Proof. apply respects_modify. intros. apply HC. Qed.
Lemma ce_modify_f v : respects R (modify_state (set_f v)).
Proof. apply respects_modify. intros. apply HC. Qed.
Lemma ce_modify_phase v : respects R (modify_state (set_phase v)).
Proof. apply respects_modify. intros. apply HC. Qed.
Lemma ce_state_switch p : respects R (state_switch_phase p).
Proof. apply respects_modify. intros. apply ce_switch. Qed.
Lemma ce_respects_now : respects R now.
Proof. apply respects_now. intros. apply HC. Qed.

#[local] Hint Resolve ce_start_timeout ce_modify_role ce_modify_view ce_modify_seq ce_modify_wb
  ce_modify_peers ce_modify_f ce_modify_phase ce_state_switch ce_respects_now : respects.

Lemma ce_check_is_primary : respects R check_is_primary.
Proof. unfold check_is_primary. solve_respects. Qed.

Lemma ce_become_primary : respects R become_primary.
Proof.
  unfold become_primary, upgrade_role, svc_ignore_block, svc_initialize_block.
  apply respects_bind; [done|apply ce_modify_role|]. solve_respects.
Qed.

Lemma ce_become_secondary : respects R become_secondary.
Proof. apply ce_modify_role. Qed.

#[local] Hint Resolve ce_check_is_primary ce_become_primary ce_become_secondary : respects.

Lemma ce_force_view_change : respects R force_view_change.
Proof. unfold force_view_change, set_current_view. solve_respects. Qed.

Lemma ce_discard t : respects R (modify_state (discard_current_block t)).
Proof.
  apply respects_modify. intros s. unfold discard_current_block.
  set (s1 := set_state (set_working_block None (pbft_state s)) s).
  set (s2 := set_state (set_phase PrePreparing (pbft_state s1)) s1).
  set (s3 := set_state (set_mode Normal (pbft_state s2)) s2).
  trans s1; [apply HC|]. trans s2; [apply HC|]. trans s3; [apply HC|].
  exact (ce_timeout R HC s3 (start t (faulty_primary_timeout (pbft_state s3))) eq_refl).
Qed.

#[local] Hint Resolve ce_discard : respects.

Lemma ce_view_change m : respects R (view_change m).
Proof.
  unfold view_change, check_received_enough_view_changes, set_current_view_from_msg, set_current_view.
  solve_respects.
Qed.

Lemma ce_get_peers_at b : respects R (get_peers_at b).
Proof. unfold get_peers_at, svc_get_settings. solve_respects. Qed.

#[local] Hint Resolve ce_get_peers_at ce_force_view_change : respects.

Lemma ce_update_membership b : respects R (update_membership b).
Proof. unfold update_membership. solve_respects. Qed.

#[local] Hint Resolve ce_update_membership : respects.

Lemma ce_collect {A} b (k : SM Sys A) :
  respects R k →
  respects R (st ← get_state; log ← get_log;
              log' ← sm_lift (garbage_collect (seq_num st) b log); _ ← modify_log (λ _, log'); k).
Proof.
  intros Hk s. rewrite run_get_state, run_get_log, run_bind. unfold sm_lift at 1.
  destruct (garbage_collect (seq_num (pbft_state s)) b (msg_log s)) as [l'| |] eqn:Hgc; [|reflexivity..].
  rewrite run_modify_log.
  trans (set_log l' s); [by eapply (ce_gc R HC)|apply Hk].
Qed.

Lemma ce_on_block_commit b : respects R (on_block_commit b).
Proof.
  unfold on_block_commit, svc_initialize_block.
  repeat first [ apply ce_collect | solve [eauto with respects typeclass_instances] | case_match
               | apply respects_bind; [done| |intros ?] ].
Qed.

Lemma ce_try_publish : respects R try_publish.
Proof. apply respects_publish; unfold svc_summarize_block, svc_finalize_block; eauto with respects. Qed.

Lemma ce_check_timeout : respects R check_faulty_primary_timeout_expired.
Proof. apply respects_check_expired; [done|apply HC..]. Qed.

Lemma ce_commit m : respects R (commit m).
Proof. apply respects_commit; [done|intros; by apply HC|]. intros. apply ce_switch. Qed.

#[local] Hint Resolve ce_on_block_commit ce_commit : respects.

Lemma ce_commit_block m : respects R (commit_block_if_committing m).
Proof. unfold commit_block_if_committing. solve_respects. Qed.

Lemma ce_check_blocks m : respects R (check_blocks_if_not_checking m).
Proof. unfold check_blocks_if_not_checking, svc_check_blocks. solve_respects. Qed.

#[local] Hint Resolve ce_commit_block ce_check_blocks : respects.

Section with_add.
Context (Hadd : ∀ s m, R s (set_log (add_message m (pbft_state s) (msg_log s)).2 s)).

Lemma ce_add m : respects R (log_add_message m).
Proof. by apply respects_log_add_message. Qed.

Lemma ce_add_all ms : respects R (add_all_messages ms).
Proof. induction ms; cbn; pose proof ce_add; solve_respects. Qed.

Lemma ce_catchup b : respects R (catchup b).
Proof. pose proof ce_add_all. unfold catchup. solve_respects. Qed.

Lemma ce_pre_prepare m : respects R (pre_prepare m).
Proof.
  apply respects_pre_prepare; [done|apply HC|done|intros; apply ce_switch|].
  intros s t. by apply (ce_timeout R HC).
Qed.

(** With the backlog and additions to the log, every effect is covered. *)
Lemma effects_of_commit_effects :
  (∀ s m, R s (set_log (push_backlog m (msg_log s)) s)) →
  (∀ s, R s (set_log (pop_backlog (msg_log s)).2 s)) →
  (∀ s c, R s (set_service (service s ++ [c]) s)) →
  effects R.
Proof.
  intros Hpush Hpop Hcall. pose proof ce_add.
  split; [split|]; intros; auto using ce_switch, ce_pre_prepare, ce_view_change; try (apply HC; done).
  - unfold prepare_arm. solve_respects.
  - unfold commit_arm. solve_respects.
Qed.
End with_add.
End commit_frames.
