(* ===== verification/Storage.v ===== *)
(** * Storage (src/src/storage/)

    A value with a backing store.  [read] and [write] hand out guards; dropping
    a write guard writes a [DiskStorage] to its file.  A storage is modelled by
    what its guards give access to ([storage_read], [storage_put]) and by the
    effect of that drop ([storage_drop]). *)

From S2P Require Import Prelude.

(** The file system: the contents of the files that exist, by path. *)
Abbreviation Files := (gmap string string) (only parsing).

(** [std::fs] and [atomicwrites]: an existing file may fail to open or to be
    read; an atomic write replaces one file or changes nothing. *)
Class FileSystem := {
  open_fails : Files → string → bool;
  read_error : Files → string → option string;
  atomic_write : string → string → Files → Result () string * Files;
  atomic_write_ok : ∀ path contents fs fs',
    atomic_write path contents fs = (Ok tt, fs') → fs' = <[path := contents]> fs;
  atomic_write_err : ∀ path contents fs e fs',
    atomic_write path contents fs = (Err e, fs') → fs' = fs
}.

(** [serde_json] at a type. *)
Class Serde (T : Type) := {
  to_json : T → Result string string;
  from_json : string → Result T string
}.

(** What a value becomes when it is stored and loaded again; types that lose
    precision on the way ([serde_millis] instants) are not equal to it. *)
Class SerdeLaws (T : Type) `{Serde T} := {
  reloaded : T → T;
  from_to_json : ∀ x j, to_json x = Ok j → from_json j = Ok (reloaded x)
}.

(** [File::open] and [read_to_string]. *)
Definition open_file `{FileSystem} (fs : Files) (path : string) : option string :=
  if open_fails fs path then None else fs !! path.

(** ** The [Storage] trait *)

Class Storage (St : Type → Type) := {
  storage_read : ∀ {T}, St T → T;
  storage_put : ∀ {T}, T → St T → St T;
  storage_drop : ∀ {T} `{FileSystem} `{Serde T}, St T → SM Files ()
}.

(** What clients rely on: a write guard changes the value it is read through,
    and dropping it stores the value under the storage's path, if it has one. *)
Class StorageLaws (St : Type → Type) `{Storage St} := {
  storage_path : ∀ {T}, St T → option string;
  storage_read_put : ∀ {T} (x : T) st, storage_read (storage_put x st) = x;
  storage_path_put : ∀ {T} (x : T) (st : St T), storage_path (storage_put x st) = storage_path st;
  storage_drop_files : ∀ {T} `{FileSystem} `{Serde T} (st : St T) fs fs',
    storage_drop st fs = (Done tt, fs') →
    match storage_path st with
    | Some path => ∃ j, to_json (storage_read st) = Ok j ∧ fs' = <[path := j]> fs
    | None => fs' = fs
    end
}.

(** ** In memory *)

Record MemStorage (T : Type) := mkMemStorage { mem_data : T }.
Arguments mkMemStorage {_} _.
Arguments mem_data {_} _.

Definition mem_storage_new {S T} (default : SM S T) : SM S (MemStorage T) :=
  data ← default;
  mret (mkMemStorage data).

#[export] Instance mem_storage : Storage MemStorage := {|
  storage_read _ := mem_data;
  storage_put _ x _ := mkMemStorage x;
  storage_drop _ _ _ _ := mret tt
|}.

#[export] Instance mem_storage_laws : StorageLaws MemStorage.
Proof.
  refine {| storage_path _ _ := None |}; try done.
  intros T ? ? st fs fs' [= <-]. done.
Defined.

(** ** On disk *)

Record DiskStorage (T : Type) := mkDiskStorage { disk_data : T; disk_file : string }.
Arguments mkDiskStorage {_} _ _.
Arguments disk_data {_} _.
Arguments disk_file {_} _.

(** [Drop for DiskStorageWriteGuard]. *)
Definition disk_drop {T} `{FileSystem} `{Serde T} (st : DiskStorage T) : SM Files () := λ fs,
  match to_json (disk_data st) with
  | Err _ => (Panic "Couldn't convert value to string!", fs)
  | Ok contents =>
      let '(r, fs') := atomic_write (disk_file st) contents fs in
      match r with
      | Ok _ => (Done tt, fs')
      | Err _ => (Panic "File write failed while dropping DiskStorageWriteGuard!", fs')
      end
  end.

#[export] Instance disk_storage : Storage DiskStorage := {|
  storage_read _ := disk_data;
  storage_put _ x st := mkDiskStorage x (disk_file st);
  storage_drop _ _ _ := disk_drop
|}.

Lemma disk_drop_inv {T} `{FileSystem} `{Serde T} (st : DiskStorage T) fs fs' :
  disk_drop st fs = (Done tt, fs') →
  ∃ j, to_json (disk_data st) = Ok j ∧ fs' = <[disk_file st := j]> fs.
Proof.
  unfold disk_drop. destruct (to_json _) as [j|]; [|done].
  destruct (atomic_write _ _ _) as [[[]|] fs1] eqn:Hw; [|done].
  intros [= <-]. exists j. split; [done|]. by apply atomic_write_ok.
Qed.

#[export] Instance disk_storage_laws : StorageLaws DiskStorage.
Proof.
  refine {| storage_path _ st := Some (disk_file st) |}; try done.
  intros T ? ? st fs fs'. apply disk_drop_inv.
Defined.

(** [DiskStorage::from_path], in a state that holds the files. *)
Section from_path.
Context {S T : Type} `{FileSystem} `{Serde T}.
Context (get_files : S → Files) (put_files : Files → S → S).

Definition from_path (path : string) (default : SM S T) : SM S (Result (DiskStorage T) string) :=
  fs ← sm_gets get_files;
  data ←? match open_file fs path with
          | Some contents =>
              mret match read_error fs path with
                   | Some err => Err ("Couldn't read file: " +:+ err)
                   | None => map_err (λ err, "Couldn't read file: " +:+ err) (from_json contents)
                   end
          | None =>
              data ← default;
              written ← zoom get_files put_files (λ fs,
                match to_json data with
                | Err err => (Done (Err err), fs)
                | Ok contents => let '(r, fs') := atomic_write path contents fs in (Done r, fs')
                end);
              mret match written with
                   | Ok _ => Ok data
                   | Err err => Err ("File write failed: " +:+ err)
                   end
          end;
  mret (Ok (mkDiskStorage data path)).
End from_path.

(** ** [get_storage] *)

(** [Box<dyn Storage>]. *)
Inductive AnyStorage (T : Type) :=
| InMemory (st : MemStorage T)
| OnDisk (st : DiskStorage T).
Arguments InMemory {_} _.
Arguments OnDisk {_} _.

#[export] Instance any_storage : Storage AnyStorage := {|
  storage_read _ st := match st with InMemory st => storage_read st | OnDisk st => storage_read st end;
  storage_put _ x st :=
    match st with InMemory st => InMemory (storage_put x st) | OnDisk st => OnDisk (storage_put x st) end;
  storage_drop _ _ _ st := match st with InMemory st => storage_drop st | OnDisk st => storage_drop st end
|}.

#[export] Instance any_storage_laws : StorageLaws AnyStorage.
Proof.
  refine {| storage_path _ st :=
              match st with InMemory st => storage_path st | OnDisk st => storage_path st end |}.
  - by intros T x [].
  - by intros T x [].
  - intros T ? ? [st|st] fs fs' Hd.
    + exact (storage_drop_files st fs fs' Hd).
    + exact (storage_drop_files st fs fs' Hd).
Defined.

(** The part of a location after its first plus sign ([splitn(2, '+')]). *)
Fixpoint after_plus (s : string) : option string :=
  match s with
  | EmptyString => None
  | String c s => if decide (c = Ascii.ascii_of_N 43) then Some s else after_plus s
  end.

Section get_storage.
Context {S T : Type} `{FileSystem} `{Serde T}.
Context (get_files : S → Files) (put_files : Files → S → S).

Definition get_storage (location : string) (default : SM S T) : SM S (Result (AnyStorage T) string) :=
  if decide (location = "memory") then
    st ← mem_storage_new default;
    mret (Ok (InMemory st))
  else if String.prefix "disk" location then
    match after_plus location with
    | None => mret (Err ("Invalid location: " +:+ location))
    | Some path =>
        r ← from_path get_files put_files path default;
        match r with
        | Ok st => mret (Ok (OnDisk st))
        | Err _ => sm_lift (Panic "called `Result::unwrap()` on an `Err` value")
        end
    end
  else mret (Err ("Unknown storage location type: " +:+ location)).
End get_storage.

(** ** Loading what was stored *)

Section reload.
Context {S T : Type} `{FileSystem} `{Serde T} `{!SerdeLaws T}.
Context (get_files : S → Files) (put_files : Files → S → S).

(** A file that can be read and holds a stored value gives it back; the default
    is not evaluated and nothing is written. *)
Lemma from_path_stored path (default : SM S T) s x j :
  get_files s !! path = Some j → to_json x = Ok j →
  open_fails (get_files s) path = false → read_error (get_files s) path = None →
  from_path get_files put_files path default s = (Done (Ok (mkDiskStorage (reloaded x) path)), s).
Proof.
  intros Hj Hx Ho Hr. unfold from_path. rewrite run_gets. unfold open_file. rewrite Ho, Hj, Hr.
  rewrite (from_to_json _ _ Hx). cbn [map_err]. by rewrite run_try_ret_ok.
Qed.

(** Without a file the default is computed and written. *)
Lemma from_path_fresh path (default : SM S T) s x s1 j fs' :
  get_files s !! path = None → default s = (Done x, s1) → to_json x = Ok j →
  atomic_write path j (get_files s1) = (Ok tt, fs') →
  from_path get_files put_files path default s = (Done (Ok (mkDiskStorage x path)), put_files fs' s1).
Proof.
  intros Hj Hx Hto Hw. unfold from_path. rewrite run_gets. unfold open_file. rewrite Hj.
  assert (∀ A (a b : A), (if open_fails (get_files s) path then a else a) = a) as Hif by by intros; destruct (open_fails _ _).
  rewrite (Hif _ None None). rewrite run_try, (run_bind_done _ _ _ _ _ Hx).
  rewrite run_bind. unfold zoom. by rewrite Hto, Hw.
Qed.
End reload.
