(* ===== verification/Fixture.v ===== *)
(** * A concrete environment

    Executable stand-ins for the code outside the repository, used to run the
    model on concrete inputs: a tagged, self-delimiting serialization that
    satisfies [CodecLaws], hexadecimal, a signature scheme in which a signature
    is the signer's key, a validator that accepts everything, and four peers. *)

From S2P Require Import Prelude HashSet MessageType Wire Service Errors Messages.
From S2P Require Import Timing Config NodeState MessageLog Sys Handlers Node Storage.
From Stdlib Require Import Strings.Byte.

(** ** Self-delimiting serialization *)

Class Ser (A : Type) := {
  enc : A → bytes;
  dec : bytes → option (A * bytes);
  dec_enc : ∀ a r, dec (enc a ++ r) = Some (a, r)
}.

Fixpoint enc_bytes (l : bytes) : bytes :=
  match l with [] => [x00] | b :: l => x01 :: b :: enc_bytes l end.
Fixpoint dec_bytes (l : bytes) : option (bytes * bytes) :=
  match l with
  | x00 :: r => Some ([], r)
  | x01 :: b :: r => '(l, r) ← dec_bytes r; Some (b :: l, r)
  | _ => None
  end.

#[export] Program Instance ser_bytes : Ser bytes := {| enc := enc_bytes; dec := dec_bytes |}.
Next Obligation. intros a. induction a as [|b a IH]; intros r; cbn; [done|]. by rewrite IH. Qed.

Fixpoint enc_pos (p : positive) : bytes :=
  match p with xH => [x00] | xO p => x01 :: enc_pos p | xI p => x02 :: enc_pos p end.
Fixpoint dec_pos (l : bytes) : option (positive * bytes) :=
  match l with
  | x00 :: r => Some (xH, r)
  | x01 :: r => '(p, r) ← dec_pos r; Some (xO p, r)
  | x02 :: r => '(p, r) ← dec_pos r; Some (xI p, r)
  | _ => None
  end.

#[export] Program Instance ser_pos : Ser positive := {| enc := enc_pos; dec := dec_pos |}.
Next Obligation. intros a. induction a; intros r; cbn; rewrite ?IHa; done. Qed.

Section combinators.
Context `{Ser A}.

Definition enc_option (o : option A) : bytes :=
  match o with None => [x00] | Some a => x01 :: enc a end.
Definition dec_option (l : bytes) : option (option A * bytes) :=
  match l with
  | x00 :: r => Some (None, r)
  | x01 :: r => '(a, r) ← dec r; Some (Some a, r)
  | _ => None
  end.

Definition dec_pair `{Ser B} (l : bytes) : option (A * B * bytes) :=
  '(a, r) ← dec l; '(b, r) ← dec r; Some ((a, b), r).

Definition dec_inj {B} (g : A → option B) (l : bytes) : option (B * bytes) :=
  '(b, r) ← dec l; a ← g b; Some (a, r).

(** A list is its length followed by its elements. *)
Fixpoint enc_elements (l : list A) : bytes :=
  match l with [] => [] | a :: l => enc a ++ enc_elements l end.
Fixpoint dec_elements (n : nat) (l : bytes) : option (list A * bytes) :=
  match n with
  | O => Some ([], l)
  | S n => '(a, r) ← dec l; '(k, r) ← dec_elements n r; Some (a :: k, r)
  end.
End combinators.

#[export] Program Instance ser_option `{Ser A} : Ser (option A) := {| enc := enc_option; dec := dec_option |}.
Next Obligation. intros A HA [a|] r; cbn; [by rewrite dec_enc|done]. Qed.

#[export] Program Instance ser_pair `{Ser A, Ser B} : Ser (A * B) := {|
  enc p := enc p.1 ++ enc p.2;
  dec := dec_pair
|}.
Next Obligation.
  intros A HA B HB [a b] r. cbn. unfold dec_pair. rewrite <- app_assoc, dec_enc. cbn. by rewrite dec_enc.
Qed.

(** A serialization through an embedding. *)
Program Definition ser_inj {A B} `{Ser B} (f : A → B) (g : B → option A) (Hgf : ∀ a, g (f a) = Some a) : Ser A := {|
  enc a := enc (f a);
  dec := dec_inj g
|}.
Next Obligation. intros A B HB f g Hgf a r. unfold dec_inj. rewrite dec_enc. cbn. by rewrite Hgf. Qed.

#[export] Program Instance ser_N : Ser N :=
  ser_inj (λ n, match n with 0 => None | Npos p => Some p end)
          (λ o, Some match o with None => 0 | Some p => Npos p end) _.
Next Obligation. by intros []. Qed.

#[export] Program Instance ser_string : Ser string :=
  ser_inj String.list_byte_of_string (λ l, Some (String.string_of_list_byte l)) _.
Next Obligation. intros s. cbn. by rewrite String.string_of_list_byte_of_string. Qed.

Definition dec_list `{Ser A} (b : bytes) : option (list A * bytes) :=
  '(n, r) ← dec b; dec_elements (N.to_nat n) r.

#[export] Program Instance ser_list `{Ser A} : Ser (list A) := {|
  enc l := enc (len l) ++ enc_elements l;
  dec := dec_list
|}.
Next Obligation.
  intros A HA l r. unfold dec_list. rewrite <- app_assoc, dec_enc. cbn. unfold len. rewrite Nat2N.id.
  induction l as [|a l IH]; cbn; [done|]. rewrite <- app_assoc, dec_enc. cbn. by rewrite IH.
Qed.

#[export] Program Instance ser_info : Ser PbftMessageInfo :=
  ser_inj (λ i, (mi_msg_type i, (mi_view i, (mi_seq_num i, mi_signer_id i))))
          (λ t, Some (mkPbftMessageInfo t.1 t.2.1 t.2.2.1 t.2.2.2)) _.
Next Obligation. by intros []. Qed.
#[export] Program Instance ser_block : Ser PbftBlock :=
  ser_inj (λ b, (pb_block_id b, (pb_signer_id b, (pb_block_num b, pb_summary b))))
          (λ t, Some (mkPbftBlock t.1 t.2.1 t.2.2.1 t.2.2.2)) _.
Next Obligation. by intros []. Qed.
#[export] Program Instance ser_message : Ser PbftMessage :=
  ser_inj (λ m, (pm_info m, pm_block m)) (λ t, Some (mkPbftMessage t.1 t.2)) _.
Next Obligation. by intros []. Qed.
#[export] Program Instance ser_vote : Ser PbftSignedCommitVote :=
  ser_inj (λ v, (sv_header_bytes v, (sv_header_signature v, sv_message_bytes v)))
          (λ t, Some (mkPbftSignedCommitVote t.1 t.2.1 t.2.2)) _.
Next Obligation. by intros []. Qed.
#[export] Program Instance ser_seal : Ser PbftSeal :=
  ser_inj (λ s, (ps_previous_id s, (ps_summary s, ps_previous_commit_votes s)))
          (λ t, Some (mkPbftSeal t.1 t.2.1 t.2.2)) _.
Next Obligation. by intros []. Qed.
#[export] Program Instance ser_view_change : Ser PbftViewChange :=
  ser_inj (λ m, (pv_info m, pv_seal m)) (λ t, Some (mkPbftViewChange t.1 t.2)) _.
Next Obligation. by intros []. Qed.
#[export] Program Instance ser_header : Ser PeerMessageHeader :=
  ser_inj (λ h, (ph_signer_id h, ph_content_sha512 h)) (λ t, Some (mkPeerMessageHeader t.1 t.2)) _.
Next Obligation. by intros []. Qed.

(** Top-level values carry a tag and end with the input. *)
Definition write_tagged `{Ser A} (tag : Byte.byte) (a : A) : Result bytes ProtobufError :=
  Ok (tag :: enc a).
Definition parse_tagged `{Ser A} (tag : Byte.byte) (b : bytes) : Result A ProtobufError :=
  match b with
  | [] => Err (mkProtobufError "unexpected end of input")
  | t :: r =>
      if decide (t = tag) then
        match dec r with
        | Some (a, []) => Ok a
        | _ => Err (mkProtobufError "malformed")
        end
      else Err (mkProtobufError "unexpected tag")
  end.

Lemma parse_write_tagged `{Ser A} tag (a : A) : ∃ b, write_tagged tag a = Ok b ∧ parse_tagged tag b = Ok a.
Proof.
  exists (tag :: enc a). split; [done|]. cbn. rewrite decide_True by done.
  by rewrite <- (app_nil_r (enc a)), dec_enc.
Qed.

#[local] Instance fix_codec : Codec := {|
  message_to_bytes := write_tagged x0a;
  message_of_bytes := parse_tagged x0a;
  view_change_to_bytes := write_tagged x0b;
  view_change_of_bytes := parse_tagged x0b;
  seal_to_bytes := write_tagged x0c;
  seal_of_bytes := parse_tagged x0c;
  header_of_bytes := parse_tagged x0d
|}.

#[local] Instance fix_codec_laws : CodecLaws.
Proof.
  split; try (intros; apply parse_write_tagged).
  intros vc b m Hw Hp. cbn in Hw. injection Hw as <-. done.
Qed.

(** ** Cryptography, settings, validator *)

Definition hex_digit (n : N) : Ascii.ascii :=
  Ascii.ascii_of_N (if bool_decide (n < 10) then 48 + n else 87 + n).
Definition hex_value (c : Ascii.ascii) : option N :=
  let n := Ascii.N_of_ascii c in
  if bool_decide (48 ≤ n ≤ 57) then Some (n - 48)
  else if bool_decide (97 ≤ n ≤ 102) then Some (n - 87) else None.

Fixpoint fix_hex_encode (b : bytes) : string :=
  match b with
  | [] => ""
  | x :: b => String (hex_digit (Byte.to_N x / 16)) (String (hex_digit (Byte.to_N x mod 16)) (fix_hex_encode b))
  end.
Fixpoint fix_hex_decode (s : string) : option bytes :=
  match s with
  | EmptyString => Some []
  | String a (String b s) =>
      h ← hex_value a; l ← hex_value b; x ← Byte.of_N (16 * h + l);
      r ← fix_hex_decode s; Some (x :: r)
  | _ => None
  end.

#[local] Instance fix_crypto : Crypto := {|
  sha256 := λ b, b;
  sha512 := λ b, b;
  hex_encode := fix_hex_encode;
  hex_decode := fix_hex_decode;
  PublicKey := string;
  public_key_from_hex := λ s, if decide (s = "") then None else Some s;
  create_context := Ok tt;
  verify_signature := λ sig _ key, Ok (String.prefix key sig)
|}.

(** Items separated by commas. *)
Fixpoint split_commas (acc : string) (s : string) : list string :=
  match s with
  | EmptyString => [acc]
  | String c s =>
      if decide (c = Ascii.ascii_of_N 44) then acc :: split_commas "" s
      else split_commas (acc +:+ String c EmptyString) s
  end.

#[local] Instance fix_json : Json := {| json_strings := λ s, Some (split_commas "" s) |}.

(** A validator that accepts everything and always reports these settings. *)
Definition accepting_service (settings : gmap string string) : Service := {|
  on_initialize_block := λ _ _, Ok tt;
  on_summarize_block := λ _, Ok [];
  on_finalize_block := λ _ _, Ok [];
  on_check_blocks := λ _ _, Ok tt;
  on_commit_block := λ _ _, Ok tt;
  on_ignore_block := λ _ _, Ok tt;
  on_fail_block := λ _ _, Ok tt;
  on_get_settings := λ _ _ _, Ok settings;
  on_broadcast := λ _ _ _, Ok tt
|}.

Definition fix_order : HashOrder := {|
  iter_order := λ _ _ l, l;
  iter_order_perm := λ _ _ l, reflexivity l
|}.

Definition rev_order : HashOrder := {|
  iter_order := λ _ _ l, reverse l;
  iter_order_perm := λ _ _ l, reverse_Permutation l
|}.

Definition four_peers : gmap string string := {[ peers_key := "00,01,02,03" ]}.

Definition env_with (checks : bool) (sv : Service) : Externals := {|
  ext_platform := {| overflow_checks := checks |};
  ext_order := fix_order;
  ext_codec := fix_codec;
  ext_crypto := fix_crypto;
  ext_json := fix_json;
  ext_service := sv;
  ext_clock := {| clock_at := N.of_nat |}
|}.

(** The release build with an accepting validator. *)
Definition fix_env : Externals := env_with false (accepting_service four_peers).

(** ** Files and states *)

(** A file system on which nothing fails. *)
#[local] Program Instance fix_files : FileSystem := {|
  open_fails _ _ := false;
  read_error _ _ := None;
  atomic_write path contents fs := (Ok tt, <[path := contents]> fs)
|}.
Next Obligation. by intros ???? [= <-]. Qed.
Next Obligation. done. Qed.

(** Enough of a state to tell two of them apart; it is never loaded here. *)
#[local] Instance fix_serde : Serde PbftState := {|
  to_json st := Ok (pretty (seq_num st) +:+ "/" +:+ pretty (view st));
  from_json _ := Err "unsupported"
|}.

(** Numbers in decimal. *)
#[local] Instance decimal : Serde N := {|
  to_json n := if bool_decide (n < two64) then Ok (pretty n) else Err "too large";
  from_json s := match parse_u64 s with Some n => Ok n | None => Err "not a number" end
|}.

Lemma decimal_roundtrip (n : N) j : to_json n = Ok j → from_json j = Ok n.
Proof. cbn. case_bool_decide; [|done]. intros [= <-]. by rewrite parse_u64_pretty. Qed.

#[local] Instance decimal_laws : SerdeLaws N := {| reloaded n := n; from_to_json := decimal_roundtrip |}.

(** ** Sample data *)

Definition peer (n : N) : PeerId := [default x00 (Byte.of_N n)].

Definition mock_config (n : N) : PbftConfig :=
  {| cfg_peers := peer <$> (N.of_nat <$> seq 0 (N.to_nat n));
     cfg_block_duration := cfg_block_duration default_config;
     cfg_message_timeout := cfg_message_timeout default_config;
     cfg_faulty_primary_timeout := cfg_faulty_primary_timeout default_config;
     cfg_forced_view_change_period := cfg_forced_view_change_period default_config;
     cfg_max_log_size := cfg_max_log_size default_config;
     cfg_storage := cfg_storage default_config |}.

Definition sample_state (i : PeerId) (n : N) : PbftState := {|
  st_id := i; seq_num := 1; view := 0; phase := PrePreparing;
  role := if decide (i = peer 0) then Primary else Secondary;
  mode := Normal; peer_ids := cfg_peers (mock_config n); st_f := (n - 1) / 3;
  faulty_primary_timeout := timeout_new 0 (cfg_faulty_primary_timeout default_config);
  forced_view_change_period := 30; working_block := None
|}.

Definition sample_block (n : N) : Block :=
  mkBlock (x62 :: peer n) (x62 :: peer (n - 1)) [] n [] [].

Definition sample_sys (i : PeerId) (n : N) : Sys :=
  mkSys [] (log_new (mock_config n)) (sample_state i n) 0.

(** A message as another peer's validator delivers it. *)
Definition sample_msg (t : PbftMessageType) (v seq : N) (block : Block) (from : PeerId) : ParsedMessage :=
  let m := mkPbftMessage (Some (make_msg_info t v seq from)) (Some (pbft_block_from_block block)) in
  mkParsedMessage [] [] (WMessage m) (x0a :: enc m) false.

Definition sample_view_change (v seq : N) (from : PeerId) : ParsedMessage :=
  let m := mkPbftViewChange (Some (make_msg_info ViewChange v seq from)) (Some default_seal) in
  mkParsedMessage [] [] (WViewChange m) (x0b :: enc m) false.

Definition fuel : nat := 3.

(** The state a constructor builds from the mock configuration. *)
Example sample_state_new : @state_new {| overflow_checks := true |} 0 (peer 1) 0 (mock_config 4) = Done (sample_state (peer 1) 4).
Proof. vm_compute. reflexivity. Qed.

(** The three-phase protocol of the source's test [multicast_protocol]. *)
Definition run_multicast (order : HashOrder) : Outcome () * Sys :=
  let env := env_with true (accepting_service four_peers) in
  let env := {| ext_platform := ext_platform; ext_order := order; ext_codec := ext_codec;
                ext_crypto := ext_crypto; ext_json := ext_json; ext_service := ext_service;
                ext_clock := ext_clock |} in
  (_ ← on_block_new fuel (sample_block 1);
   _ ← on_peer_message fuel (sample_msg PrePrepare 0 1 (sample_block 1) (peer 0));
   _ ← on_peer_message fuel (sample_msg Prepare 0 1 (sample_block 1) (peer 0));
   _ ← on_peer_message fuel (sample_msg Prepare 0 1 (sample_block 1) (peer 2));
   _ ← on_block_valid fuel (bk_block_id (sample_block 1));
   _ ← on_peer_message fuel (sample_msg Commit 0 1 (sample_block 1) (peer 0));
   _ ← on_peer_message fuel (sample_msg Commit 0 1 (sample_block 1) (peer 2));
   on_block_commit (bk_block_id (sample_block 1))) (sample_sys (peer 1) 4).

(** ** A run, state by state

    Peer 1 of four goes through the first height. *)

#[local] Existing Instance fix_env.

Definition after {A} (m : SM Sys A) (s : Sys) : Sys := (m s).2.

Definition block_1 : PbftBlock := pbft_block_from_block (sample_block 1).

Definition run_start : Sys := sample_sys (peer 1) 4.
Definition run_announced : Sys := after (on_block_new fuel (sample_block 1)) run_start.
Definition run_pre_prepared : Sys :=
  after (on_peer_message fuel (sample_msg PrePrepare 0 1 (sample_block 1) (peer 0))) run_announced.
Definition run_preparing : Sys :=
  after (on_peer_message fuel (sample_msg Prepare 0 1 (sample_block 1) (peer 0))) run_pre_prepared.
Definition run_checking : Sys :=
  after (on_peer_message fuel (sample_msg Prepare 0 1 (sample_block 1) (peer 2))) run_preparing.
Definition run_committing : Sys := after (on_block_valid fuel (bk_block_id (sample_block 1))) run_checking.
Definition run_almost : Sys :=
  after (on_peer_message fuel (sample_msg Commit 0 1 (sample_block 1) (peer 0))) run_committing.
Definition run_finished : Sys :=
  after (on_peer_message fuel (sample_msg Commit 0 1 (sample_block 1) (peer 2))) run_almost.
Definition run_next : Sys := after (on_block_commit (bk_block_id (sample_block 1))) run_finished.

Example run_phases :
  (phase ∘ pbft_state) <$> [run_announced; run_pre_prepared; run_preparing; run_checking; run_committing;
                            run_almost; run_finished; run_next] =
  [PrePreparing; Preparing; Preparing; Checking; Committing; Committing; Finished; PrePreparing].
Proof. vm_compute. reflexivity. Qed.
