(* ===== verification/NodeInvariants.v ===== *)
(** * Invariants of a node

    Instances of the frames of NodeFrames.v, and the facts about views, roles
    and membership that need more than a frame. *)

From S2P Require Import Prelude HashSet MessageType Wire Service Errors Messages.
From S2P Require Import Timing Config NodeState MessageLog Sys Handlers Node NodeFrames.

(** ** Preorders on the state of a node *)

(** Calls are only appended. *)
Definition history_le (s s' : Sys) : Prop := service s `prefix_of` service s'.

(** What no handler ever changes. *)
Definition fixed_part (s : Sys) : PeerId * N * N * N :=
  (st_id (pbft_state s), forced_view_change_period (pbft_state s),
   timeout_duration (faulty_primary_timeout (pbft_state s)), max_log_size (msg_log s)).

(** What only a committed block changes. *)
Definition height_part (s : Sys) : N * list PeerId * N :=
  (seq_num (pbft_state s), peer_ids (pbft_state s), st_f (pbft_state s)).

(** Stored messages are only added to. *)
Definition log_le (s s' : Sys) : Prop :=
  hs_items (messages (msg_log s)) `prefix_of` hs_items (messages (msg_log s')).

(** The membership is fault tolerant and the role is the one of the view. *)
Definition state_ok (st : PbftState) : Prop := tolerant st ∧ role_ok st.

#[export] Instance history_le_preorder : PreOrder history_le.
Proof. split; unfold history_le; [by intros s|intros s1 s2 s3; apply transitivity]. Qed.
#[export] Instance log_le_preorder : PreOrder log_le.
Proof. split; unfold log_le; [by intros s|intros s1 s2 s3; apply transitivity]. Qed.

Lemma add_message_prefix m st l :
  hs_items (messages l) `prefix_of` hs_items (messages (add_message m st l).2).
Proof.
  rewrite add_message_cases. case_decide; [|done]. cbn. unfold hs_insert.
  case_decide; [done|]. by apply prefix_app_r.
Qed.

Section invariants.
Context `{Externals}.

(** ** History, fixed fields, well-formed log: every handler *)

Lemma pop_backlog_cases l :
  (pop_backlog l).2 = l ∨ ∃ b, (pop_backlog l).2 = set_backlog b l.
Proof. unfold pop_backlog. destruct (backlog l); [by left|right; by eexists]. Qed.

Lemma history_commit_effects : commit_effects history_le.
Proof. split; intros; unfold history_le; cbn; try reflexivity. by apply prefix_app_r. Qed.

Lemma history_effects : effects history_le.
Proof. apply effects_of_commit_effects; [apply _|apply history_commit_effects|..];
  intros; unfold history_le; cbn; try reflexivity. by apply prefix_app_r. Qed.

Lemma garbage_collect_max n b l l' :
  garbage_collect n b l = Done l' → max_log_size l' = max_log_size l ∧ backlog l' = backlog l.
Proof.
  unfold garbage_collect. case_bool_decide; cbn.
  - destruct (filter_o _ _); cbn; [|done..]. by intros [= <-].
  - by intros [= <-].
Qed.

Lemma fixed_commit_effects : commit_effects (frame fixed_part).
Proof.
  split; intros; unfold frame, fixed_part; cbn; try done.
  - by f_equal; f_equal.
  - match goal with Hg : garbage_collect _ _ _ = _ |- _ => apply garbage_collect_max in Hg as [-> _] end. done.
Qed.

Lemma fixed_effects : effects (frame fixed_part).
Proof.
  apply effects_of_commit_effects; [apply _|apply fixed_commit_effects|..]; unfold frame, fixed_part; intros; cbn.
  - rewrite add_message_cases. by case_decide.
  - done.
  - by destruct (pop_backlog_cases (msg_log s)) as [->|[b ->]].
  - done.
Qed.

Lemma garbage_collect_wf n b l l' : garbage_collect n b l = Done l' → log_wf l → log_wf l'.
Proof.
  unfold garbage_collect. case_bool_decide; cbn.
  - destruct (filter_o _ _); cbn; [|done..]. intros [= <-] _. split; apply hs_collect_wf.
  - intros [= <-] [? _]. split; [done|apply hs_collect_wf].
Qed.

Lemma wf_commit_effects : commit_effects (keeps (λ s, log_wf (msg_log s))).
Proof. split; intros; unfold keeps; cbn; try done. by apply garbage_collect_wf with n b. Qed.

Lemma wf_effects : effects (keeps (λ s, log_wf (msg_log s))).
Proof.
  apply effects_of_commit_effects; [apply _|apply wf_commit_effects|..]; unfold keeps; intros; cbn.
  - by apply add_message_wf.
  - done.
  - by destruct (pop_backlog_cases (msg_log s)) as [->|[b ->]].
  - done.
Qed.

(** ** Height and log: handlers of peer messages *)

(** What [view_change] assigns. *)
Lemma respects_view_change R `{!PreOrder R} m :
  (∀ s c, quiet c → R s (set_service (service s ++ [c]) s)) →
  (∀ s, R s (mkSys (service s) (msg_log s) (pbft_state s) (S (ticks s)))) →
  (∀ s v, R s (set_state (set_view v (pbft_state s)) s)) →
  (∀ s r, R s (set_state (set_role r (pbft_state s)) s)) →
  (∀ s t, R s (set_state (discard_current_block t (pbft_state s)) s)) →
  respects R (view_change m).
Proof.
  intros Hc Hn Hv Hr Hd. pose proof (respects_now R Hn).
  assert (∀ A (a : list ServiceCall → A) c, quiet c → respects R (with_service (call a c))) as Hcall
    by (intros; apply respects_with_service; auto).
  assert (∀ f, (∀ s, R s (set_state (f (pbft_state s)) s)) → respects R (modify_state f)) as Hm
    by (intros; by apply respects_modify).
  unfold view_change, check_received_enough_view_changes, set_current_view_from_msg, set_current_view,
    check_is_primary, become_primary, become_secondary, svc_ignore_block, svc_initialize_block.
  repeat first [ solve [eauto with respects typeclass_instances] | solve [apply Hm; intros; auto; apply Hr]
               | apply Hcall; split; intros; discriminate
               | apply respects_bind; [done| |intros ?] | case_match ].
Qed.

Lemma height_effects : effects (frame height_part).
Proof.
  apply effects_of_plain; try done; try apply _.
  - intros s p. unfold frame. by destruct (switch_phase_cases p (pbft_state s)) as [->|[_ ->]].
  - intros m. by apply respects_view_change; [apply _|..].
Qed.

Lemma log_effects : effects log_le.
Proof.
  assert (∀ s s', messages (msg_log s) = messages (msg_log s') → log_le s s') as Hsame.
  { intros s s' Hs. unfold log_le. by rewrite Hs. }
  apply effects_of_plain; intros; auto; try apply _.
  - apply Hsame. cbn [set_log msg_log]. by destruct (pop_backlog_cases (msg_log s)) as [->|[b ->]].
  - apply add_message_prefix.
  - apply respects_view_change; auto. apply _.
Qed.
End invariants.
