(* ===== verification/Refinement.v ===== *)
(** * The handlers refine the protocol

    [abs] forgets what PBFT does not speak of (clocks, timers, the working
    block, the backlog, the calls other than commits).  Every handler that runs
    between two committed blocks takes only steps of Protocol.v, however it
    ends; committing a block advances the height. *)

From S2P Require Import Prelude HashSet MessageType Wire Service Errors Messages.
From S2P Require Import Timing Config NodeState MessageLog Sys Handlers Node NodeFrames.
From S2P Require Import NodeInvariants Protocol.

Definition committed_block (c : ServiceCall) : option BlockId :=
  match c with CommitBlock b => Some b | _ => None end.

Definition committed (h : list ServiceCall) : list BlockId := omap committed_block h.

Definition abs (s : Sys) : Protocol := {|
  a_self := st_id (pbft_state s);
  a_peers := peer_ids (pbft_state s);
  a_f := st_f (pbft_state s);
  a_height := seq_num (pbft_state s);
  a_view := view (pbft_state s);
  a_phase := phase (pbft_state s);
  a_mode := mode (pbft_state s);
  a_role := role (pbft_state s);
  a_log := stored (msg_log s);
  a_commits := committed (service s)
|}.

(** The peers are known and their quorum fits the machine's integers. *)
Definition sane (a : Protocol) : Prop := a_peers a ≠ [] ∧ quorum a < two64.

Definition refines (s s' : Sys) : Prop := sane (abs s) → rtc protocol_step (abs s) (abs s').

Lemma sane_steps a a' : rtc protocol_step a a' → sane a → sane a'.
Proof. intros [[= _ Hp Hf _] _]%protocol_steps_static. unfold sane, quorum. by rewrite Hp, Hf. Qed.

#[export] Instance refines_preorder : PreOrder refines.
Proof.
  split; unfold refines; [by intros s _|].
  intros s1 s2 s3 H12 H23 Hs. etrans; [by apply H12|]. apply H23. eapply sane_steps; eauto.
Qed.

Lemma refines_same s s' : abs s' = abs s → refines s s'.
Proof. unfold refines. by intros ->. Qed.

Lemma refines_step s s' : (sane (abs s) → protocol_step (abs s) (abs s')) → refines s s'.
Proof. intros Hs ?. by apply rtc_once, Hs. Qed.

Lemma committed_snoc h c : committed (h ++ [c]) = committed h ++ option_list (committed_block c).
Proof. unfold committed. rewrite omap_app. by destruct c. Qed.

Lemma abs_call s c : (∀ b, c ≠ CommitBlock b) → abs (set_service (service s ++ [c]) s) = abs s.
Proof.
  intros Hc. unfold abs. cbn. rewrite committed_snoc.
  destruct c; cbn; rewrite ?app_nil_r; try done. by destruct (Hc block_id).
Qed.

Lemma abs_commit_call s b : abs (set_service (service s ++ [CommitBlock b]) s) = with_commit b (abs s).
Proof. unfold abs. cbn. by rewrite committed_snoc. Qed.

Lemma stored_insert m l : stored (set_messages (hs_insert m (messages l)) l) = store m (stored l).
Proof. unfold stored, store, hs_insert. cbn. by case_decide. Qed.

Lemma primary_of_done st p : get_primary_id st = Done p → primary_of (peer_ids st) (view st) = Some p.
Proof. intros [_ Hp]%get_primary_id_lookup. exact Hp. Qed.

(** ** Adding messages *)

Section adding.
Context `{Externals}.
Implicit Types (s : Sys) (m : ParsedMessage).

Lemma abs_stored_state m s : abs (stored_state m s) = with_log (store m (a_log (abs s))) (abs s).
Proof. unfold abs, stored_state. cbn. by rewrite stored_insert. Qed.

Lemma receive_refines m s :
  msg_type_of m ≠ PrePrepare → msg_type_of m = ViewChange ∨ mi_view (info m) = view (pbft_state s) →
  refines s (stored_state m s).
Proof. intros Ht Hv. apply refines_step. intros _. rewrite abs_stored_state. by apply step_receive. Qed.

Lemma add_refines m s :
  msg_type_of m ≠ PrePrepare → refines s (set_log (add_message m (pbft_state s) (msg_log s)).2 s).
Proof.
  intros Ht. rewrite add_message_cases. case_decide as Hc; [by apply receive_refines|].
  by apply refines_same; destruct s.
Qed.

(** ** Phase changes *)

Lemma switch_refines p s :
  (p = next_phase (phase (pbft_state s)) → sane (abs s) → protocol_step (abs s) (with_phase p (abs s))) →
  refines s (set_state (switch_phase p (pbft_state s)).2 s).
Proof.
  intros Hp. destruct (switch_phase_cases p (pbft_state s)) as [->|[Heq ->]].
  - by apply refines_same; destruct s.
  - apply refines_step. by apply Hp.
Qed.

Lemma committing_refines s : refines s (set_state (switch_phase Committing (pbft_state s)).2 s).
Proof.
  apply switch_refines. intros Hn _. apply step_committing. cbn. by destruct (phase (pbft_state s)).
Qed.

(** ** The arms of [on_peer_message] *)

Lemma same_block_any m ms :
  any_o (λ x, same_block x m) ms = Done true →
  ∃ x b, x ∈ ms ∧ get_block x = Done b ∧ get_block m = Done b.
Proof.
  induction ms as [|x ms IH]; [done|]. cbn -[same_block].
  destruct (same_block x m) as [[]| |] eqn:Hx; [|..|done|done].
  - intros _. apply same_block_inv in Hx as (b & Hb & Hx). symmetry in Hx.
    apply bool_decide_eq_true in Hx. exists x, b. split; [by left|done].
  - rewrite done_bind. intros (y & b & Hy & ?)%IH. exists y, b. split; [by right|done].
Qed.

(** The guard, in terms of the stored messages. *)
Lemma pre_prepare_guard_log m s :
  pre_prepare_guard m s →
  (∃ bn, bn ∈ stored (msg_log s) ∧ has_type_seq BlockNew (mi_seq_num (info m)) bn ∧ get_block bn = get_block m) ∧
  (∀ pp, pp ∈ stored (msg_log s) → has_type_seq_view PrePrepare (mi_seq_num (info m)) (mi_view (info m)) pp →
     ∃ pp', pp' ∈ stored (msg_log s) ∧
            has_type_seq_view PrePrepare (mi_seq_num (info m)) (mi_view (info m)) pp' ∧
            get_block pp' = get_block m).
Proof.
  intros (_ & Hbn & Hpp & _). split.
  - apply same_block_any in Hbn as (bn & b & [Hb Hin]%elem_of_type_seq & Hbb & Hmb).
    exists bn. split_and!; [exact Hin|exact Hb|congruence].
  - intros pp Hin Hpp'. destruct (get_one_msg (msg_log s) (info m) PrePrepare) as [pp'|] eqn:Hone.
    + apply get_one_msg_some in Hone as [Hty Hin']. destruct Hpp as (b & Hb & Hmb).
      exists pp'. split_and!; [exact Hin'|exact Hty|congruence].
    + rewrite get_one_msg_none in Hone. exfalso. by apply (Hone pp).
Qed.

(** An accepted pre-prepare is the only one of its height and view, up to its block. *)
Lemma guard_unique m s :
  pre_prepare_guard m s → unique_pre_prepare (stored (msg_log s)) → unique_pre_prepare (stored (msg_log (stored_state m s))).
Proof.
  intros [_ Hsame]%pre_prepare_guard_log Hu. unfold stored_state. cbn [set_log msg_log]. rewrite stored_insert.
  apply unique_pre_prepare_store; [|done]. intros pp Hin n v (_ & Hn & Hv) Hpp.
  destruct (Hsame pp Hin) as (pp' & Hin' & Hpp' & <-); [by rewrite Hn, Hv|]. rewrite Hn, Hv in Hpp'. by eapply Hu.
Qed.

Lemma pre_prepare_guard_view m s :
  msg_type_of m = PrePrepare → pre_prepare_guard m s → mi_view (info m) = view (pbft_state s).
Proof. intros Ht (_ & _ & _ & [Hv|Hv]); [congruence|done]. Qed.

Lemma pre_prepare_guard_step m s :
  msg_type_of m = PrePrepare → pre_prepare_guard m s →
  protocol_step (abs s) (with_log (store m (a_log (abs s))) (abs s)).
Proof.
  intros Ht Hg. pose proof (pre_prepare_guard_view m s Ht Hg) as Hv.
  destruct (pre_prepare_guard_log m s Hg) as [Hbn Hpp]. rewrite Hv in Hpp. destruct Hg as (Hp & _).
  by apply step_accept_pre_prepare; [..|by apply primary_of_done| |].
Qed.

Lemma abs_timeout t s : abs (set_state (set_timeout t (pbft_state s)) s) = abs s.
Proof. done. Qed.

Lemma msg_type_seq_view m t seq v :
  msg_type_of m = t → t ≠ Unset → mi_seq_num (info m) = seq → mi_view (info m) = v →
  has_type_seq_view t seq v m.
Proof. intros Ht Hne Hs Hv. split_and!; try done. by apply message_type_of_str_inv. Qed.

(** What a relation needs to follow the handlers of pre-prepares and prepares,
    given that they refine the protocol. *)
Record lifts (R : relation Sys) : Prop := {
  lifts_same s s' : abs s' = abs s → R s s';
  lifts_store s m : msg_type_of m ≠ Commit → refines s (stored_state m s) → R s (stored_state m s);
  lifts_switch s p :
    p = Preparing ∨ p = Checking → refines s (set_state (switch_phase p (pbft_state s)).2 s) →
    R s (set_state (switch_phase p (pbft_state s)).2 s)
}.

Lemma refines_lifts : lifts refines.
Proof. split; auto using refines_same. Qed.

Lemma pre_prepare_lifts R `{!PreOrder R} m : lifts R → msg_type_of m = PrePrepare → respects R (pre_prepare m).
Proof.
  intros HL Ht s. destruct (pre_prepare m s) as [o s'] eqn:Hrun. cbn.
  apply pre_prepare_cases in Hrun as [[-> _]|(-> & Hg & ->)]; [done|].
  trans (stored_state m s).
  { apply (lifts_store R HL); [by rewrite Ht|]. apply refines_step. intros _. rewrite abs_stored_state. by apply pre_prepare_guard_step. }
  unfold preparing_state. case_decide as Hseq; [|done].
  etrans; [apply (lifts_switch R HL _ Preparing); [by left|apply (switch_refines Preparing)]|by apply (lifts_same R HL)].
  intros Hnext _. destruct Hg as (_ & Hbn & _ & Hv).
  assert (mi_view (info m) = view (pbft_state s)) as Hv' by (destruct Hv; [congruence|done]).
  apply same_block_any in Hbn as (bn & b & _ & _ & Hb). apply (step_preparing _ b).
  - cbn in *. by destruct (phase (pbft_state s)).
  - exists m. split_and!; [apply elem_of_stored_state|by apply msg_type_seq_view|done].
Qed.

(** A lookup guarded by the sequence number, as in the last two arms. *)
Lemma run_guarded {A} (c : Prop) `{Decision c} (o : Outcome bool) (k : bool → NodeM A) s :
  ((go ← (if decide c then sm_lift o else mret false); k go) s).2 =
  match (if decide c then o else Done false) with Done go => (k go s).2 | _ => s end.
Proof. by case_decide; [destruct o|]. Qed.

Lemma prepare_arm_lifts R `{!PreOrder R} m : lifts R → msg_type_of m = Prepare → respects R (prepare_arm m).
Proof.
  intros HL Ht s. unfold prepare_arm. rewrite run_add_message. case_decide as Hv; [|done].
  assert (mi_view (info m) = view (pbft_state s)) as Hv'.
  { destruct Hv as [Hv|Hv]; [unfold msg_type_of in Ht; congruence|done]. }
  fold (stored_state m s).
  etrans; [apply (lifts_store R HL _ m); [by rewrite Ht|apply receive_refines; [by rewrite Ht|by right]]|].
  set (s1 := stored_state m s). rewrite run_get_state, run_get_log, run_guarded.
  case_decide as Hseq; [|done].
  destruct (check_prepared _ _ _) as [[]| |] eqn:Hc; [|done..].
  apply check_prepared_true in Hc as (q & b & _ & Hq & _ & _ & Hprep).
  unfold check_blocks_if_not_checking. rewrite run_get_state. case_decide; [|done].
  rewrite run_switch_phase. trans (set_state (switch_phase Checking (pbft_state s1)).2 s1).
  - apply (lifts_switch R HL); [by right|]. apply switch_refines. intros Hnext [_ Hsane]. apply (step_checking _ b).
    + cbn in *. by destruct (phase (pbft_state s)).
    + unfold quorum in Hsane. cbn in Hsane. change (st_f (pbft_state s1)) with (st_f (pbft_state s)) in Hq.
      rewrite two_f_plus_one_small in Hq by done. injection Hq as <-. rewrite Hseq, Hv' in Hprep. exact Hprep.
  - rewrite run_bind. unfold sm_lift. destruct (get_block m); [|done..].
    apply (lifts_same R HL). by apply abs_call.
Qed.

Lemma commit_arm_refines m : msg_type_of m = Commit → respects refines (commit_arm m).
Proof.
  intros Ht s. unfold commit_arm. rewrite run_add_message. case_decide as Hv; [|done].
  assert (mi_view (info m) = view (pbft_state s)) as Hv'.
  { destruct Hv as [Hv|Hv]; [unfold msg_type_of in Ht; congruence|done]. }
  fold (stored_state m s). etrans; [apply receive_refines; [by rewrite Ht|by right]|].
  set (s1 := stored_state m s). rewrite run_get_state, run_get_log, run_guarded.
  case_decide as Hseq; [|done].
  destruct (check_committable _ _ _) as [[]| |] eqn:Hc; [|done..].
  apply check_committable_true in Hc as (q & b & Hq & Hcom).
  unfold commit_block_if_committing. rewrite run_get_state. case_decide as Hphase; [|done].
  assert (sane (abs s1) → committable_at (abs s1) b) as Hat.
  { intros [_ Hsane]. unfold quorum in Hsane. cbn in Hsane.
    change (st_f (pbft_state s1)) with (st_f (pbft_state s)) in Hq.
    rewrite two_f_plus_one_small in Hq by done. injection Hq as <-. rewrite Hseq, Hv' in Hcom. exact Hcom. }
  unfold commit. rewrite run_bind. unfold sm_lift. destruct (get_block m) as [b'| |] eqn:Hb'; [|done..].
  unfold svc_commit_block. rewrite run_call.
  set (s2 := set_service (service s1 ++ [CommitBlock (pb_block_id b')]) s1).
  trans s2.
  - apply refines_step. intros Hs. unfold s2. rewrite abs_commit_call.
    eapply (step_commit_block _ b m b'); [exact Hphase|by apply Hat|apply elem_of_stored_state| |done].
    by apply msg_type_seq_view.
  - destruct (on_commit_block _ _) as [[]|e]; cbn [map_err]; [|done].
    rewrite run_try_ret_ok, run_switch_phase, run_ret. cbn [snd]. apply (switch_refines Finished s2). intros _ Hs.
    by apply (step_finished _ b); [exact Hphase|apply Hat].
Qed.
End adding.

(** ** Changing the view *)

Section view_changes.
Context `{Externals}.
Implicit Types (s : Sys) (m : ParsedMessage).

(** The calls a node makes when it becomes the primary. *)
Definition primary_calls (st : PbftState) : list ServiceCall :=
  match working_block st with
  | Some b => [IgnoreBlock (pb_block_id b)]
  | None => []
  end ++ [InitializeBlock None].

Definition role_of (p : PeerId) (st : PbftState) : PbftNodeRole :=
  if decide (st_id st = p) then Primary else Secondary.

(** Where [view_change] takes a node with a quorum, [p] being the new primary. *)
Definition view_changed (v : N) (p : PeerId) (s : Sys) : Sys :=
  let st := pbft_state s in
  mkSys (service s ++ (if decide (st_id st = p) then primary_calls st else [])) (msg_log s)
    (discard_current_block (clock_at (ticks s)) (set_role (role_of p st) (set_view v st))) (S (ticks s)).

Definition enough_view_changes m s : Outcome bool :=
  required ← two_f_plus_one (st_f (pbft_state s));
  log_has_required_msgs (msg_log s) ViewChange m false required.

(** Where taking the role of the view leads. *)
Definition roled (p : PeerId) (s : Sys) : Sys :=
  mkSys (service s ++ (if decide (st_id (pbft_state s) = p) then primary_calls (pbft_state s) else []))
    (msg_log s) (set_role (role_of p (pbft_state s)) (pbft_state s)) (ticks s).

Lemma run_become p s :
  (if bool_decide (st_id (pbft_state s) = p) then become_primary else become_secondary) s = (Done tt, roled p s).
Proof.
  unfold roled, role_of, primary_calls. case_bool_decide; case_decide; try done.
  - unfold become_primary, upgrade_role, svc_ignore_block, svc_initialize_block.
    rewrite run_modify_state, run_get_state, run_bind. cbn [set_state pbft_state set_role working_block].
    destruct (working_block (pbft_state s)) as [b|]; rewrite ?run_bind; cbn; [|done].
    change [IgnoreBlock (pb_block_id b); InitializeBlock None]
      with ([IgnoreBlock (pb_block_id b)] ++ [InitializeBlock None]). by rewrite app_assoc.
  - cbn. rewrite app_nil_r. by destruct s.
Qed.

Lemma view_change_run m s p :
  enough_view_changes m s = Done true →
  get_primary_id (set_view (mi_view (info m)) (pbft_state s)) = Done p →
  view_change m s = (Done (Ok tt), view_changed (mi_view (info m)) p s).
Proof.
  intros He Hp. unfold view_change, check_received_enough_view_changes. rewrite run_bind.
  rewrite run_get_state, run_get_log. revert He. unfold enough_view_changes.
  destruct (two_f_plus_one _) as [q| |]; [|done..]. rewrite done_bind, run_lift_bind. intros He.
  unfold sm_lift at 1. rewrite He. cbn [negb].
  unfold set_current_view_from_msg, set_current_view, check_is_primary. rewrite run_modify_state, run_bind, run_get_state.
  rewrite (run_lift_done _ _ _ _ Hp), run_ret.
  set (s1 := set_state (set_view (mi_view (info m)) (pbft_state s)) s).
  rewrite (run_bind_done _ _ _ _ _ (run_become p s1)). by rewrite run_now, run_modify_state.
Qed.

Lemma view_change_not_enough m s :
  enough_view_changes m s = Done false → view_change m s = (Done (Ok tt), s).
Proof.
  intros He. unfold view_change, check_received_enough_view_changes. rewrite run_bind.
  rewrite run_get_state, run_get_log. revert He. unfold enough_view_changes.
  destruct (two_f_plus_one _) as [q| |]; [|done..]. rewrite done_bind, run_lift_bind. intros He.
  unfold sm_lift at 1. by rewrite He.
Qed.

Lemma view_change_panic m s :
  (∀ b, enough_view_changes m s ≠ Done b) → (view_change m s).2 = s.
Proof.
  intros He. unfold view_change, check_received_enough_view_changes. rewrite run_bind.
  rewrite run_get_state, run_get_log. revert He. unfold enough_view_changes.
  destruct (two_f_plus_one _) as [q| |]; [|done..]. rewrite done_bind, run_lift_bind. intros He.
  unfold sm_lift. destruct (log_has_required_msgs _ _ _ _ _) as [b| |] eqn:Hl; [|done..]. by destruct (He b).
Qed.

Lemma enough_view_changes_true m s :
  enough_view_changes m s = Done true →
  ∃ q, two_f_plus_one (st_f (pbft_state s)) = Done q ∧
       q ≤ len (filter (has_type_seq_view ViewChange (mi_seq_num (info m)) (mi_view (info m)))
                  (stored (msg_log s))).
Proof.
  unfold enough_view_changes. destruct (two_f_plus_one _) as [q| |]; [|done..].
  rewrite done_bind, log_has_required_msgs_any. intros [= Hq%bool_decide_eq_true]. by exists q.
Qed.

Lemma committed_primary_calls st : committed (primary_calls st) = [].
Proof. unfold primary_calls. by destruct (working_block st). Qed.

Lemma abs_view_changed v p s :
  get_primary_id (set_view v (pbft_state s)) = Done p → abs (view_changed v p s) = enter_view v (abs s).
Proof.
  intros Hp%primary_of_done. cbn in Hp. unfold abs, view_changed, enter_view, role_in, role_of. cbn.
  rewrite Hp. f_equal.
  - by case_decide; case_decide; simplify_eq.
  - unfold committed. rewrite omap_app. case_decide; [|by rewrite app_nil_r].
    fold (committed (primary_calls (pbft_state s))). by rewrite committed_primary_calls, app_nil_r.
Qed.

Lemma view_change_result m s :
  peer_ids (pbft_state s) ≠ [] →
  (view_change m s).2 = s ∨
  ∃ p, enough_view_changes m s = Done true ∧ get_primary_id (set_view (mi_view (info m)) (pbft_state s)) = Done p ∧
       (view_change m s).2 = view_changed (mi_view (info m)) p s.
Proof.
  intros Hne. destruct (enough_view_changes m s) as [[]| |] eqn:He.
  - right. destruct (get_primary_id_done (set_view (mi_view (info m)) (pbft_state s))) as [p Hp]; [done|].
    exists p. by rewrite (view_change_run _ _ _ He Hp).
  - left. by rewrite view_change_not_enough.
  - left. by rewrite view_change_panic by (intros b Hb; congruence).
  - left. by rewrite view_change_panic by (intros b Hb; congruence).
Qed.

Lemma view_change_refines m : respects refines (view_change m).
Proof.
  intros s Hs. destruct Hs as [Hne Hq].
  destruct (view_change_result m s Hne) as [->|(p & He & Hp & ->)]; [done|]. apply rtc_once.
  rewrite abs_view_changed by done.
  apply enough_view_changes_true in He as (q & Heq & Hle). apply (step_new_view _ (mi_seq_num (info m))).
  rewrite two_f_plus_one_small in Heq by done. by injection Heq as <-.
Qed.

Lemma refines_effects : effects refines.
Proof.
  split; [split|]; intros; try (by apply refines_same).
  - apply refines_same, abs_call. by destruct H0.
  - by apply refines_same, abs_call.
  - apply refines_same. destruct (pop_backlog_cases (msg_log s)) as [->|[b ->]]; by destruct s.
  - apply add_refines. by destruct H0 as [->|[-> _]].
  - apply refines_step. intros _. apply step_propose_view_change.
  - apply pre_prepare_lifts; [apply _|apply refines_lifts|done].
  - apply prepare_arm_lifts; [apply _|apply refines_lifts|done].
  - by apply commit_arm_refines.
  - by apply view_change_refines.
  - apply committing_refines.
Qed.
End view_changes.
