(* ===== verification/BlockCommit.v ===== *)
(** * Committed blocks

    [on_block_commit] (node.rs) as the [advance_step] of the protocol, with
    everything else it does to the node. *)

From S2P Require Import Prelude HashSet MessageType Wire Service Errors Messages.
From S2P Require Import Timing Config NodeState MessageLog Sys Handlers Node NodeFrames.
From S2P Require Import NodeInvariants Protocol Refinement.

Section block_commit.
Context `{Externals}.
Implicit Types (s : Sys) (b : BlockId).

Definition is_working_block b (st : PbftState) : Prop :=
  ∃ blk, working_block st = Some blk ∧ pb_block_id blk = b.

Lemma on_block_commit_ignored b s :
  phase (pbft_state s) ≠ Finished ∨ ¬ is_working_block b (pbft_state s) →
  on_block_commit b s = (Done tt, s).
Proof.
  intros Hc. unfold on_block_commit. rewrite run_get_state. case_decide as Hp; [done|].
  destruct Hc as [Hc|Hc]; [done|]. unfold is_working_block in Hc.
  destruct (working_block _) as [blk|] eqn:Hwb; [|done]. case_bool_decide; [|done].
  destruct Hc. by exists blk.
Qed.

(** ** The operations it calls, on a normal return *)

Lemma force_view_change_inv s s' :
  force_view_change s = (Done tt, s') →
  ∃ v p, u64_add (view (pbft_state s)) 1 = Done v ∧
    get_primary_id (set_view v (pbft_state s)) = Done p ∧
    s' = roled p (set_state (set_view v (pbft_state s)) s).
Proof.
  unfold force_view_change. rewrite run_get_state.
  intros (v & s1 & [Hv ->]%lift_done_inv & Hrun)%bind_done_inv.
  unfold set_current_view in Hrun. rewrite run_modify_state in Hrun.
  set (s1 := set_state (set_view v (pbft_state s)) s) in *.
  unfold check_is_primary in Hrun. rewrite run_bind, run_get_state, run_bind in Hrun.
  unfold sm_lift in Hrun.
  destruct (get_primary_id (pbft_state s1)) as [p| |] eqn:Hp; [|done..].
  rewrite run_ret, run_become in Hrun. injection Hrun as <-. by exists v, p.
Qed.

(** The peers of the settings, when they differ from the current ones. *)
Lemma update_membership_inv b s c s' :
  update_membership b s = (Done c, s') →
  let s1 := set_service (service s ++ [GetSettings b [peers_key]]) s in
  (c = false ∧ s' = s1) ∨
  (∃ peers f, c = true ∧ max_faulty peers = Done f ∧ f ≠ 0 ∧
     (list_to_set peers : gset PeerId) ≠ list_to_set (peer_ids (pbft_state s)) ∧
     s' = set_state (set_f f (set_peer_ids peers (pbft_state s))) s1).
Proof.
  unfold update_membership, get_peers_at. intros (peers & s1 & Hpeers & Hrun)%bind_done_inv.
  apply bind_done_inv in Hpeers as (r & s2 & [= <- <-] & Hpeers).
  destruct (on_get_settings _ _ _) as [settings|]; [|done]. apply lift_done_inv in Hpeers as [_ ->].
  rewrite run_get_state in Hrun. case_decide as Hne; [|injection Hrun as <- <-; by left].
  right. rewrite run_modify_state in Hrun.
  apply bind_done_inv in Hrun as (f & s3 & [Hf ->]%lift_done_inv & Hrun).
  case_bool_decide as Hf0; [done|]. rewrite run_modify_state in Hrun. injection Hrun as <- <-.
  by exists peers, f.
Qed.

(** ** The handler *)

(** The state between the change of height and the change of view. *)
Definition next_height (n : N) (wb : option PbftBlock) s : Sys :=
  set_state (set_working_block wb (set_seq_num n (set_phase PrePreparing (pbft_state s)))) s.

(** A block new for the next height, if one is stored. *)
Definition next_block (l : PbftLog) (n : N) (wb : option PbftBlock) : Prop :=
  match wb with
  | Some blk => ∃ m, m ∈ messages l ∧ has_type_seq BlockNew n m ∧ get_block m = Done blk
  | None => ∀ m, m ∈ messages l → ¬ has_type_seq BlockNew n m
  end.

(** Membership and view after the change of height, from [s1] to [s2]. *)
Definition view_after b s1 s2 : Prop :=
  (at_forced_view_change (pbft_state s1) = Done true ∧ force_view_change s1 = (Done tt, s2)) ∨
  (at_forced_view_change (pbft_state s1) = Done false ∧
   ∃ c s', update_membership b s1 = (Done c, s') ∧
           if c : bool then force_view_change s' = (Done tt, s2) else s2 = s').

(** What is left once the view is settled. *)
Definition settled b s2 s' : Prop :=
  ∃ l, garbage_collect (seq_num (pbft_state s2)) b (msg_log s2) = Done l ∧
    s' = mkSys (service s2 ++ (if is_primary (pbft_state s2) && bool_decide (working_block (pbft_state s2) = None)
                               then [InitializeBlock (Some b)] else []))
           l (set_timeout (start (clock_at (ticks s2)) (faulty_primary_timeout (pbft_state s2))) (pbft_state s2))
           (S (ticks s2)).

Lemma next_block_head l n wb :
  match head (get_messages_of_type_seq l BlockNew n) with
  | Some msg => b ← get_block msg; Done (Some b)
  | None => Done None
  end = Done wb → next_block l n wb.
Proof.
  destruct (head _) as [m|] eqn:Hh.
  - apply head_elem_of, elem_of_type_seq in Hh as [Ht Hin].
    destruct (get_block m) as [blk| |] eqn:Hb; [|done..]. intros [= <-]. by exists m.
  - intros [= <-] m Hin Ht. rewrite head_none in Hh. apply (Hh m). by apply elem_of_type_seq.
Qed.

Lemma on_block_commit_inv b s s' :
  on_block_commit b s = (Done tt, s') →
  (s' = s ∧ (phase (pbft_state s) ≠ Finished ∨ ¬ is_working_block b (pbft_state s))) ∨
  (phase (pbft_state s) = Finished ∧ is_working_block b (pbft_state s) ∧
   ∃ n wb s2, u64_add (seq_num (pbft_state s)) 1 = Done n ∧ next_block (msg_log s) n wb ∧
     view_after b (next_height n wb s) s2 ∧ settled b s2 s').
Proof.
  unfold on_block_commit. rewrite run_get_state. case_decide as Hp; [intros [= <-]; left; auto|].
  destruct (working_block (pbft_state s)) as [blk|] eqn:Hwb.
  2: { cbn. intros [= <-]. left. split; [done|]. right. unfold is_working_block. rewrite Hwb. by intros (? & ? & _). }
  case_bool_decide as Hid; cbn [negb].
  2: { intros [= <-]. left. split; [done|]. right. unfold is_working_block. rewrite Hwb. by intros (? & [= <-] & ?). }
  intros Hrun. right. split; [done|]. split; [by exists blk|].
  rewrite run_switch_phase in Hrun. unfold switch_phase in Hrun. rewrite Hp in Hrun.
  cbn [next_phase] in Hrun. rewrite decide_True in Hrun by done. cbn [snd] in Hrun.
  apply bind_done_inv in Hrun as (n & s1 & [Hn ->]%lift_done_inv & Hrun).
  rewrite run_modify_state, run_get_log in Hrun.
  apply bind_done_inv in Hrun as (wb & s1 & [Hwb'%next_block_head ->]%lift_done_inv & Hrun).
  rewrite run_modify_state, run_get_state in Hrun.
  change (set_state _ _) with (next_height n wb s) in Hrun.
  set (s1 := next_height n wb s) in *.
  apply bind_done_inv in Hrun as (forced & s2 & [Hforced ->]%lift_done_inv & Hrun).
  apply bind_done_inv in Hrun as (c & s2 & Hchange & Hrun).
  apply bind_done_inv in Hrun as ([] & s3 & Hview & Hrun).
  exists n, wb, s3. split_and!; [done|done|..].
  { unfold view_after. destruct forced.
    - left. injection Hchange as <- <-. done.
    - right. split; [done|]. exists c, s2. split; [done|]. destruct c; [done|]. by injection Hview as ->. }
  unfold settled. rewrite run_get_state, run_get_log in Hrun.
  apply bind_done_inv in Hrun as (l & s4 & [Hl ->]%lift_done_inv & Hrun).
  exists l. split; [done|]. rewrite run_modify_log in Hrun.
  apply bind_done_inv in Hrun as ([] & s4 & Hstart & Hrun).
  unfold start_timeout in Hstart. rewrite run_now in Hstart. injection Hstart as <-.
  rewrite run_get_state in Hrun. cbn in Hrun.
  change (is_primary (set_timeout _ _)) with (is_primary (pbft_state s3)) in Hrun.
  destruct (is_primary _ && _); [rewrite run_bind in Hrun|]; injection Hrun as <-; [done|].
  unfold set_state. cbn. by rewrite app_nil_r.
Qed.

(** Conversely, the stages make a run. *)
Lemma view_after_run {A} b s1 s2 (k : SM Sys A) :
  view_after b s1 s2 →
  (forced ← sm_lift (at_forced_view_change (pbft_state s1));
   change ← (if forced : bool then mret true else update_membership b);
   _ ← (if change : bool then force_view_change else mret tt); k) s1 = k s2.
Proof.
  intros [[Hf Hv]|(Hf & c & s3 & Hup & Hc)]; rewrite (run_lift_done _ _ _ _ Hf).
  - by rewrite run_ret_bind, (run_bind_done _ _ _ _ _ Hv).
  - rewrite (run_bind_done _ _ _ _ _ Hup). destruct c; [by rewrite (run_bind_done _ _ _ _ _ Hc)|]. by rewrite run_ret_bind, Hc.
Qed.

Lemma on_block_commit_run b s n wb s2 s' :
  phase (pbft_state s) = Finished → is_working_block b (pbft_state s) → u64_add (seq_num (pbft_state s)) 1 = Done n →
  match head (get_messages_of_type_seq (msg_log s) BlockNew n) with
  | Some msg => b ← get_block msg; Done (Some b)
  | None => Done None
  end = Done wb →
  view_after b (next_height n wb s) s2 → settled b s2 s' →
  on_block_commit b s = (Done tt, s').
Proof.
  intros Hp (blk & Hblk & Hid) Hn Hwb Hview (l & Hl & ->). unfold on_block_commit.
  rewrite run_get_state, decide_False by tauto. rewrite Hblk, bool_decide_true by done. cbn [negb].
  rewrite run_switch_phase. unfold switch_phase. rewrite Hp. cbn [next_phase]. rewrite decide_True by done. cbn [snd].
  rewrite (run_lift_done _ _ _ _ Hn), run_modify_state, run_get_log. cbn [set_state msg_log].
  rewrite (run_lift_done _ _ _ _ Hwb), run_modify_state, run_get_state.
  change (set_state _ _) with (next_height n wb s). rewrite (view_after_run b _ s2) by done.
  rewrite run_get_state, run_get_log, (run_lift_done _ _ _ _ Hl), run_modify_log.
  set (t := set_timeout (start (clock_at (ticks s2)) (faulty_primary_timeout (pbft_state s2))) (pbft_state s2)).
  assert (start_timeout (set_log l s2) = (Done tt, mkSys (service s2) l t (S (ticks s2)))) as Hstart by done.
  rewrite (run_bind_done _ _ _ _ _ Hstart), run_get_state. cbn [set_state pbft_state].
  change (is_primary (set_timeout _ _)) with (is_primary (pbft_state s2)).
  change (working_block (set_timeout _ _)) with (working_block (pbft_state s2)).
  destruct (is_primary _ && _); [by rewrite run_bind|]. unfold set_state. cbn. by rewrite app_nil_r.
Qed.

(** The working block has no part in the change of membership and view. *)
Definition with_working_block (wb : option PbftBlock) s : Sys := set_state (set_working_block wb (pbft_state s)) s.

Lemma force_view_change_run s v p :
  u64_add (view (pbft_state s)) 1 = Done v → get_primary_id (set_view v (pbft_state s)) = Done p →
  force_view_change s = (Done tt, roled p (set_state (set_view v (pbft_state s)) s)).
Proof.
  intros Hv Hp. unfold force_view_change. rewrite run_get_state, (run_lift_done _ _ _ _ Hv).
  unfold set_current_view. rewrite run_modify_state. unfold check_is_primary.
  rewrite run_bind, run_get_state, run_bind. unfold sm_lift. cbn [set_state pbft_state]. rewrite Hp. exact (run_become p _).
Qed.

Lemma force_view_change_block wb s s' :
  force_view_change s = (Done tt, s') →
  ∃ s2, force_view_change (with_working_block wb s) = (Done tt, s2) ∧
    pbft_state s2 = set_working_block wb (pbft_state s') ∧ msg_log s2 = msg_log s' ∧ ticks s2 = ticks s'.
Proof.
  intros (v & p & Hv & Hp & ->)%force_view_change_inv. eexists. split; [by apply force_view_change_run|]. by destruct s as [h l [] t].
Qed.

Lemma update_membership_block wb b s c s' :
  update_membership b s = (Done c, s') → update_membership b (with_working_block wb s) = (Done c, with_working_block wb s').
Proof.
  unfold update_membership, get_peers_at, svc_get_settings.
  intros (peers & s1 & (r & s2 & [= <- <-] & Hpeers)%bind_done_inv & Hrun)%bind_done_inv.
  rewrite run_bind, run_call. cbn [with_working_block set_state service].
  destruct (on_get_settings _ _ _) as [settings|]; [|done]. apply lift_done_inv in Hpeers as [Hpeers ->].
  unfold sm_lift at 1. rewrite Hpeers, run_get_state. rewrite run_get_state in Hrun.
  change (peer_ids (pbft_state (set_service _ (with_working_block wb s)))) with (peer_ids (pbft_state s)).
  change (peer_ids (pbft_state (set_service _ s))) with (peer_ids (pbft_state s)) in Hrun.
  case_decide; [|by injection Hrun as <- <-]. rewrite run_modify_state in Hrun |- *.
  apply bind_done_inv in Hrun as (f & s3 & [Hf ->]%lift_done_inv & Hrun). rewrite (run_lift_done _ _ _ _ Hf).
  case_bool_decide; [done|]. rewrite run_modify_state in Hrun |- *. by injection Hrun as <- <-.
Qed.

Lemma view_after_block wb b s1 s2 :
  view_after b s1 s2 →
  ∃ s2', view_after b (with_working_block wb s1) s2' ∧
    pbft_state s2' = set_working_block wb (pbft_state s2) ∧ msg_log s2' = msg_log s2 ∧ ticks s2' = ticks s2.
Proof.
  intros [[Hf (s' & Hv & Hrest)%(force_view_change_block wb)]|(Hf & c & s' & Hup%(update_membership_block wb) & Hc)].
  - exists s'. split; [by left|done].
  - destruct c.
    + apply (force_view_change_block wb) in Hc as (s'' & Hv & Hrest). exists s''. split; [|done].
      right. split; [exact Hf|]. by exists true, (with_working_block wb s').
    + subst s2. exists (with_working_block wb s'). split; [|done]. right. split; [exact Hf|]. by exists false, (with_working_block wb s').
Qed.

(** ** Advancing the height *)

(** The membership and view [view_after] settles on. *)
Inductive settles (st : PbftState) : PbftState → Prop :=
| settles_same : settles st st
| settles_next v p peers f :
    u64_add (view st) 1 = Done v →
    (peers = peer_ids st ∧ f = st_f st) ∨ tolerates peers f →
    get_primary_id (set_view v (set_f f (set_peer_ids peers st))) = Done p →
    settles st (set_role (role_of p st) (set_view v (set_f f (set_peer_ids peers st)))).

Lemma max_faulty_tolerates peers f : max_faulty peers = Done f → f ≠ 0 → peers ≠ [] → tolerates peers f.
Proof.
  intros Hf Hne Hp. unfold max_faulty in Hf. rewrite u64_sub_small in Hf.
  - injection Hf as <-. split; [|done]. apply N.nlt_ge. intros Hlt. apply Hne.
    apply N.div_small. lia.
  - unfold len. destruct peers; [done|]. cbn. lia.
Qed.

Lemma roled_committed p s : committed (service (roled p s)) = committed (service s).
Proof.
  unfold roled, committed. cbn. rewrite omap_app. case_decide; [|by rewrite app_nil_r].
  fold (committed (primary_calls (pbft_state s))). by rewrite committed_primary_calls, app_nil_r.
Qed.

Lemma view_after_settles b s1 s2 :
  view_after b s1 s2 →
  settles (pbft_state s1) (pbft_state s2) ∧ msg_log s2 = msg_log s1 ∧
  committed (service s2) = committed (service s1).
Proof.
  assert (∀ s, committed (service s ++ [GetSettings b [peers_key]]) = committed (service s)) as Hget.
  { intros s. unfold committed. by rewrite omap_app, app_nil_r. }
  intros [[_ Hf]|(_ & c & s' & Hup & Hc)].
  - apply force_view_change_inv in Hf as (v & p & Hv & Hp & ->).
    split_and!; [|done|by rewrite roled_committed].
    destruct s1 as [h l [] t]. exact (settles_next _ v p _ _ Hv (or_introl (conj eq_refl eq_refl)) Hp).
  - apply update_membership_inv in Hup as [[-> ->]|(peers & f & -> & Hmf & Hf0 & _ & ->)].
    + subst s2. split_and!; [constructor|done|by cbn].
    + apply force_view_change_inv in Hc as (v & p & Hv & Hp & ->).
      split_and!; [|done|rewrite roled_committed; apply Hget].
      assert (tolerates peers f) as Ht.
      { apply max_faulty_tolerates; [done..|]. by apply get_primary_id_lookup in Hp as [? _]. }
      exact (settles_next (pbft_state s1) v p peers f Hv (or_intror Ht) Hp).
Qed.

Lemma on_block_commit_advances b s s' :
  on_block_commit b s = (Done tt, s') →
  phase (pbft_state s) = Finished → is_working_block b (pbft_state s) →
  seq_num (pbft_state s) + 1 < two64 → view (pbft_state s) + 1 < two64 → log_wf (msg_log s) →
  advance_step (abs s) (abs s').
Proof.
  intros [[_ [?|?]]|(_ & _ & n & wb & s2 & Hn & _ & Hview & l & Hgc & ->)]%on_block_commit_inv Hp Hwb Hsn Hvn Hwf;
    [done..|].
  rewrite u64_add_small in Hn by done. injection Hn as <-.
  apply view_after_settles in Hview as (Hset & Hlog & Hcom).
  assert (collected (seq_num (pbft_state s)) (stored (msg_log s)) (stored l)) as Hcol.
  { assert (seq_num (pbft_state s2) = seq_num (pbft_state s) + 1) as Hseq by by destruct Hset.
    rewrite Hseq, Hlog in Hgc.
    destruct (garbage_collect_done (seq_num (pbft_state s) + 1) b (msg_log s)) as (l' & Hl' & Hm & _ & _ & _ & Hwf');
      [lia|]. cbn in Hgc. rewrite Hgc in Hl'. injection Hl' as <-. split; [by apply Hwf'|].
    exists (if bool_decide (max_log_size (msg_log s) ≤ hs_len (messages (msg_log s))) then seq_num (pbft_state s) else 0).
    split; [case_bool_decide; lia|]. intros m. unfold stored. rewrite (Hm m : m ∈ hs_items (messages l) ↔ _).
    case_bool_decide; intuition lia. }
  assert (committed (service s2 ++ (if is_primary (pbft_state s2) && bool_decide (working_block (pbft_state s2) = None)
            then [InitializeBlock (Some b)] else [])) = committed (service s)) as Hcom'.
  { unfold committed. rewrite omap_app. destruct (_ && _); cbn; rewrite app_nil_r; apply Hcom. }
  unfold abs at 2. cbn [service msg_log pbft_state set_timeout st_id peer_ids st_f seq_num view phase mode role].
  rewrite Hcom'. destruct Hset as [|v p peers f Hv Hmem Hprim].
  - by apply (advance_same_view (abs s)).
  - cbn in Hv. rewrite u64_add_small in Hv by done. injection Hv as <-.
    apply (advance_next_view (abs s)); [done|done|exact Hmem|].
    apply primary_of_done in Hprim. cbn in Hprim |- *. rewrite Hprim. unfold role_of. cbn.
    by case_decide; case_decide; simplify_eq.
Qed.
End block_commit.
