(* ===== verification/Votes.v ===== *)
(** * Votes

    A node votes for a block by broadcasting a prepare.  It votes at most once
    at every height and view: each vote is backed by a stored pre-prepare, and
    stored pre-prepares of a height and view have one block.  Garbage collection
    may drop the pre-prepare, but drops the block new of that height with it,
    without which no other pre-prepare is accepted. *)

From S2P Require Import Prelude HashSet MessageType Wire Service Errors Messages.
From S2P Require Import Timing Config NodeState MessageLog Sys Handlers Node Protocol NodeFrames.
From S2P Require Import NodeInvariants Refinement BlockCommit.

(** ** The votes of a node *)

Section casting.
Context `{Codec}.

(** The height, view and block of a broadcast prepare. *)
Definition prepare_vote (c : ServiceCall) : option (N * N * PbftBlock) :=
  match c with
  | Broadcast t bs =>
      if decide (t = string_of_message_type Prepare) then
        match message_of_bytes bs with
        | Ok m => Some (mi_seq_num (pm_get_info m), mi_view (pm_get_info m), pm_get_block m)
        | Err _ => None
        end
      else None
  | _ => None
  end.

Definition prepare_votes (h : list ServiceCall) : list (N * N * PbftBlock) := omap prepare_vote h.

Lemma prepare_votes_snoc h c :
  prepare_votes (h ++ [c]) = prepare_votes h ++ match prepare_vote c with Some x => [x] | None => [] end.
Proof. unfold prepare_votes. rewrite omap_app. cbn. by destruct (prepare_vote c). Qed.

Lemma prepare_vote_other c : (∀ bs, c ≠ Broadcast (string_of_message_type Prepare) bs) → prepare_vote c = None.
Proof. intros Hc. destruct c; try done. cbn. case_decide; [|done]. subst. by destruct (Hc payload). Qed.
End casting.

(** ** The invariant *)

Record votes_ok (cast : list (N * N * PbftBlock)) (height : N) (log : list ParsedMessage) : Prop := {
  vo_unique : unique_pre_prepare log;
  vo_announced n pp : pp ∈ log → has_type_seq PrePrepare n pp → ∃ bn, bn ∈ log ∧ has_type_seq BlockNew n bn;
  vo_backed n v b : (n, v, b) ∈ cast →
    pre_prepared log n v b ∨ (n + 1 < height ∧ ∀ bn, bn ∈ log → ¬ has_type_seq BlockNew n bn);
  vo_once n v b b' : (n, v, b) ∈ cast → (n, v, b') ∈ cast → b = b'
}.

Section invariant.
Implicit Types (cast : list (N * N * PbftBlock)) (log : list ParsedMessage) (m : ParsedMessage).

Lemma has_type_seq_msg_type t n m : has_type_seq t n m → msg_type_of m = t.
Proof. intros [Ht _]. unfold msg_type_of. rewrite Ht. apply message_type_of_string_of. Qed.

Lemma pre_prepared_store m log n v b : pre_prepared log n v b → pre_prepared (store m log) n v b.
Proof. apply pre_prepared_prefix, store_prefix. Qed.

Lemma votes_ok_store cast height log m :
  msg_type_of m ≠ PrePrepare → (msg_type_of m = BlockNew → height ≤ mi_seq_num (info m)) →
  votes_ok cast height log → votes_ok cast height (store m log).
Proof.
  intros Ht Hbn [Hu Ha Hb Ho]. split; [..|done].
  - apply unique_pre_prepare_store; [|done]. by intros pp _ n v Hm%msg_type_of_type_seq_view _.
  - intros n pp [->|Hin]%elem_of_store Hpp; [by apply has_type_seq_msg_type in Hpp|].
    destruct (Ha n pp Hin Hpp) as (bn & ? & ?). exists bn. split; [apply elem_of_store; by right|done].
  - intros n v b [Hpp|[Hn Hno]]%Hb; [left; by apply pre_prepared_store|]. right. split; [done|].
    intros bn [->|Hin]%elem_of_store Hbt; [|by apply (Hno bn)].
    pose proof (has_type_seq_msg_type _ _ _ Hbt) as Hm%Hbn. destruct Hbt as [_ <-]. lia.
Qed.

Lemma votes_ok_pre_prepare cast height log m :
  (∃ bn, bn ∈ log ∧ has_type_seq BlockNew (mi_seq_num (info m)) bn) →
  (∀ pp, pp ∈ log → has_type_seq_view PrePrepare (mi_seq_num (info m)) (mi_view (info m)) pp →
     ∃ pp', pp' ∈ log ∧ has_type_seq_view PrePrepare (mi_seq_num (info m)) (mi_view (info m)) pp' ∧
            get_block pp' = get_block m) →
  votes_ok cast height log → votes_ok cast height (store m log).
Proof.
  intros (bn & Hbn & Hbt) Hm [Hu Ha Hb Ho]. split; [..|done].
  - apply unique_pre_prepare_store; [|done]. intros pp Hin n v (_ & <- & <-) Hpp.
    destruct (Hm pp Hin Hpp) as (pp' & Hin' & Hpp' & <-). by eapply Hu.
  - intros n pp [->|Hin]%elem_of_store Hpp.
    + destruct Hpp as [_ <-]. exists bn. split; [apply elem_of_store; by right|done].
    + destruct (Ha n pp Hin Hpp) as (bn' & ? & ?). exists bn'. split; [apply elem_of_store; by right|done].
  - intros n v b [Hpp|[Hn Hno]]%Hb; [left; by apply pre_prepared_store|]. right. split; [done|].
    intros bn' [->|Hin]%elem_of_store Hbt'; [|by apply (Hno bn')].
    destruct Hbt' as [_ Hs]. rewrite Hs in Hbt. by apply (Hno bn).
Qed.

(** A vote for a stored pre-prepare agrees with every earlier one. *)
Lemma votes_ok_vote cast height log m n v b :
  m ∈ log → has_type_seq_view PrePrepare n v m → get_block m = Done b →
  votes_ok cast height log → votes_ok (cast ++ [(n, v, b)]) height log.
Proof.
  intros Hin Hm Hb [Hu Ha Hback Ho].
  assert (∀ b', (n, v, b') ∈ cast → b' = b) as Hold.
  { intros b' [(m' & Hin' & Hm' & Hb')|[_ Hno]]%Hback.
    - assert (get_block m = get_block m') as Heq by (by eapply Hu). congruence.
    - exfalso. destruct Hm as (Ht & Hs & _). destruct (Ha n m Hin) as (bn & ? & ?); [done|]. by apply (Hno bn). }
  split; [done|done|..].
  - intros n' v' b' [?|Heq%list_elem_of_singleton]%elem_of_app; [by apply Hback|].
    injection Heq as -> -> ->. left. by exists m.
  - intros n' v' b1 b2 [H1|H1%list_elem_of_singleton]%elem_of_app [H2|H2%list_elem_of_singleton]%elem_of_app.
    + by eapply Ho.
    + injection H2 as -> -> ->. by apply Hold.
    + injection H1 as -> -> ->. symmetry. by apply Hold.
    + congruence.
Qed.

Lemma votes_ok_collected cast height log log' :
  collected height log log' → votes_ok cast height log → votes_ok cast (height + 1) log'.
Proof.
  intros (_ & low & Hlow & Hm) [Hu Ha Hb Ho]. split; [..|done].
  - intros x y n v Hx%Hm Hy%Hm. apply Hu; [apply Hx|apply Hy].
  - intros n pp [Hin Hle]%Hm Hpp. destruct (Ha n pp Hin Hpp) as (bn & Hbn & Hbt). exists bn.
    split; [|done]. apply Hm. split; [done|]. destruct Hpp as [_ Hs], Hbt as [_ Hs']. lia.
  - intros n v b [(m & Hin & Hmt & Hmb)|[Hn Hno]]%Hb.
    + destruct (decide (low ≤ n)) as [Hle|Hlt].
      * left. exists m. split; [|done]. apply Hm. split; [done|]. destruct Hmt as (_ & -> & _). done.
      * right. split; [lia|]. intros bn [_ Hle]%Hm [_ Hs]. lia.
    + right. split; [lia|]. intros bn [Hin _]%Hm. by apply Hno.
Qed.

Lemma votes_ok_start height : votes_ok [] height [].
Proof.
  split; [intros x y n v Hx|intros n pp Hx|intros n v b Hx|intros n v b b' Hx]; by apply elem_of_nil in Hx.
Qed.
End invariant.

(** ** The handlers keep it *)

Section handlers.
Context `{Externals} `{!CodecLaws}.
Implicit Types (s : Sys) (m : ParsedMessage).

Definition votes_good s : Prop :=
  votes_ok (prepare_votes (service s)) (seq_num (pbft_state s)) (stored (msg_log s)).

Lemma votes_good_same s s' :
  prepare_votes (service s') = prepare_votes (service s) → seq_num (pbft_state s') = seq_num (pbft_state s) →
  stored (msg_log s') = stored (msg_log s) → keeps votes_good s s'.
Proof. unfold keeps, votes_good. by intros -> -> ->. Qed.

Lemma votes_good_quiet s c :
  (∀ bs, c ≠ Broadcast (string_of_message_type Prepare) bs) → keeps votes_good s (set_service (service s ++ [c]) s).
Proof. intros Hc. apply votes_good_same; [|done..]. cbn [set_service service]. by rewrite prepare_votes_snoc, prepare_vote_other, app_nil_r. Qed.

Lemma votes_good_add s m :
  msg_type_of m ≠ PrePrepare → (msg_type_of m = BlockNew → seq_num (pbft_state s) ≤ mi_seq_num (info m)) →
  keeps votes_good s (set_log (add_message m (pbft_state s) (msg_log s)).2 s).
Proof.
  intros Ht Hbn. rewrite add_message_cases. case_decide; [|by apply votes_good_same]. intros Hok.
  unfold votes_good. cbn. rewrite stored_insert. by apply votes_ok_store.
Qed.

Lemma votes_good_switch s p : keeps votes_good s (set_state (switch_phase p (pbft_state s)).2 s).
Proof. apply votes_good_same; [done| |done]. cbn. unfold switch_phase. by case_decide. Qed.

(** A broadcast prepare reads back as the vote it was made from. *)
Lemma vote_call_vote m b st :
  prepare_vote (vote_call m b st) = Some (mi_seq_num (info m), view st, b).
Proof.
  unfold vote_call, sent_bytes, make_msg_bytes.
  destruct (message_roundtrip (mkPbftMessage (Some (make_msg_info Prepare (view st) (mi_seq_num (info m)) (st_id st))) (Some b)))
    as (bs & -> & Hbs).
  cbn. by rewrite Hbs.
Qed.

Lemma votes_good_pre_prepare m : msg_type_of m = PrePrepare → respects (keeps votes_good) (pre_prepare m).
Proof.
  intros Ht s. destruct (pre_prepare m s) as [o s'] eqn:Hrun. cbn [snd].
  apply pre_prepare_cases in Hrun as [[-> _]|(_ & Hg & ->)]; [done|].
  trans (stored_state m s).
  - destruct (pre_prepare_guard_log m s Hg) as [(bn & Hbn & Hbt & _) Hpp]. intros Hok.
    unfold votes_good, stored_state. cbn [set_log msg_log service pbft_state]. rewrite stored_insert.
    apply votes_ok_pre_prepare; [by exists bn|exact Hpp|exact Hok].
  - unfold preparing_state. case_decide; [|done].
    by etrans; [apply votes_good_switch|apply votes_good_same].
Qed.

Lemma votes_effects : effects (keeps votes_good).
Proof.
  assert (∀ c, (∀ bs, c ≠ Broadcast (string_of_message_type Prepare) bs) → ∀ A (a : list ServiceCall → A),
            respects (keeps votes_good) (with_service (call a c))) as Hcall.
  { intros c Hc A a. apply respects_with_service. intros s. by apply votes_good_quiet. }
  pose proof (λ p, respects_switch_phase (keeps votes_good) p (λ s, votes_good_switch s p)) as Hswitch.
  assert (∀ m, msg_type_of m = Prepare ∨ msg_type_of m = Commit →
            respects (keeps votes_good) (log_add_message m)) as Hadd.
  { intros m Hm. apply respects_log_add_message. intros s. apply votes_good_add; by destruct Hm as [->| ->]. }
  split; [split|].
  - intros s c [_ Hc]. by apply votes_good_quiet.
  - intros s m b Hin Ht Hv Hb Hok. unfold votes_good. cbn [set_service service msg_log pbft_state].
    rewrite prepare_votes_snoc, vote_call_vote.
    eapply votes_ok_vote; [exact Hin| |exact Hb|exact Hok]. by apply msg_type_seq_view.
  - intros s. by apply votes_good_same.
  - intros s m. by apply votes_good_same.
  - intros s. apply votes_good_same; try done. by destruct (pop_backlog_cases (msg_log s)) as [->|[b ->]].
  - intros s m Hm. apply votes_good_add; by destruct Hm as [->|[-> ?]].
  - intros s t _. by apply votes_good_same.
  - intros s. by apply votes_good_same.
  - apply votes_good_pre_prepare.
  - intros m Ht. pose proof (Hadd m (or_introl Ht)).
    assert (∀ l, respects (keeps votes_good) (with_service (svc_check_blocks l))) by (intros; by apply Hcall).
    unfold prepare_arm, check_blocks_if_not_checking. solve_respects.
  - intros m Ht. pose proof (Hadd m (or_intror Ht)).
    assert (∀ l, respects (keeps votes_good) (with_service (svc_commit_block l))) by (intros; by apply Hcall).
    unfold commit_arm, commit_block_if_committing, commit. solve_respects.
  - intros m. apply respects_view_change; [apply _|..].
    + intros s c [_ Hc]. by apply votes_good_quiet.
    + intros s. by apply votes_good_same.
    + intros s v. by apply votes_good_same.
    + intros s r. by apply votes_good_same.
    + intros s t. by apply votes_good_same.
  - intros s. apply votes_good_switch.
Qed.

(** Committing a block casts no vote. *)
Lemma votes_commit_effects : commit_effects (frame (λ s, prepare_votes (service s))).
Proof.
  split; intros; unfold frame; cbn [set_state set_service set_log service]; try done.
  rewrite prepare_votes_snoc, prepare_vote_other, app_nil_r; naive_solver.
Qed.

Lemma votes_good_advance b s s' :
  on_block_commit b s = (Done tt, s') → advance_step (abs s) (abs s') → votes_good s → votes_good s'.
Proof.
  intros Hrun [Hn Hc]%advance_step_log Hok. pose proof (ce_on_block_commit _ votes_commit_effects b s) as Hv.
  rewrite Hrun in Hv. unfold frame in Hv. cbn [snd] in Hv. cbn in Hn. unfold votes_good. rewrite <- Hv, Hn.
  by eapply votes_ok_collected.
Qed.
End handlers.
