(* ===== verification/Termination.v ===== *)
(** * Self-sent messages

    A node handles its own broadcasts by calling [on_peer_message] from
    [_broadcast_message].  The recursion ends: the messages a node sends itself
    (a [Prepare], or a [ViewChange] once it is changing views) send nothing in
    turn.  Fuel 2 is enough and more fuel changes nothing. *)

From S2P Require Import Prelude HashSet MessageType Wire Service Errors Messages.
From S2P Require Import Timing Config NodeState MessageLog Sys Handlers Node NodeFrames Protocol.

(** ** Pure computations without fuel *)

Create HintDb unstuck.

Ltac solve_unstuck :=
  repeat first
    [ done
    | progress intros
    | solve [eauto with unstuck]
    | apply outcome_bind_not_stuck
    | match goal with
      | |- (match ?x with _ => _ end) ≠ OutOfFuel => destruct x
      end ].

Section pure.
Context `{Externals}.

Lemma u64_add_unstuck a b : u64_add a b ≠ OutOfFuel.
Proof. unfold u64_add, u64_overflow. solve_unstuck. Qed.
Lemma u64_sub_unstuck a b : u64_sub a b ≠ OutOfFuel.
Proof. unfold u64_sub, u64_overflow. solve_unstuck. Qed.
Lemma u64_mul_unstuck a b : u64_mul a b ≠ OutOfFuel.
Proof. unfold u64_mul, u64_overflow. solve_unstuck. Qed.
Lemma u64_rem_unstuck a b : u64_rem a b ≠ OutOfFuel.
Proof. unfold u64_rem. solve_unstuck. Qed.
Lemma get_block_unstuck m : get_block m ≠ OutOfFuel.
Proof. unfold get_block. solve_unstuck. Qed.

#[local] Hint Resolve u64_add_unstuck u64_sub_unstuck u64_mul_unstuck u64_rem_unstuck get_block_unstuck : unstuck.

Lemma same_block_unstuck m m' : same_block m m' ≠ OutOfFuel.
Proof. unfold same_block. solve_unstuck. Qed.
Lemma get_primary_id_unstuck st : get_primary_id st ≠ OutOfFuel.
Proof. unfold get_primary_id. solve_unstuck. Qed.

#[local] Hint Resolve same_block_unstuck get_primary_id_unstuck : unstuck.

Lemma any_o_unstuck {A} (p : A → Outcome bool) l : (∀ x, p x ≠ OutOfFuel) → any_o p l ≠ OutOfFuel.
Proof. intros Hp. induction l; cbn; solve_unstuck. Qed.
Lemma filter_o_unstuck {A} (p : A → Outcome bool) l : (∀ x, p x ≠ OutOfFuel) → filter_o p l ≠ OutOfFuel.
Proof. intros Hp. induction l; cbn; solve_unstuck. Qed.
Lemma two_f_plus_one_unstuck f : two_f_plus_one f ≠ OutOfFuel.
Proof. unfold two_f_plus_one. solve_unstuck. Qed.
Lemma log_has_required_msgs_unstuck l t m c n : log_has_required_msgs l t m c n ≠ OutOfFuel.
Proof.
  unfold log_has_required_msgs. apply outcome_bind_not_stuck; [|done].
  destruct c; [apply filter_o_unstuck; solve_unstuck|done].
Qed.

#[local] Hint Resolve two_f_plus_one_unstuck log_has_required_msgs_unstuck : unstuck.

Lemma check_prepared_unstuck l i f : check_prepared l i f ≠ OutOfFuel.
Proof. unfold check_prepared. solve_unstuck. Qed.
#[local] Hint Resolve check_prepared_unstuck : unstuck.
Lemma check_committable_unstuck l i f : check_committable l i f ≠ OutOfFuel.
Proof. unfold check_committable. solve_unstuck. Qed.

(** ** Handlers *)

Lemma never_stuck_call {A} (a : list ServiceCall → A) c : never_stuck (with_service (call a c)).
Proof. by intros s. Qed.
Lemma never_stuck_now : never_stuck now.
Proof. by intros s. Qed.
Lemma never_stuck_add m : never_stuck (log_add_message m).
Proof. intros s. unfold log_add_message. by destruct (add_message _ _ _). Qed.

#[local] Hint Resolve check_committable_unstuck any_o_unstuck : unstuck.
#[local] Hint Resolve never_stuck_call never_stuck_now never_stuck_add : fuel.

Ltac solve_fuel :=
  repeat first
    [ solve [eauto with fuel]
    | progress intros
    | apply never_stuck_ret
    | apply never_stuck_gets
    | apply never_stuck_modify
    | apply never_stuck_lift; solve [solve_unstuck]
    | apply never_stuck_bind
    | apply never_stuck_try
    | match goal with
      | |- never_stuck (match ?x with _ => _ end) => destruct x
      end ].

Lemma pre_prepare_fuel m : never_stuck (pre_prepare m).
Proof. unfold pre_prepare, state_switch_phase, stop_timeout. solve_fuel. Qed.

Lemma commit_fuel m : never_stuck (commit m).
Proof. unfold commit, svc_commit_block. solve_fuel. Qed.

Lemma view_change_fuel m : never_stuck (view_change m).
Proof.
  unfold view_change, check_received_enough_view_changes, set_current_view_from_msg, set_current_view,
    check_is_primary, become_primary, become_secondary, svc_ignore_block, svc_initialize_block.
  solve_fuel.
Qed.

#[local] Hint Resolve pre_prepare_fuel commit_fuel view_change_fuel : fuel.

Section body.
Context (h : ParsedMessage → NodeM ()) (Hh : ∀ m, never_stuck (h m)).

Lemma broadcast_message_fuel t b : never_stuck (broadcast_message h t b).
Proof. unfold broadcast_message, svc_broadcast. solve_fuel. Qed.

Lemma propose_fuel : never_stuck (propose_view_change_with (broadcast_message h)).
Proof. pose proof broadcast_message_fuel. unfold propose_view_change_with. solve_fuel. Qed.

Lemma on_peer_message_body_fuel m : never_stuck (on_peer_message_body (broadcast_message h) m).
Proof.
  pose proof broadcast_message_fuel. pose proof propose_fuel. rewrite on_peer_message_body_arms.
  unfold prepare_arm, commit_arm, broadcast_pre_prepare, broadcast_pbft_message,
    propose_view_change_if_enough_messages, check_blocks_if_not_checking, svc_check_blocks,
    commit_block_if_committing.
  solve_fuel.
Qed.
End body.
End pure.

(** ** What the handler of own messages is asked *)

Section own_messages.
Context `{Externals} `{!CodecLaws}.
Implicit Types (s : Sys) (m : ParsedMessage).

(** The messages a handler sends its own node, and the states it sends them in. *)
Definition own_message m s : Prop :=
  msg_type_of m = Prepare ∨ msg_type_of m = ViewChange ∧ mode (pbft_state s) = ViewChanging.

Section two_handlers.
Context (h h' : ParsedMessage → NodeM ()) (Hh : ∀ m s, own_message m s → h m s = h' m s).

(** Equal first steps and continuations that agree where they are run. *)
Lemma run_bind_ext {A B} (m : SM Sys A) (k k' : A → SM Sys B) s :
  (∀ a s', m s = (Done a, s') → k a s' = k' a s') → (m ≫= k) s = (m ≫= k') s.
Proof. intros Hk. rewrite !run_bind. destruct (m s) as [[]]; auto. Qed.

Lemma run_try_ext {A B} (m m' : NodeM A) (k : A → NodeM B) s :
  m s = m' s → try_bind k m s = try_bind k m' s.
Proof. intros Hm. by rewrite !run_try, Hm. Qed.

Lemma broadcast_prepare_ext n b s :
  broadcast_pbft_message (broadcast_message h) n Prepare b s = broadcast_pbft_message (broadcast_message h') n Prepare b s.
Proof.
  unfold broadcast_pbft_message. rewrite !run_get_state. destruct (_ && _); [done|].
  set (m := mkPbftMessage (Some (make_msg_info Prepare (view (pbft_state s)) n (st_id (pbft_state s)))) (Some b)).
  destruct (from_bytes_message m) as (bs & Hw & Hp); [done|].
  unfold make_msg_bytes. fold m. rewrite Hw. unfold broadcast_message, svc_broadcast. rewrite !run_call.
  rewrite Hp, !run_try_ret_ok. apply Hh. by left.
Qed.

Lemma propose_view_change_ext s : propose_view_change_with (broadcast_message h) s = propose_view_change_with (broadcast_message h') s.
Proof.
  unfold propose_view_change_with. rewrite !run_get_state. case_decide; [done|].
  rewrite !run_modify_state. apply run_bind_ext. intros v s1 [= _ <-].
  apply run_bind_ext. intros n s1 [= _ <-]. rewrite !run_get_log.
  destruct (get_consensus_seal _ _) as [seal|]; [|done]. rewrite !run_try_ret_ok.
  set (vc := mkPbftViewChange _ _).
  destruct (from_bytes_view_change vc) as (bs & Hw & Hp); [done|].
  rewrite Hw. cbn [map_err]. rewrite !run_try_ret_ok.
  unfold broadcast_message, svc_broadcast. rewrite !run_call, Hp, !run_try_ret_ok. apply Hh. by right.
Qed.

Lemma on_peer_message_body_ext m s : on_peer_message_body (broadcast_message h) m s = on_peer_message_body (broadcast_message h') m s.
Proof.
  rewrite !on_peer_message_body_arms. destruct (message_type_of_str _); try done.
  - apply run_bind_ext. intros [] s' _; [|done]. unfold broadcast_pre_prepare.
    apply run_bind_ext. intros b s'' _. apply broadcast_prepare_ext.
  - rewrite !run_try. destruct (log_add_message m s) as [[[[]|]| |] s']; try done.
    apply run_try_ext. unfold propose_view_change_if_enough_messages.
    rewrite !run_get_state. case_decide; [|done]. rewrite !run_get_log.
    apply run_bind_ext. intros f s1 _. apply run_bind_ext. intros e s2 _.
    destruct (_ && _); [|done]. apply run_try_ext, propose_view_change_ext.
Qed.
End two_handlers.

(** On its own messages a node does not ask the handler of own messages. *)
Lemma own_message_body h h' m s :
  own_message m s → on_peer_message_body (broadcast_message h) m s = on_peer_message_body (broadcast_message h') m s.
Proof.
  rewrite !on_peer_message_body_arms. unfold own_message, msg_type_of. intros [-> |[-> Hm]]; [done|].
  rewrite !run_try. destruct (log_add_message m s) as [[[[]|]| |] s'] eqn:Hadd; try done.
  assert (mode (pbft_state s') = ViewChanging) as Hm'.
  { revert Hadd. unfold log_add_message. destruct (add_message _ _ _). by intros [= _ <-]. }
  apply run_try_ext. unfold propose_view_change_if_enough_messages. rewrite !run_get_state.
  by case_decide.
Qed.

(** The recursion unrolled: a handler whose own messages are handled without
    sending anything. *)
Definition no_own_message (m : ParsedMessage) : NodeM () := mret (Ok tt).

Definition on_peer_message_flat (m : ParsedMessage) : NodeM () :=
  on_peer_message_body (broadcast_message (on_peer_message_body (broadcast_message no_own_message))) m.

Lemma on_peer_message_fuel fuel m s :
  on_peer_message (S (S fuel)) m s = on_peer_message_flat m s.
Proof.
  apply on_peer_message_body_ext. intros m' s' Hown. by apply own_message_body.
Qed.

Lemma on_peer_message_flat_fuel m : never_stuck (on_peer_message_flat m).
Proof. do 2 (apply on_peer_message_body_fuel; intros ?). by apply never_stuck_ret. Qed.
End own_messages.
