(* ===== verification/Seals.v ===== *)
(** * Consensus seals

    What [verify_consensus_vote] and [verify_consensus_seal] (node.rs) accept,
    what [build_seal] makes, and that the one accepts what the other makes. *)

From S2P Require Import Prelude HashSet MessageType Wire Service Errors Messages.
From S2P Require Import Timing Config NodeState MessageLog Sys Handlers Node.

Section seals.
Context `{Externals}.
Implicit Types (s : Sys) (vote : PbftSignedCommitVote) (seal : PbftSeal).

(** A vote for the previous block, with a header that is signed by the key it
    names and that covers the message; [id] is the signer the message names. *)
Definition vote_valid seal vote (id : PeerId) : Prop :=
  ∃ msg header key,
    message_of_bytes (sv_message_bytes vote) = Ok msg ∧
    pb_block_id (pm_get_block msg) = ps_previous_id seal ∧
    header_of_bytes (sv_header_bytes vote) = Ok header ∧
    public_key_from_hex (hex_encode (ph_signer_id header)) = Some key ∧
    create_context = Ok tt ∧
    verify_signature (hex_encode (sv_header_signature vote)) (sv_header_bytes vote) key = Ok true ∧
    sha512 (sv_message_bytes vote) = ph_content_sha512 header ∧
    id = mi_signer_id (pm_get_info msg).

Lemma verify_vote_valid vote seal id :
  verify_consensus_vote vote seal = Done (Ok id) ↔ vote_valid seal vote id.
Proof.
  unfold verify_consensus_vote, vote_valid. split.
  - destruct (message_of_bytes _) as [msg|] eqn:Hmsg; [|done]. case_decide as Hid; [done|].
    destruct (header_of_bytes _) as [header|] eqn:Hheader; [|done].
    destruct (public_key_from_hex _) as [key|] eqn:Hkey; [|done].
    destruct create_context as [[]|] eqn:Hctx; [|done].
    destruct (verify_signature _ _ _) as [[]|] eqn:Hsig; [|done..].
    destruct (verify_sha512 _ _) as [[]|] eqn:Hsha; [|done]. apply verify_sha512_ok in Hsha.
    intros [= <-]. by exists msg, header, key.
  - intros (msg & header & key & -> & -> & -> & -> & -> & -> & Hsha & ->).
    rewrite decide_False by auto. by rewrite (proj2 (verify_sha512_ok _ _) Hsha).
Qed.

Lemma verify_votes_valid vs seal ids ids' :
  verify_votes vs seal ids = Done (Ok ids') ↔
  ∃ l, Forall2 (vote_valid seal) vs l ∧ ids' = list_to_set l ∪ ids.
Proof.
  revert ids. induction vs as [|v vs IH]; intros ids; cbn -[verify_consensus_vote].
  - split.
    + intros [= <-]. exists []. split; [constructor|]. cbn. set_solver.
    + intros (l & Hl%Forall2_nil_inv_l & ->). subst l. cbn. do 2 f_equal. set_solver.
  - unfold try_bind. destruct (verify_consensus_vote v seal) as [[id|]| |] eqn:Hv.
    + rewrite done_bind, IH. apply verify_vote_valid in Hv as Hvalid. split.
      * intros (l & Hl & ->). exists (id :: l). split; [by constructor|]. cbn. set_solver.
      * intros (l' & (id' & l & Hid & Hl & ->)%Forall2_cons_inv_l & ->). exists l. split; [done|].
        apply verify_vote_valid in Hid. rewrite Hv in Hid. injection Hid as <-. cbn. set_solver.
    + split; [done|]. intros (l' & (id' & l & Hid%verify_vote_valid & _)%Forall2_cons_inv_l & _). congruence.
    + split; [done|]. intros (l' & (id' & l & Hid%verify_vote_valid & _)%Forall2_cons_inv_l & _). congruence.
    + split; [done|]. intros (l' & (id' & l & Hid%verify_vote_valid & _)%Forall2_cons_inv_l & _). congruence.
Qed.

(** The peers the validator reports at a block. *)
Definition peers_at (h : list ServiceCall) (b : BlockId) (peers : list PeerId) : Prop :=
  ∃ settings, on_get_settings h b [peers_key] = Ok settings ∧ get_peers_from_settings settings = Done peers.

Lemma get_peers_at_inv b s peers s' :
  get_peers_at b s = (Done peers, s') ↔
  peers_at (service s) b peers ∧ s' = set_service (service s ++ [GetSettings b [peers_key]]) s.
Proof.
  unfold get_peers_at, svc_get_settings, peers_at. rewrite run_call.
  destruct (on_get_settings _ _ _) as [settings|]; unfold sm_lift.
  - split.
    + intros [= Hp <-]. split; [by exists settings|done].
    + by intros [(? & [= <-] & ->) ->].
  - split; [done|]. by intros [(? & ? & _) _].
Qed.

(** What makes a seal acceptable for a block. *)
Record seal_ok (block : Block) (s : Sys) seal : Prop := {
  so_height : 2 ≤ bk_block_num block;
  so_payload : bk_payload block ≠ [];
  so_parsed : seal_of_bytes (bk_payload block) = Ok seal;
  so_previous : ps_previous_id seal = bk_previous_id block;
  so_summary : ps_summary seal = bk_summary block;
  so_voters : ∃ voters peers n,
    Forall2 (vote_valid seal) (ps_previous_commit_votes seal) voters ∧
    peers_at (service s) (bk_previous_id block) peers ∧
    (∀ id, id ∈ voters → id ∈ peers ∧ id ≠ bk_signer_id block) ∧
    u64_mul 2 (st_f (pbft_state s)) = Done n ∧
    n ≤ N.of_nat (size (list_to_set voters : gset PeerId))
}.

Definition asked_settings (block : Block) s : Sys :=
  set_service (service s ++ [GetSettings (bk_previous_id block) [peers_key]]) s.

Lemma verify_seal_sound block s seal s' :
  verify_consensus_seal block s = (Done (Ok (Some seal)), s') →
  seal_ok block s seal ∧ s' = asked_settings block s.
Proof.
  unfold verify_consensus_seal. case_bool_decide as Hn; [done|]. case_decide as Hp; [done|].
  destruct (seal_of_bytes _) as [seal'|] eqn:Hseal; [|done]. cbn [map_err]. rewrite run_try_ret_ok.
  case_decide as Hprev.
  { rewrite run_bind. unfold sm_lift at 1. destruct (slice_prefix 3 (ps_previous_id seal')); [|done..].
    rewrite run_bind. unfold sm_lift at 1. by destruct (slice_prefix 3 (bk_previous_id block)). }
  case_decide as Hsum; [done|]. rewrite run_try. unfold sm_lift at 1.
  destruct (verify_votes _ _ _) as [[ids|]| |] eqn:Hv; [|done..].
  apply verify_votes_valid in Hv as (voters & Hvoters & ->).
  intros (peers & s1 & [Hpeers ->]%get_peers_at_inv & Hrun)%bind_done_inv.
  case_decide as Hsub; [done|]. rewrite run_get_state in Hrun.
  apply bind_done_inv in Hrun as (n & s1 & [= Hmul <-] & Hrun).
  case_bool_decide as Hsize; [done|]. injection Hrun as <- <-. split; [|done].
  split; [lia|done..|]. exists voters, peers, n. split_and!; [done|done| |done|].
  - intros id Hid. assert (id ∈ (list_to_set (filter (λ pid, pid ≠ bk_signer_id block) peers) : gset PeerId)) as Hin
      by set_solver.
    rewrite elem_of_list_to_set, list_elem_of_filter in Hin. tauto.
  - rewrite (right_id_L ∅ (∪)) in Hsize. lia.
Qed.

Lemma verify_seal_complete block s seal :
  seal_ok block s seal →
  verify_consensus_seal block s = (Done (Ok (Some seal)), asked_settings block s).
Proof.
  intros [Hn Hp Hseal Hprev Hsum (voters & peers & n & Hv & Hpeers & Hin & Hmul & Hsize)].
  unfold verify_consensus_seal. rewrite bool_decide_false by lia. rewrite decide_False by done.
  rewrite Hseal. cbn [map_err]. rewrite run_try_ret_ok.
  rewrite decide_False by auto. rewrite decide_False by auto. rewrite run_try. unfold sm_lift at 1.
  rewrite (proj2 (verify_votes_valid _ _ _ (list_to_set voters ∪ ∅))) by by exists voters.
  rewrite (run_bind_done _ _ _ _ _ (proj2 (get_peers_at_inv _ _ _ _) (conj Hpeers eq_refl))).
  rewrite (right_id_L ∅ (∪)). rewrite decide_False.
  - rewrite run_get_state, (run_lift_done _ _ _ n) by done. by rewrite bool_decide_false by lia.
  - intros Hns. apply Hns. intros id. rewrite !elem_of_list_to_set, list_elem_of_filter.
    intros [? ?]%Hin. done.
Qed.

(** ** Building a seal *)

(** The vote [build_seal] makes of a stored message. *)
Definition vote_of (m : ParsedMessage) : PbftSignedCommitVote :=
  mkPbftSignedCommitVote (header_bytes m) (header_signature m) (message_bytes m).

Lemma build_seal_inv summary s data s' :
  build_seal summary s = (Done (Ok data), s') →
  ∃ n q v first ms b,
    u64_sub (seq_num (pbft_state s)) 1 = Done n ∧ u64_mul 2 (st_f (pbft_state s)) = Done q ∧
    received_in_view (msg_log s) Commit n v = first :: ms ∧ q ≤ len (first :: ms) ∧
    (∀ v', v < v' → len (received_in_view (msg_log s) Commit n v') < N.max 1 q) ∧
    get_block first = Done b ∧
    seal_to_bytes (mkPbftSeal (pb_block_id b) summary (vote_of <$> (first :: ms))) = Ok data ∧
    s' = s.
Proof.
  unfold build_seal. rewrite run_get_state.
  intros (q & s1 & [= Hq ->] & Hrun)%bind_done_inv.
  apply bind_done_inv in Hrun as (n & s2 & [= Hn ->] & Hrun). rewrite run_get_log in Hrun.
  destruct (get_enough_messages _ _ _ _) as [msgs|] eqn:Hge; [|done]. rewrite run_try_ret_ok in Hrun.
  apply get_enough_messages_some in Hge as (v & Hms & Hne & Hmin & Hmax).
  destruct msgs as [|first ms]; [done|].
  apply bind_done_inv in Hrun as (b & s3 & [= Hb ->] & Hrun). rewrite run_ret in Hrun.
  injection Hrun as Hdata <-. exists n, q, v, first, ms, b. split_and!; try done.
  - intros v' Hv'. destruct (Hmax v' Hv') as [->|Hlt]; [change (len []) with 0|]; lia.
  - unfold vote_of. by destruct (seal_to_bytes _); [injection Hdata as ->|].
Qed.
End seals.
