(* ===== verification/Engine.v ===== *)
(** * [PbftEngine] (src/src/engine.rs)

    The event loop: an update from the validator, the two tickers, and the
    write guard of the state that lives as long as one iteration. *)

From S2P Require Import Prelude HashSet MessageType Wire Service Errors Messages.
From S2P Require Import Timing Config NodeState MessageLog Sys Handlers Node Storage.

(** [sawtooth_sdk]'s [Update], and what waiting for one can end in instead. *)
Inductive Update :=
| UpdateBlockNew (block : Block)
| UpdateBlockValid (block_id : BlockId)
| UpdateBlockInvalid (block_id : BlockId)
| UpdateBlockCommit (block_id : BlockId)
| UpdatePeerMessage (message : PeerMessage) (sender_id : PeerId)
| UpdateShutdown
| UpdatePeerConnected (peer_id : PeerId)
| UpdatePeerDisconnected (peer_id : PeerId).

Inductive RecvTimeoutError := RecvTimeout | RecvDisconnected.

(** The macros [handle_pbft_result] logs an error with. *)
Inductive LogLevel := LevelTrace | LevelError.

Record Engine := mkEngine {
  eng_service : list ServiceCall;
  eng_log : PbftLog;
  eng_ticks : nat;
  eng_state : AnyStorage PbftState;
  eng_files : Files;
  eng_working : Ticker;
  eng_backlog : Ticker;
  eng_logged : list (LogLevel * PbftError)
}.

(** The node and the state its methods are called with. *)
Definition sys_of (e : Engine) : Sys :=
  mkSys (eng_service e) (eng_log e) (storage_read (eng_state e)) (eng_ticks e).

Definition put_sys (s : Sys) (e : Engine) : Engine :=
  mkEngine (service s) (msg_log s) (ticks s) (storage_put (pbft_state s) (eng_state e)) (eng_files e)
    (eng_working e) (eng_backlog e) (eng_logged e).

Definition set_files (fs : Files) (e : Engine) : Engine :=
  mkEngine (eng_service e) (eng_log e) (eng_ticks e) (eng_state e) fs (eng_working e) (eng_backlog e) (eng_logged e).
Definition set_working (t : Ticker) (e : Engine) : Engine :=
  mkEngine (eng_service e) (eng_log e) (eng_ticks e) (eng_state e) (eng_files e) t (eng_backlog e) (eng_logged e).
Definition set_backlog_ticker (t : Ticker) (e : Engine) : Engine :=
  mkEngine (eng_service e) (eng_log e) (eng_ticks e) (eng_state e) (eng_files e) (eng_working e) t (eng_logged e).
Definition log_error (l : LogLevel) (err : PbftError) (e : Engine) : Engine :=
  mkEngine (eng_service e) (eng_log e) (eng_ticks e) (eng_state e) (eng_files e) (eng_working e) (eng_backlog e)
    (eng_logged e ++ [(l, err)]).

(** A method of the node, called with the state behind the guard. *)
Definition with_state {A} (m : SM Sys A) : SM Engine A := zoom sys_of put_sys m.

Section engine.
Context `{Externals} `{FileSystem} `{Serde PbftState}.

Definition handle_update (fuel : nat) (incoming_message : Result Update RecvTimeoutError) : NodeM bool :=
  match incoming_message with
  | Ok (UpdateBlockNew block) => on_block_new fuel block ;? mret (Ok true)
  | Ok (UpdateBlockValid block_id) => on_block_valid fuel block_id ;? mret (Ok true)
  | Ok (UpdateBlockInvalid _) => propose_view_change fuel ;? mret (Ok true)
  | Ok (UpdateBlockCommit block_id) => _ ← on_block_commit block_id; mret (Ok true)
  | Ok (UpdatePeerMessage message sender_id) =>
      parsed_message ←? mret (from_peer_message message false);
      let signer_id := mi_signer_id (info parsed_message) in
      if decide (signer_id ≠ sender_id) then
        mret (Err (InternalError "Mismatch between sender ID ({:?}) and signer ID ({:?})!"))
      else on_peer_message fuel parsed_message ;? mret (Ok true)
  | Ok UpdateShutdown => mret (Ok false)
  | Ok (UpdatePeerConnected _) | Ok (UpdatePeerDisconnected _) => mret (Ok true)
  | Err RecvTimeout => mret (Err TimeoutError)
  | Err RecvDisconnected => mret (Ok false)
  end.

Definition handle_pbft_result (res : Result () PbftError) : SM Engine () :=
  match res with
  | Ok _ => mret tt
  | Err e =>
      match e with
      | TimeoutError => mret tt
      | WrongNumMessages _ _ _ | NotReadyForMessage => sm_modify (log_error LevelTrace e)
      | _ => sm_modify (log_error LevelError e)
      end
  end.

Definition engine_now : SM Engine N := with_state now.

(** The callbacks of the two tickers. *)
Definition working_callback (fuel : nat) : SM Engine () :=
  published ← with_state try_publish;
  _ ← match published with
      | Ok _ => mret tt
      | Err e => sm_modify (log_error LevelError e)
      end;
  expired ← with_state check_faulty_primary_timeout_expired;
  if expired : bool then
    r ← with_state (propose_view_change fuel);
    handle_pbft_result r
  else mret tt.

Definition backlog_callback (fuel : nat) : SM Engine () :=
  r ← with_state (retry_backlog fuel);
  handle_pbft_result r.

(** One turn of the loop; [false] is [break]. *)
Definition iteration_body (fuel : nat) (incoming_message : Result Update RecvTimeoutError) : SM Engine bool :=
  r ← with_state (handle_update fuel incoming_message);
  match r with
  | Ok false => mret false
  | _ =>
      _ ← match r with
          | Ok _ => mret tt
          | Err err => handle_pbft_result (Err err)
          end;
      e ← sm_gets eng_working;
      t ← tick engine_now (working_callback fuel) e;
      _ ← sm_modify (set_working t);
      e ← sm_gets eng_backlog;
      t ← tick engine_now (backlog_callback fuel) e;
      _ ← sm_modify (set_backlog_ticker t);
      mret true
  end.

(** The guard is dropped however its scope ends. *)
Definition with_guard {A} (m : SM Engine A) : SM Engine A := λ e,
  let '(o, e') := m e in
  let '(d, fs) := storage_drop (eng_state e') (eng_files e') in
  (match o with
   | Done a => match d with
               | Done _ => Done a
               | Panic r => Panic r
               | OutOfFuel => OutOfFuel
               end
   | _ => o
   end, set_files fs e').

Definition iteration (fuel : nat) (incoming_message : Result Update RecvTimeoutError) : SM Engine bool :=
  with_guard (iteration_body fuel incoming_message).

(** The loop on the updates it receives; it is still running when they end. *)
Fixpoint event_loop (fuel : nat) (updates : list (Result Update RecvTimeoutError)) : SM Engine bool :=
  match updates with
  | [] => mret true
  | u :: us => again ← iteration fuel u; if again : bool then event_loop fuel us else mret false
  end.

(** ** [PbftEngine::start] up to the loop *)

Record World := mkWorld { w_service : list ServiceCall; w_files : Files; w_ticks : nat }.

Definition world_put_service (h : list ServiceCall) (w : World) : World := mkWorld h (w_files w) (w_ticks w).
Definition world_put_files (fs : Files) (w : World) : World := mkWorld (w_service w) fs (w_ticks w).
Definition world_now : SM World N :=
  λ w, (Done (clock_at (w_ticks w)), mkWorld (w_service w) (w_files w) (S (w_ticks w))).

Definition default_state (local_peer_id : PeerId) (chain_head : Block) (config : PbftConfig) : SM World PbftState :=
  t ← world_now;
  sm_lift (state_new t local_peer_id (bk_block_num chain_head) config).

Definition load_engine (local_peer_id : PeerId) (chain_head : Block) : SM World Engine :=
  config ← zoom w_service world_put_service (load_pbft_config (bk_block_id chain_head));
  loaded ← get_storage w_files world_put_files (cfg_storage config) (default_state local_peer_id chain_head config);
  match loaded with
  | Err _ => sm_lift (Panic "Couldn't load state!")
  | Ok pbft_state =>
      t1 ← world_now;
      t2 ← world_now;
      log ← zoom w_service world_put_service (node_new config (is_primary (storage_read pbft_state)));
      w ← sm_gets id;
      mret (mkEngine (w_service w) log (w_ticks w) pbft_state (w_files w)
              (ticker_new t1 (cfg_block_duration config)) (ticker_new t2 (cfg_message_timeout config)) [])
  end.

Definition start_engine (local_peer_id : PeerId) (chain_head : Block) (w : World) : Outcome () * option Engine :=
  match load_engine local_peer_id chain_head w with
  | (Done e, _) =>
      let '(o, e') := with_guard (with_state start_faulty_primary_timeout) e in (o, Some e')
  | (Panic r, _) => (Panic r, None)
  | (OutOfFuel, _) => (OutOfFuel, None)
  end.

(** [PbftEngine::start]: set up, then loop; it returns when the loop breaks. *)
Definition engine_start (fuel : nat) (updates : list (Result Update RecvTimeoutError))
    (local_peer_id : PeerId) (chain_head : Block) (w : World) : Outcome bool * option Engine :=
  match start_engine local_peer_id chain_head w with
  | (Done _, Some e) => let '(o, e') := event_loop fuel updates e in (o, Some e')
  | (Panic r, e) => (Panic r, e)
  | (_, e) => (OutOfFuel, e)
  end.

(** ** Lifting facts about the node to the loop *)

Definition lifted (R : relation Sys) : relation Engine := λ e e', R (sys_of e) (sys_of e').

#[export] Instance lifted_preorder R `{!PreOrder R} : PreOrder (lifted R).
Proof. split; unfold lifted; [by intros e|intros e1 e2 e3; apply transitivity]. Qed.

Lemma sys_of_put s e : sys_of (put_sys s e) = s.
Proof.
  unfold sys_of, put_sys. cbn [eng_service eng_log eng_state eng_ticks].
  rewrite (storage_read_put (St:=AnyStorage)). by destruct s.
Qed.

Section lifting.
Context (R : relation Sys) `{!PreOrder R}.

Lemma respects_with_state {A} (m : SM Sys A) : respects R m → respects (lifted R) (with_state m).
Proof.
  intros Hm e. specialize (Hm (sys_of e)). unfold with_state, zoom, lifted.
  destruct (m (sys_of e)) as [o s']. cbn. by rewrite sys_of_put.
Qed.

Lemma respects_log_error l err : respects (lifted R) (sm_modify (log_error l err)).
Proof. intros e. unfold lifted. reflexivity. Qed.

Lemma respects_handle_result r : respects (lifted R) (handle_pbft_result r).
Proof. pose proof respects_log_error. unfold handle_pbft_result. solve_respects. Qed.

Lemma respects_tick (cb : SM Engine ()) t :
  respects R now → respects (lifted R) cb → respects (lifted R) (tick engine_now cb t).
Proof.
  intros Hn Hcb. pose proof (respects_with_state now Hn) as Hnow. unfold tick, engine_now. solve_respects.
Qed.

(** What an iteration does after the update. *)
Definition after_update (fuel : nat) (r : Result bool PbftError) : SM Engine bool :=
  match r with
  | Ok false => mret false
  | _ =>
      _ ← match r with
          | Ok _ => mret tt
          | Err err => handle_pbft_result (Err err)
          end;
      e ← sm_gets eng_working;
      t ← tick engine_now (working_callback fuel) e;
      _ ← sm_modify (set_working t);
      e ← sm_gets eng_backlog;
      t ← tick engine_now (backlog_callback fuel) e;
      _ ← sm_modify (set_backlog_ticker t);
      mret true
  end.

Lemma iteration_body_after fuel u :
  iteration_body fuel u = (r ← with_state (handle_update fuel u); after_update fuel r).
Proof. done. Qed.

Lemma respects_after_callbacks fuel r :
  respects R now → respects (lifted R) (working_callback fuel) → respects (lifted R) (backlog_callback fuel) →
  respects (lifted R) (after_update fuel r).
Proof.
  intros Hn Hw Hb. pose proof respects_handle_result.
  assert (∀ t, respects (lifted R) (sm_modify (set_working t))) by (intros t e; unfold lifted; reflexivity).
  assert (∀ t, respects (lifted R) (sm_modify (set_backlog_ticker t))) by (intros t e; unfold lifted; reflexivity).
  assert (∀ t, respects (lifted R) (tick engine_now (working_callback fuel) t)) by (intros; by apply respects_tick).
  assert (∀ t, respects (lifted R) (tick engine_now (backlog_callback fuel) t)) by (intros; by apply respects_tick).
  unfold after_update. solve_respects.
Qed.

Lemma respects_working_callback fuel :
  respects R try_publish → respects R check_faulty_primary_timeout_expired → respects R (propose_view_change fuel) →
  respects (lifted R) (working_callback fuel).
Proof.
  intros Hp%respects_with_state Hc%respects_with_state Hv%respects_with_state.
  pose proof respects_log_error. pose proof respects_handle_result. unfold working_callback. solve_respects.
Qed.

Lemma respects_backlog_callback fuel : respects R (retry_backlog fuel) → respects (lifted R) (backlog_callback fuel).
Proof. intros Hb%respects_with_state. pose proof respects_handle_result. unfold backlog_callback. solve_respects. Qed.

Lemma respects_after_update fuel r :
  respects R now → respects R try_publish →
  respects R check_faulty_primary_timeout_expired → respects R (propose_view_change fuel) →
  respects R (retry_backlog fuel) → respects (lifted R) (after_update fuel r).
Proof.
  intros Hn Hp Hc Hv Hb.
  apply respects_after_callbacks; [done|by apply respects_working_callback|by apply respects_backlog_callback].
Qed.

Lemma with_guard_sys {A} (m : SM Engine A) e : sys_of (with_guard m e).2 = sys_of (m e).2.
Proof. unfold with_guard. destruct (m e) as [o e']. by destruct (storage_drop _ _). Qed.

Lemma respects_with_guard {A} (m : SM Engine A) : respects (lifted R) m → respects (lifted R) (with_guard m).
Proof. intros Hm e. unfold lifted. rewrite with_guard_sys. apply Hm. Qed.
End lifting.

(** ** What the guard persists *)

Lemma with_guard_inv {A} (m : SM Engine A) e a e' :
  with_guard m e = (Done a, e') →
  ∃ e1 fs, m e = (Done a, e1) ∧ e' = set_files fs e1 ∧
    match storage_path (eng_state e1) with
    | Some path => ∃ j, to_json (storage_read (eng_state e1)) = Ok j ∧ fs = <[path := j]> (eng_files e1)
    | None => fs = eng_files e1
    end.
Proof.
  unfold with_guard. destruct (m e) as [[x| |] e1] eqn:Hm; [|by destruct (storage_drop _ _)..].
  destruct (storage_drop _ _) as [[[]| |] fs] eqn:Hd; [|done..]. intros [= <- <-].
  exists e1, fs. split_and!; [done|done|]. by apply (storage_drop_files (St:=AnyStorage)) in Hd.
Qed.
End engine.
