(* ===== verification/Main.v ===== *)
(** * The process (src/src/main.rs)

    The command line, the choice of a logging configuration and the start of
    the engine.  clap's matches, log4rs and the ZeroMQ driver are parameters;
    what the process does to them is a list of actions. *)

From S2P Require Import Prelude.

(** [log::LevelFilter], as far as it is used. *)
Inductive LevelFilter := LevelWarn | LevelInfo | LevelDebug | LevelTraceFilter.

#[export] Instance LevelFilter_eq_dec : EqDecision LevelFilter.
Proof. solve_decision. Defined.

(** [clap::ArgMatches]. *)
Record ArgMatches := mkArgMatches {
  value_of : string → option string;
  occurrences_of : string → N
}.

(** log4rs and [sawtooth_sdk]'s driver. *)
Class Process := {
  LogConfig : Type;
  load_config_file : string → Result LogConfig string;
  set_level : LevelFilter → LogConfig → LogConfig;
  console_config : LevelFilter → Result LogConfig string;
  init_config : LogConfig → Result () string;
  driver_start : string → Result () string
}.

Record PbftCliArgs := mkPbftCliArgs {
  log_config : option string;
  log_level : LevelFilter;
  endpoint : string
}.

Definition parse_args (matches : ArgMatches) : PbftCliArgs :=
  mkPbftCliArgs (value_of matches "logconfig")
    match occurrences_of matches "verbose" with
    | 0 => LevelWarn
    | 1 => LevelInfo
    | 2 => LevelDebug
    | _ => LevelTraceFilter
    end
    (default "tcp://localhost:5050" (value_of matches "connect")).

(** What the process has done, and how it ends: [main] returns, or
    [process::exit] is called with a code. *)
Inductive Action `{Process} := InitLogging (config : LogConfig) | StartDriver (endpoint : string).
Inductive Ended := MainReturns | ExitCode (code : N).

Section main.
Context `{Process}.

(** Computations that may exit. *)
Definition Exits (A : Type) : Type := Ended + A.

Definition get_console_config (level : LevelFilter) : Exits LogConfig :=
  match console_config level with
  | Ok config => inr config
  | Err _ => inl (ExitCode 1)
  end.

Definition choose_config (args : PbftCliArgs) : Exits LogConfig :=
  match log_config args with
  | Some path =>
      match load_config_file path with
      | Ok config => inr (set_level (log_level args) config)
      | Err _ => get_console_config (log_level args)
      end
  | None => get_console_config (log_level args)
  end.

Definition main (matches : ArgMatches) : list Action * Ended :=
  let args := parse_args matches in
  match choose_config args with
  | inl e => ([], e)
  | inr config =>
      match init_config config with
      | Err _ => ([InitLogging config], ExitCode 1)
      | Ok _ =>
          ([InitLogging config; StartDriver (endpoint args)],
           match driver_start (endpoint args) with
           | Ok _ => MainReturns
           | Err _ => ExitCode 1
           end)
      end
  end.

(** The engine is driven only once logging is set up, at the endpoint given or
    the default one; the process ends with code 1 whenever a step fails; a log
    configuration that cannot be loaded falls back to the console. *)
Theorem main_starts matches :
  let args := parse_args matches in
  (∀ e, StartDriver e ∈ (main matches).1 ↔
     e = default "tcp://localhost:5050" (value_of matches "connect") ∧
     ∃ config, choose_config args = inr config ∧ init_config config = Ok tt) ∧
  ((main matches).2 = MainReturns ↔
     ∃ config, choose_config args = inr config ∧ init_config config = Ok tt ∧ driver_start (endpoint args) = Ok tt) ∧
  ((main matches).2 = MainReturns ∨ (main matches).2 = ExitCode 1) ∧
  (∀ path err, log_config args = Some path → load_config_file path = Err err →
     choose_config args = get_console_config (log_level args)).
Proof.
  intros args. unfold main. fold args.
  assert (∀ l e, get_console_config l = inl e → e = ExitCode 1) as Hconsole.
  { intros l e. unfold get_console_config. destruct (console_config l); [done|]. by intros [= <-]. }
  assert (∀ e, choose_config args = inl e → e = ExitCode 1) as Hexit.
  { intros e. unfold choose_config. destruct (log_config args) as [path|]; [|apply Hconsole].
    destruct (load_config_file path); [done|apply Hconsole]. }
  split_and!.
  - intros e. destruct (choose_config args) as [x|config]; cbn [fst].
    { split; [by intros ?%elem_of_nil|by intros (_ & ? & ? & _)]. }
    destruct (init_config config) as [[]|err] eqn:Hi; cbn [fst]; rewrite !elem_of_cons, elem_of_nil.
    + split; [intros [?|[[= ->]|[]]]; [done|]|intros [-> _]; right; by left].
      split; [done|]. by exists config.
    + split; [by intros [?|[]]|]. intros (_ & c & [= <-] & Hc). congruence.
  - destruct (choose_config args) as [x|config]; cbn [snd].
    { rewrite (Hexit x eq_refl). split; [done|]. by intros (? & ? & _). }
    destruct (init_config config) as [[]|err] eqn:Hi; cbn [snd].
    + destruct (driver_start (endpoint args)) as [[]|err]; split; try done; [by exists config|].
      by intros (? & _ & _ & ?).
    + split; [done|]. intros (c & [= <-] & Hc & _). congruence.
  - destruct (choose_config args) as [x|config]; cbn [snd]; [right; by apply Hexit|].
    destruct (init_config config); cbn [snd]; [|by right]. destruct (driver_start (endpoint args)); [by left|by right].
  - intros path err Hp He. unfold choose_config. by rewrite Hp, He.
Qed.
End main.
