(* ===== verification/Safety.v ===== *)
(** * Safety of a node

    Consequences of the refinement: what a node commits, what changes its view,
    what every phase rests on. *)

From S2P Require Import Prelude HashSet MessageType Wire Service Errors Messages.
From S2P Require Import Timing Config NodeState MessageLog Sys Handlers Node NodeFrames.
From S2P Require Import NodeInvariants Protocol Refinement BlockCommit Engine Storage Fixture.

(** Fault tolerance of a node's membership: the network has at least four peers
    and a number of them that the machine can count. *)
Definition sized (st : PbftState) : Prop := tolerant st ∧ len (peer_ids st) < two64.

Lemma sized_sane s : sized (pbft_state s) → sane (abs s).
Proof.
  intros [Ht Hl]. split; [by apply tolerant_nonempty|]. apply tolerant_f in Ht. unfold quorum. cbn. lia.
Qed.

Section safety.
Context `{Externals}.
Implicit Types (s : Sys) (m : ParsedMessage).

(** C2. The handler of peer messages takes only protocol steps: whatever the
    message, the state and the outcome (errors and panics included), the states
    before and after are connected by steps of [protocol_step], each with its
    PBFT guard. *)
Theorem on_peer_message_refines fuel m s :
  sized (pbft_state s) →
  rtc protocol_step (abs s) (abs (on_peer_message fuel m s).2).
Proof.
  intros Hs. apply (respects_on_peer_message refines refines_effects fuel m s). by apply sized_sane.
Qed.

(** C1. Every block that handling a peer message commits is named by a stored
    commit of the node's height, in a view in which some block of that height
    is pre-prepared and has 2f+1 stored prepares and 2f+1 stored commits. *)
Theorem commits_are_justified fuel m s :
  sized (pbft_state s) →
  let s' := (on_peer_message fuel m s).2 in
  ∃ new, committed (service s') = committed (service s) ++ new ∧
    ∀ id, id ∈ new → ∃ v b c cb,
      committable (stored (msg_log s')) (seq_num (pbft_state s)) v (2 * st_f (pbft_state s) + 1) b ∧
      c ∈ stored (msg_log s') ∧ has_type_seq_view Commit (seq_num (pbft_state s)) v c ∧
      get_block c = Done cb ∧ pb_block_id cb = id.
Proof.
  intros Hs s'. pose proof (respects_on_peer_message refines refines_effects fuel m s (sized_sane s Hs)) as Hr.
  destruct (protocol_steps_commits _ _ Hr) as (new & Heq & Hnew). exists new. split; [exact Heq|].
  apply protocol_steps_static in Hr as [[= _ _ Hf Hn] _]. fold s' in Hf, Hn.
  intros id (v & b & c & cb & Hcom & Hrest)%Hnew. exists v, b, c, cb.
  unfold quorum in Hcom. cbn in Hcom, Hrest. fold s' in Hcom, Hrest. rewrite Hf, Hn in Hcom. rewrite Hn in Hrest.
  done.
Qed.

(** C14. A node that handles a peer message ends in the view it was in or in a
    view for which 2f+1 view changes of one sequence number are stored. *)
Theorem view_changes_are_justified fuel m s :
  sized (pbft_state s) →
  let s' := (on_peer_message fuel m s).2 in
  view (pbft_state s') = view (pbft_state s) ∨
  ∃ seq, 2 * st_f (pbft_state s) + 1 ≤
         len (filter (has_type_seq_view ViewChange seq (view (pbft_state s'))) (stored (msg_log s'))).
Proof.
  intros Hs s'. pose proof (respects_on_peer_message refines refines_effects fuel m s (sized_sane s Hs)) as Hr.
  pose proof (protocol_steps_static _ _ Hr) as [[= _ _ Hf _] _]. fold s' in Hf.
  destruct (protocol_steps_view _ _ Hr) as [Heq|(seq & Hq)]; [by left|right]. exists seq.
  unfold quorum in Hq. cbn in Hq. fold s' in Hq. by rewrite Hf in Hq.
Qed.

(** The phase of a node is backed by its log, pre-prepares are unique and its
    role is the one of its view. *)
Definition node_ok s : Prop :=
  tolerant (pbft_state s) ∧ protocol_ok (abs s) ∧ log_wf (msg_log s).

Lemma node_ok_role s : node_ok s → role_ok (pbft_state s).
Proof.
  intros (Ht & (_ & _ & Hr) & _). destruct (get_primary_id_done (pbft_state s)) as [p Hp].
  { by apply tolerant_nonempty. }
  exists p. split; [done|]. revert Hr. unfold role_in. cbn. rewrite (primary_of_done _ _ Hp).
  intros ->. case_decide; naive_solver.
Qed.

Lemma node_ok_refines s s' :
  refines s s' → (log_wf (msg_log s) → log_wf (msg_log s')) → len (peer_ids (pbft_state s)) < two64 →
  node_ok s → node_ok s'.
Proof.
  intros Hr Hw Hl (Ht & Hok & Hwf). specialize (Hr (sized_sane s (conj Ht Hl))).
  split; [|split; [by eapply protocol_steps_ok|by apply Hw]].
  apply protocol_steps_static in Hr as [[= _ Hp Hf _] _].
  unfold tolerant. by rewrite Hp, Hf.
Qed.

(** C13. Handling a peer message keeps the invariant of the node: each phase is
    backed by the messages that lead to it (a pre-prepare; 2f+1 prepares; 2f+1
    commits), no two stored pre-prepares of one sequence number and view differ
    in their block, the role is the one the view gives, the log is a set. *)
Theorem on_peer_message_keeps_invariant fuel m s :
  len (peer_ids (pbft_state s)) < two64 → node_ok s → node_ok (on_peer_message fuel m s).2.
Proof.
  apply node_ok_refines.
  - apply respects_on_peer_message; [apply _|apply refines_effects].
  - apply respects_on_peer_message; [apply _|apply wf_effects].
Qed.
End safety.
