(* ===== verification/Agreement.v ===== *)
(** * Quorums

    The log accepts a block with 2f+1 votes, [f] being what [PbftState] computes
    from the number of peers.  Two quorums share a peer that is not faulty when
    there are 3f+1 peers, and only then. *)

From S2P Require Import Prelude HashSet MessageType Wire Service Errors Messages.
From S2P Require Import Timing Config NodeState MessageLog.
From S2P Require Import Fixture.

(** ** Counting *)

Lemma size_list_to_set (l : list PeerId) : NoDup l → N.of_nat (size (list_to_set l : gset PeerId)) = len l.
Proof. intros Hl. unfold len. by rewrite size_list_to_set. Qed.

Lemma quorum_overlap (peers q1 q2 : gset PeerId) :
  q1 ⊆ peers → q2 ⊆ peers → (size q1 + size q2 ≤ size peers + size (q1 ∩ q2))%nat.
Proof.
  intros H1 H2. assert (size (q1 ∪ q2) ≤ size peers)%nat as Hu by (apply subseteq_size; set_solver).
  assert (size (q1 ∪ q2) = size q1 + size (q2 ∖ q1))%nat as Hd by apply size_union_alt.
  assert (size q2 = size (q2 ∖ q1) + size (q1 ∩ q2))%nat as Hq.
  { rewrite <- size_union by set_solver. f_equal. apply set_eq. intros x.
    rewrite elem_of_union, elem_of_difference, elem_of_intersection.
    destruct (decide (x ∈ q1)); set_solver. }
  lia.
Qed.

(** A set larger than the faulty peers has one that is not faulty. *)
Lemma honest_member (q faulty : gset PeerId) : (size faulty < size q)%nat → ∃ p, p ∈ q ∧ p ∉ faulty.
Proof.
  intros Hs. destruct (decide (q ⊆ faulty)) as [Hq|Hq].
  - apply subseteq_size in Hq. lia.
  - destruct (decide (q ∖ faulty = ∅)) as [He|He].
    + destruct Hq. intros x Hx. destruct (decide (x ∈ faulty)); [done|]. set_solver.
    + apply set_choose_L in He as [p Hp]. exists p. set_solver.
Qed.

(** Taking from the front and from the back. *)
Lemma overlap_front_back (l : list PeerId) (k : nat) :
  NoDup l → (k ≤ length l)%nat →
  size ((list_to_set (take k l) : gset PeerId) ∩ list_to_set (drop (length l - k) l)) = (k - (length l - k))%nat.
Proof.
  intros Hl Hk. set (j := (length l - k)%nat).
  assert ((list_to_set (take k l) : gset PeerId) ∩ list_to_set (drop j l) = list_to_set (drop j (take k l))) as ->.
  { apply set_eq. intros x. rewrite elem_of_intersection, !elem_of_list_to_set, !list_elem_of_lookup. split.
    - intros [(i & Hi) (i' & Hi')]. rewrite lookup_take_Some in Hi. rewrite lookup_drop in Hi'. destruct Hi as [Hi Hik].
      assert (i = (j + i')%nat) as -> by (eapply NoDup_lookup; done).
      exists i'. rewrite lookup_drop, lookup_take_Some. done.
    - intros (i & Hi). rewrite lookup_drop, lookup_take_Some in Hi. destruct Hi as [Hi Hik]. split.
      + exists (j + i)%nat. by rewrite lookup_take_Some.
      + exists i. by rewrite lookup_drop. }
  rewrite stdpp.fin_sets.size_list_to_set; [|by apply NoDup_take_drop, NoDup_take_drop].
  rewrite length_drop, length_take. lia.
Qed.

(** ** Quorums of the network *)

Section quorums.
Context `{Platform}.

Lemma max_faulty_bounds peers f :
  max_faulty peers = Done f → peers ≠ [] → 3 * f + 1 ≤ len peers ∧ len peers ≤ 3 * f + 3.
Proof.
  intros Hf Hne. assert (1 ≤ len peers) as Hl by (destruct peers; [done|unfold len; cbn; lia]).
  unfold max_faulty in Hf. rewrite u64_sub_small in Hf by done. injection Hf as <-.
  pose proof (N.div_mod' (len peers - 1) 3) as Hd. pose proof (N.mod_lt (len peers - 1) 3 ltac:(done)) as Hm.
  revert Hd Hm. generalize ((len peers - 1) / 3), ((len peers - 1) mod 3). lia.
Qed.

(** C35. With the [f] the node computes from its peers, every two sets of 2f+1
    peers share more than f of them exactly when there are 3f+1 peers. *)
Theorem quorums_share_an_honest_peer peers f :
  max_faulty peers = Done f → peers ≠ [] → NoDup peers →
  (∀ q1 q2 : gset PeerId,
     q1 ⊆ list_to_set peers → q2 ⊆ list_to_set peers →
     2 * f + 1 ≤ N.of_nat (size q1) → 2 * f + 1 ≤ N.of_nat (size q2) →
     f < N.of_nat (size (q1 ∩ q2))) ↔ len peers = 3 * f + 1.
Proof.
  intros Hf Hne Hnd. pose proof (max_faulty_bounds _ _ Hf Hne) as [Hlo Hhi].
  pose proof (size_list_to_set _ Hnd) as Hsize. split.
  - intros Hq. set (k := N.to_nat (2 * f + 1)).
    pose proof (NoDup_take_drop peers k Hnd) as [Ht _].
    pose proof (NoDup_take_drop peers (length peers - k) Hnd) as [_ Hd].
    assert (k ≤ length peers)%nat as Hk by (unfold k, len in *; lia).
    specialize (Hq (list_to_set (take k peers)) (list_to_set (drop (length peers - k) peers))).
    rewrite overlap_front_back, !size_list_to_set in Hq by done.
    unfold len in *. rewrite length_take, length_drop in Hq.
    assert (f < N.of_nat (k - (length peers - k))).
    { apply Hq; [| |unfold k in *; lia..].
      - intros x. rewrite !elem_of_list_to_set. intros (i & Hi & _)%elem_of_take. by eapply list_elem_of_lookup_2.
      - intros x. rewrite !elem_of_list_to_set. intros (i & Hi)%list_elem_of_lookup. rewrite lookup_drop in Hi. by eapply list_elem_of_lookup_2. }
    unfold k in *. lia.
  - intros Hn q1 q2 H1 H2 Hq1 Hq2. pose proof (quorum_overlap _ _ _ H1 H2). lia.
Qed.
End quorums.

(** ** Votes of quorums *)

(** Who signed the votes a log counts. *)
Definition signers (ms : list ParsedMessage) (t : PbftMessageType) (seq v : N) (b : PbftBlock) : list PeerId :=
  (λ m, mi_signer_id (info m)) <$> votes ms t seq v b.

(** The prepares a log counts come from distinct peers of the network. *)
Definition distinct_voters (peers : list PeerId) (ms : list ParsedMessage) (seq v : N) : Prop :=
  ∀ b, NoDup (signers ms Prepare seq v b) ∧ ∀ p, p ∈ signers ms Prepare seq v b → p ∈ peers.

Lemma len_signers ms t seq v b : len (signers ms t seq v b) = len (votes ms t seq v b).
Proof. unfold signers, len. by rewrite length_fmap. Qed.

Lemma elem_of_signers p ms t seq v b :
  p ∈ signers ms t seq v b →
  ∃ m, m ∈ ms ∧ has_type_seq_view t seq v m ∧ get_block m = Done b ∧ mi_signer_id (info m) = p.
Proof. intros (m & -> & ((Ht & Hb) & Hin)%list_elem_of_filter)%list_elem_of_fmap. by exists m. Qed.

(** Two logs in which blocks are prepared have a prepare of one honest peer for
    each of the blocks. *)
Lemma prepared_meet peers faulty f ms1 ms2 seq v b1 b2 :
  NoDup peers → len peers = 3 * f + 1 → N.of_nat (size (faulty : gset PeerId)) ≤ f →
  distinct_voters peers ms1 seq v → distinct_voters peers ms2 seq v →
  prepared ms1 seq v (2 * f + 1) b1 → prepared ms2 seq v (2 * f + 1) b2 →
  ∃ p, p ∉ faulty ∧ p ∈ signers ms1 Prepare seq v b1 ∧ p ∈ signers ms2 Prepare seq v b2.
Proof.
  intros Hnd Hn Hfaulty Hv1 Hv2 [_ Hq1] [_ Hq2].
  destruct (Hv1 b1) as [Hnd1 Hin1], (Hv2 b2) as [Hnd2 Hin2].
  rewrite <- len_signers in Hq1, Hq2.
  set (s1 := signers ms1 Prepare seq v b1) in *. set (s2 := signers ms2 Prepare seq v b2) in *.
  pose proof (size_list_to_set s1 Hnd1). pose proof (size_list_to_set s2 Hnd2). pose proof (size_list_to_set peers Hnd).
  destruct (honest_member (list_to_set s1 ∩ list_to_set s2) faulty) as (p & Hp & Hpf).
  - assert (size (list_to_set s1 : gset PeerId) + size (list_to_set s2 : gset PeerId) ≤
      size (list_to_set peers : gset PeerId) + size ((list_to_set s1 : gset PeerId) ∩ list_to_set s2))%nat.
    { apply quorum_overlap; intros x; rewrite !elem_of_list_to_set; auto. }
    lia.
  - rewrite elem_of_intersection, !elem_of_list_to_set in Hp. by exists p.
Qed.
