(* ===== verification/NodeTheorems.v ===== *)
(** * Behaviour of the handlers, branch by branch *)

From S2P Require Import Prelude HashSet MessageType Wire Service Errors Messages.
From S2P Require Import Timing Config NodeState MessageLog Sys Handlers Node NodeFrames.
From S2P Require Import NodeInvariants Protocol Refinement BlockCommit Seals Termination Safety Fixture.

Section node.
Context `{Externals}.
Implicit Types (s : Sys) (m : ParsedMessage).

(** ** Pre-prepares *)

Lemma pre_prepare_run m s :
  pre_prepare_guard m s → pre_prepare m s = (Done (Ok tt), preparing_state m (stored_state m s)).
Proof.
  intros (Hp & Hbn & Hpp & Hv). unfold pre_prepare. rewrite run_get_state, (run_lift_done _ _ _ _ Hp).
  rewrite decide_False by auto. rewrite run_get_log, (run_lift_done _ _ _ _ Hbn). cbn [negb].
  assert ((match get_one_msg (msg_log s) (info m) PrePrepare with
       | Some existing_msg =>
           existing ← sm_lift (get_block existing_msg);
           block ← sm_lift (get_block m);
           mret (if decide (existing ≠ block) then Err (BlockMismatch existing block) else Ok tt)
       | None => mret (Ok tt)
       end : NodeM ()) s = (Done (Ok tt), s)) as Hchk.
  { destruct (get_one_msg _ _ _) as [pp|]; [|done]. destruct Hpp as (b & Hb & Hb').
    rewrite (run_lift_done _ _ _ _ Hb), (run_lift_done _ _ _ _ Hb'). by rewrite decide_False by auto. }
  rewrite (run_try_ok _ _ _ _ _ Hchk), run_add_message. rewrite decide_True by done.
  fold (stored_state m s). rewrite run_get_state. unfold preparing_state. by case_decide.
Qed.

(** C28. [pre_prepare] accepts a message exactly when it comes from the primary
    of the node's view, a block new with its block is stored, no stored
    pre-prepare of its sequence number and view has another block, and it is of
    the node's view.  It then stores the message and, at the node's height,
    leaves the first phase and stops the timer; otherwise nothing changes. *)
Theorem pre_prepare_accepts m s :
  ((pre_prepare m s).1 = Done (Ok tt) ↔ pre_prepare_guard m s) ∧
  (pre_prepare_guard m s → (pre_prepare m s).2 = preparing_state m (stored_state m s)) ∧
  (¬ pre_prepare_guard m s → (pre_prepare m s).2 = s).
Proof.
  pose proof (pre_prepare_run m s) as Hg. destruct (pre_prepare m s) as [o s'] eqn:Hrun. cbn [fst snd].
  apply pre_prepare_cases in Hrun as [[-> Hno]|(-> & Hok & ->)].
  - split; [split; [done|]|split; [|done]]; intros Hguard; specialize (Hg Hguard); congruence.
  - split; [done|]. split; [done|]. by intros [].
Qed.

(** A pre-prepare for a block that has not been announced is neither stored
    nor answered: it is queued at the end of the backlog, and retrying the
    backlog handles the oldest queued message. *)
Theorem early_pre_prepare_is_queued fuel m s :
  msg_type_of m = PrePrepare → get_primary_id (pbft_state s) = Done (mi_signer_id (info m)) →
  any_o (λ bn, same_block bn m) (get_messages_of_type_seq (msg_log s) BlockNew (mi_seq_num (info m))) = Done false →
  on_peer_message (S fuel) m s = (Done (Ok tt), set_log (set_backlog (backlog (msg_log s) ++ [m]) (msg_log s)) s) ∧
  ∀ m0 ms s0, backlog (msg_log s0) = m0 :: ms →
    retry_backlog fuel s0 = on_peer_message fuel m0 (set_log (set_backlog ms (msg_log s0)) s0).
Proof.
  intros Ht Hp Hbn. split.
  - cbn [on_peer_message]. rewrite on_peer_message_body_arms. unfold msg_type_of in Ht. rewrite Ht, run_bind.
    assert (pre_prepare m s = (Done (Err NoBlockNew), s)) as ->.
    { unfold pre_prepare. rewrite run_get_state, (run_lift_done _ _ _ _ Hp). rewrite decide_False by auto.
      by rewrite run_get_log, (run_lift_done _ _ _ _ Hbn). }
    done.
  - intros m0 ms s0 Hb. unfold retry_backlog. rewrite run_get_log. unfold pop_backlog. by rewrite Hb.
Qed.

(** ** Votes *)

(** A log the node's own checks have kept in order, and a message with a block. *)
Definition votable m s : Prop :=
  sized (pbft_state s) ∧ unique_pre_prepare (stored (msg_log s)) ∧ blocks_typed (stored (msg_log s)) ∧
  ∃ b, get_block m = Done b.

Lemma votable_stored m s :
  votable m s → msg_type_of m ≠ PrePrepare →
  let q := 2 * st_f (pbft_state s) + 1 in
  two_f_plus_one (st_f (pbft_state s)) = Done q ∧
  unique_pre_prepare (stored (msg_log (stored_state m s))) ∧ blocks_typed (stored (msg_log (stored_state m s))).
Proof.
  intros ([Ht Hl] & Hu & Hty & Hb) Hm. split_and!.
  - apply two_f_plus_one_small. apply tolerant_f in Ht. lia.
  - unfold stored_state. cbn [set_log msg_log]. rewrite stored_insert. apply unique_pre_prepare_store; [|done].
    by intros pp _ n v ?%msg_type_of_type_seq_view _.
  - unfold stored_state. cbn [set_log msg_log]. rewrite stored_insert.
    intros x [->|Hx]%elem_of_store; [done|by apply Hty].
Qed.

(** Storing a vote, in the view of the node or another one. *)
Lemma run_add_vote m s (k : () → NodeM ()) :
  msg_type_of m ≠ ViewChange →
  try_bind k (log_add_message m) s =
  if decide (mi_view (info m) = view (pbft_state s)) then k tt (stored_state m s)
  else (Done (Err (ViewMismatch (mi_view (info m)) (view (pbft_state s)))), s).
Proof.
  intros Ht. rewrite run_add_message. fold (msg_type_of m).
  case_decide as H1; case_decide as H2; [done|by destruct H1|by destruct H1; right|done].
Qed.

(** A prepare of another view is refused.  One of the node's view is stored;
    if it is of the node's height and a block of that height and view is then
    prepared, the node, unless it checks blocks already, asks the validator to
    check the block of the message and goes on from preparing to checking. *)
Theorem prepare_effect fuel m s :
  msg_type_of m = Prepare → votable m s →
  let st := pbft_state s in
  let s1 := stored_state m s in
  let ready := mi_seq_num (info m) = seq_num st ∧ phase st ≠ Checking ∧
    ∃ b, prepared (stored (msg_log s1)) (seq_num st) (view st) (2 * st_f st + 1) b in
  (mi_view (info m) ≠ view st →
     on_peer_message (S fuel) m s = (Done (Err (ViewMismatch (mi_view (info m)) (view st))), s)) ∧
  (mi_view (info m) = view st → ¬ ready → on_peer_message (S fuel) m s = (Done (Ok tt), s1)) ∧
  (mi_view (info m) = view st → ready → ∃ b, get_block m = Done b ∧
     on_peer_message (S fuel) m s =
       (Done (map_err (λ _, InternalError "Failed to check blocks") (on_check_blocks (service s) [pb_block_id b])),
        set_service (service s ++ [CheckBlocks [pb_block_id b]]) (set_state (switch_phase Checking st).2 s1))).
Proof.
  intros Ht Hvot st s1 ready. destruct (votable_stored m s Hvot) as (Hq & Hu & Hty); [by rewrite Ht|].
  destruct Hvot as (_ & _ & _ & b & Hb).
  destruct (check_prepared_prepared (msg_log s1) (info m) (st_f st) _ Hu Hty Hq) as (r & Hr & Hiff).
  cbn [on_peer_message]. rewrite on_peer_message_body_arms. fold (msg_type_of m). rewrite Ht.
  unfold prepare_arm. rewrite run_add_vote by by rewrite Ht. fold st s1. split_and!.
  - intros Hv. by rewrite decide_False.
  - intros Hv Hnot. rewrite decide_True, run_get_state, run_get_log by done. change (pbft_state s1) with st.
    case_decide as Hn; [|done]. rewrite Hr, run_lift_bind. destruct r; [|done].
    unfold check_blocks_if_not_checking. rewrite run_get_state. change (pbft_state s1) with st.
    case_decide as Hp; [|done]. destruct Hnot. split_and!; [done|done|]. rewrite <- Hn, <- Hv. by apply Hiff.
  - intros Hv (Hn & Hp & Hprep). exists b. split; [done|].
    rewrite decide_True, run_get_state, run_get_log by done. change (pbft_state s1) with st.
    rewrite decide_True, Hr, run_lift_bind by done.
    assert (r = true) as -> by (apply Hiff; by rewrite Hn, Hv).
    unfold check_blocks_if_not_checking. rewrite run_get_state. change (pbft_state s1) with st.
    rewrite decide_True, run_switch_phase by done. rewrite (run_lift_done _ _ _ _ Hb).
    unfold svc_check_blocks. by rewrite run_call.
Qed.

(** A commit of another view is refused.  One of the node's view is stored;
    if it is of the node's height, a block of that height and view is then
    committable, and the node is committing, it asks the validator to commit the
    block of the message, and has finished when the validator takes it. *)
Theorem commit_effect fuel m s :
  msg_type_of m = Commit → votable m s →
  let st := pbft_state s in
  let s1 := stored_state m s in
  let ready := mi_seq_num (info m) = seq_num st ∧ phase st = Committing ∧
    ∃ b, committable (stored (msg_log s1)) (seq_num st) (view st) (2 * st_f st + 1) b in
  (mi_view (info m) ≠ view st →
     on_peer_message (S fuel) m s = (Done (Err (ViewMismatch (mi_view (info m)) (view st))), s)) ∧
  (mi_view (info m) = view st → ¬ ready → on_peer_message (S fuel) m s = (Done (Ok tt), s1)) ∧
  (mi_view (info m) = view st → ready → ∃ b, get_block m = Done b ∧
     let s2 := set_service (service s ++ [CommitBlock (pb_block_id b)]) s1 in
     on_peer_message (S fuel) m s =
       match on_commit_block (service s) (pb_block_id b) with
       | Ok _ => (Done (Ok tt), set_state (set_phase Finished st) s2)
       | Err _ => (Done (Err (InternalError "Failed to commit block: {:?}")), s2)
       end).
Proof.
  intros Ht Hvot st s1 ready. destruct (votable_stored m s Hvot) as (Hq & Hu & Hty); [by rewrite Ht|].
  destruct Hvot as (_ & _ & _ & b & Hb).
  destruct (check_committable_committable (msg_log s1) (info m) (st_f st) _ Hu Hty Hq) as (r & Hr & Hiff).
  cbn [on_peer_message]. rewrite on_peer_message_body_arms. fold (msg_type_of m). rewrite Ht.
  unfold commit_arm. rewrite run_add_vote by by rewrite Ht. fold st s1. split_and!.
  - intros Hv. by rewrite decide_False.
  - intros Hv Hnot. rewrite decide_True, run_get_state, run_get_log by done. change (pbft_state s1) with st.
    case_decide as Hn; [|done]. rewrite Hr, run_lift_bind. destruct r; [|done].
    unfold commit_block_if_committing. rewrite run_get_state. change (pbft_state s1) with st.
    case_decide as Hp; [|done]. destruct Hnot. split_and!; [done|done|]. rewrite <- Hn, <- Hv. by apply Hiff.
  - intros Hv (Hn & Hp & Hcom). exists b. split; [done|].
    rewrite decide_True, run_get_state, run_get_log by done. change (pbft_state s1) with st.
    rewrite decide_True, Hr, run_lift_bind by done.
    assert (r = true) as -> by (apply Hiff; by rewrite Hn, Hv).
    unfold commit_block_if_committing. rewrite run_get_state. change (pbft_state s1) with st.
    rewrite decide_True by done. unfold commit. rewrite (run_lift_done _ _ _ _ Hb).
    unfold svc_commit_block. rewrite run_call. change (service s1) with (service s).
    destruct (on_commit_block _ _) as [[]|e]; cbn [map_err]; [|by rewrite run_try_ret_err].
    rewrite run_try_ret_ok, run_switch_phase, run_ret.
    change (pbft_state (set_service _ s1)) with st. unfold switch_phase. by rewrite Hp.
Qed.

(** ** View changes *)

(** C27. A view change with a quorum puts the node in the view of the message:
    its role is the one that view gives it, its working block is dropped, its
    phase and mode start over and its timer restarts; a new primary first gives
    the working block back and starts a block of its own. *)
Theorem view_change_effect m s q p :
  two_f_plus_one (st_f (pbft_state s)) = Done q →
  q ≤ len (filter (has_type_seq_view ViewChange (mi_seq_num (info m)) (mi_view (info m))) (stored (msg_log s))) →
  get_primary_id (set_view (mi_view (info m)) (pbft_state s)) = Done p →
  let s' := (view_change m s).2 in
  (view_change m s).1 = Done (Ok tt) ∧
  view (pbft_state s') = mi_view (info m) ∧
  role (pbft_state s') = (if decide (st_id (pbft_state s) = p) then Primary else Secondary) ∧
  working_block (pbft_state s') = None ∧ phase (pbft_state s') = PrePreparing ∧ mode (pbft_state s') = Normal ∧
  timeout_state (faulty_primary_timeout (pbft_state s')) = Active ∧
  msg_log s' = msg_log s ∧
  service s' = service s ++ (if decide (st_id (pbft_state s) = p) then primary_calls (pbft_state s) else []).
Proof.
  intros Hq Hlen Hp s'. assert (enough_view_changes m s = Done true) as He.
  { unfold enough_view_changes. rewrite Hq, done_bind, log_has_required_msgs_any. by rewrite bool_decide_true. }
  unfold s'. rewrite (view_change_run m s p He Hp). by split_and!.
Qed.

(** C38. Proposing a view change without exactly one stored seal of the previous
    height fails after the node has already left normal mode: nothing is
    broadcast, and proposing again does nothing. *)
Theorem propose_without_seal_is_stuck fuel s v n k :
  mode (pbft_state s) = Normal →
  u64_add (view (pbft_state s)) 1 = Done v → u64_sub (seq_num (pbft_state s)) 1 = Done n →
  get_consensus_seal (msg_log s) n = Err k →
  let s' := set_state (set_mode ViewChanging (pbft_state s)) s in
  propose_view_change fuel s = (Done (Err k), s') ∧
  propose_view_change fuel s' = (Done (Ok tt), s').
Proof.
  intros Hm Hv Hn Hk s'. unfold propose_view_change, propose_view_change_with. rewrite !run_get_state. split.
  - rewrite decide_False by by rewrite Hm. rewrite run_modify_state, (run_lift_done _ _ _ _ Hv), (run_lift_done _ _ _ _ Hn).
    rewrite run_get_log. change (msg_log (set_state _ s)) with (msg_log s). by rewrite Hk, run_try_ret_err.
  - by rewrite decide_True.
Qed.

(** ** Committed blocks *)

(** C26. A block commit is ignored unless the node has finished the working
    block it names.  Otherwise, if the handler returns, the node is at the next
    height, in the first phase, its working block the announced one of that
    height, its timer running, its seals those of the committed block, its
    mode and backlog as before, and its stored messages of this height kept. *)
Theorem on_block_commit_effect b s s' :
  on_block_commit b s = (Done tt, s') →
  (phase (pbft_state s) ≠ Finished ∨ ¬ is_working_block b (pbft_state s) → s' = s) ∧
  (phase (pbft_state s) = Finished → is_working_block b (pbft_state s) → seq_num (pbft_state s) + 1 < two64 →
   let st' := pbft_state s' in
   seq_num st' = seq_num (pbft_state s) + 1 ∧ phase st' = PrePreparing ∧ mode st' = mode (pbft_state s) ∧
   next_block (msg_log s) (seq_num st') (working_block st') ∧
   timeout_state (faulty_primary_timeout st') = Active ∧
   backlog (msg_log s') = backlog (msg_log s) ∧
   (∀ m, m ∈ messages (msg_log s') → m ∈ messages (msg_log s)) ∧
   (∀ m, m ∈ messages (msg_log s) → seq_num (pbft_state s) ≤ mi_seq_num (info m) → m ∈ messages (msg_log s')) ∧
   (∀ e, e ∈ seals (msg_log s') ↔ e ∈ seals (msg_log s) ∧ se_block_id e = b)).
Proof.
  intros Hrun. split.
  { intros Hc. rewrite on_block_commit_ignored in Hrun by done. by injection Hrun as <-. }
  intros Hp Hwb Hlt. apply on_block_commit_inv in Hrun as [[_ [?|?]]|(_ & _ & n & wb & s2 & Hn & Hnext & Hview & l & Hgc & ->)];
    [done..|].
  rewrite u64_add_small in Hn by done. injection Hn as <-.
  apply view_after_settles in Hview as (Hset & Hlog & _).
  assert (seq_num (pbft_state s2) = seq_num (pbft_state s) + 1 ∧ phase (pbft_state s2) = PrePreparing ∧
          mode (pbft_state s2) = mode (pbft_state s) ∧ working_block (pbft_state s2) = wb) as (Hseq & Hph & Hmo & Hwb2)
    by by destruct Hset.
  cbn [pbft_state set_timeout seq_num phase mode working_block msg_log faulty_primary_timeout].
  rewrite Hseq, Hlog in Hgc. change (msg_log (next_height _ _ s)) with (msg_log s) in Hgc.
  destruct (garbage_collect_done (seq_num (pbft_state s) + 1) b (msg_log s)) as (l' & Hl' & Hm & Hs & Hb & _); [lia|].
  rewrite Hgc in Hl'. injection Hl' as <-. rewrite Hseq, Hwb2. split_and!; try done.
  - intros m Hin. by apply Hm.
  - intros m Hin Hle. apply Hm. split; [done|]. intros _. lia.
Qed.

(** No handler rewrites what was sent to the validator, the node's id, the
    period of forced view changes, the length of its timer or the size at which
    its log is collected; and nothing but a committed block or catching up
    changes the height, the peers or the number of faults. *)
Theorem handlers_frame fuel m b blk s :
  let R s s' := service s `prefix_of` service s' ∧ fixed_part s = fixed_part s' in
  R s (on_peer_message fuel m s).2 ∧ R s (on_block_new fuel blk s).2 ∧
  R s (on_block_valid fuel b s).2 ∧ R s (on_block_commit b s).2 ∧
  height_part s = height_part (on_peer_message fuel m s).2 ∧
  height_part s = height_part (on_block_valid fuel b s).2 ∧
  height_part s = height_part (propose_view_change fuel s).2 ∧
  height_part s = height_part (try_publish s).2 ∧
  height_part s = height_part (retry_backlog fuel s).2.
Proof.
  intros R. pose proof history_effects as Hh. pose proof fixed_effects as Hf. pose proof height_effects as Hhe.
  pose proof history_commit_effects as Hhc. pose proof fixed_commit_effects as Hfc.
  pose proof (eff_peer _ Hh). pose proof (eff_peer _ Hf). pose proof (eff_peer _ Hhe).
  unfold R. split_and!.
  - by apply (respects_on_peer_message history_le).
  - by apply (respects_on_peer_message (frame fixed_part)).
  - rewrite on_block_new_catchup. apply (respects_on_block_new_with history_le); [done|..].
    + intros; unfold history_le; reflexivity.
    + intros; unfold history_le; reflexivity.
    + apply ce_catchup; [apply _|done|]. intros; unfold history_le; reflexivity.
  - rewrite on_block_new_catchup. apply (respects_on_block_new_with (frame fixed_part)); [done|done|done|].
    apply ce_catchup; [apply _|done|]. intros s0 m0. unfold frame, fixed_part. cbn.
    rewrite add_message_cases. by case_decide.
  - by apply (respects_on_block_valid history_le).
  - by apply (respects_on_block_valid (frame fixed_part)).
  - by apply (ce_on_block_commit history_le).
  - by apply (ce_on_block_commit (frame fixed_part)).
  - by apply (respects_on_peer_message (frame height_part)).
  - by apply (respects_on_block_valid (frame height_part)).
  - by apply (respects_propose_view_change (frame height_part)).
  - by apply (respects_try_publish (frame height_part)).
  - by apply (respects_retry_backlog (frame height_part)).
Qed.

(** ** New blocks *)

(** The block new the node writes to its own log. *)
Definition block_new_message blk (st : PbftState) : PbftMessage :=
  mkPbftMessage (Some (make_msg_info BlockNew (view st) (bk_block_num blk) (st_id st)))
    (Some (pbft_block_from_block blk)).

Definition with_seal blk (seal : option PbftSeal) s : Sys :=
  match seal with
  | Some x => set_log (add_consensus_seal (bk_block_id blk) (seq_num (pbft_state s)) x (msg_log s)) s
  | None => s
  end.

Lemma announce_block_run `{!CodecLaws} catchup fuel blk s :
  seq_num (pbft_state s) + 1 < two64 → ¬ catching_up blk (pbft_state s) →
  let st := pbft_state s in
  ∃ bs, message_to_bytes (block_new_message blk st) = Ok bs ∧
    let s2 := stored_state (mkParsedMessage [] [] (WMessage (block_new_message blk st)) bs false) s in
    let s3 := set_state (set_working_block (Some (pbft_block_from_block blk)) st) s2 in
    announce_block catchup fuel blk s =
      if decide (bk_block_num blk = seq_num st) then
        if is_primary st then
          broadcast_pbft_message (broadcast_message (on_peer_message fuel)) (seq_num st) PrePrepare (pbft_block_from_block blk) s3
        else (Done (Ok tt), s3)
      else (Done (Ok tt), s2).
Proof.
  intros Hn Hno st. destruct (message_roundtrip (block_new_message blk st)) as (bs & Hbs & _).
  exists bs. split; [done|]. intros s2 s3. unfold announce_block. rewrite run_get_state. fold st.
  unfold from_pbft_message. fold (block_new_message blk st). rewrite Hbs, run_lift_bind, run_add_vote by done.
  rewrite decide_True by done. fold s2. rewrite u64_add_small, run_lift_bind by done.
  rewrite decide_False.
  - case_decide; [|done]. rewrite run_modify_state, run_get_state. change (pbft_state s2) with st. fold s3.
    change (is_primary (pbft_state s3)) with (is_primary st). by destruct (is_primary st).
  - intros [Hb Hp]. apply Hno. split; [|done]. by rewrite u64_add_small, Hb.
Qed.

(** C29. A block below the node's height is ignored.  One whose seal does not
    verify is failed, a view change is proposed, and the call is an error.  Any
    other block that is not caught up on is announced in the log, with its seal;
    the block of the node's height becomes its working block, and a primary
    broadcasts a pre-prepare for it. *)
Theorem on_block_new_effect `{!CodecLaws} fuel blk s :
  let st := pbft_state s in
  (bk_block_num blk < seq_num st → on_block_new fuel blk s = (Done (Ok tt), s)) ∧
  (∀ e s1, seq_num st ≤ bk_block_num blk → verify_consensus_seal blk s = (Done (Err e), s1) →
     let s2 := set_service (service s1 ++ [FailBlock (bk_block_id blk)]) s1 in
     (on_block_new fuel blk s).1 ≠ Done (Ok tt) ∧
     (on_block_new fuel blk s).2 =
       match on_fail_block (service s1) (bk_block_id blk) with
       | Ok _ => (propose_view_change fuel s2).2
       | Err _ => s2
       end) ∧
  (∀ seal s1, seq_num st ≤ bk_block_num blk → verify_consensus_seal blk s = (Done (Ok seal), s1) →
     seq_num st + 1 < two64 → ¬ catching_up blk st →
     ∃ bs, message_to_bytes (block_new_message blk st) = Ok bs ∧
       let s2 := stored_state (mkParsedMessage [] [] (WMessage (block_new_message blk st)) bs false)
                   (with_seal blk seal s1) in
       let s3 := set_state (set_working_block (Some (pbft_block_from_block blk)) st) s2 in
       on_block_new fuel blk s =
         if decide (bk_block_num blk = seq_num st) then
           if is_primary st then
             broadcast_pbft_message (broadcast_message (on_peer_message fuel)) (seq_num st) PrePrepare (pbft_block_from_block blk) s3
           else (Done (Ok tt), s3)
         else (Done (Ok tt), s2)).
Proof.
  intros st. rewrite on_block_new_catchup. unfold on_block_new_with. rewrite run_get_state. fold st. split; [|split].
  - intros Hn. by rewrite bool_decide_true.
  - intros e s1 Hn Hv. set (s2 := set_service (service s1 ++ _) s1). rewrite bool_decide_false by lia. rewrite (run_bind_done _ _ _ _ _ Hv), run_try.
    pose proof (fail_block_fails fuel blk e s1) as Hno. revert Hno. unfold fail_block, svc_fail_block.
    rewrite run_call. fold s2. destruct (on_fail_block _ _) as [[]|x]; cbn [map_err]; [|by rewrite run_try_ret_err].
    rewrite run_try_ret_ok, run_try. by destruct (propose_view_change fuel s2) as [[[]| |] s3].
  - intros seal s1 Hn Hv Hlt Hno. rewrite bool_decide_false by lia. rewrite (run_bind_done _ _ _ _ _ Hv).
    pose proof (verify_consensus_seal_state blk s) as Hst. rewrite Hv in Hst. cbn [snd] in Hst. fold st in Hst.
    assert (pbft_state (with_seal blk seal s1) = st) as Hst' by by destruct seal.
    destruct (announce_block_run (catchup blk) fuel blk (with_seal blk seal s1)) as (bs & Hbs & Hrun);
      [by rewrite Hst'|by rewrite Hst'|]. rewrite Hst' in Hbs, Hrun. exists bs. split; [done|].
    cbv zeta. rewrite <- Hrun. destruct seal as [x|]; cbn [with_seal]; [|by rewrite run_try_ret_ok].
    by rewrite run_try, run_modify_log, run_ret, Hst.
Qed.

(** ** Validated blocks and publishing *)

(** When the validator accepts the working block of a node that checks or
    already commits it, the node commits: it broadcasts a commit for the block
    at its height and view, in its own name, and handles it as its own message.
    In other phases nothing is sent; for any other block the node is not
    ready. *)
Theorem on_block_valid_effect `{!CodecLaws} fuel b s :
  (∀ blk, working_block (pbft_state s) = Some blk → pb_block_id blk = b →
     phase (pbft_state s) = Checking ∨ phase (pbft_state s) = Committing →
     let st := set_phase Committing (pbft_state s) in
     let m := mkPbftMessage (Some (make_msg_info Commit (view st) (seq_num st) (st_id st))) (Some blk) in
     ∃ bs, message_to_bytes m = Ok bs ∧
       on_block_valid fuel b s =
       on_peer_message fuel (mkParsedMessage [] [] (WMessage m) bs true)
         (mkSys (service s ++ [Broadcast "Commit" bs]) (msg_log s) st (ticks s))) ∧
  (∀ blk, working_block (pbft_state s) = Some blk → pb_block_id blk = b →
     phase (pbft_state s) ≠ Checking → phase (pbft_state s) ≠ Committing →
     on_block_valid fuel b s = (Done (Ok tt), s)) ∧
  (∀ blk, working_block (pbft_state s) = Some blk → pb_block_id blk ≠ b →
     on_block_valid fuel b s = (Done (Err NotReadyForMessage), s)) ∧
  (working_block (pbft_state s) = None → on_block_valid fuel b s = (Done (Err NoWorkingBlock), s)).
Proof.
  unfold on_block_valid, on_block_valid_body. rewrite !run_get_state. split_and!.
  - intros blk Hwb Hid Hph. set (st := set_phase Committing (pbft_state s)).
    set (m := mkPbftMessage (Some (make_msg_info Commit (view st) (seq_num st) (st_id st))) (Some blk)).
    rewrite Hwb, decide_True, run_try_ret_ok, run_switch_phase by done.
    assert ((switch_phase Committing (pbft_state s)).2 = st) as ->.
    { unfold switch_phase, st. destruct Hph as [Hph|Hph]; rewrite Hph; cbn; [done|].
      destruct (pbft_state s). cbn in *. by subst. }
    unfold broadcast_pbft_message. rewrite run_get_state. cbn -[st make_msg_bytes on_peer_message].
    destruct (from_bytes_message m) as (bs & Hw & Hp); [done|]. exists bs. split; [done|].
    unfold make_msg_bytes. change (mkPbftMessage _ _) with m. rewrite Hw.
    change (check_msg_type st) with Commit. rewrite bool_decide_false by auto.
    unfold broadcast_message, svc_broadcast. by rewrite run_call, Hp, run_try_ret_ok.
  - intros blk Hwb Hid Hc Hm. rewrite Hwb, decide_True, run_try_ret_ok, run_switch_phase by done.
    assert ((switch_phase Committing (pbft_state s)).2 = pbft_state s) as ->.
    { unfold switch_phase. by destruct (phase (pbft_state s)). }
    unfold broadcast_pbft_message. rewrite run_get_state. cbn [set_state pbft_state].
    assert (check_msg_type (pbft_state s) ≠ Commit) as Ht by (unfold check_msg_type; by destruct (phase (pbft_state s))).
    rewrite bool_decide_true by auto. cbn. by destruct s.
  - intros blk Hwb Hid. by rewrite Hwb, decide_False, run_try_ret_err.
  - intros Hwb. by rewrite Hwb, run_try_ret_err.
Qed.

(** C30. Only a primary in the first phase publishes.  It asks for the summary
    of the block and, given one, finalizes the block with the seal built for
    that summary, or with no data at the first height; a failing seal stops it. *)
Theorem try_publish_effect s :
  (role (pbft_state s) ≠ Primary ∨ phase (pbft_state s) ≠ PrePreparing → try_publish s = (Done (Ok tt), s)) ∧
  (role (pbft_state s) = Primary → phase (pbft_state s) = PrePreparing →
   let s1 := set_service (service s ++ [SummarizeBlock]) s in
   (∀ e, on_summarize_block (service s) = Err e → try_publish s = (Done (Ok tt), s1)) ∧
   (∀ summary data, on_summarize_block (service s) = Ok summary →
      (if bool_decide (seq_num (pbft_state s) ≤ 1) then data = []
       else build_seal summary s1 = (Done (Ok data), s1)) →
      (try_publish s).2 = set_service (service s ++ [SummarizeBlock; FinalizeBlock data]) s ∧
      ((try_publish s).1 = Done (Ok tt) ↔
       ∀ e, on_finalize_block (service s1) data = Err e → e = BlockNotReady)) ∧
   (∀ summary e, on_summarize_block (service s) = Ok summary → 1 < seq_num (pbft_state s) →
      build_seal summary s1 = (Done (Err e), s1) → try_publish s = (Done (Err e), s1))).
Proof.
  unfold try_publish. rewrite !run_get_state. split.
  - intros Hc. unfold is_primary. destruct Hc as [Hc|Hc].
    + by rewrite bool_decide_false.
    + rewrite (bool_decide_true (phase _ ≠ _)) by done. by rewrite orb_true_r.
  - intros Hr Hp. set (s1 := set_service (service s ++ [SummarizeBlock]) s). unfold is_primary. rewrite Hr, Hp. cbn [negb orb].
    unfold svc_summarize_block, svc_finalize_block. rewrite (bool_decide_true (Primary = Primary)) by done.
    rewrite (bool_decide_false (PrePreparing ≠ PrePreparing)) by auto. cbn [negb orb]. rewrite !run_call. fold s1.
    split_and!.
    + by intros e ->.
    + intros summary data -> Hdata.
      assert (∀ k, try_bind k (if bool_decide (seq_num (pbft_state s) ≤ 1) then mret (Ok []) else build_seal summary) s1 =
                   k data s1 :> Outcome (Result () PbftError) * Sys) as Hk.
      { intros k. case_bool_decide; [by subst|]. by rewrite (run_try_ok _ _ _ _ _ Hdata). }
      rewrite Hk, run_call. change (service s1 ++ [FinalizeBlock data]) with ((service s ++ [SummarizeBlock]) ++ [FinalizeBlock data]).
      rewrite <- app_assoc. cbn [app].
      destruct (on_finalize_block (service s1) data) as [bid|e]; [split; [done|split; [by intros _ e|done]]|].
      destruct e as [|d]; (split; [done|]); split; try done.
      * by intros _ e [= <-].
      * intros Hall. by specialize (Hall _ eq_refl).
    + intros summary e -> Hlt Hb. rewrite bool_decide_false by lia. by rewrite (run_try_err _ _ _ _ _ Hb).
Qed.
End node.
