(* ===== verification/Progress.v ===== *)
(** * A round of the protocol ends

    Once a node has accepted the pre-prepare of its working block, 2f+1 prepares
    and 2f+1 commits for the block, in any order, early and repeated ones
    included, and the validator's approval make it commit the block. *)

From S2P Require Import Prelude HashSet MessageType Wire Service Errors Messages.
From S2P Require Import Timing Config NodeState MessageLog Sys Handlers Node NodeFrames.
From S2P Require Import Protocol Refinement Safety NodeTheorems.

(** ** Counting votes *)

Lemma votes_store_stray ms m t n v b :
  ¬ (has_type_seq_view t n v m ∧ get_block m = Done b) → votes (store m ms) t n v b = votes ms t n v b.
Proof.
  intros Hm. unfold store. case_decide; [done|]. unfold votes. by rewrite filter_app, filter_cons_False, filter_nil, app_nil_r.
Qed.

Lemma votes_store_other ms m t n v b :
  msg_type_of m ≠ t → votes (store m ms) t n v b = votes ms t n v b.
Proof. intros Ht. apply votes_store_stray. intros [Hm _]. by apply Ht, (msg_type_of_type_seq_view t n v). Qed.

(** Stored votes are at least as many as any of them. *)
Lemma votes_at_least ms ms' t n v b :
  NoDup ms' → (∀ m, m ∈ ms' → m ∈ ms ∧ has_type_seq_view t n v m ∧ get_block m = Done b) →
  len ms' ≤ len (votes ms t n v b).
Proof.
  intros Hnd Hin. assert (ms' ⊆+ votes ms t n v b) as Hsub%submseteq_length; [|unfold len; lia].
  apply NoDup_submseteq; [done|]. intros m (? & ? & ?)%Hin. unfold votes. by rewrite list_elem_of_filter.
Qed.

Section round.
Context `{Externals} `{!CodecLaws}.
Context (f n v : N) (b : PbftBlock).
Implicit Types (s : Sys) (m : ParsedMessage).

(** The node works on [b] at height [n] in view [v], and has its pre-prepare. *)
Record in_round s : Prop := {
  ir_sized : sized (pbft_state s);
  ir_faults : st_f (pbft_state s) = f;
  ir_unique : unique_pre_prepare (stored (msg_log s));
  ir_typed : blocks_typed (stored (msg_log s));
  ir_height : seq_num (pbft_state s) = n;
  ir_view : view (pbft_state s) = v;
  ir_block : working_block (pbft_state s) = Some b;
  ir_pre_prepared : pre_prepared (stored (msg_log s)) n v b
}.

Definition needed : N := 2 * f + 1.
Definition is_prepared s : Prop := needed ≤ len (votes (stored (msg_log s)) Prepare n v b).
Definition is_committable s : Prop := is_prepared s ∧ needed ≤ len (votes (stored (msg_log s)) Commit n v b).

(** The phase follows from what is stored and what the validator has said. *)
Definition on_time s : Prop :=
  match phase (pbft_state s) with
  | PrePreparing => False
  | Preparing => ¬ is_prepared s
  | Checking => is_prepared s
  | Committing => is_prepared s ∧ ¬ is_committable s
  | Finished => CommitBlock (pb_block_id b) ∈ service s
  end.

(** How far the node has got in the round. *)
Definition progress s : nat :=
  match phase (pbft_state s) with PrePreparing => 0 | Preparing => 1 | Checking => 2 | Committing => 3 | Finished => 4 end.

Lemma in_round_prepared s b' :
  in_round s → prepared (stored (msg_log s)) n v needed b' ↔ b' = b ∧ is_prepared s.
Proof.
  intros Hr. split.
  - intros [(m & Hin & Hm & Hb) Hq]. destruct (ir_pre_prepared s Hr) as (m' & Hin' & Hm' & Hb').
    pose proof (ir_unique s Hr m m' n v Hin Hin' Hm Hm') as Heq. assert (b' = b) as -> by congruence. done.
  - intros [-> Hq]. split; [apply Hr|done].
Qed.

Lemma in_round_committable s b' :
  in_round s → committable (stored (msg_log s)) n v needed b' ↔ b' = b ∧ is_committable s.
Proof.
  intros Hr. unfold committable, is_committable. rewrite (in_round_prepared s b' Hr). split; [by intros [[-> ?] ?]|by intros (-> & ? & ?)].
Qed.

(** A vote of the round. *)
Definition round_vote (t : PbftMessageType) m : Prop := has_type_seq_view t n v m ∧ get_block m = Done b.

(** A vote with a block, of the round or not. *)
Definition vote m : Prop :=
  (msg_type_of m = Prepare ∨ msg_type_of m = Commit) ∧ ∃ b', get_block m = Done b'.

Lemma round_vote_vote t m : t = Prepare ∨ t = Commit → round_vote t m → vote m.
Proof. intros Ht [Hm%msg_type_of_type_seq_view Hb]. split; [by rewrite Hm|by exists b]. Qed.

Lemma vote_votable m s : vote m → in_round s → votable m s.
Proof. intros [_ Hb] Hr. by split_and!; [apply Hr..|]. Qed.

(** What storing a vote leaves, up to the service and the phase. *)
Lemma in_round_stored m s s' :
  vote m → in_round s → msg_log s' = msg_log (stored_state m s) →
  (∃ p, pbft_state s' = set_phase p (pbft_state s)) → in_round s'.
Proof.
  intros Hm Hr Hlog [p Hst].
  destruct (votable_stored m s) as (_ & Hu & Hbt); [by apply vote_votable|by destruct Hm as [[-> | ->] _]|].
  destruct Hr as [Hsz Hf _ _ Hn Hv Hwb Hpp]. split; rewrite ?Hlog, ?Hst; try done.
  unfold stored_state. cbn [set_log msg_log]. rewrite stored_insert. by apply (pre_prepared_prefix _ _ (store_prefix _ _)).
Qed.

Lemma in_round_stored_state m s : vote m → in_round s → in_round (stored_state m s).
Proof. intros Hm Hr. apply (in_round_stored m s); [done..|]. exists (phase (pbft_state s)). by destruct s as [? ? []]. Qed.

(** The votes of the round after a vote has been stored. *)
Lemma votes_stored t m s :
  len (votes (stored (msg_log s)) t n v b) ≤ len (votes (stored (msg_log (stored_state m s))) t n v b).
Proof. unfold stored_state. cbn [set_log msg_log]. rewrite stored_insert. apply filter_prefix, store_prefix. Qed.

Lemma votes_stored_stray t m s :
  ¬ round_vote t m → votes (stored (msg_log (stored_state m s))) t n v b = votes (stored (msg_log s)) t n v b.
Proof. intros Hm. unfold stored_state. cbn [set_log msg_log]. rewrite stored_insert. by apply votes_store_stray. Qed.

Lemma not_round_vote t m : msg_type_of m ≠ t → ¬ round_vote t m.
Proof. by intros Ht [Hm%msg_type_of_type_seq_view _]. Qed.

#[export] Instance round_vote_dec t m : Decision (round_vote t m).
Proof. unfold round_vote. apply _. Defined.

(** ** Votes and validations *)

Lemma switch_to_checking st :
  (switch_phase Checking st).2 = if decide (phase st = Preparing) then set_phase Checking st else st.
Proof. unfold switch_phase. by destruct (phase st). Qed.

Context (fuel : nat) (Haccept : ∀ h, on_commit_block h (pb_block_id b) = Ok tt).

(** What the steps of a round keep. *)
Record forward s s' : Prop := {
  fw_calls : service s `prefix_of` service s';
  fw_stored m : m ∈ stored (msg_log s) → m ∈ stored (msg_log s');
  fw_backlog : backlog (msg_log s') = backlog (msg_log s);
  fw_timer : faulty_primary_timeout (pbft_state s') = faulty_primary_timeout (pbft_state s);
  fw_id : st_id (pbft_state s') = st_id (pbft_state s);
  fw_progress : (progress s ≤ progress s')%nat
}.

#[export] Instance forward_preorder : PreOrder forward.
Proof.
  split; [by split|]. intros s1 s2 s3 [] []. split; [by etrans|auto|congruence..|lia].
Qed.

Lemma forward_stored m s s' :
  service s `prefix_of` service s' → msg_log s' = msg_log (stored_state m s) →
  faulty_primary_timeout (pbft_state s') = faulty_primary_timeout (pbft_state s) →
  st_id (pbft_state s') = st_id (pbft_state s) → (progress s ≤ progress s')%nat → forward s s'.
Proof.
  intros Hs Hl Ht Hi Hp. split; rewrite ?Hl; try done. intros m' Hm. cbn. apply elem_of_hs_insert. by right.
Qed.

(** A step of the round ends normally and keeps it going. *)
Definition goes_on {A} (r : Outcome A * Sys) s (P : Sys → Prop) : Prop :=
  ∃ a s', r = (Done a, s') ∧ in_round s' ∧ on_time s' ∧ forward s s' ∧ P s'.

(** A vote of the view of the round is stored, one of another view refused;
    neither makes the node commit to the block. *)
Definition advances {A} (r : Outcome A * Sys) m s : Prop :=
  goes_on r s (λ s', (mi_view (info m) = v → m ∈ stored (msg_log s')) ∧ ((3 ≤ progress s')%nat → (3 ≤ progress s)%nat)).

Lemma advances_refused {A} (r : Outcome A * Sys) m s a :
  r = (Done a, s) → mi_view (info m) ≠ v → in_round s → on_time s → advances r m s.
Proof. intros -> Hv Hr Hon. exists a, s. by split_and!. Qed.

Lemma advances_stored {A} (r : Outcome A * Sys) m s a s' :
  r = (Done a, s') → vote m → in_round s → on_time s' → service s `prefix_of` service s' →
  msg_log s' = msg_log (stored_state m s) → (∃ p, pbft_state s' = set_phase p (pbft_state s)) →
  (progress s ≤ progress s')%nat → ((3 ≤ progress s')%nat → (3 ≤ progress s)%nat) → advances r m s.
Proof.
  intros -> Hm Hr Hon Hs Hl Hp Hprog Hcom. exists a, s'. split; [done|]. split; [by eapply in_round_stored|]. split; [done|].
  split; [|split; [|done]; intros _; rewrite Hl; apply elem_of_hs_insert; by left].
  destruct Hp as [p Hp]. by apply (forward_stored m); rewrite ?Hp.
Qed.

Lemma same_phase s : ∃ p, pbft_state s = set_phase p (pbft_state s).
Proof. exists (phase (pbft_state s)). by destruct s as [? ? []]. Qed.

(** A node in time stays in time when a vote that changes nothing is stored. *)
Lemma on_time_stored m s :
  vote m → on_time s → (is_prepared (stored_state m s) → is_prepared s ∨ phase (pbft_state s) ≠ Preparing) →
  (is_committable (stored_state m s) → is_committable s ∨ phase (pbft_state s) ≠ Committing) → on_time (stored_state m s).
Proof.
  intros Hm Hon Hp Hc. unfold on_time in *. change (phase (pbft_state (stored_state m s))) with (phase (pbft_state s)).
  assert (is_prepared s → is_prepared (stored_state m s)) as Hmono.
  { unfold is_prepared. intros ?. by etrans; [|apply votes_stored]. }
  destruct (phase (pbft_state s)); try done; [naive_solver|by apply Hmono|]. destruct Hon as [? ?]. split; [by apply Hmono|naive_solver].
Qed.

Lemma round_prepare m s :
  msg_type_of m = Prepare → vote m → in_round s →
  round_vote Prepare m ∧ phase (pbft_state s) = Preparing ∨ on_time s →
  advances (on_peer_message (S fuel) m s) m s.
Proof.
  intros Ht Hm Hr Hphase. pose proof (in_round_stored_state _ _ Hm Hr) as Hr1.
  destruct (prepare_effect fuel m s Ht (vote_votable _ _ Hm Hr)) as (Hrefused & Hnot & Hready).
  rewrite (ir_height s Hr), (ir_view s Hr), (ir_faults s Hr) in *. fold needed in *.
  destruct (decide (mi_view (info m) = v)) as [Hv|Hv].
  2: { eapply advances_refused; [by apply Hrefused|done..|]. by destruct Hphase as [[[(_ & _ & ?) _] _]|]. }
  assert (is_committable (stored_state m s) → is_prepared s → is_committable s) as Hc.
  { unfold is_committable. intros [_ Hq] ?. split; [done|]. rewrite votes_stored_stray in Hq; [done|].
    apply not_round_vote. by rewrite Ht. }
  specialize (Hnot Hv). specialize (Hready Hv).
  destruct (decide (mi_seq_num (info m) = n ∧ phase (pbft_state s) ≠ Checking ∧ is_prepared (stored_state m s)))
    as [(Hn & Hph & Hprep)|Hno].
  - destruct Hready as (b' & Hb' & Hrun).
    { split_and!; [done..|]. exists b. by apply in_round_prepared. }
    rewrite switch_to_checking in Hrun.
    eapply advances_stored; [exact Hrun|done|done| |by apply prefix_app_r|done|..].
    + unfold on_time. cbn. case_decide as Hcur; [exact Hprep|]. destruct Hphase as [[_ ?]|Hon]; [done|].
      unfold on_time in Hon. destruct (phase (pbft_state s)) eqn:Heq; try done.
      * split; [exact Hprep|]. intros Hcom. apply Hon, Hc; [exact Hcom|apply Hon].
      * apply elem_of_app. by left.
    + cbn. case_decide; [by eexists|]. apply same_phase.
    + unfold progress. cbn. case_decide as Hcur; [rewrite Hcur; cbn; lia|done].
    + unfold progress. cbn. case_decide as Hcur; [cbn; lia|done].
  - eapply advances_stored; [apply Hnot|done|done| |done|done|apply (same_phase s)|done..].
    { intros (Hn & Hph & b' & Hb'). apply Hno. split_and!; [done..|]. by apply (in_round_prepared _ _ Hr1) in Hb' as [_ ?]. }
    assert (is_prepared (stored_state m s) → is_prepared s ∨ phase (pbft_state s) ≠ Preparing) as Hq.
    { intros Hp. destruct (decide (round_vote Prepare m)) as [[(_ & Hn & _) _]|Hrv].
      - right. intros Hph. apply Hno. by rewrite Hph.
      - left. unfold is_prepared in *. by rewrite votes_stored_stray in Hp. }
    destruct Hphase as [[[(_ & Hn & _) _] Hph]|Hon].
    + unfold on_time. change (phase (pbft_state (stored_state m s))) with (phase (pbft_state s)). rewrite Hph.
      intros Hp. apply Hno. by rewrite Hph.
    + apply on_time_stored; [done..|]. intros Hcom. destruct (decide (phase (pbft_state s) = Committing)) as [Hph|]; [|by right].
      left. apply Hc; [done|]. unfold on_time in Hon. rewrite Hph in Hon. apply Hon.
Qed.

Lemma round_commit m s :
  msg_type_of m = Commit → vote m → in_round s →
  round_vote Commit m ∧ phase (pbft_state s) = Committing ∧ is_prepared s ∨ on_time s →
  advances (on_peer_message (S fuel) m s) m s.
Proof.
  intros Ht Hm Hr Hphase. pose proof (in_round_stored_state _ _ Hm Hr) as Hr1.
  destruct (commit_effect fuel m s Ht (vote_votable _ _ Hm Hr)) as (Hrefused & Hnot & Hready).
  rewrite (ir_height s Hr), (ir_view s Hr), (ir_faults s Hr) in *. fold needed in *.
  destruct (decide (mi_view (info m) = v)) as [Hv|Hv].
  2: { eapply advances_refused; [by apply Hrefused|done..|]. by destruct Hphase as [[[(_ & _ & ?) _] _]|]. }
  specialize (Hnot Hv). specialize (Hready Hv).
  assert (is_prepared (stored_state m s) ↔ is_prepared s) as Hp.
  { unfold is_prepared. rewrite votes_stored_stray; [done|]. apply not_round_vote. by rewrite Ht. }
  assert (¬ round_vote Commit m → is_committable (stored_state m s) → is_committable s) as Hc.
  { intros Hrv [Hq1 Hq2]. split; [by apply Hp|]. by rewrite votes_stored_stray in Hq2. }
  destruct (decide (mi_seq_num (info m) = n ∧ phase (pbft_state s) = Committing ∧ is_committable (stored_state m s)))
    as [(Hn & Hph & Hcom)|Hno].
  - destruct (decide (round_vote Commit m)) as [[_ Hb]|Hrv].
    2: { exfalso. destruct Hphase as [[? _]|Hon]; [done|]. unfold on_time in Hon. rewrite Hph in Hon. by apply Hon, Hc. }
    destruct Hready as (b' & Hb' & Hrun).
    { split_and!; [done..|]. exists b. by apply (in_round_committable _ _ Hr1). }
    assert (b' = b) as -> by congruence. rewrite Haccept in Hrun.
    eapply advances_stored; [exact Hrun|done|done| |by apply prefix_app_r|done|by eexists|unfold progress; cbn; rewrite Hph; lia..].
    unfold on_time. cbn. apply elem_of_app. right. by apply list_elem_of_singleton.
  - eapply advances_stored; [apply Hnot|done|done| |done|done|apply (same_phase s)|done..].
    { intros (Hn & Hph & b' & Hb'). apply Hno. split_and!; [done..|]. by apply (in_round_committable _ _ Hr1) in Hb' as [_ ?]. }
    destruct Hphase as [([(_ & Hn & _) _] & Hph & Hprep)|Hon].
    + unfold on_time. change (phase (pbft_state (stored_state m s))) with (phase (pbft_state s)). rewrite Hph.
      split; [by apply Hp|]. intros Hcom. by apply Hno.
    + apply on_time_stored; [done..|by rewrite Hp; left|]. intros Hcom.
      destruct (decide (round_vote Commit m)) as [[(_ & Hn & _) _]|Hrv]; [right; intros Hph; by apply Hno|left; by apply Hc].
Qed.

Lemma round_any m s : vote m → in_round s → on_time s → advances (on_peer_message (S fuel) m s) m s.
Proof. intros Hm Hr Hon. pose proof Hm as [[Ht|Ht] _]; [apply round_prepare|apply round_commit]; auto. Qed.

(** The commit that approval makes the node broadcast and store. *)
Definition own_vote (t : PbftMessageType) (p : PeerId) : PbftMessage :=
  mkPbftMessage (Some (make_msg_info t v n p)) (Some b).

Record voted (t : PbftMessageType) s : Prop := {
  vd_said : ∃ bs, message_to_bytes (own_vote t (st_id (pbft_state s))) = Ok bs ∧
                  Broadcast (string_of_message_type t) bs ∈ service s;
  vd_stored : ∃ m, round_vote t m ∧ from_self m = true ∧ m ∈ stored (msg_log s)
}.

Lemma voted_forward t s s' : forward s s' → voted t s → voted t s'.
Proof.
  intros Hf [(bs & Hbs & Hin) (m & Hm & Hself & Hst)]. split.
  - exists bs. rewrite (fw_id s s' Hf). split; [done|]. eapply elem_of_prefix; [apply Hf|done].
  - exists m. split_and!; [done..|]. by apply Hf.
Qed.

(** The validator's answer; it has no effect before the node asked for it. *)
Lemma round_validated s :
  in_round s → on_time s →
  goes_on (on_block_valid (S fuel) (pb_block_id b) s) s (λ s',
    (is_prepared s → (3 ≤ progress s')%nat) ∧ (voted Commit s' ∨ progress s' = progress s ∧ (progress s ≠ 3)%nat)).
Proof.
  intros Hr Hon. destruct (on_block_valid_effect (S fuel) (pb_block_id b) s) as (Hsend & Hquiet & _).
  specialize (Hsend b (ir_block s Hr) eq_refl). specialize (Hquiet b (ir_block s Hr) eq_refl).
  destruct (decide (phase (pbft_state s) = Checking ∨ phase (pbft_state s) = Committing)) as [Hph|Hph].
  - destruct (Hsend Hph) as (bs & Hbs & Hrun). rewrite Hrun. clear Hsend Hquiet Hrun.
    set (st := set_phase Committing (pbft_state s)) in *.
    set (own := mkParsedMessage [] [] _ bs true). set (s1 := mkSys _ (msg_log s) st (ticks s)).
    assert (in_round s1) as Hr1 by (by destruct Hr).
    assert (round_vote Commit own) as Hown.
    { split; [|done]. split; [done|]. split; [exact (ir_height s Hr)|exact (ir_view s Hr)]. }
    assert (forward s s1) as Hf1.
    { split; try done; [by apply prefix_app_r|]. unfold progress. destruct Hph as [-> | ->]; cbn; lia. }
    destruct (round_commit own s1) as (a & s2 & -> & Hr2 & Hon2 & Hf2 & Hst & _); [done|by apply (round_vote_vote Commit); auto|done| |].
    + left. split_and!; [done..|]. unfold on_time in Hon. destruct Hph as [Hph|Hph]; rewrite Hph in Hon; [exact Hon|apply Hon].
    + assert (3 ≤ progress s2)%nat by exact (fw_progress s1 s2 Hf2).
      exists a, s2. split; [done|]. split; [done|]. split; [done|]. split; [by etrans|]. split; [done|]. left. split.
      * exists bs. rewrite (fw_id s1 s2 Hf2). split.
        -- unfold own_vote. rewrite <- (ir_height s Hr), <- (ir_view s Hr). exact Hbs.
        -- eapply elem_of_prefix; [apply Hf2|]. cbn. apply elem_of_app. right. by apply list_elem_of_singleton.
      * exists own. split_and!; [done..|]. apply Hst. exact (ir_view s Hr).
  - rewrite Hquiet by (intros ?; apply Hph; auto). exists (Ok tt), s. split_and!; try done.
    + intros Hq. unfold on_time, progress in *. destruct (phase (pbft_state s)); try done; try lia; by destruct Hph; auto.
    + right. split; [done|]. unfold progress. destruct (phase (pbft_state s)); auto; by destruct Hph; auto.
Qed.

(** ** Sequences of events *)

Inductive RoundEvent := Vote (m : ParsedMessage) | Validated.

Definition handle_event (e : RoundEvent) : NodeM () :=
  match e with
  | Vote m => on_peer_message (S fuel) m
  | Validated => on_block_valid (S fuel) (pb_block_id b)
  end.

(** The node handles the events one after the other, going on after errors. *)
Fixpoint handle_events (es : list RoundEvent) : SM Sys () :=
  match es with
  | [] => mret tt
  | e :: es => _ ← handle_event e; handle_events es
  end.

Definition of_round (e : RoundEvent) : Prop :=
  match e with Vote m => vote m | Validated => True end.

Lemma round_event e s :
  of_round e → in_round s → on_time s →
  goes_on (handle_event e s) s (λ s', ∀ m, Vote m = e → mi_view (info m) = v → m ∈ stored (msg_log s')).
Proof.
  intros He Hr Hon. destruct e as [m|]; cbn [handle_event of_round] in *.
  - destruct (round_any m s He Hr Hon) as (a & s' & ? & ? & ? & ? & Hst & _). exists a, s'. split_and!; try done. by intros m' [= ->].
  - destruct (round_validated s Hr Hon) as (a & s' & ? & ? & ? & ? & _). by exists a, s'.
Qed.

Lemma round_events es s :
  Forall of_round es → in_round s → on_time s →
  ∃ s', handle_events es s = (Done tt, s') ∧ in_round s' ∧ on_time s' ∧ forward s s' ∧
    ∀ m, Vote m ∈ es → mi_view (info m) = v → m ∈ stored (msg_log s').
Proof.
  intros Hes. revert s. induction Hes as [|e es He _ IH]; intros s Hr Hon.
  { exists s. split_and!; try done. by intros m ?%elem_of_nil. }
  destruct (round_event e s He Hr Hon) as (a & s1 & Hrun & Hr1 & Hon1 & Hf1 & Hin1).
  destruct (IH s1 Hr1 Hon1) as (s' & Hrun' & Hr' & Hon' & Hf' & Hin'). exists s'.
  cbn [handle_events]. rewrite (run_bind_done _ _ _ _ _ Hrun). split_and!; try done; [by etrans|].
  intros m [?|?]%elem_of_cons Hv; [|by apply Hin']. apply Hf'. by apply Hin1.
Qed.

Lemma handle_events_app es es' s s1 :
  handle_events es s = (Done tt, s1) → handle_events (es ++ es') s = handle_events es' s1.
Proof.
  revert s. induction es as [|e es IH]; intros s; cbn [handle_events app]; [by intros [= <-]|].
  rewrite !run_bind. destruct (handle_event e s) as [[a| |] s2]; [|done..]. apply IH.
Qed.

(** ** A whole round *)

(** The pre-prepare is accepted and answered with the node's prepare. *)
Lemma round_starts pp s :
  sized (pbft_state s) → st_f (pbft_state s) = f →
  unique_pre_prepare (stored (msg_log s)) → blocks_typed (stored (msg_log s)) → seq_num (pbft_state s) = n → view (pbft_state s) = v → working_block (pbft_state s) = Some b →
  phase (pbft_state s) = PrePreparing → round_vote PrePrepare pp → pre_prepare_guard pp s →
  ∃ a s', on_peer_message (S (S fuel)) pp s = (Done a, s') ∧ in_round s' ∧ on_time s' ∧
    (∀ m, m ∈ stored (msg_log s) → m ∈ stored (msg_log s')) ∧ voted Prepare s' ∧
    backlog (msg_log s') = backlog (msg_log s) ∧ (progress s' < 3)%nat ∧
    timeout_state (faulty_primary_timeout (pbft_state s')) = Inactive.
Proof.
  intros Hsz Hf Hu Hty Hn Hv Hwb Hph [Hpp Hb] Hg.
  pose proof (msg_type_of_type_seq_view _ _ _ _ Hpp) as Ht. pose proof Hpp as (_ & Hppn & Hppv).
  set (s1 := preparing_state pp (stored_state pp s)).
  assert (msg_log s1 = msg_log (stored_state pp s) ∧ view (pbft_state s1) = v ∧ seq_num (pbft_state s1) = n ∧
          working_block (pbft_state s1) = Some b ∧ phase (pbft_state s1) = Preparing ∧
          peer_ids (pbft_state s1) = peer_ids (pbft_state s) ∧ st_f (pbft_state s1) = st_f (pbft_state s) ∧
          st_id (pbft_state s1) = st_id (pbft_state s)) as (Hlog1 & Hv1 & Hn1 & Hwb1 & Hph1 & Hp1 & Hf1 & Hid1).
  { unfold s1, preparing_state. rewrite decide_True by (cbn; congruence). cbn. unfold switch_phase. rewrite Hph. done. }
  assert (in_round s1) as Hr1.
  { split; try done; try congruence; rewrite ?Hlog1; unfold stored_state; cbn [set_log msg_log]; rewrite ?stored_insert.
    - unfold sized, tolerant in *. by rewrite Hp1, Hf1.
    - pose proof (guard_unique pp s Hg Hu) as Hu'. unfold stored_state in Hu'. cbn [set_log msg_log] in Hu'. by rewrite stored_insert in Hu'.
    - intros x [->|Hx]%elem_of_store; [by exists b|by apply Hty].
    - exists pp. split; [apply elem_of_store; by left|done]. }
  cbn [on_peer_message]. rewrite on_peer_message_body_arms. fold (msg_type_of pp). rewrite Ht.
  rewrite (run_bind_done _ _ _ _ _ (pre_prepare_run pp s Hg)). fold s1.
  unfold broadcast_pre_prepare. rewrite (run_lift_done _ _ _ _ Hb). unfold broadcast_pbft_message.
  rewrite run_get_state. unfold check_msg_type. rewrite Hph1. rewrite (bool_decide_false (Prepare ≠ Prepare)) by auto.
  rewrite andb_false_r.
  set (pm := mkPbftMessage (Some (make_msg_info Prepare (view (pbft_state s1)) (mi_seq_num (info pp)) (st_id (pbft_state s1)))) (Some b)).
  destruct (from_bytes_message pm) as (bs & Hbs & Hparse); [done|]. unfold make_msg_bytes. fold pm. rewrite Hbs.
  unfold broadcast_message at 1, svc_broadcast. rewrite run_call, Hparse, run_try_ret_ok.
  set (own := mkParsedMessage [] [] (WMessage pm) bs true). set (s2 := set_service _ s1).
  assert (in_round s2) as Hr2 by (by destruct Hr1).
  assert (round_vote Prepare own) as Hown.
  { split; [|done]. split; [done|]. by split; cbn. }
  destruct (round_prepare own s2) as (a & s3 & Hrun & Hr3 & Hon3 & Hf3 & Hst3 & Hcom3); [done|by apply (round_vote_vote Prepare); auto|done|by left|].
  exists a, s3. split; [exact Hrun|]. split; [done|]. split; [done|]. split_and!.
  - intros m Hm. apply Hf3. change (msg_log s2) with (msg_log s1). rewrite Hlog1. cbn. apply elem_of_hs_insert. by right.
  - split.
    + exists bs. rewrite (fw_id s2 s3 Hf3). split.
      * unfold own_vote. rewrite <- Hppn, <- Hv1. exact Hbs.
      * eapply elem_of_prefix; [apply Hf3|]. cbn. apply elem_of_app. right. by apply list_elem_of_singleton.
    + exists own. split_and!; [done..|]. by apply Hst3.
  - rewrite (fw_backlog s2 s3 Hf3). change (msg_log s2) with (msg_log s1). by rewrite Hlog1.
  - destruct (decide (progress s3 < 3)%nat) as [|H3]; [done|]. assert (3 ≤ progress s2)%nat as H2 by (apply Hcom3; lia).
    unfold progress in H2. change (phase (pbft_state s2)) with (phase (pbft_state s1)) in H2. rewrite Hph1 in H2. lia.
  - rewrite (fw_timer s2 s3 Hf3). unfold s2, s1, preparing_state. by rewrite decide_True by (cbn; congruence).
Qed.

(** Votes of other peers, and how many of them there are with one's own. *)
Definition received_votes (t : PbftMessageType) (ms : list ParsedMessage) : Prop :=
  NoDup ms ∧ 2 * f ≤ len ms ∧ ∀ m, m ∈ ms → round_vote t m ∧ from_self m = false.

Lemma received_view t ms m : received_votes t ms → m ∈ ms → mi_view (info m) = v.
Proof. intros (_ & _ & Hms) Hm. by destruct (Hms m Hm) as [[(_ & _ & ?) _] _]. Qed.

Lemma received_and_own t ms s :
  received_votes t ms → voted t s → (∀ m, m ∈ ms → m ∈ stored (msg_log s)) →
  needed ≤ len (votes (stored (msg_log s)) t n v b).
Proof.
  intros (Hnd & Hlen & Hms) [_ (own & Hown & Hself & Hin)] Hall. trans (len (own :: ms)).
  { unfold needed, len in *. cbn [length]. lia. }
  apply votes_at_least.
  - constructor; [|done]. intros Ho. destruct (Hms own Ho) as [_ ?]. congruence.
  - intros m [->|Hm]%elem_of_cons; [by split|]. split; [by apply Hall|apply Hms, Hm].
Qed.

End round.
