(* ===== verification/Stalls.v ===== *)
(** * Pre-prepares that come too early

    A node that has finished a height and waits for its validator to commit the
    block accepts a pre-prepare for the next height, but neither answers it nor
    comes back to it: it spends the next height in the first phase. *)

From S2P Require Import Prelude HashSet MessageType Wire Service Errors Messages.
From S2P Require Import Timing Config NodeState MessageLog Sys Handlers Node NodeFrames.
From S2P Require Import NodeInvariants BlockCommit NodeTheorems.

(** What others and the validator hear of: broadcasts and commits. *)
Definition spoken (c : ServiceCall) : bool :=
  match c with Broadcast _ _ | CommitBlock _ => true | _ => false end.
Definition speech (h : list ServiceCall) : list ServiceCall := filter spoken h.

Lemma speech_snoc h c : spoken c = false → speech (h ++ [c]) = speech h.
Proof.
  intros Hc. unfold speech. rewrite filter_app, filter_cons_False, filter_nil, app_nil_r; [done|]. by rewrite Hc; intros [].
Qed.

Section stalls.
Context `{Externals}.
Implicit Types (s : Sys) (m : ParsedMessage).

(** Nothing but the log and silent calls changes in the first phase. *)
Definition waits s s' : Prop :=
  phase (pbft_state s) = PrePreparing → pbft_state s' = pbft_state s ∧ speech (service s') = speech (service s).

#[local] Instance waits_preorder : PreOrder waits.
Proof.
  split; [by intros s|]. intros s1 s2 s3 H12 H23 Hp. destruct (H12 Hp) as [Hst Hsp].
  rewrite <- Hst, <- Hsp. apply H23. by rewrite Hst.
Qed.

Lemma waits_switch p : p ≠ Preparing → respects waits (state_switch_phase p).
Proof.
  intros Hp. apply respects_modify. intros s Hph. split; [|done]. unfold switch_phase. rewrite Hph. cbn.
  by rewrite decide_False.
Qed.

Lemma waits_add m : respects waits (log_add_message m).
Proof. apply respects_log_add_message. by intros s Hp. Qed.

Lemma waits_check_blocks m : respects waits (check_blocks_if_not_checking m).
Proof.
  assert (∀ l, respects waits (with_service (svc_check_blocks l))) as Hcheck.
  { intros l. apply respects_with_service. intros s Hp. split; [done|]. by apply speech_snoc. }
  pose proof (waits_switch Checking ltac:(done)). unfold check_blocks_if_not_checking. solve_respects.
Qed.

Lemma waits_commit_block m : respects waits (commit_block_if_committing m).
Proof. intros s Hp. unfold commit_block_if_committing. rewrite run_get_state. by rewrite decide_False by (rewrite Hp; done). Qed.

Lemma waits_on_vote fuel m :
  msg_type_of m = Prepare ∨ msg_type_of m = Commit → respects waits (on_peer_message (S fuel) m).
Proof.
  intros Ht. cbn [on_peer_message]. rewrite on_peer_message_body_arms. fold (msg_type_of m).
  pose proof (waits_add m). pose proof (waits_check_blocks m). pose proof (waits_commit_block m).
  destruct Ht as [-> | ->]; unfold prepare_arm, commit_arm; solve_respects.
Qed.

Lemma waits_on_block_valid fuel b : respects waits (on_block_valid fuel b).
Proof.
  intros s Hp. pose proof (waits_switch Committing ltac:(done) s) as Hs.
  unfold on_block_valid, on_block_valid_body. rewrite run_get_state, run_try, run_ret.
  destruct (match working_block _ with Some _ => _ | None => _ end) as [blk|e]; [|done].
  rewrite run_bind. destruct (state_switch_phase Committing s) as [[[]| |] s1]; [|by apply Hs..].
  destruct (Hs Hp) as [Hst Hsp]. cbn [snd] in Hst, Hsp.
  unfold broadcast_pbft_message. rewrite run_get_state, Hst. unfold check_msg_type. by rewrite Hp.
Qed.

(** ** The next height *)

(** Votes of others, and blocks the validator finds valid. *)
Definition late_event (fuel : nat) (e : ParsedMessage + BlockId) : NodeM () :=
  match e with inl m => on_peer_message fuel m | inr id => on_block_valid fuel id end.

Fixpoint late_events (fuel : nat) (es : list (ParsedMessage + BlockId)) : SM Sys () :=
  match es with
  | [] => mret tt
  | e :: es => _ ← late_event fuel e; late_events fuel es
  end.

Definition vote_or_answer (e : ParsedMessage + BlockId) : Prop :=
  match e with inl m => msg_type_of m = Prepare ∨ msg_type_of m = Commit | inr _ => True end.

Lemma waits_late_events fuel es : Forall vote_or_answer es → respects waits (late_events (S fuel) es).
Proof.
  induction 1 as [|[m|id] es He _ IH]; cbn [late_events late_event].
  - intros s Hp. done.
  - apply respects_bind; [apply _|by apply waits_on_vote|done].
  - apply respects_bind; [apply _|apply waits_on_block_valid|done].
Qed.

(** C11. A pre-prepare for the next height that comes while a node waits for its
    validator to commit the block it has finished is stored, but the node does
    not broadcast its prepare.  At the next height, whatever prepares and
    commits it gets and whatever blocks its validator finds valid, it stays in
    the first phase, broadcasts and commits nothing, and its timer for the
    primary, started again with the height, keeps running. *)
Theorem early_pre_prepare_stalls fuel pp b id s s1 es :
  msg_type_of pp = PrePrepare → pre_prepare_guard pp s → get_block pp = Done b →
  phase (pbft_state s) = Finished → mi_seq_num (info pp) = seq_num (pbft_state s) + 1 →
  is_working_block id (pbft_state s) → on_block_commit id (stored_state pp s) = (Done tt, s1) →
  Forall vote_or_answer es →
  on_peer_message (S fuel) pp s = (Done (Ok tt), stored_state pp s) ∧
  let s' := (late_events (S fuel) es s1).2 in
  pbft_state s' = pbft_state s1 ∧ speech (service s') = speech (service s1) ∧
  phase (pbft_state s') = PrePreparing ∧ timeout_state (faulty_primary_timeout (pbft_state s')) = Active.
Proof.
  intros Ht Hg Hb Hp Hn Hwb Hc Hes. split.
  - cbn [on_peer_message]. rewrite on_peer_message_body_arms. fold (msg_type_of pp). rewrite Ht.
    rewrite (run_bind_done _ _ _ _ _ (pre_prepare_run pp s Hg)). unfold preparing_state.
    rewrite decide_False by (change (seq_num (pbft_state (stored_state pp s))) with (seq_num (pbft_state s)); lia).
    unfold broadcast_pre_prepare. rewrite (run_lift_done _ _ _ _ Hb). unfold broadcast_pbft_message.
    rewrite run_get_state. unfold check_msg_type. change (phase (pbft_state (stored_state pp s))) with (phase (pbft_state s)).
    by rewrite Hp.
  - apply on_block_commit_inv in Hc as [[_ [?|?]]|(_ & _ & n & wb & s2 & _ & _ & Hview & l & _ & ->)]; [done..|].
    apply view_after_settles in Hview as (Hset & _).
    assert (phase (pbft_state s2) = PrePreparing) as Hph by (by destruct Hset).
    set (s1 := mkSys _ _ _ _) at 1. destruct (waits_late_events fuel es Hes s1) as [Hst Hsp]; [exact Hph|].
    cbn zeta. rewrite Hst. by split_and!.
Qed.
End stalls.
