(* ===== verification/ViewChanges.v ===== *)
(** * A view change ends

    A node that gets view changes for the next view from 2f other peers, in any
    order and with repetitions, enters that view: it joins the view change once
    f+1 are stored, if its own timer has not run out before, and late messages
    do it no harm. *)

From S2P Require Import Prelude HashSet MessageType Wire Service Errors Messages.
From S2P Require Import Timing Config NodeState MessageLog Sys Handlers Node NodeFrames.
From S2P Require Import Protocol Refinement Safety.

Section view_change.
Context `{Externals} `{!CodecLaws}.
Context (f n v : N) (Hv : v + 1 < two64) (fuel : nat).
Implicit Types (s : Sys) (m : ParsedMessage).

(** A view change of the peers at height [n + 1], from view [v] to the next. *)
Definition change_vote m : Prop := has_type_seq_view ViewChange n (v + 1) m.

Definition change_votes s : N := len (filter change_vote (stored (msg_log s))).

(** What the node keeps all the way. *)
Record in_change s : Prop := {
  ic_sized : sized (pbft_state s);
  ic_faults : st_f (pbft_state s) = f;
  ic_height : seq_num (pbft_state s) = n + 1
}.

(** The seal a node needs to propose a change of its own. *)
Definition has_seal s : Prop := ∃ seal, get_consensus_seal (msg_log s) n = Ok seal.

(** Before the change: the mode follows from what is stored, and a node that has
    not proposed the change has the seal to do so. *)
Definition waiting s : Prop :=
  view (pbft_state s) = v ∧
  match mode (pbft_state s) with
  | Normal => change_votes s ≤ f ∧ has_seal s
  | ViewChanging => change_votes s ≤ 2 * f ∧ ∃ own, change_vote own ∧ from_self own = true ∧ own ∈ stored (msg_log s)
  end.

(** After it: in the new view, with the role it gives, at the start. *)
Record entered s : Prop := {
  en_view : view (pbft_state s) = v + 1;
  en_mode : mode (pbft_state s) = Normal;
  en_phase : phase (pbft_state s) = PrePreparing;
  en_block : working_block (pbft_state s) = None;
  en_timer : timeout_state (faulty_primary_timeout (pbft_state s)) = Active;
  en_role : role_ok (pbft_state s);
  en_primary : role (pbft_state s) = Primary → InitializeBlock None ∈ service s
}.

Definition on_way s : Prop := in_change s ∧ (waiting s ∨ entered s).

(** ** Single steps *)

Lemma in_change_stored m s : in_change s → in_change (stored_state m s).
Proof. by intros []. Qed.

Lemma change_votes_stored m s : change_votes s ≤ change_votes (stored_state m s).
Proof.
  unfold change_votes, stored_state. cbn [set_log msg_log]. rewrite stored_insert. apply filter_prefix, store_prefix.
Qed.

Lemma view_change_vote m s :
  change_vote m → in_change s →
  change_votes s ≤ 2 * f ∧ view_change m s = (Done (Ok tt), s) ∨
  ∃ p, get_primary_id (set_view (v + 1) (pbft_state s)) = Done p ∧
       view_change m s = (Done (Ok tt), view_changed (v + 1) p s).
Proof.
  intros (_ & Hn & Hvm) [[Htol Hlen] Hf _]. pose proof (tolerant_f _ Htol) as [? ?].
  assert (enough_view_changes m s = Done (bool_decide (2 * f + 1 ≤ change_votes s))) as He.
  { unfold enough_view_changes. rewrite two_f_plus_one_small, done_bind, log_has_required_msgs_any by lia.
    by rewrite Hn, Hvm, Hf. }
  case_bool_decide as Hq.
  - right. destruct (get_primary_id_done (set_view (v + 1) (pbft_state s))) as [p Hp]; [by apply tolerant_nonempty in Htol|].
    exists p. split; [done|]. rewrite <- Hvm in Hp |- *. by apply view_change_run.
  - left. split; [lia|]. by apply view_change_not_enough.
Qed.

Lemma entered_changed p s :
  get_primary_id (set_view (v + 1) (pbft_state s)) = Done p → in_change s →
  in_change (view_changed (v + 1) p s) ∧ entered (view_changed (v + 1) p s).
Proof.
  intros Hp Hs. split; [by destruct Hs|]. split; try done.
  - exists p. split; [done|]. cbn. unfold role_of. case_decide; by split.
  - cbn. unfold role_of. case_decide; [|done]. intros _. unfold primary_calls.
    rewrite !elem_of_app. right. right. by left.
Qed.

Lemma vote_stored m s k :
  change_vote m →
  on_peer_message (S k) m s =
  try_bind (λ stop : bool, if stop then mret (Ok tt) else view_change m)
    (propose_view_change_if_enough_messages (broadcast_message (on_peer_message k)) m) (stored_state m s).
Proof.
  intros Hm. cbn [on_peer_message]. rewrite on_peer_message_body_arms. fold (msg_type_of m).
  rewrite (msg_type_of_type_seq_view _ _ _ _ Hm), run_add_message, decide_True; [done|].
  left. exact (msg_type_of_type_seq_view _ _ _ _ Hm).
Qed.

(** A node that is changing its view counts the votes only. *)
Lemma vote_while_changing m s k :
  change_vote m → mode (pbft_state s) = ViewChanging →
  on_peer_message (S k) m s = view_change m (stored_state m s).
Proof.
  intros Hm Hmode. rewrite vote_stored by done. unfold propose_view_change_if_enough_messages.
  rewrite run_try, run_get_state. change (mode (pbft_state (stored_state m s))) with (mode (pbft_state s)).
  rewrite decide_False; [done|]. by rewrite Hmode; intros ?.
Qed.

(** The step of a node that is changing its view, or joins the change. *)
Lemma counted m s :
  change_vote m → in_change s → mode (pbft_state s) = ViewChanging → view (pbft_state s) = v →
  (∃ own, change_vote own ∧ from_self own = true ∧ own ∈ stored (msg_log s)) →
  ∃ s', view_change m s = (Done (Ok tt), s') ∧ msg_log s' = msg_log s ∧ on_way s' ∧
        (s' = s ∧ waiting s ∨ entered s').
Proof.
  intros Hm Hs Hmode Hview Hown. destruct (view_change_vote m s Hm Hs) as [[Hq Hrun]|(p & Hp & Hrun)].
  - exists s. assert (waiting s) as Hw by (unfold waiting; by rewrite Hmode). split_and!; [done..| |by left]. by split; [|left].
  - destruct (entered_changed p s Hp Hs) as [Hs' He]. eexists. split_and!; [done..| |by right]. by split; [|right].
Qed.

(** Joining: the node broadcasts a view change of its own, which counts. *)
Lemma propose_joins s :
  in_change s → has_seal s → mode (pbft_state s) = Normal → view (pbft_state s) = v →
  ∃ s', propose_view_change_with (broadcast_message (on_peer_message (S fuel))) s = (Done (Ok tt), s') ∧ on_way s' ∧
    (∀ m, m ∈ stored (msg_log s) → m ∈ stored (msg_log s')) ∧ (mode (pbft_state s') = ViewChanging ∧ waiting s' ∨ entered s').
Proof.
  intros Hs [seal Hseal] Hmode Hview. pose proof Hs as [_ _ Hn].
  unfold propose_view_change_with. rewrite run_get_state, decide_False by by rewrite Hmode.
  rewrite run_modify_state, Hview, Hn. set (s1 := set_state (set_mode ViewChanging (pbft_state s)) s).
  rewrite (run_lift_done _ _ _ _ (u64_add_small v 1 ltac:(lia))).
  rewrite (run_lift_done _ _ _ _ (u64_sub_small (n + 1) 1 ltac:(lia))). replace (n + 1 - 1) with n by lia.
  rewrite run_get_log. change (msg_log s1) with (msg_log s). rewrite Hseal, run_try_ret_ok.
  set (vc := mkPbftViewChange _ _). destruct (from_bytes_view_change vc) as (bs & Hw & Hp); [done|].
  rewrite Hw. cbn [map_err]. rewrite run_try_ret_ok. unfold broadcast_message at 1, svc_broadcast.
  rewrite run_call, Hp, run_try_ret_ok. set (own := mkParsedMessage [] [] (WViewChange vc) bs true). set (s2 := set_service _ s1).
  assert (change_vote own) as Hown by done. assert (in_change s2) as Hs2 by by destruct Hs.
  rewrite vote_while_changing by done.
  destruct (counted own (stored_state own s2)) as (s' & Hrun & Hlog & Hway & Hcases); [done|by apply in_change_stored|done..| |].
  { exists own. split_and!; [done..|]. apply elem_of_stored_state. }
  exists s'. split_and!; [exact Hrun|done| |].
  - intros m Hm. rewrite Hlog. cbn. apply elem_of_hs_insert. by right.
  - destruct Hcases as [[-> Hwait]|He]; [left|by right]. by split.
Qed.

(** Whether a node in normal mode joins. *)
Lemma join_condition send m s :
  change_vote m → in_change s → mode (pbft_state s) = Normal →
  propose_view_change_if_enough_messages send m s =
  if decide (f + 1 ≤ change_votes s ∧ view (pbft_state s) < v + 1)
  then try_bind (λ _, mret (Ok false)) (propose_view_change_with send) s else (Done (Ok true), s).
Proof.
  intros (_ & Hn & Hmv) [[Htol Hlen] Hf _] Hmode. pose proof (tolerant_f _ Htol) as [? ?].
  unfold propose_view_change_if_enough_messages. rewrite run_get_state, decide_True by (rewrite Hmode; by intros ?).
  rewrite run_get_log, (run_lift_done _ _ _ _ (u64_add_small (st_f (pbft_state s)) 1 ltac:(lia))).
  rewrite (run_lift_done _ _ _ _ (log_has_required_msgs_any _ _ _ _)), Hn, Hmv, Hf.
  change (len (filter _ _)) with (change_votes s).
  case_decide as Hc; case_bool_decide as Hq; case_bool_decide; cbn [andb]; try done; tauto.
Qed.

(** A view change, whatever the node has got so far. *)
Lemma vote_on_way m s :
  change_vote m → on_way s →
  ∃ a s', on_peer_message (S (S fuel)) m s = (Done a, s') ∧ on_way s' ∧
    ∀ x, x ∈ stored (msg_log s) ∨ x = m → x ∈ stored (msg_log s').
Proof.
  intros Hm [Hs Hcases]. set (s1 := stored_state m s).
  assert (in_change s1) as Hs1 by by apply in_change_stored.
  assert (∀ x, x ∈ stored (msg_log s) ∨ x = m → x ∈ stored (msg_log s1)) as Hin.
  { intros x Hx. cbn. apply elem_of_hs_insert. destruct Hx as [?| ->]; [by right|by left]. }
  destruct (mode (pbft_state s)) eqn:Hmode.
  - rewrite vote_stored, run_try, join_condition by done. fold s1. change (view (pbft_state s1)) with (view (pbft_state s)).
    case_decide as Hjoin.
    + assert (view (pbft_state s) = v ∧ has_seal s) as [Hview Hseal].
      { destruct Hcases as [[? Hw]|[]]; [|lia]. rewrite Hmode in Hw. by destruct Hw. }
      destruct (propose_joins s1 Hs1 Hseal Hmode Hview) as (s2 & Hrun & [Hs2 _] & Hin2 & Hcases2). rewrite run_try, Hrun, run_ret.
      destruct (view_change_vote m s2 Hm Hs2) as [[Hq Hvc]|(p & Hp & Hvc)].
      * exists (Ok tt), s2. split; [done|]. split; [|auto]. split; [done|]. destruct Hcases2 as [[_ ?]|?]; auto.
      * destruct (entered_changed p s2 Hp Hs2) as [Hs3 He]. eexists _, _. split; [exact Hvc|].
        split; [by split; [|right]|]. intros x Hx. by apply Hin2, Hin.
    + exists (Ok tt), s1. split; [done|]. split; [|done]. split; [done|].
      destruct Hcases as [[Hview Hw]|He]; [left|by right; destruct He]. rewrite Hmode in Hw. destruct Hw as [_ Hseal].
      split; [done|]. change (mode (pbft_state s1)) with (mode (pbft_state s)). rewrite Hmode. split; [lia|exact Hseal].
  - assert (view (pbft_state s) = v ∧ ∃ own, change_vote own ∧ from_self own = true ∧ own ∈ stored (msg_log s)) as
      [Hview (own & Hown & Hself & Hoin)].
    { destruct Hcases as [[Hview Hw]|[]]; [|congruence]. rewrite Hmode in Hw. by destruct Hw. }
    rewrite vote_while_changing by done. fold s1.
    destruct (counted m s1) as (s' & Hrun & Hlog & Hway & _); [done..| |].
    { exists own. split_and!; [done..|]. apply Hin. by left. }
    exists (Ok tt), s'. split; [done|]. split; [done|]. by rewrite Hlog.
Qed.

(** ** Sequences of view changes *)

(** The node handles the messages one after the other, going on after errors. *)
Fixpoint handle_messages (ms : list ParsedMessage) : SM Sys () :=
  match ms with
  | [] => mret tt
  | m :: ms => _ ← on_peer_message (S (S fuel)) m; handle_messages ms
  end.

Lemma votes_on_way ms s :
  Forall change_vote ms → on_way s →
  ∃ s', handle_messages ms s = (Done tt, s') ∧ on_way s' ∧
    ∀ x, x ∈ stored (msg_log s) ∨ x ∈ ms → x ∈ stored (msg_log s').
Proof.
  intros Hms. revert s. induction Hms as [|m ms Hm _ IH]; intros s Hs.
  { exists s. split_and!; [done..|]. intros x [?|?%elem_of_nil]; done. }
  destruct (vote_on_way m s Hm Hs) as (a & s1 & Hrun & Hs1 & Hin1).
  destruct (IH s1 Hs1) as (s' & Hrun' & Hs' & Hin'). exists s'. cbn [handle_messages].
  rewrite (run_bind_done _ _ _ _ _ Hrun). split_and!; [done..|]. intros x Hx. apply Hin'.
  rewrite elem_of_cons in Hx. destruct Hx as [?|[?|?]]; [left; apply Hin1; auto..|by right].
Qed.

(** View changes of other peers that are stored count. *)
Lemma change_votes_at_least ms s :
  NoDup ms → (∀ m, m ∈ ms → change_vote m ∧ m ∈ stored (msg_log s)) → len ms ≤ change_votes s.
Proof.
  intros Hnd Hin. assert (ms ⊆+ filter change_vote (stored (msg_log s))) as Hsub%submseteq_length;
    [|unfold change_votes, len; lia].
  apply NoDup_submseteq; [done|]. intros m [? ?]%Hin. by rewrite list_elem_of_filter.
Qed.

(** C10. A view change ends: a node, at the height it was asked to change the view
    at, that gets view changes for the next view from 2f other peers, in any
    order and with any others for that view among them, enters the view, if it
    has proposed the change itself, or if it has not and its log holds exactly
    one seal of the previous height when it joins after f+1 of them; its mode,
    phase, working block, timer and role are those of the new view, and the new
    primary starts a block.  Without the seal the node does not join
    ([NodeTheorems.propose_without_seal_is_stuck]). *)
Theorem view_change_finishes ms received s :
  in_change s → waiting s → Forall change_vote ms →
  NoDup received → 2 * f ≤ len received →
  (∀ m, m ∈ received → change_vote m ∧ from_self m = false ∧ (m ∈ stored (msg_log s) ∨ m ∈ ms)) →
  ∃ s', handle_messages ms s = (Done tt, s') ∧ entered s'.
Proof.
  intros Hs Hw Hms Hnd Hlen Hrec. destruct (votes_on_way ms s Hms) as (s' & Hrun & [Hs' Hcases] & Hin); [by split; [|left]|].
  exists s'. split; [done|]. destruct Hcases as [[_ Hmode]|He]; [exfalso|done].
  assert (∀ m, m ∈ received → change_vote m ∧ m ∈ stored (msg_log s')) as Hstored.
  { intros m (? & _ & ?)%Hrec. split; [done|]. by apply Hin. }
  destruct Hs' as [[Htol _] Hf _]. apply tolerant_f in Htol as [? _]. destruct (mode (pbft_state s')).
  - pose proof (change_votes_at_least received s' Hnd Hstored). lia.
  - destruct Hmode as [Hq (own & Hown & Hself & Hoin)].
    assert (len (own :: received) ≤ change_votes s') as Hall; [|unfold len in *; cbn in Hall; lia].
    apply change_votes_at_least.
    + constructor; [|done]. intros (_ & ? & _)%Hrec. congruence.
    + intros m [->|Hm]%elem_of_cons; [done|by apply Hstored].
Qed.
End view_change.
