(* ===== verification/SealTheorems.v ===== *)
(** * Seals and catching up *)

From S2P Require Import Prelude HashSet MessageType Wire Service Errors Messages.
From S2P Require Import Timing Config NodeState MessageLog Sys Handlers Node NodeFrames.
From S2P Require Import NodeInvariants Protocol Refinement BlockCommit Seals Fixture.

Section seals.
Context `{Externals}.
Implicit Types (s : Sys) (seal : PbftSeal).

(** C18. A block passes [verify_consensus_seal] with a seal exactly when it is
    past the first block, its payload is a seal that names its parent and its
    summary, and every vote in it is for the parent, carries a header that is
    signed by the key it names and that covers the vote, and the votes name at
    least 2f distinct peers of the parent block's membership other than the
    block's signer; the only effect is to ask for that membership. *)
Theorem verify_seal_accepts block s seal s' :
  verify_consensus_seal block s = (Done (Ok (Some seal)), s') ↔
  seal_ok block s seal ∧ s' = asked_settings block s.
Proof.
  split; [apply verify_seal_sound|]. intros [Hok ->]. by apply verify_seal_complete.
Qed.

Lemma Forall2_vote_of seal ms :
  (∀ m, m ∈ ms → vote_valid seal (vote_of m) (mi_signer_id (info m))) →
  Forall2 (vote_valid seal) (vote_of <$> ms) ((λ m, mi_signer_id (info m)) <$> ms).
Proof.
  induction ms as [|m ms IH]; intros Hms; [constructor|]. cbn. constructor.
  - apply Hms. by left.
  - apply IH. intros m' Hm'. apply Hms. by right.
Qed.

(** C19. A seal the primary builds is accepted with the block it goes into by a
    node with the same [f], when the commits it was built from are signed votes
    for one block by distinct peers other than the primary. *)
Theorem built_seal_is_accepted `{!CodecLaws} summary data s s1 t block v n :
  build_seal summary s = (Done (Ok data), s1) →
  u64_sub (seq_num (pbft_state s)) 1 = Done n →
  (∀ m v', m ∈ received_in_view (msg_log s) Commit n v' → v' = v) →
  (∀ m, m ∈ received_in_view (msg_log s) Commit n v →
     vote_valid (mkPbftSeal (bk_previous_id block) summary []) (vote_of m) (mi_signer_id (info m)) ∧
     ∃ b, get_block m = Done b ∧ pb_block_id b = bk_previous_id block) →
  NoDup ((λ m, mi_signer_id (info m)) <$> received_in_view (msg_log s) Commit n v) →
  bk_payload block = data → data ≠ [] → bk_summary block = summary → 2 ≤ bk_block_num block →
  st_f (pbft_state t) = st_f (pbft_state s) →
  (∃ peers, peers_at (service t) (bk_previous_id block) peers ∧
     ∀ m, m ∈ received_in_view (msg_log s) Commit n v →
       mi_signer_id (info m) ∈ peers ∧ mi_signer_id (info m) ≠ bk_signer_id block) →
  ∃ seal, verify_consensus_seal block t = (Done (Ok (Some seal)), asked_settings block t) ∧
          ps_previous_id seal = bk_previous_id block ∧ ps_summary seal = summary.
Proof.
  intros (n' & q & v' & first & ms & b & Hn & Hq & Hrec & Hlen & _ & Hb & Hdata & ->)%build_seal_inv
    Hn' Hview Hvotes Hnd Hpay Hne Hsum Hnum Hf (peers & Hpeers & Hin).
  rewrite Hn' in Hn. injection Hn as <-.
  assert (v' = v) as ->. { apply (Hview first). rewrite Hrec. by left. }
  destruct (Hvotes first) as [_ (b' & Hb' & Hid)]; [rewrite Hrec; by left|].
  rewrite Hb in Hb'. injection Hb' as <-. rewrite <- Hrec, Hid in Hdata. rewrite <- Hrec in Hlen.
  set (seal := mkPbftSeal (bk_previous_id block) summary (vote_of <$> received_in_view (msg_log s) Commit n v)) in *.
  exists seal. split; [|done]. apply verify_seal_complete.
  destruct (seal_roundtrip seal) as (data' & Hw & Hr). rewrite Hdata in Hw. injection Hw as <-.
  split; [done|by rewrite Hpay|by rewrite Hpay|done|done|].
  exists ((λ m, mi_signer_id (info m)) <$> received_in_view (msg_log s) Commit n v), peers, q. split_and!.
  - cbn. apply Forall2_vote_of. intros m Hm. by apply Hvotes.
  - done.
  - intros id (m & -> & Hm)%list_elem_of_fmap. by apply Hin.
  - by rewrite Hf.
  - rewrite fin_sets.size_list_to_set, length_fmap by done. exact Hlen.
Qed.

(** ** Catching up *)

Lemma add_all_service ms s : service (add_all_messages ms s).2 = service s.
Proof.
  symmetry. enough (respects (frame service) (add_all_messages ms)) as Hr by exact (Hr s).
  induction ms as [|m ms IH]; cbn [add_all_messages]; [apply respects_ret; apply _|].
  apply respects_try; [apply _| |done]. apply respects_log_add_message. by intros s'.
Qed.

Lemma on_block_commit_commits b s s' :
  on_block_commit b s = (Done tt, s') → committed (service s') = committed (service s).
Proof.
  intros [[-> _]|(_ & _ & n & wb & s2 & _ & _ & (_ & _ & Hcom)%view_after_settles & l & _ & ->)]%on_block_commit_inv; [done|].
  cbn [service]. unfold committed. rewrite omap_app. fold (committed (service s2)). rewrite Hcom.
  destruct (_ && _); cbn; by rewrite app_nil_r.
Qed.

Lemma parse_votes_first vs p ps :
  parse_votes vs = Done (Ok (p :: ps)) →
  ∃ v vs' m, vs = v :: vs' ∧ message_of_bytes (sv_message_bytes v) = Ok m ∧ message p = WMessage m.
Proof.
  destruct vs as [|v vs]; [done|]. cbn. destruct (message_of_bytes _) as [m|] eqn:Hm; [|done].
  destruct (from_pbft_message m) as [p'| |] eqn:Hp; [|done..]. cbn.
  destruct (parse_votes vs) as [[ps'|]| |]; [|done..]. intros [= <- <-].
  apply from_pbft_message_inv in Hp as [Hp _]. by exists v, vs, m.
Qed.

(** C20. Catching up, on a block whose seal passes the check, commits the node's
    working block and nothing else: either no block is committed (an error), or
    exactly one, the working block, which is the new block's parent and for
    which the seal holds 2f distinct signed votes. *)
Theorem catchup_commits_working_block block s0 seal s r s' :
  seal_ok block s0 seal → catchup block s = (Done r, s') →
  committed (service s') = committed (service s) ∨
  ∃ wb, working_block (pbft_state s) = Some wb ∧ bk_previous_id block = pb_block_id wb ∧
        committed (service s') = committed (service s) ++ [pb_block_id wb].
Proof.
  intros [_ _ Hseal Hprev _ (voters & peers & q & Hvotes & _)].
  unfold catchup. rewrite run_get_state.
  destruct (working_block (pbft_state s)) as [wb|] eqn:Hwb; [|rewrite run_try_ret_err; intros [= _ <-]; by left].
  intros Hrun. unfold try_bind at 1 in Hrun. apply bind_done_inv in Hrun as (c & s1 & Hc & Hrun).
  apply bind_done_inv in Hc as (next & s2 & [= _ <-] & [= <- <-]).
  case_decide as Hext; [destruct Hext as [_ Hparent]|injection Hrun as _ <-; by left].
  rewrite Hseal in Hrun. cbn [map_err] in Hrun. rewrite run_try_ret_ok in Hrun.
  apply bind_done_inv in Hrun as (msgs & s1 & [= Hmsgs <-] & Hrun).
  destruct msgs as [msgs|e]; [|injection Hrun as _ <-; by left].
  destruct msgs as [|first msgs]; [done|].
  apply parse_votes_first in Hmsgs as Hfirst. destruct Hfirst as (vote & vs & m & Hvs & Hm & Hmsg).
  rewrite Hvs in Hvotes. apply Forall2_cons_inv_l in Hvotes as (id & ids & (m' & _ & _ & Hm' & Hbid & _) & _ & _).
  rewrite Hm in Hm'. injection Hm' as <-. rewrite Hprev in Hbid.
  rewrite run_get_state in Hrun. apply bind_done_inv in Hrun as ([] & s1 & Hv & Hrun).
  assert (service s1 = service s) as Hs1 by by destruct (bool_decide _); injection Hv as <-.
  apply bind_done_inv in Hrun as (added & s2 & Hadd & Hrun).
  pose proof (add_all_service (first :: msgs) s1) as Hs2. rewrite Hadd in Hs2. cbn [snd] in Hs2. rewrite Hs1 in Hs2.
  destruct added as [[]|e]; [|injection Hrun as _ <-; left; by rewrite Hs2].
  rewrite run_modify_state in Hrun. unfold as_msg_type, get_pbft_message in Hrun. rewrite Hmsg in Hrun.
  rewrite done_bind, run_lift_bind in Hrun.
  apply bind_done_inv in Hrun as (cr & s3 & Hcommit & Hrun).
  unfold commit in Hcommit. cbn [get_block message] in Hcommit. rewrite run_lift_bind in Hcommit.
  unfold svc_commit_block in Hcommit. rewrite run_call in Hcommit.
  assert (committed (service s3) = committed (service s) ++ [pb_block_id wb]) as Hs3.
  { assert (service s3 = service s ++ [CommitBlock (pb_block_id (pm_get_block m))]) as ->.
    { destruct (on_commit_block _ _); cbn [map_err] in Hcommit.
      - rewrite run_try_ret_ok, run_switch_phase in Hcommit. injection Hcommit as _ <-. cbn. by rewrite Hs2.
      - injection Hcommit as _ <-. cbn. by rewrite Hs2. }
    rewrite committed_snoc, Hbid, Hparent. done. }
  right. exists wb. split_and!; [done|done|].
  destruct cr as [[]|e]; [|injection Hrun as _ <-; done].
  unfold get_block in Hrun. rewrite Hmsg, run_lift_bind in Hrun.
  apply bind_done_inv in Hrun as ([] & s4 & Hbc & [= _ <-]).
  apply on_block_commit_commits in Hbc. by rewrite Hbc.
Qed.
End seals.
