(* ===== verification/CatchUp.v ===== *)
(** * Catching up

    [catchup] (node.rs), branch by branch, on a block whose seal is parsed. *)

From S2P Require Import Prelude HashSet MessageType Wire Service Errors Messages.
From S2P Require Import Timing Config NodeState MessageLog Sys Handlers Node NodeFrames.
From S2P Require Import NodeInvariants Protocol Refinement BlockCommit Seals SealTheorems.

Section catchup.
Context `{Externals}.
Implicit Types (s : Sys) (m : ParsedMessage).

(** The node with the messages in its log. *)
Definition stored_all (ms : list ParsedMessage) s : Sys := foldl (λ s m, stored_state m s) s ms.

Lemma stored_all_rest ms s :
  pbft_state (stored_all ms s) = pbft_state s ∧ service (stored_all ms s) = service s ∧ ticks (stored_all ms s) = ticks s.
Proof. revert s. induction ms as [|m ms IH]; intros s; [done|]. exact (IH (stored_state m s)). Qed.

Lemma add_all_run ms s :
  (∀ m, m ∈ ms → msg_type_of m = ViewChange ∨ mi_view (info m) = view (pbft_state s)) →
  add_all_messages ms s = (Done (Ok tt), stored_all ms s).
Proof.
  revert s. induction ms as [|m ms IH]; intros s Hms; [done|]. cbn [add_all_messages].
  rewrite run_add_message, decide_True by (apply Hms; by left). apply IH. intros x Hx. apply Hms. by right.
Qed.

(** The block is the next one on the working block. *)
Definition extends (block : Block) (wb : PbftBlock) : Prop :=
  bk_block_num block = pb_block_num wb + 1 ∧ bk_previous_id block = pb_block_id wb.

(** The node once it has taken over view and votes of the seal, in a phase. *)
Definition sealed_state (v : N) (ms : list ParsedMessage) (p : PbftPhase) (calls : list ServiceCall) s : Sys :=
  mkSys (service s ++ calls) (msg_log (stored_all ms s)) (set_phase p (set_view v (pbft_state s))) (ticks s).

Lemma raise_view v st :
  (if bool_decide (view st < v) then set_view v st else st) = set_view (N.max (view st) v) st.
Proof. case_bool_decide; destruct st; unfold set_view; cbn in *; f_equal; lia. Qed.

Lemma stored_all_log ms s st : msg_log (stored_all ms (set_state st s)) = msg_log (stored_all ms s).
Proof.
  assert (∀ s s', msg_log s = msg_log s' → msg_log (stored_all ms s) = msg_log (stored_all ms s')) as Hgen; [|by apply Hgen].
  induction ms as [|m ms IH]; intros s1 s2 Hl; [done|]. cbn. apply IH. unfold stored_state. cbn. by rewrite Hl.
Qed.

(** From the seal on. *)
Lemma catchup_votes block s wb seal first ms b :
  working_block (pbft_state s) = Some wb → pb_block_num wb + 1 < two64 → extends block wb →
  seal_of_bytes (bk_payload block) = Ok seal →
  parse_votes (ps_previous_commit_votes seal) = Done (Ok (first :: ms)) → get_block first = Done b →
  let v := N.max (view (pbft_state s)) (mi_view (info first)) in
  (∀ m, m ∈ first :: ms → msg_type_of m = ViewChange ∨ mi_view (info m) = v) →
  let id := pb_block_id b in
  catchup block s =
  match on_commit_block (service s) id with
  | Ok _ => (_ ← on_block_commit id; mret (Ok tt)) (sealed_state v (first :: ms) Finished [CommitBlock id] s)
  | Err _ => (Done (Err (InternalError "Failed to commit block: {:?}")), sealed_state v (first :: ms) Committing [CommitBlock id] s)
  end.
Proof.
  intros Hwb Hn Hext Hseal Hvotes Hb v Hms id. unfold catchup. rewrite run_get_state, Hwb, run_try, run_bind.
  unfold sm_lift at 1. rewrite u64_add_small by done. rewrite run_ret, decide_True by apply Hext.
  rewrite Hseal. cbn [map_err]. rewrite run_try_ret_ok, run_try. unfold sm_lift at 1. rewrite Hvotes.
  rewrite run_get_state. set (s1 := set_state (set_view v (pbft_state s)) s).
  rewrite run_bind. assert ((if bool_decide (view (pbft_state s) < mi_view (info first))
    then modify_state (set_view (mi_view (info first))) else mret tt) s = (Done tt, s1)) as ->.
  { unfold s1, v. rewrite <- raise_view. by case_bool_decide; destruct s as [? ? [] ?]. }
  rewrite run_try, add_all_run by done. destruct (stored_all_rest (first :: ms) s1) as (Hst & Hsv & Htk).
  rewrite run_modify_state. unfold as_msg_type, get_pbft_message.
  pose proof Hb as (pm & Hpm & Hbpm)%get_block_done. rewrite Hpm, done_bind, run_lift_bind, run_try.
  set (s2 := set_state _ (stored_all (first :: ms) s1)). set (fc := mkParsedMessage _ _ _ _ _).
  assert (∀ p calls, mkSys (service s2 ++ calls) (msg_log s2) (set_phase p (pbft_state s2)) (ticks s2) =
            sealed_state v (first :: ms) p calls s) as Hs2.
  { intros p calls. unfold s2, sealed_state. cbn [set_state service msg_log pbft_state ticks].
    pose proof (stored_all_log (first :: ms) s (set_view v (pbft_state s)) : msg_log (stored_all _ s1) = _) as Hlog.
    by rewrite Hsv, Hst, Htk, Hlog. }
  unfold commit at 1. assert (get_block fc = Done b) as Hfc by by rewrite Hbpm.
  rewrite (run_lift_done _ _ _ _ Hfc). unfold svc_commit_block. rewrite run_call. fold id.
  assert (service s2 = service s) as Hserv by done. rewrite Hserv.
  destruct (on_commit_block (service s) id) as [[]|e]; cbn [map_err].
  - rewrite run_try_ret_ok, run_switch_phase, run_ret. rewrite (run_lift_done _ _ _ _ Hb). fold id.
    rewrite <- Hs2, Hserv. done.
  - rewrite run_try_ret_err. f_equal. rewrite <- Hs2, Hserv. done.
Qed.

(** C21. Catching up: without a working block, or on a block that is not its
    successor, it is an error that changes nothing, as is a payload that is not
    a seal.  With a seal whose votes are of one view, not below the node's, the
    node takes over that view and stores the votes, has the block of the first
    vote committed, and handles the commit; if that is its working block it is
    then at the next height in the first phase.  A validator that refuses leaves
    it with the view and the votes, waiting to commit. *)
Theorem catchup_effect block s :
  (working_block (pbft_state s) = None → catchup block s = (Done (Err NoWorkingBlock), s)) ∧
  ∀ wb, working_block (pbft_state s) = Some wb → pb_block_num wb + 1 < two64 →
    (¬ extends block wb → catchup block s = (Done (Err (BlockMismatch (pbft_block_from_block block) wb)), s)) ∧
    (extends block wb → ∀ e, seal_of_bytes (bk_payload block) = Err e → catchup block s = (Done (Err (SerializationError e)), s)) ∧
    ∀ seal first ms b, extends block wb → seal_of_bytes (bk_payload block) = Ok seal →
      parse_votes (ps_previous_commit_votes seal) = Done (Ok (first :: ms)) → get_block first = Done b →
      let v := N.max (view (pbft_state s)) (mi_view (info first)) in
      (∀ m, m ∈ first :: ms → msg_type_of m = ViewChange ∨ mi_view (info m) = v) →
      let id := pb_block_id b in
      (∀ e, on_commit_block (service s) id = Err e →
         catchup block s = (Done (Err (InternalError "Failed to commit block: {:?}")),
                            sealed_state v (first :: ms) Committing [CommitBlock id] s)) ∧
      (on_commit_block (service s) id = Ok tt →
         catchup block s = (_ ← on_block_commit id; mret (Ok tt)) (sealed_state v (first :: ms) Finished [CommitBlock id] s) ∧
         ∀ s', catchup block s = (Done (Ok tt), s') → id = pb_block_id wb →
           u64_add (seq_num (pbft_state s)) 1 = Done (seq_num (pbft_state s')) ∧
           phase (pbft_state s') = PrePreparing ∧ committed (service s') = committed (service s) ++ [id]).
Proof.
  split; [intros Hwb; unfold catchup; by rewrite run_get_state, Hwb|]. intros wb Hwb Hn.
  assert (u64_add (pb_block_num wb) 1 = Done (pb_block_num wb + 1)) as Hnext by by apply u64_add_small.
  split; [|split].
  - intros Hext. unfold catchup. rewrite run_get_state, Hwb, run_try, (run_lift_done _ _ _ _ Hnext), run_ret.
    by rewrite decide_False.
  - intros Hext e He. unfold catchup. rewrite run_get_state, Hwb, run_try, (run_lift_done _ _ _ _ Hnext), run_ret.
    rewrite decide_True by apply Hext. by rewrite He.
  - intros seal first ms b Hext Hseal Hvotes Hb v Hms id.
    pose proof (catchup_votes block s wb seal first ms b Hwb Hn Hext Hseal Hvotes Hb Hms) as Hrun.
    cbv zeta in Hrun. fold v id in Hrun. split; [by intros e He; rewrite He in Hrun|]. intros Hc. rewrite Hc in Hrun.
    split; [done|]. intros s' Hs' Hid. rewrite Hrun in Hs'. apply bind_done_inv in Hs' as ([] & s1 & Hbc & [= <-]).
    pose proof (on_block_commit_commits _ _ _ Hbc) as Hcom.
    apply on_block_commit_inv in Hbc as [[_ [Hp|Hw]]|(_ & _ & num & wb' & s2 & Hnum & _ & (Hset & _ & _)%view_after_settles & l & _ & ->)].
    + by destruct Hp.
    + destruct Hw. by exists wb.
    + split_and!.
      * cbn [pbft_state set_timeout seq_num]. replace (seq_num (pbft_state s2)) with num by by destruct Hset. exact Hnum.
      * by destruct Hset.
      * rewrite Hcom. unfold sealed_state. cbn [service]. by rewrite committed_snoc.
Qed.
End catchup.
