(* ===== verification/Forgery.v ===== *)
(** * What a consensus seal does not show

    A vote in a seal is checked for its block, its signature and its header's
    hash ([vote_valid], Seals.v).  It is not checked that it is a commit, that it
    is of the height and view of the block, or that the key that signed it is the
    one of the peer it names.  A node that catches up relies on such a seal. *)

From S2P Require Import Prelude HashSet MessageType Wire Service Errors Messages.
From S2P Require Import Timing Config NodeState MessageLog Sys Handlers Node NodeFrames.
From S2P Require Import NodeInvariants Protocol Refinement BlockCommit Safety NodeTheorems Seals SealTheorems CatchUp.

Section forgery.
Context `{Externals}.
Implicit Types (s : Sys) (m : ParsedMessage) (vote : PbftSignedCommitVote) (seal : PbftSeal).

(** A vote with this message, signed with this key. *)
Definition signed_with (key : PeerId) (content : PbftMessage) vote : Prop :=
  message_of_bytes (sv_message_bytes vote) = Ok content ∧
  ∃ header k,
    header_of_bytes (sv_header_bytes vote) = Ok header ∧ ph_signer_id header = key ∧
    ph_content_sha512 header = sha512 (sv_message_bytes vote) ∧
    public_key_from_hex (hex_encode key) = Some k ∧
    verify_signature (hex_encode (sv_header_signature vote)) (sv_header_bytes vote) k = Ok true.

(** What a vote for a block says: the type, view and height of a message, and the
    peer it names as its signer. *)
Definition ballot_for (t : PbftMessageType) (v n : N) (b : PbftBlock) (p : PeerId) : PbftMessage :=
  mkPbftMessage (Some (make_msg_info t v n p)) (Some b).

(** Votes that name these peers, each signed with some key. *)
Definition ballots_of (t : PbftMessageType) (v n : N) (b : PbftBlock) (voters : list PeerId) seal : Prop :=
  Forall2 (λ p vote, ∃ key, signed_with key (ballot_for t v n b p) vote) voters (ps_previous_commit_votes seal).

Lemma ballots_valid t v n b voters seal :
  create_context = Ok tt → pb_block_id b = ps_previous_id seal → ballots_of t v n b voters seal →
  Forall2 (vote_valid seal) (ps_previous_commit_votes seal) voters.
Proof.
  intros Hctx Hid Hall. apply Forall2_flip. eapply Forall2_impl; [exact Hall|].
  intros p vote (key & Hm & header & k & Hh & <- & Hsha & Hk & Hsig). by exists (ballot_for t v n b p), header, k.
Qed.

Lemma parse_ballots `{!CodecLaws} t v n b voters votes :
  Forall2 (λ p vote, ∃ key, signed_with key (ballot_for t v n b p) vote) voters votes →
  ∃ ms, parse_votes votes = Done (Ok ms) ∧ Forall2 (λ p m, message m = WMessage (ballot_for t v n b p)) voters ms.
Proof.
  induction 1 as [|p vote voters votes (key & Hm & _) _ (ms & Hms & IH)]; [by exists []|].
  destruct (from_pbft_message_done (ballot_for t v n b p)) as (bs & _ & Hp).
  eexists. cbn [parse_votes]. rewrite Hm, Hp, done_bind, Hms. split; [done|]. by constructor.
Qed.

Lemma commits_in_history id s : history_le s (on_block_commit id s).2.
Proof. apply (ce_on_block_commit history_le history_commit_effects). Qed.

(** The node once the block is announced and its seal is kept. *)
Lemma announce_catches_up `{!CodecLaws} fuel block seal s :
  verify_consensus_seal block s = (Done (Ok (Some seal)), asked_settings block s) →
  bk_block_num block = seq_num (pbft_state s) + 1 → bk_block_num block < two64 → phase (pbft_state s) ≠ Finished →
  ∃ s1, on_block_new fuel block s = catchup block s1 ∧ pbft_state s1 = pbft_state s ∧
        service s1 = service s ++ [GetSettings (bk_previous_id block) [peers_key]].
Proof.
  intros Hv Hn Hlt Hp. rewrite on_block_new_catchup. unfold on_block_new_with.
  rewrite run_get_state, bool_decide_false, (run_bind_done _ _ _ _ _ Hv), run_try, run_modify_log, run_ret by lia.
  unfold announce_block. rewrite run_get_state. cbn [set_log asked_settings set_service pbft_state].
  destruct (from_pbft_message_done (mkPbftMessage (Some (make_msg_info BlockNew (view (pbft_state s)) (bk_block_num block)
    (st_id (pbft_state s)))) (Some (pbft_block_from_block block)))) as (bs & _ & ->).
  rewrite run_lift_bind, run_add_message, decide_True by by right.
  rewrite u64_add_small, run_lift_bind, decide_True by (by rewrite ?Hn in *). by eexists.
Qed.

(** C22. A block makes a node commit its working block and catch up if its seal
    has 2f votes that name different members of the network other than the
    block's signer and are for the working block, of whatever type (prepares, for
    one) and height they are, in whatever view not below the node's, and with
    whatever keys, of members or not, one or many, they are signed. *)
Theorem any_votes_seal_a_block `{!CodecLaws} fuel block s wb t v n b voters peers seal :
  create_context = Ok tt → sized (pbft_state s) →
  working_block (pbft_state s) = Some wb → extends block wb → bk_block_num block < two64 →
  1 ≤ seq_num (pbft_state s) → seq_num (pbft_state s) = pb_block_num wb → phase (pbft_state s) ≠ Finished →
  bk_payload block ≠ [] → seal_of_bytes (bk_payload block) = Ok seal →
  ps_previous_id seal = bk_previous_id block → ps_summary seal = bk_summary block →
  ballots_of t v n b voters seal → pb_block_id b = pb_block_id wb → view (pbft_state s) ≤ v →
  peers_at (service s) (bk_previous_id block) peers →
  NoDup voters → 2 * st_f (pbft_state s) ≤ len voters →
  (∀ p, p ∈ voters → p ∈ peers ∧ p ≠ bk_signer_id block) →
  verify_consensus_seal block s = (Done (Ok (Some seal)), asked_settings block s) ∧
  service s ++ [GetSettings (bk_previous_id block) [peers_key]; CommitBlock (pb_block_id wb)]
    `prefix_of` service (on_block_new fuel block s).2.
Proof.
  intros Hctx [Htol Hlen] Hwb Hext Hlt H1 Hseq Hph Hpay Hseal Hprev Hsum Hvotes Hid Hview Hpeers Hnd Henough Hin.
  pose proof Hext as [Hnum Hparent]. pose proof (tolerant_f _ Htol) as [Hf Hbound].
  assert (verify_consensus_seal block s = (Done (Ok (Some seal)), asked_settings block s)) as Hverify.
  { apply verify_seal_complete. split; [lia|done..|]. exists voters, peers, (2 * st_f (pbft_state s)). split_and!.
    - eapply ballots_valid; [done| |exact Hvotes]. by rewrite Hprev, Hparent.
    - done.
    - done.
    - apply u64_mul_small. lia.
    - rewrite fin_sets.size_list_to_set by done. exact Henough. }
  split; [exact Hverify|].
  destruct (announce_catches_up fuel block seal s) as (s1 & -> & Hst & Hserv); [done|lia|done..|].
  destruct (parse_ballots t v n b voters _ Hvotes) as (ms & Hms & Hfor).
  destruct Hfor as [|p first voters ms Hfirst Hrest]; [unfold len in Henough; cbn in Henough; lia|].
  assert (∀ m, m ∈ first :: ms → mi_view (info m) = v) as Hviews.
  { intros m Hm. assert (∃ p, message m = WMessage (ballot_for t v n b p)) as [q Hq].
    { apply elem_of_cons in Hm as [->|Hm]; [by exists p|].
      apply list_elem_of_lookup in Hm as [i Hi]. destruct (Forall2_lookup_r _ _ _ _ _ Hrest Hi) as (q & _ & ?). by exists q. }
    unfold info. by rewrite Hq. }
  assert (get_block first = Done b) as Hb by (unfold get_block; by rewrite Hfirst).
  pose proof (catchup_votes block s1 wb seal first ms b) as Hrun. cbv zeta in Hrun. rewrite Hst in Hrun.
  rewrite (Hviews first) in Hrun by by left. rewrite Hrun; [|done|lia|done..|].
  - rewrite Hid. assert (∀ v' q, service (sealed_state v' (first :: ms) q [CommitBlock (pb_block_id wb)] s1) =
      service s ++ [GetSettings (bk_previous_id block) [peers_key]; CommitBlock (pb_block_id wb)]) as Hs2.
    { intros v' q. cbn. by rewrite Hserv, <- app_assoc. }
    destruct (on_commit_block (service s1) (pb_block_id wb)) as [r|e]; [|cbn [snd]; by rewrite Hs2].
    set (s2 := sealed_state _ _ Finished _ s1). pose proof (commits_in_history (pb_block_id wb) s2) as Hle.
    unfold history_le, s2 in Hle. rewrite Hs2 in Hle. fold s2 in Hle. rewrite run_bind.
    by destruct (on_block_commit _ s2) as [[[]| |] s'].
  - intros m Hm. right. rewrite Hviews by done. lia.
Qed.
End forgery.
