(* ===== verification/LogTheorems.v ===== *)
(** * The message log *)

From S2P Require Import Prelude HashSet MessageType Wire Service Errors Messages.
From S2P Require Import Timing Config NodeState MessageLog Fixture.

Section log.
Context `{Platform}.
Implicit Types (l : PbftLog) (m : ParsedMessage) (i : PbftMessageInfo).


(** The predicates do not depend on the order of iteration, nor does the
    seal found for a height. *)
Theorem log_predicates_order_independent (o1 o2 : HashOrder) l i f n :
  unique_pre_prepare (stored l) → blocks_typed (stored l) → 2 * f + 1 < two64 →
  @check_prepared o1 _ l i f = @check_prepared o2 _ l i f ∧
  @check_committable o1 _ l i f = @check_committable o2 _ l i f ∧
  @get_consensus_seal o1 l n = @get_consensus_seal o2 l n.
Proof.
  intros Hu Ht Hf. pose proof (two_f_plus_one_small f Hf) as Hq.
  assert (∀ r r' P, (r = true ↔ P) → (r' = true ↔ P) → r = r') as Hbool.
  { intros [] [] P; intuition congruence. }
  split_and!.
  - destruct (@check_prepared_prepared o1 _ l i f _ Hu Ht Hq) as (r1 & -> & H1).
    destruct (@check_prepared_prepared o2 _ l i f _ Hu Ht Hq) as (r2 & -> & H2). f_equal. by eapply Hbool.
  - destruct (@check_committable_committable o1 _ l i f _ Hu Ht Hq) as (r1 & -> & H1).
    destruct (@check_committable_committable o2 _ l i f _ Hu Ht Hq) as (r2 & -> & H2). f_equal. by eapply Hbool.
  - unfold get_consensus_seal.
    assert (filter (λ e, se_seq_num e = n) (@hs_iter o1 _ (seals l)) ≡ₚ filter (λ e, se_seq_num e = n) (@hs_iter o2 _ (seals l))) as Hp.
    { apply filter_Permutation. etrans; [apply (@hs_iter_perm o1)|symmetry; apply (@hs_iter_perm o2)]. }
    destruct (filter _ (@hs_iter o1 _ _)) as [|e [|e' es]].
    + by apply Permutation_nil_l in Hp as <-.
    + apply Permutation_singleton_l in Hp as <-. done.
    + pose proof (Permutation_length Hp) as Hlen. rewrite (len_perm _ _ Hp).
      by destruct (filter _ (@hs_iter o2 _ _)) as [|? [|]].
Qed.

Context `{HashOrder}.

(** The messages a node in this state takes. *)
Definition of_view (st : PbftState) m : Prop :=
  message_type_of_str (mi_msg_type (info m)) = ViewChange ∨ mi_view (info m) = view st.

(** [add_message] refuses exactly the messages, other than view changes, of
    another view than the node's, and leaves the log alone then; else the log
    holds the message and what it held, and stays free of duplicates. *)
Theorem add_message_effect m st l :
  (of_view st m → (add_message m st l).1 = Ok tt ∧
     (∀ m', m' ∈ messages (add_message m st l).2 ↔ m' = m ∨ m' ∈ messages l) ∧
     (log_wf l → log_wf (add_message m st l).2)) ∧
  (¬ of_view st m → add_message m st l = (Err (ViewMismatch (mi_view (info m)) (view st)), l)).
Proof.
  pose proof (add_message_wf m st l) as Hwf. unfold of_view. rewrite add_message_cases in *. split; intros Hv.
  - rewrite decide_True in * by done. split; [done|]. split; [|done]. intros m'. apply elem_of_hs_insert.
  - by rewrite decide_False.
Qed.

(** C37. [get_enough_messages] returns all messages of the type and sequence
    number that other peers sent in one view, the latest view with at least
    [minimum] of them, and fails when there is no such view. *)
Theorem get_enough_messages_latest_view l t n minimum :
  match get_enough_messages l t n minimum with
  | Some ms => ∃ v, ms = received_in_view l t n v ∧ ms ≠ [] ∧ minimum ≤ len ms ∧
      ∀ v', v < v' → received_in_view l t n v' = [] ∨ len (received_in_view l t n v') < minimum
  | None => ∀ v, received_in_view l t n v = [] ∨ len (received_in_view l t n v) < minimum
  end.
Proof.
  destruct (get_enough_messages l t n minimum) as [ms|] eqn:Hms.
  - by apply get_enough_messages_some in Hms.
  - by apply get_enough_messages_none.
Qed.

(** A height has a consensus seal exactly when one entry of the log is of
    that height; otherwise the error says how many there are. *)
Theorem get_consensus_seal_unique l n :
  log_wf l →
  (∀ seal, get_consensus_seal l n = Ok seal ↔
     ∃ e, se_seal e = seal ∧ ∀ e', e' ∈ seals l ∧ se_seq_num e' = n ↔ e' = e) ∧
  (∀ err, get_consensus_seal l n = Err err →
     ∃ k, err = WrongNumSeals 1 k ∧ k = len (filter (λ e, se_seq_num e = n) (hs_items (seals l))) ∧ k ≠ 1).
Proof.
  intros [_ Hwf]. unfold get_consensus_seal.
  assert (∀ e', e' ∈ filter (λ e, se_seq_num e = n) (hs_iter (seals l)) ↔ e' ∈ seals l ∧ se_seq_num e' = n) as Hin.
  { intros e'. rewrite list_elem_of_filter, elem_of_hs_iter. tauto. }
  assert (NoDup (filter (λ e, se_seq_num e = n) (hs_iter (seals l)))) as Hnd by by apply NoDup_filter, hs_iter_wf.
  assert (len (filter (λ e, se_seq_num e = n) (hs_iter (seals l))) = len (filter (λ e, se_seq_num e = n) (hs_items (seals l)))) as Hlen.
  { by rewrite (len_perm _ _ (filter_Permutation _ _ _ (hs_iter_perm _))). }
  rewrite <- Hlen. setoid_rewrite <- Hin. clear Hlen Hin Hwf.
  destruct (filter _ _) as [|e [|e' es]].
  - split.
    + split; [done|]. intros (e & _ & He). by destruct (proj1 (elem_of_nil e)); apply He.
    + intros err [= <-]. by eexists.
  - split.
    + split; [intros [= <-]; exists e; split; [done|]; intros e'; apply list_elem_of_singleton|].
      intros (e' & <- & He). f_equal. f_equal. apply He. by left.
    + done.
  - split.
    + split; [done|]. intros (e0 & _ & He). exfalso. inversion_clear Hnd as [|? ? Hni _].
      apply Hni. assert (e = e0) as -> by (apply He; by left). assert (e' = e0) as -> by (apply He; by right; left). by left.
    + intros err [= <-]. eexists. split; [done|]. split; [done|]. unfold len. cbn. lia.
Qed.

(** C36. Garbage collection for a height returns; it drops messages only when
    the log has reached its size limit and only those below the previous
    height, so every vote of the previous and of the current height is still
    counted, and it keeps the seals of the committed block. *)
Theorem garbage_collect_keeps_votes cur b l :
  1 ≤ cur → log_wf l →
  ∃ l', garbage_collect cur b l = Done l' ∧ log_wf l' ∧
    (hs_len (messages l) < max_log_size l → messages l' = messages l) ∧
    (∀ m, m ∈ messages l' → m ∈ messages l) ∧
    (∀ t n v blk, cur - 1 ≤ n → votes (stored l') t n v blk ≡ₚ votes (stored l) t n v blk) ∧
    (∀ e, e ∈ seals l' ↔ e ∈ seals l ∧ se_block_id e = b) ∧ backlog l' = backlog l.
Proof.
  intros Hcur Hwf. destruct (garbage_collect_done cur b l Hcur) as (l' & Hl' & Hm & Hs & Hb & _ & Hwf').
  exists l'. split_and!; [done|by apply Hwf'| | | |done|done].
  - intros Hlt. revert Hl'. unfold garbage_collect. rewrite bool_decide_false by lia. by intros [= <-].
  - intros m Hin. by apply Hm.
  - intros t n v blk Hn. by eapply garbage_collect_votes.
Qed.
End log.
