(* ===== verification/StateTheorems.v ===== *)
(** * State, timers, configuration and messages *)

From S2P Require Import Prelude HashSet MessageType Wire Service Errors Messages.
From S2P Require Import Timing Config NodeState MessageLog Fixture.

(** ** The state *)

(** The primaries of [n] views in a row. *)
Definition primaries (st : PbftState) (n : nat) : list (Outcome PeerId) :=
  (λ k, get_primary_id (set_view (view st + N.of_nat k) st)) <$> seq 0 n.

Lemma mod_rotate (v : N) (k n : nat) :
  (k < n)%nat → let r := N.to_nat (v mod N.of_nat n) in
  N.to_nat ((v + N.of_nat k) mod N.of_nat n) = if decide (r + k < n)%nat then (r + k)%nat else (r + k - n)%nat.
Proof.
  intros Hk r. pose proof (N.mod_lt v (N.of_nat n) ltac:(lia)) as Hr.
  rewrite <- N.Div0.add_mod_idemp_l. set (w := v mod N.of_nat n) in *.
  case_decide as Hd.
  - rewrite N.mod_small by lia. unfold r. lia.
  - replace (w + N.of_nat k) with ((w + N.of_nat k - N.of_nat n) + 1 * N.of_nat n) by (unfold r in *; lia).
    rewrite N.Div0.mod_add, N.mod_small by lia. unfold r. lia.
Qed.

(** Over as many consecutive views as there are peers every peer is the
    primary once, in the order of the membership list. *)
Theorem every_peer_gets_a_view st :
  peer_ids st ≠ [] →
  let r := N.to_nat (view st mod len (peer_ids st)) in
  primaries st (length (peer_ids st)) = Done <$> (drop r (peer_ids st) ++ take r (peer_ids st)).
Proof.
  intros Hne r. unfold primaries. apply list_eq. intros k. rewrite !list_lookup_fmap.
  pose proof (view_mod_lt (view st) (peer_ids st) Hne) as Hr. fold r in Hr.
  destruct (decide (k < length (peer_ids st))%nat) as [Hk|Hk].
  - rewrite lookup_seq_lt by done. cbn [fmap option_fmap option_map].
    destruct (get_primary_id_done (set_view (view st + N.of_nat (0 + k)) st)) as [p Hp]; [done|].
    rewrite Hp. apply get_primary_id_lookup in Hp as [_ Hp]. cbn -[N.modulo] in Hp.
    unfold len in *. rewrite mod_rotate in Hp by done. fold r in Hp.
    assert ((drop r (peer_ids st) ++ take r (peer_ids st)) !! k = Some p) as ->; [|done].
    case_decide as Hd.
    + rewrite lookup_app_l by (rewrite length_drop; lia). by rewrite lookup_drop.
    + rewrite lookup_app_r by (rewrite length_drop; lia). rewrite length_drop, lookup_take_lt by lia.
      replace (k - (length (peer_ids st) - r))%nat with (r + k - length (peer_ids st))%nat by lia. done.
  - rewrite !lookup_ge_None_2; [done|..].
    + rewrite length_app, length_drop, length_take. lia.
    + rewrite length_seq. lia.
Qed.

(** A node starts exactly when its network has at least four peers (and the
    next height is a 64-bit number): at the height after the head, in view 0,
    the first phase and normal mode, with f = (n-1)/3, the role of view 0 and
    an inactive timer. *)
Theorem state_new_starts `{Platform} now i head config :
  head + 1 < two64 →
  (4 ≤ len (cfg_peers config) →
   ∃ st, state_new now i head config = Done st ∧ tolerant st ∧ role_ok st ∧
     st_id st = i ∧ seq_num st = head + 1 ∧ view st = 0 ∧ phase st = PrePreparing ∧ mode st = Normal ∧
     peer_ids st = cfg_peers config ∧ working_block st = None ∧
     timeout_state (faulty_primary_timeout st) = Inactive) ∧
  (len (cfg_peers config) < 4 → ∃ reason, state_new now i head config = Panic reason).
Proof.
  intros Hhead. unfold state_new, max_faulty. split.
  - intros Hn. rewrite u64_sub_small, !done_bind by lia.
    assert (1 ≤ (len (cfg_peers config) - 1) / 3) as Hf by (apply N.div_le_lower_bound; lia).
    rewrite bool_decide_false by lia. rewrite u64_add_small, done_bind by done.
    destruct (cfg_peers config) as [|p ps] eqn:Hp; [change (len []) with 0 in Hn; lia|].
    eexists. split; [done|]. split_and!; try done.
    exists p. cbn. split; [|by case_decide].
    apply get_primary_id_lookup. split; [done|]. cbn -[N.modulo]. by rewrite N.Div0.mod_0_l.
  - intros Hn. destruct (u64_sub (len (cfg_peers config)) 1) as [k| |] eqn:Hk; [|by eexists|].
    + rewrite !done_bind. case_bool_decide as Hz; [by eexists|].
      destruct (cfg_peers config) as [|p ps].
      * rewrite u64_add_small, done_bind by done. by eexists.
      * exfalso. unfold len in *. cbn [length] in *. rewrite u64_sub_small in Hk by lia. injection Hk as <-.
        apply Hz. apply N.div_small. lia.
    + unfold u64_sub, u64_overflow in Hk. by destruct (bool_decide _), overflow_checks.
Qed.

(** A forced view change is due at the positive multiples of the period; a
    period of zero, which the settings allow, panics at every height but 0. *)
Theorem forced_view_change_is_periodic st :
  (seq_num st = 0 → at_forced_view_change st = Done false) ∧
  (0 < seq_num st → 0 < forced_view_change_period st →
   (at_forced_view_change st = Done true ↔ (forced_view_change_period st | seq_num st)) ∧
   ∃ b, at_forced_view_change st = Done b) ∧
  (0 < seq_num st → forced_view_change_period st = 0 → ∃ reason, at_forced_view_change st = Panic reason).
Proof.
  unfold at_forced_view_change. split_and!.
  - intros ->. by rewrite bool_decide_false.
  - intros Hn Hp. rewrite bool_decide_true by done. rewrite u64_rem_pos, done_bind by done.
    split; [|by eexists]. rewrite <- N.Lcm0.mod_divide. case_bool_decide; naive_solver.
  - intros Hn ->. rewrite bool_decide_true by done. by eexists.
Qed.

(** ** Timers *)

(** A started timer is expired at a clock reading exactly when that is more
    than the duration after the start, and then stays expired, at any reading,
    until it is started or stopped; a stopped timer is not. *)
Theorem timeout_expires t0 t1 t2 t3 t :
  let d := timeout_duration t in
  let '(b, t') := check_expired t1 (start t0 t) in
  (b = true ↔ t0 + d < t1) ∧
  (b = true → (check_expired t2 t').1 = true) ∧
  (check_expired t3 (stop t2 t')).1 = false ∧
  ((check_expired t3 (start t2 t')).1 = true ↔ t2 + d < t3).
Proof.
  intros d. destruct (check_expired t1 (start t0 t)) as [b t'] eqn:Hc.
  assert (timeout_duration t' = d) as Hd'.
  { revert Hc. unfold check_expired. case_bool_decide; intros [= _ <-]; done. }
  split_and!.
  - change b with ((b, t').1). rewrite <- Hc, check_expired_true. cbn. fold d. naive_solver.
  - intros ->. pose proof (check_expired_sticky t1 t2 (start t0 t)) as Hs. rewrite Hc in Hs. by apply Hs.
  - unfold check_expired. case_bool_decide as Hx; [by destruct Hx|done].
  - rewrite check_expired_true. cbn. rewrite Hd'. naive_solver.
Qed.

(** A ticker runs its callback exactly when its period has passed since the
    last run, and counts the next period from the end of this one. *)
Theorem ticker_ticks {S} (read_now : SM S N) (callback : SM S ()) tk s now s1 :
  read_now s = (Done now, s1) →
  (now - ticker_last tk < ticker_timeout tk → tick read_now callback tk s = (Done tk, s1)) ∧
  (ticker_timeout tk ≤ now - ticker_last tk →
   ∀ s2 now' s3, callback s1 = (Done tt, s2) → read_now s2 = (Done now', s3) →
     tick read_now callback tk s = (Done (mkTicker now' (ticker_timeout tk)), s3)).
Proof.
  intros Hnow. unfold tick, instant_sub. rewrite (run_bind_done _ _ _ _ _ Hnow). split.
  - intros Hlt. by rewrite bool_decide_false by lia.
  - intros Hle s2 now' s3 Hcb Hnow'. rewrite bool_decide_true by done.
    by rewrite (run_bind_done _ _ _ _ _ Hcb), (run_bind_done _ _ _ _ _ Hnow').
Qed.

(** ** Configuration *)

(** The settings of the durations and sizes, as the validator stores them. *)
Definition number_settings (bd mt fp fv ml : N) : gmap string string :=
  {[ "sawtooth.consensus.pbft.block_duration" := pretty bd;
     "sawtooth.consensus.pbft.message_timeout" := pretty mt;
     "sawtooth.consensus.pbft.faulty_primary_timeout" := pretty fp;
     "sawtooth.consensus.pbft.forced_view_change_period" := pretty fv;
     "sawtooth.consensus.pbft.max_log_size" := pretty ml ]}.

(** C39. Decimal settings are read back in their units (milliseconds for the
    block duration and the message timeout, seconds for the primary's timeout),
    missing ones keep their defaults, the storage is always in memory, and a
    configuration in which a block may take as long as the timeout panics. *)
Theorem config_honours_settings `{Crypto} `{Json} settings peers bd mt fp fv ml :
  get_peers_from_settings settings = Done peers →
  bd < two64 → mt < two64 → fp < two64 → fv < two64 → ml < two64 →
  (number_settings bd mt fp fv ml ⊆ settings →
   config_of_settings settings =
   if bool_decide (from_secs fp ≤ from_millis bd) then
     Panic "Block duration must be less than the view change timeout"
   else Done {| cfg_peers := peers; cfg_block_duration := from_millis bd; cfg_message_timeout := from_millis mt;
                cfg_faulty_primary_timeout := from_secs fp; cfg_forced_view_change_period := fv;
                cfg_max_log_size := ml; cfg_storage := "memory" |}) ∧
  ((∀ k, k ∈ config_keys → k ≠ peers_key → settings !! k = None) →
   config_of_settings settings =
   Done {| cfg_peers := peers; cfg_block_duration := from_millis 200; cfg_message_timeout := from_millis 10;
           cfg_faulty_primary_timeout := from_secs 30; cfg_forced_view_change_period := 30;
           cfg_max_log_size := 1000; cfg_storage := "memory" |}).
Proof.
  intros Hpeers Hbd Hmt Hfp Hfv Hml. unfold config_of_settings. rewrite Hpeers, !done_bind.
  unfold merge_millis_setting_if_set, merge_secs_setting_if_set, merge_setting_if_set, merge_setting_if_set_and_map.
  split.
  - intros Hsub. assert (∀ k v, number_settings bd mt fp fv ml !! k = Some v → settings !! k = Some v) as Hk
      by (intros; by eapply lookup_weaken).
    rewrite !(Hk "sawtooth.consensus.pbft.block_duration" _ eq_refl), !(Hk "sawtooth.consensus.pbft.message_timeout" _ eq_refl),
      !(Hk "sawtooth.consensus.pbft.faulty_primary_timeout" _ eq_refl),
      !(Hk "sawtooth.consensus.pbft.forced_view_change_period" _ eq_refl), !(Hk "sawtooth.consensus.pbft.max_log_size" _ eq_refl).
    by rewrite !parse_u64_pretty by done.
  - intros Hk. rewrite !Hk by (done || (unfold config_keys; set_solver)). done.
Qed.

(** ** Messages *)

Section messages.
Context `{Codec} `{Crypto}.

(** A message of another peer is taken exactly when its header's hash is
    that of its content and the content parses: as a message unless that fails
    or gives a view change, else as a view change.  It keeps the bytes, header
    and signature it came with. *)
Theorem peer_message_parsed p r :
  from_peer_message p false = Ok r ↔
  sha512 (pe_content p) = ph_content_sha512 (pe_header p) ∧
  ((∃ m, message_of_bytes (pe_content p) = Ok m ∧ mi_msg_type (pm_get_info m) ≠ "ViewChange" ∧ message r = WMessage m) ∨
   ((∀ m, message_of_bytes (pe_content p) = Ok m → mi_msg_type (pm_get_info m) = "ViewChange") ∧
    ∃ vc, view_change_of_bytes (pe_content p) = Ok vc ∧ message r = WViewChange vc)) ∧
  header_bytes r = pe_header_bytes p ∧ header_signature r = pe_header_signature p ∧
  message_bytes r = pe_content p ∧ from_self r = false.
Proof.
  unfold from_peer_message. rewrite <- verify_sha512_ok.
  destruct (verify_sha512 _ _) as [[]|e]; [|split; [done|by intros [? _]]].
  assert (∀ w, parse_wrapper (pe_content p) = Some w ↔
    (∃ m, message_of_bytes (pe_content p) = Ok m ∧ mi_msg_type (pm_get_info m) ≠ "ViewChange" ∧ w = WMessage m) ∨
    ((∀ m, message_of_bytes (pe_content p) = Ok m → mi_msg_type (pm_get_info m) = "ViewChange") ∧
     ∃ vc, view_change_of_bytes (pe_content p) = Ok vc ∧ w = WViewChange vc)) as Hw.
  { intros w. unfold parse_wrapper. destruct (message_of_bytes _) as [m|].
    - case_decide as Ht.
      + destruct (view_change_of_bytes _) as [vc|]; naive_solver.
      + naive_solver.
    - destruct (view_change_of_bytes _) as [vc|]; naive_solver. }
  specialize (Hw (message r)). rewrite <- Hw. clear Hw.
  destruct (parse_wrapper _) as [w|].
  - split; [by intros [= <-]|]. destruct r. cbn. intros (_ & [= ->] & -> & -> & -> & ->). done.
  - split; [done|]. by intros (_ & ? & _).
Qed.

End messages.
