(* ===== verification/Totality.v ===== *)
(** * Peer messages do not crash the node

    Handling a message that carries a block wherever its type calls for one
    always returns, with or without an error: it does not panic and does not
    run out of fuel. *)

From S2P Require Import Prelude HashSet MessageType Wire Service Errors Messages.
From S2P Require Import Timing Config NodeState MessageLog Sys Handlers Node NodeFrames.
From S2P Require Import NodeInvariants Protocol Refinement Termination Safety Fixture.

(** [ends_in I m s]: run from [s], [m] returns and leaves [I]. *)
Definition ends_in {S A} (I : S → Prop) (m : SM S A) (s : S) : Prop :=
  ∃ a s', m s = (Done a, s') ∧ I s'.

Section ends_in.
Context {S : Type} (I : S → Prop).

Lemma ends_ret {A} (a : A) s : I s → ends_in I (mret a : SM S A) s.
Proof. intros Hs. by exists a, s. Qed.

Lemma ends_modify (f : S → S) s : I (f s) → ends_in I (sm_modify f) s.
Proof. intros Hs. by exists tt, (f s). Qed.

Lemma ends_bind {A B} (m : SM S A) (k : A → SM S B) s :
  ends_in I m s → (∀ a s', m s = (Done a, s') → I s' → ends_in I (k a) s') → ends_in I (m ≫= k) s.
Proof.
  intros (a & s' & Hm & Hs) Hk. unfold ends_in. rewrite (run_bind_done _ _ _ _ _ Hm). by apply Hk.
Qed.

Lemma ends_try {A B E} (m : SM S (Result A E)) (k : A → SM S (Result B E)) s :
  ends_in I m s → (∀ a s', m s = (Done (Ok a), s') → I s' → ends_in I (k a) s') → ends_in I (try_bind k m) s.
Proof.
  intros Hm Hk. apply ends_bind; [done|]. intros [a|e] s' Hr Hs; [by apply Hk|by apply ends_ret].
Qed.

Lemma ends_lift {A B} (o : Outcome A) (k : A → SM S B) s a :
  o = Done a → ends_in I (k a) s → ends_in I (sm_lift o ≫= k) s.
Proof. intros Ho Hk. unfold ends_in. by rewrite (run_lift_done _ _ _ _ Ho). Qed.

Lemma ends_eq {A} (m m' : SM S A) s : m s = m' s → ends_in I m' s → ends_in I m s.
Proof. unfold ends_in. by intros ->. Qed.
End ends_in.

(** ** Messages and logs with their blocks *)

(** [m] has a block unless its type is a view change. *)
Definition typed (m : ParsedMessage) : Prop :=
  mi_msg_type (info m) ≠ "ViewChange" → ∃ b, get_block m = Done b.

(** A message with its block, which has the property [Q] if it announces it. *)
Definition storable (Q : PbftBlock → Prop) (m : ParsedMessage) : Prop :=
  typed m ∧ ∀ b, msg_type_of m = BlockNew → get_block m = Done b → Q b.

(** A sized node with a view of at most [V], with storable messages in its log,
    messages with the property [P] in its backlog, and a working block with the
    property [Q]. *)
Record good (V : N) (P : ParsedMessage → Prop) (Q : PbftBlock → Prop) (s : Sys) : Prop := {
  good_sized : sized (pbft_state s);
  good_log m : m ∈ stored (msg_log s) → storable Q m;
  good_view : view (pbft_state s) ≤ V;
  good_backlog m : m ∈ backlog (msg_log s) → P m;
  good_working b : working_block (pbft_state s) = Some b → Q b
}.

(** A message that takes no node to a view above [V]. *)
Definition within (V : N) (m : ParsedMessage) : Prop := msg_type_of m = ViewChange → mi_view (info m) ≤ V.

Section totality.
Context `{Externals}.
Context (V : N) (P : ParsedMessage → Prop) (Q : PbftBlock → Prop).
Context (HP : ∀ m, msg_type_of m = PrePrepare → typed m → P m).
Implicit Types (s : Sys) (m : ParsedMessage).

#[local] Abbreviation good := (good V P Q).

Lemma typed_block m t : msg_type_of m = t → t ≠ ViewChange → t ≠ Unset → typed m → ∃ b, get_block m = Done b.
Proof.
  intros Ht Hv Hu Hm. apply Hm. unfold msg_type_of in Ht. apply message_type_of_str_inv in Ht as ->; [|done].
  by destruct t.
Qed.

Lemma typed_storable m : msg_type_of m ≠ BlockNew → typed m → storable Q m.
Proof. by intros Hne Ht; split. Qed.

Lemma good_typed s : good s → blocks_typed (stored (msg_log s)).
Proof. intros Hs m Hm. by apply (good_log _ _ _ _ Hs). Qed.

Lemma good_quorum s : good s → two_f_plus_one (st_f (pbft_state s)) = Done (2 * st_f (pbft_state s) + 1).
Proof. intros [[Ht Hl]]. apply two_f_plus_one_small. apply tolerant_f in Ht. lia. Qed.

Lemma good_primary s v : good s → ∃ p, get_primary_id (set_view v (pbft_state s)) = Done p.
Proof. intros [[Ht _]]. apply get_primary_id_done. by apply tolerant_nonempty. Qed.

Lemma good_state s s' :
  st_f (pbft_state s') = st_f (pbft_state s) → peer_ids (pbft_state s') = peer_ids (pbft_state s) →
  stored (msg_log s') = stored (msg_log s) → backlog (msg_log s') = backlog (msg_log s) →
  view (pbft_state s') ≤ V → working_block (pbft_state s') = working_block (pbft_state s) ∨ working_block (pbft_state s') = None →
  good s → good s'.
Proof.
  intros Hf Hp Hst Hb Hv Hw [Hs Hl _ Hbl Hwb]. split; rewrite ?Hst, ?Hb; auto.
  - revert Hs. unfold sized, tolerant. by rewrite Hf, Hp.
  - intros b. destruct Hw as [-> | ->]; [auto|done].
Qed.

Lemma good_stored m s : storable Q m → good s → good (stored_state m s).
Proof.
  intros Hm [Hs Hl Hv Hb Hw]. split; try done. unfold stored_state. cbn. rewrite stored_insert.
  intros x [->|Hx]%elem_of_store; [done|by apply Hl].
Qed.

Lemma good_add m s : storable Q m → good s → ends_in good (log_add_message m) s.
Proof.
  intros Hm Hs. unfold ends_in, log_add_message.
  pose proof (add_message_cases m (pbft_state s) (msg_log s)) as ->.
  case_decide; (eexists _, _; split; [done|]); [by apply good_stored|by destruct s].
Qed.

Lemma good_add_typed m s : msg_type_of m ≠ BlockNew → typed m → good s → ends_in good (log_add_message m) s.
Proof. intros. by apply good_add; [apply typed_storable|]. Qed.

(** ** Comparisons of blocks *)

Lemma any_same_block_exists m b ms :
  get_block m = Done b → (∀ x, x ∈ ms → ∃ bx, get_block x = Done bx) →
  any_o (λ x, same_block x m) ms = Done (existsb (λ x, bool_decide (get_block x = Done b)) ms).
Proof.
  intros Hb Hms. apply any_o_done.
  intros x Hx. unfold same_block. destruct (Hms x Hx) as [bx Hbx]. rewrite Hbx, Hb, !done_bind.
  f_equal. apply bool_decide_ext. split; congruence.
Qed.

Lemma any_same_block_done m b ms :
  get_block m = Done b → (∀ x, x ∈ ms → ∃ bx, get_block x = Done bx) →
  ∃ r, any_o (λ x, same_block x m) ms = Done r.
Proof. intros Hb Hms. eexists. by apply any_same_block_exists. Qed.

Lemma stored_block s m t seq v :
  good s → m ∈ messages (msg_log s) → has_type_seq_view t seq v m → t ≠ ViewChange → ∃ b, get_block m = Done b.
Proof. intros Hb%good_typed Hm Ht Hv. apply Hb; [exact Hm|by eapply has_type_seq_view_not_vc]. Qed.

Lemma check_prepared_done s i :
  good s → ∃ r, check_prepared (msg_log s) i (st_f (pbft_state s)) = Done r.
Proof.
  intros Hs. unfold check_prepared. destruct (get_one_msg _ _ _) as [m|] eqn:Hone; [|by eexists].
  apply get_one_msg_some in Hone as [Ht Hin]. destruct (stored_block _ _ _ _ _ Hs Hin Ht) as [b Hb]; [done|].
  rewrite good_quorum, done_bind by done. rewrite (log_has_required_msgs_block _ _ _ _ b); [by eexists|by apply good_typed|done..].
Qed.

Lemma check_committable_done s i :
  good s → ∃ r, check_committable (msg_log s) i (st_f (pbft_state s)) = Done r.
Proof.
  intros Hs. unfold check_committable. destruct (check_prepared_done s i Hs) as [[] Hp]; rewrite Hp, done_bind; [|by eexists].
  apply check_prepared_true in Hp as (q & b & m & Hq & Hone & Hb & _). rewrite Hone, Hq, done_bind.
  rewrite (log_has_required_msgs_block _ _ _ _ b); [by eexists|by apply good_typed|done..].
Qed.

(** ** The handlers *)

Section operations.
Context {A : Type} (I : Sys → Prop).

Lemma ends_get_state (k : PbftState → SM Sys A) s : ends_in I (k (pbft_state s)) s → ends_in I (get_state ≫= k) s.
Proof. done. Qed.
Lemma ends_get_log (k : PbftLog → SM Sys A) s : ends_in I (k (msg_log s)) s → ends_in I (get_log ≫= k) s.
Proof. done. Qed.
Lemma ends_switch p (k : () → SM Sys A) s :
  ends_in I (k tt) (set_state (switch_phase p (pbft_state s)).2 s) → ends_in I (state_switch_phase p ≫= k) s.
Proof. done. Qed.
Lemma ends_call {B} (answer : list ServiceCall → B) c (k : B → SM Sys A) s :
  ends_in I (k (answer (service s))) (set_service (service s ++ [c]) s) → ends_in I (with_service (call answer c) ≫= k) s.
Proof. done. Qed.
Lemma ends_modify_state f (k : () → SM Sys A) s :
  ends_in I (k tt) (set_state (f (pbft_state s)) s) → ends_in I (modify_state f ≫= k) s.
Proof. done. Qed.
End operations.

Lemma good_push m s : P m → good s → good (set_log (push_backlog m (msg_log s)) s).
Proof.
  intros Hm [? ? ? Hl ?]. split; try done. cbn. intros x [Hx|Hx%list_elem_of_singleton]%elem_of_app; [auto|by subst].
Qed.

Lemma good_call c s : good s → good (set_service (service s ++ [c]) s).
Proof. by intros []. Qed.

Lemma pre_prepare_total m s :
  msg_type_of m = PrePrepare → typed m → good s → ends_in good (pre_prepare m) s.
Proof.
  intros Ht Hm Hs. destruct (pre_prepare m s) as [o s'] eqn:Hrun.
  destruct (typed_block m _ Ht) as [b Hb]; [done..|].
  destruct (good_primary s (view (pbft_state s)) Hs) as [p Hp].
  assert (∃ r, o = Done r) as [r ->].
  { revert Hrun. unfold pre_prepare. rewrite run_get_state.
    replace (get_primary_id (pbft_state s)) with (Done p) by (rewrite <- Hp; by destruct s as [? ? []]).
    rewrite run_lift_bind. case_decide; [intros [= <- _]; by eexists|]. rewrite run_get_log.
    destruct (any_same_block_done m b (get_messages_of_type_seq (msg_log s) BlockNew (mi_seq_num (info m))))
      as [r Hr]; [done| |].
    { intros x [[Hx _] Hin]%elem_of_type_seq. apply (good_typed _ Hs); [exact Hin|]. by rewrite Hx. }
    rewrite Hr, run_lift_bind. destruct (negb r); [intros [= <- _]; by eexists|].
    assert (∃ c, (match get_one_msg (msg_log s) (info m) PrePrepare with
         | Some existing_msg =>
             existing ← sm_lift (get_block existing_msg);
             block ← sm_lift (get_block m);
             mret (if decide (existing ≠ block) then Err (BlockMismatch existing block) else Ok tt)
         | None => mret (Ok tt)
         end : NodeM ()) s = (Done c, s)) as [c Hc].
    { destruct (get_one_msg _ _ _) as [pp|] eqn:Hone; [|by eexists].
      apply get_one_msg_some in Hone as [Hpp Hin]. destruct (stored_block _ _ _ _ _ Hs Hin Hpp) as [b' Hb']; [done|].
      rewrite Hb', Hb. by eexists. }
    rewrite run_try, Hc. destruct c; [|intros [= <- _]; by eexists].
    rewrite run_add_message. case_decide; [|intros [= <- _]; by eexists].
    rewrite run_get_state. case_decide; intros [= <- _]; by eexists. }
  exists r, s'. split; [done|].
  apply pre_prepare_cases in Hrun as [[-> _]|(_ & _ & ->)]; [done|].
  assert (good (stored_state m s)) as Hst by by apply good_stored; [apply typed_storable; [by rewrite Ht|]|].
  unfold preparing_state. case_decide; [|done]. pose proof (good_view _ _ _ _ Hs) as Hv.
  eapply good_state; [..|exact Hst]; cbn; [..|done|done| |left];
    by destruct (switch_phase_cases Preparing (pbft_state s)) as [->|[_ ->]].
Qed.

Lemma good_switch p s : good s → good (set_state (switch_phase p (pbft_state s)).2 s).
Proof.
  intros Hs. pose proof (good_view _ _ _ _ Hs) as Hv. revert Hs.
  apply good_state; cbn; [..|done|done| |left]; by destruct (switch_phase_cases p (pbft_state s)) as [->|[_ ->]].
Qed.

Lemma guarded_total {A} (c : Prop) `{Decision c} (o : Outcome bool) (k : bool → NodeM A) s :
  (∃ r, o = Done r) → (∀ r, ends_in good (k r) s) →
  ends_in good (go ← (if decide c then sm_lift o else mret false); k go) s.
Proof. intros [r ->] Hk. case_decide; apply (Hk _). Qed.

Lemma prepare_arm_total m s :
  msg_type_of m = Prepare → typed m → good s → ends_in good (prepare_arm m) s.
Proof.
  intros Ht Hm Hs. destruct (typed_block m _ Ht) as [b Hb]; [done..|].
  apply ends_try; [by apply good_add_typed; [rewrite Ht|..]|]. intros _ s1 _ Hs1. apply ends_get_state, ends_get_log.
  apply guarded_total; [by apply check_prepared_done|]. intros []; [|by apply ends_ret].
  apply ends_get_state. case_decide; [|by apply ends_ret].
  apply ends_switch, (ends_lift _ _ _ _ b); [done|]. apply ends_call, ends_ret, good_call. by apply good_switch.
Qed.

Lemma commit_arm_total m s :
  msg_type_of m = Commit → typed m → good s → ends_in good (commit_arm m) s.
Proof.
  intros Ht Hm Hs. destruct (typed_block m _ Ht) as [b Hb]; [done..|].
  apply ends_try; [by apply good_add_typed; [rewrite Ht|..]|]. intros _ s1 _ Hs1. apply ends_get_state, ends_get_log.
  apply guarded_total; [by apply check_committable_done|]. intros []; [|by apply ends_ret].
  apply ends_get_state. case_decide; [|by apply ends_ret].
  apply (ends_lift _ _ _ _ b); [done|]. apply ends_call, ends_try; [by apply ends_ret, good_call|].
  intros _ s2 _ Hs2. apply ends_switch, ends_ret. by apply good_switch.
Qed.

Lemma view_change_total m s : mi_view (info m) ≤ V → good s → ends_in good (view_change m) s.
Proof.
  intros Hm Hs. assert (∃ b, enough_view_changes m s = Done b) as [[] Hb].
  { unfold enough_view_changes. rewrite good_quorum by done. rewrite done_bind, log_has_required_msgs_any. by eexists. }
  - destruct (good_primary s (mi_view (info m)) Hs) as [p Hp]. eexists _, _.
    split; [by apply view_change_run|]. by eapply good_state; [..|right|exact Hs].
  - eexists _, _. split; [by apply view_change_not_enough|done].
Qed.

(** ** Sending *)

(** What the arithmetic of a view change needs. *)
Definition proposable s : Prop :=
  mode (pbft_state s) = ViewChanging ∨
  1 ≤ seq_num (pbft_state s) ∧ view (pbft_state s) + 1 < two64 ∧ view (pbft_state s) + 1 ≤ V.

Context `{!CodecLaws}.

Lemma broadcast_total h n t b s :
  t ≠ ViewChange → (∀ m s, msg_type_of m = t → typed m → good s → ends_in good (h m) s) →
  good s → ends_in good (broadcast_pbft_message (broadcast_message h) n t b) s.
Proof.
  intros Ht Hh Hs. apply ends_get_state. cbv zeta. case_match; [by apply ends_ret|].
  set (m := mkPbftMessage (Some (make_msg_info t (view (pbft_state s)) n (st_id (pbft_state s)))) (Some b)).
  destruct (from_bytes_message m) as (bs & Hw & Hp); [by destruct t|].
  unfold make_msg_bytes. fold m. rewrite Hw. apply ends_call. rewrite Hp.
  apply ends_try; [by apply ends_ret, good_call|]. intros p s1 [= <- <-] Hs1. apply Hh; [by destruct t| |done].
  intros _. by eexists.
Qed.

Section sending.
Context (h : ParsedMessage → NodeM ()).
Context (Hh : ∀ m s, own_message m s → typed m → within V m → good s → ends_in good (h m) s).

Lemma broadcast_prepare_total n b s : good s → ends_in good (broadcast_pbft_message (broadcast_message h) n Prepare b) s.
Proof. apply broadcast_total; [done..|]. intros m s' Hm ? ?. apply Hh; [by left|done|intros ?; congruence|done]. Qed.

Lemma propose_total s : good s → proposable s → ends_in good (propose_view_change_with (broadcast_message h)) s.
Proof.
  intros Hs Hp. apply ends_get_state. case_decide as Hmode; [by apply ends_ret|].
  destruct Hp as [Hp|(Hn & Hv & HvV)]; [done|]. apply ends_modify_state.
  assert (good (set_state (set_mode ViewChanging (pbft_state s)) s)) as Hs1 by by destruct Hs.
  apply (ends_lift _ _ _ _ (view (pbft_state s) + 1)); [by apply u64_add_small|].
  apply (ends_lift _ _ _ _ (seq_num (pbft_state s) - 1)); [by apply u64_sub_small|].
  apply ends_get_log. apply ends_try; [by apply ends_ret|]. intros seal s2 [= Hseal <-] _.
  set (vc := mkPbftViewChange _ _). destruct (from_bytes_view_change vc) as (bs & Hw & Hp); [done|].
  rewrite Hw. apply ends_try; [by apply ends_ret|]. intros bs' s3 [= <- <-] _.
  apply ends_call. rewrite Hp. apply ends_try; [by apply ends_ret, good_call|]. intros p s4 [= <- <-] Hs4.
  apply Hh; [by right|by intros []|by intros _|done].
Qed.

Lemma on_peer_message_body_total m s :
  typed m → within V m → good s → (msg_type_of m = ViewChange → proposable s) → ends_in good (on_peer_message_body (broadcast_message h) m) s.
Proof.
  intros Hm Hin Hs Hprop. rewrite on_peer_message_body_arms. fold (msg_type_of m).
  destruct (msg_type_of m) eqn:Ht; try by apply ends_ret.
  - apply ends_bind; [by apply pre_prepare_total|]. intros r s1 _ Hs1. destruct r as [|e].
    + destruct (typed_block m _ Ht) as [b Hb]; [done..|]. apply (ends_lift _ _ _ _ b); [done|].
      by apply broadcast_prepare_total.
    + destruct e; try by apply ends_ret. apply ends_bind; [|by intros; apply ends_ret].
      apply ends_modify. by apply good_push; [apply HP|].
  - by apply prepare_arm_total.
  - by apply commit_arm_total.
  - apply ends_try; [by apply good_add_typed; [rewrite Ht|..]|]. intros a s1 Hadd Hs1.
    assert (proposable s1) as Hp1.
    { pose proof (add_message_state m s) as Hst. rewrite Hadd in Hst. cbn in Hst.
      unfold proposable. rewrite Hst. by apply Hprop. }
    apply ends_try.
    + apply ends_get_state. case_decide; [|by apply ends_ret]. apply ends_get_log.
      destruct (good_sized _ _ _ _ Hs1) as [Htol Hlen]. pose proof (tolerant_f _ Htol) as [? ?].
      apply (ends_lift _ _ _ _ (st_f (pbft_state s1) + 1)); [apply u64_add_small; lia|].
      eapply ends_lift; [apply log_has_required_msgs_any|].
      case_match; [|by apply ends_ret]. apply ends_try; [by apply propose_total|].
      intros _ s2 _ Hs2. by apply ends_ret.
    + intros stop s2 _ Hs2. destruct stop; [by apply ends_ret|]. apply view_change_total; [by apply Hin|done].
Qed.
End sending.

Lemma on_peer_message_total fuel m s :
  (2 ≤ fuel)%nat → typed m → within V m → good s → (msg_type_of m = ViewChange → proposable s) →
  ends_in good (on_peer_message fuel m) s.
Proof.
  intros Hfuel Hm Hin Hs Hprop. destruct fuel as [|[|fuel]]; [lia..|].
  eapply ends_eq; [by apply on_peer_message_fuel|]. apply on_peer_message_body_total; try done.
  intros m' s' Hown Hm' Hin' Hs'. apply on_peer_message_body_total; try done.
  - intros. by apply ends_ret.
  - destruct Hown as [->|[_ ?]]; [done|by left].
Qed.

Lemma propose_view_change_total fuel s :
  (2 ≤ fuel)%nat → good s → proposable s → ends_in good (propose_view_change fuel) s.
Proof.
  intros Hfuel Hs Hp. apply propose_total; [|done..]. intros m s' Hown Hm Hin Hs'.
  apply on_peer_message_total; try done. destruct Hown as [->|[_ ?]]; [done|by left].
Qed.
End totality.

Section returns.
Context `{Externals} `{!CodecLaws}.
Implicit Types (s : Sys) (m : ParsedMessage).

(** C34. The recursion through a node's own broadcasts is at most one call deep:
    with any fuel from 2 on, handling a message gives the same result and state,
    and does not run out of fuel. *)
Theorem self_sends_end fuel m s :
  (2 ≤ fuel)%nat →
  on_peer_message fuel m s = on_peer_message 2 m s ∧ (on_peer_message fuel m s).1 ≠ OutOfFuel.
Proof.
  intros Hf. destruct fuel as [|[|fuel]]; [lia..|]. rewrite !on_peer_message_fuel.
  split; [done|]. apply on_peer_message_flat_fuel.
Qed.

Lemma message_returns fuel m s :
  (2 ≤ fuel)%nat → typed m → sized (pbft_state s) → blocks_typed (stored (msg_log s)) →
  1 ≤ seq_num (pbft_state s) → view (pbft_state s) + 1 < two64 →
  ∃ r s', on_peer_message fuel m s = (Done r, s') ∧ blocks_typed (stored (msg_log s')).
Proof.
  intros Hfuel Hm Hs Hb Hn Hv. set (V := N.max (view (pbft_state s) + 1) (mi_view (info m))).
  destruct (on_peer_message_total V (λ _, True) (λ _, True) ltac:(done) fuel m s) as (r & s' & Hr & Hs'); try done.
  - intros _. lia.
  - split; try done; [|lia]. intros x Hx. split; [exact (Hb x Hx)|done].
  - right. lia.
  - exists r, s'. split; [done|]. by eapply good_typed.
Qed.

(** C15. Handling a message that has a block if its type has one returns: it
    neither panics nor runs out of fuel, from any state of a sized network
    whose stored messages are typed, and stored messages stay typed. *)
Theorem on_peer_message_returns fuel m s :
  (2 ≤ fuel)%nat → typed m → sized (pbft_state s) → blocks_typed (stored (msg_log s)) →
  1 ≤ seq_num (pbft_state s) → view (pbft_state s) + 1 < two64 →
  ∃ r s', on_peer_message fuel m s = (Done r, s') ∧ blocks_typed (stored (msg_log s')).
Proof. apply message_returns. Qed.

(** A comparison with a message without a block panics. *)
Lemma filter_same_block_panics m x ms :
  (∀ b, get_block x ≠ Done b) → x ∈ ms → ∃ reason, filter_o (λ y, same_block y m) ms = Panic reason.
Proof.
  intros Hx. induction ms as [|y ms IH]; [by intros Hin%elem_of_nil|]. cbn [filter_o].
  pose proof (same_block_unstuck y m) as Hns.
  intros [<-|Hin]%elem_of_cons.
  - assert (∃ r, same_block x m = Panic r) as [r ->]; [|by exists r].
    unfold same_block. pose proof (get_block_unstuck x) as Hnb.
    destruct (get_block x) as [b|r|] eqn:Hb; [by destruct (Hx b)|by exists r|done].
  - destruct (same_block y m) as [c|r|]; [|by exists r|done].
    destruct (IH Hin) as [r ->]. by exists r.
Qed.

(** C40. A message typed as a prepare but sent as a view change message crashes
    a node that has a pre-prepare of its height and view: it is stored, and the
    comparison of its block panics. *)
Theorem mistyped_prepare_panics fuel m s pp :
  msg_type_of m = Prepare → (∀ b, get_block m ≠ Done b) →
  mi_view (info m) = view (pbft_state s) → mi_seq_num (info m) = seq_num (pbft_state s) →
  pp ∈ messages (msg_log s) →
  has_type_seq_view PrePrepare (seq_num (pbft_state s)) (view (pbft_state s)) pp →
  2 * st_f (pbft_state s) + 1 < two64 →
  ∃ reason s', on_peer_message (S fuel) m s = (Panic reason, s').
Proof.
  intros Ht Hm Hv Hn Hpp Htpp Hf. cbn [on_peer_message]. rewrite on_peer_message_body_arms.
  fold (msg_type_of m). rewrite Ht. unfold prepare_arm. rewrite run_add_message.
  rewrite decide_True by by right. fold (stored_state m s). rewrite run_get_state, run_get_log.
  rewrite decide_True by done. unfold check_prepared.
  destruct (get_one_msg _ _ _) as [pp'|] eqn:Hone.
  - apply get_one_msg_some in Hone as [(_ & Hs' & Hv') _].
    change (st_f (pbft_state (stored_state m s))) with (st_f (pbft_state s)).
    rewrite two_f_plus_one_small, done_bind by done. unfold log_has_required_msgs.
    destruct (filter_same_block_panics pp' m (get_messages_of_type_seq_view (msg_log (stored_state m s)) Prepare
      (mi_seq_num (info pp')) (mi_view (info pp')))) as [reason Hr].
    + done.
    + apply elem_of_type_seq_view. split; [|apply elem_of_stored_state].
      rewrite Hs', Hv'. by apply msg_type_seq_view.
    + exists reason. eexists. rewrite run_bind. unfold sm_lift. by rewrite Hr.
  - exfalso. rewrite get_one_msg_none in Hone. apply (Hone pp).
    + unfold stored_state. cbn. apply elem_of_hs_insert. by right.
    + by rewrite Hn, Hv.
Qed.
End returns.
