(* ===== verification/EngineTheorems.v ===== *)
(** * Runs of the engine

    Iterations of the event loop refine the protocol of Protocol.v, keep the
    invariant of the node and persist its state. *)

From S2P Require Import Prelude HashSet MessageType Wire Service Errors Messages.
From S2P Require Import Timing Config NodeState MessageLog Sys Handlers Node NodeFrames.
From S2P Require Import Storage Engine NodeInvariants Protocol Refinement BlockCommit Votes Safety Fixture.

(** A step between two blocks, or to the next height. *)
Definition node_step (a a' : Protocol) : Prop := protocol_step a a' ∨ advance_step a a'.

Lemma node_steps_protocol a a' : rtc protocol_step a a' → rtc node_step a a'.
Proof. apply rtc_subrel. by left. Qed.

Section refinement.
Context `{Externals}.
Implicit Types (s : Sys) (b : Block).

(** An update whose handling catches up on a chain the node did not commit
    itself; its effect on the view is outside the protocol. *)
Definition catches_up (u : Result Update RecvTimeoutError) s : Prop :=
  match u with
  | Ok (UpdateBlockNew b) => catching_up b (pbft_state s)
  | _ => False
  end.

Lemma wf_on_block_new fuel b : respects (keeps (λ s, log_wf (msg_log s))) (on_block_new fuel b).
Proof.
  rewrite on_block_new_catchup.
  apply respects_on_block_new_with; [apply _|apply wf_effects|..].
  - intros s' n seal Hwf. by apply add_consensus_seal_wf.
  - by intros s' wb Hwf.
  - apply ce_catchup; [apply _|apply wf_commit_effects|]. intros s' m Hwf. by apply add_message_wf.
Qed.

Lemma wf_on_block_commit (b : BlockId) : respects (keeps (λ s, log_wf (msg_log s))) (on_block_commit b).
Proof. apply ce_on_block_commit; [apply _|apply wf_commit_effects]. Qed.

(** [handle_update] minus the two updates above. *)
Lemma respects_then {A B} (R : relation Sys) `{!PreOrder R} (m : SM Sys (Result A PbftError)) (r : Result B PbftError) s :
  R s (m s).2 → R s ((try_bind (λ _, mret r) m) s).2.
Proof. intros Hm. rewrite run_try. by destruct (m s) as [[[]| |] s']. Qed.

(** Every update but a committed block and one that is caught up on. *)
Section plain_updates.
Context (R : relation Sys) `{!PreOrder R} (HR : peer_effects R).
Context (Hseal : ∀ s (b : BlockId) n seal, R s (set_log (add_consensus_seal b n seal (msg_log s)) s)).
Context (Hwb : ∀ s wb, R s (set_state (set_working_block wb (pbft_state s)) s)).

Lemma respects_plain_update fuel u s :
  (∀ id, u = Ok (UpdateBlockValid id) → R s (on_block_valid fuel id s).2) →
  (∀ id, u ≠ Ok (UpdateBlockCommit id)) → ¬ catches_up u s → R s (handle_update fuel u s).2.
Proof.
  intros Hvalid Hnc Hcu. destruct u as [[b|id|id|id|m sender| | |]|[]]; cbn [handle_update]; try reflexivity.
  - apply respects_then; [apply _|].
    rewrite on_block_new_catchup, (on_block_new_no_catchup _ _ _ (mret (Ok tt))) by done.
    apply respects_on_block_new_with; auto. by apply respects_ret.
  - apply respects_then; [apply _|]. by apply Hvalid.
  - apply respects_then; [apply _|]. by apply respects_propose_view_change.
  - by destruct (Hnc id).
  - destruct (from_peer_message m false) as [p|]; [|done]. rewrite run_try_ret_ok.
    case_decide; [done|]. apply respects_then; [apply _|]. by apply respects_on_peer_message.
Qed.
End plain_updates.

Lemma wf_handle_update fuel u : respects (keeps (λ s, log_wf (msg_log s))) (handle_update fuel u).
Proof.
  intros s. destruct u as [[b|id|id|id|m sender| | |]|[]]; cbn [handle_update]; try reflexivity.
  - apply respects_then; [apply _|]. apply wf_on_block_new.
  - apply respects_then; [apply _|]. apply respects_on_block_valid; [apply _|apply wf_effects].
  - apply respects_then; [apply _|]. apply respects_propose_view_change; [apply _|apply wf_effects].
  - apply respects_bind; [apply _|apply wf_on_block_commit|]. intros ?. apply respects_ret. apply _.
  - destruct (from_peer_message m false) as [p|]; [|done]. rewrite run_try_ret_ok.
    case_decide; [done|]. apply respects_then; [apply _|].
    apply respects_on_peer_message; [apply _|apply wf_effects].
Qed.

Lemma respects_after_of_effects (R : relation Sys) `{!PreOrder R} `{FileSystem} `{Serde PbftState} fuel r :
  peer_effects R → respects (lifted R) (after_update fuel r).
Proof.
  intros HR. apply respects_after_update; [apply _|..].
  - apply respects_now. apply HR.
  - by apply respects_try_publish.
  - by apply respects_check_timeout.
  - by apply respects_propose_view_change.
  - by apply respects_retry_backlog.
Qed.
End refinement.

(** ** Iterations *)

Section iterations.
Context `{Externals} `{FileSystem} `{Serde PbftState}.
Implicit Types (e : Engine) (u : Result Update RecvTimeoutError).

(** Heights, views and the number of peers stay below 2^64 - 1. *)
Definition bounded s : Prop :=
  seq_num (pbft_state s) + 1 < two64 ∧ view (pbft_state s) + 1 < two64 ∧
  len (peer_ids (pbft_state s)) < two64.

Lemma block_commit_step id s s' :
  on_block_commit id s = (Done tt, s') → bounded s → node_ok s →
  rtc node_step (abs s) (abs s') ∧ node_ok s'.
Proof.
  intros Hrun (Hn & Hv & _) (Ht & Hok & Hwf).
  pose proof (on_block_commit_inv _ _ _ Hrun) as [[-> _]|(Hp & Hwb & _)]; [done|].
  pose proof (on_block_commit_advances _ _ _ Hrun Hp Hwb Hn Hv Hwf) as Hadv. split.
  { apply rtc_once. by right. }
  split; [exact (advance_step_tolerates _ _ Hadv Ht)|]. split; [by eapply advance_step_ok|].
  by eapply (respects_eq _ _ _ _ _ (wf_on_block_commit id) Hrun).
Qed.

Lemma refines_step_ok s s' :
  refines s s' → keeps (λ s, log_wf (msg_log s)) s s' → len (peer_ids (pbft_state s)) < two64 → node_ok s →
  rtc node_step (abs s) (abs s') ∧ node_ok s'.
Proof.
  intros Hr Hw Hl Hok. split; [|by eapply node_ok_refines].
  apply node_steps_protocol, Hr, sized_sane. by destruct Hok.
Qed.

Lemma block_commit_update u : {id | u = Ok (UpdateBlockCommit id)} + {∀ id, u ≠ Ok (UpdateBlockCommit id)}.
Proof. destruct u as [[]|]; (by left; eexists) || by right. Qed.

Lemma handle_update_step fuel u s r s' :
  handle_update fuel u s = (Done r, s') → ¬ catches_up u s → bounded s → node_ok s →
  rtc node_step (abs s) (abs s') ∧ node_ok s'.
Proof.
  intros Hrun Hcu Hb Hok. destruct (block_commit_update u) as [[id ->]|Hnc].
  - apply bind_done_inv in Hrun as ([] & s1 & Hrun & [= _ <-]). by eapply block_commit_step.
  - pose proof (respects_plain_update refines refines_effects ltac:(intros; by apply refines_same)
      ltac:(intros; by apply refines_same) fuel u s (λ id _, respects_on_block_valid refines refines_effects fuel id s) Hnc Hcu) as Hr.
    pose proof (wf_handle_update fuel u s) as Hw. rewrite Hrun in Hr, Hw.
    apply refines_step_ok; [done..|apply Hb|done].
Qed.

Lemma iteration_split fuel u e again e' :
  iteration fuel u e = (Done again, e') →
  ∃ r s, handle_update fuel u (sys_of e) = (Done r, s) ∧
    ∀ (R : relation Sys), PreOrder R → respects (lifted R) (after_update fuel r) → R s (sys_of e').
Proof.
  intros (e1 & fs & Hbody & -> & _)%with_guard_inv. change (sys_of (set_files fs e1)) with (sys_of e1).
  rewrite iteration_body_after in Hbody. apply bind_done_inv in Hbody as (r & e2 & Hupd & Hrest).
  unfold with_state, zoom in Hupd. destruct (handle_update fuel u (sys_of e)) as [o s] eqn:Hh.
  injection Hupd as -> <-. exists r, s. split; [done|]. intros R HP HR.
  pose proof (respects_eq _ _ _ _ _ HR Hrest) as Hr. unfold lifted in Hr. by rewrite sys_of_put in Hr.
Qed.

Lemma iteration_inv fuel u e again e' :
  iteration fuel u e = (Done again, e') →
  ∃ r s, handle_update fuel u (sys_of e) = (Done r, s) ∧
    ∀ (R : relation Sys), PreOrder R → peer_effects R → R s (sys_of e').
Proof.
  intros (r & s & Hh & HR)%iteration_split. exists r, s. split; [done|]. intros R HP Hpe.
  by apply HR, respects_after_of_effects.
Qed.

Lemma iteration_step fuel u e again e' :
  iteration fuel u e = (Done again, e') →
  ¬ catches_up u (sys_of e) → bounded (sys_of e) → len (peer_ids (pbft_state (sys_of e'))) < two64 →
  node_ok (sys_of e) →
  rtc node_step (abs (sys_of e)) (abs (sys_of e')) ∧ node_ok (sys_of e').
Proof.
  intros (r & s & Hupd & HR)%iteration_inv Hcu Hb Hl Hok.
  assert (peer_ids (pbft_state s) = peer_ids (pbft_state (sys_of e'))) as Hpeers.
  { exact (f_equal (λ h : N * list PeerId * N, h.1.2) (HR _ _ height_effects)). }
  destruct (handle_update_step _ _ _ _ _ Hupd Hcu Hb Hok) as [Hsteps Hok'].
  rewrite <- Hpeers in Hl.
  destruct (refines_step_ok _ _ (HR _ _ refines_effects) (HR _ _ wf_effects) Hl Hok') as [Hsteps' Hok''].
  split; [by etrans|done].
Qed.

(** Votes survive an iteration. *)
Lemma iteration_votes `{!CodecLaws} fuel u e again e' :
  iteration fuel u e = (Done again, e') →
  ¬ catches_up u (sys_of e) → bounded (sys_of e) → node_ok (sys_of e) →
  votes_good (sys_of e) → votes_good (sys_of e').
Proof.
  intros (r & s & Hupd & HR)%iteration_inv Hcu (Hn & Hv & _) (_ & _ & Hwf) Hvotes.
  apply (HR _ _ votes_effects). destruct (block_commit_update u) as [[id ->]|Hnc].
  - apply bind_done_inv in Hupd as ([] & s1 & Hrun & [= _ <-]).
    pose proof (on_block_commit_inv _ _ _ Hrun) as [[-> _]|(Hp & Hwb & _)]; [done|].
    eapply votes_good_advance; [exact Hrun| |exact Hvotes]. by eapply on_block_commit_advances.
  - pose proof (respects_plain_update (keeps votes_good) votes_effects) as Hpl.
    specialize (Hpl ltac:(intros; by apply votes_good_same) ltac:(intros; by apply votes_good_same) fuel u (sys_of e)
      (λ id _, respects_on_block_valid _ votes_effects fuel id (sys_of e)) Hnc Hcu).
    rewrite Hupd in Hpl. by apply Hpl.
Qed.

(** Engine states reached by iterations that continue, without catching up. *)
Inductive reachable (fuel : nat) (e0 : Engine) : Engine → Prop :=
| reachable_start : reachable fuel e0 e0
| reachable_iteration e u e' :
    reachable fuel e0 e → iteration fuel u e = (Done true, e') →
    ¬ catches_up u (sys_of e) → bounded (sys_of e) → bounded (sys_of e') →
    reachable fuel e0 e'.

Lemma reachable_ok fuel e0 e :
  node_ok (sys_of e0) → reachable fuel e0 e →
  node_ok (sys_of e) ∧ rtc node_step (abs (sys_of e0)) (abs (sys_of e)).
Proof.
  intros Hstart. induction 1 as [|e u e' _ [Hok Hsteps] Hit Hcu Hb (_ & _ & Hl)]; [done|].
  destruct (iteration_step _ _ _ _ _ Hit Hcu Hb Hl Hok) as [Hsteps' Hok'].
  split; [done|by etrans].
Qed.

Lemma reachable_votes `{!CodecLaws} fuel e0 e :
  node_ok (sys_of e0) → votes_good (sys_of e0) → reachable fuel e0 e → votes_good (sys_of e).
Proof.
  intros Hok Hv. induction 1 as [|e u e' Hreach IH Hit Hcu Hb _]; [done|].
  apply reachable_ok in Hreach as [Hok' _]; [|done]. by eapply iteration_votes.
Qed.

(** C12. Every state the engine reaches without catching up satisfies the
    node's invariant and is connected to the first one by protocol steps and
    advances to the next height. *)
Theorem reachable_refines fuel e0 e :
  node_ok (sys_of e0) → reachable fuel e0 e →
  node_ok (sys_of e) ∧ rtc node_step (abs (sys_of e0)) (abs (sys_of e)).
Proof. apply reachable_ok. Qed.

(** ** Persistence *)

(** What a node's methods and the tickers leave to the guard. *)
Definition durable e : option string * Files := (storage_path (eng_state e), eng_files e).

Lemma durable_with_state {A} (m : SM Sys A) : respects (frame durable) (with_state m).
Proof.
  intros e. unfold frame, durable, with_state, zoom. destruct (m (sys_of e)) as [o s].
  cbn [snd put_sys eng_state eng_files]. by rewrite (storage_path_put (St:=AnyStorage)).
Qed.

#[local] Hint Resolve durable_with_state : respects.

Lemma durable_modify f : (∀ e, durable (f e) = durable e) → respects (frame durable) (sm_modify f).
Proof. intros Hf. apply respects_modify. intros e. by unfold frame. Qed.

Lemma durable_iteration_body fuel u : respects (frame durable) (iteration_body fuel u).
Proof.
  assert (∀ l err, respects (frame durable) (sm_modify (log_error l err))) by (intros; by apply durable_modify).
  assert (∀ t, respects (frame durable) (sm_modify (set_working t))) by (intros; by apply durable_modify).
  assert (∀ t, respects (frame durable) (sm_modify (set_backlog_ticker t))) by (intros; by apply durable_modify).
  assert (∀ r, respects (frame durable) (handle_pbft_result r)) by (intros; unfold handle_pbft_result; solve_respects).
  assert (respects (frame durable) engine_now) by apply durable_with_state.
  unfold iteration_body, tick, working_callback, backlog_callback. solve_respects.
Qed.

(** C31. An iteration of the loop that ends normally has written the state it
    leaves to the file of the storage, if it has one, and no other file. *)
Theorem iteration_persists fuel u e again e' :
  iteration fuel u e = (Done again, e') →
  match storage_path (eng_state e) with
  | Some path => ∃ j, to_json (pbft_state (sys_of e')) = Ok j ∧ eng_files e' = <[path := j]> (eng_files e)
  | None => eng_files e' = eng_files e
  end.
Proof.
  intros (e1 & fs & Hbody & -> & Hfs)%with_guard_inv.
  pose proof (respects_eq _ _ _ _ _ (durable_iteration_body fuel u) Hbody) as Hd.
  assert (storage_path (eng_state e) = storage_path (eng_state e1)) as -> by exact (f_equal fst Hd).
  assert (eng_files e = eng_files e1) as -> by exact (f_equal snd Hd). exact Hfs.
Qed.
End iterations.

(** ** Updates *)

Section updates.
Context `{Externals} `{FileSystem} `{Serde PbftState}.

(** C32. A peer message reaches the node only when its content has the hash its
    header signs and parses, and its sender is the signer it names; otherwise
    the update is an error and the node is untouched. *)
Theorem unauthenticated_messages_are_dropped fuel p sender s :
  (sha512 (pe_content p) ≠ ph_content_sha512 (pe_header p) ∨
   (∀ m, from_peer_message p false = Ok m → mi_signer_id (info m) ≠ sender)) →
  ∃ e, handle_update fuel (Ok (UpdatePeerMessage p sender)) s = (Done (Err e), s).
Proof.
  intros Hbad. cbn [handle_update]. destruct (from_peer_message p false) as [m|e] eqn:Hm.
  - rewrite run_try_ret_ok. destruct Hbad as [Hsha|Hsig].
    + exfalso. apply Hsha, verify_sha512_ok. unfold from_peer_message in Hm.
      by destruct (verify_sha512 _ _) as [[]|].
    + rewrite decide_True by by apply Hsig. by eexists.
  - rewrite run_try_ret_err. by eexists.
Qed.

(** The loop ends on a shutdown or a lost validator and only then; a
    timeout or a peer coming or going leaves the node alone. *)
Theorem loop_ends_on_shutdown fuel u s again s' :
  handle_update fuel u s = (Done (Ok again), s') →
  (again = false ↔ u = Ok UpdateShutdown ∨ u = Err RecvDisconnected) ∧
  (again = false → s' = s) ∧
  ∀ t p, handle_update fuel (Err RecvTimeout) t = (Done (Err TimeoutError), t) ∧
         handle_update fuel (Ok (UpdatePeerConnected p)) t = (Done (Ok true), t) ∧
         handle_update fuel (Ok (UpdatePeerDisconnected p)) t = (Done (Ok true), t).
Proof.
  assert (∀ m, (try_bind (λ _ : (), mret (Ok true)) m : NodeM bool) s = (Done (Ok again), s') → again = true) as Htry.
  { intros m. rewrite run_try. destruct (m s) as [[[[]|]| |] s1]; [|done..]. by intros [= <- _]. }
  intros Hrun. assert ((u = Ok UpdateShutdown ∨ u = Err RecvDisconnected) ∧ again = false ∧ s' = s ∨
    ¬ (u = Ok UpdateShutdown ∨ u = Err RecvDisconnected) ∧ again = true) as Hcases.
  { destruct u as [[b|id|id|id|p sender| | |]|[]]; cbn [handle_update] in Hrun.
    - right. split; [by intros [|]|by eapply Htry].
    - right. split; [by intros [|]|by eapply Htry].
    - right. split; [by intros [|]|by eapply Htry].
    - right. split; [by intros [|]|]. apply bind_done_inv in Hrun as ([] & s1 & _ & Hrun). by injection Hrun as <- _.
    - right. split; [by intros [|]|]. destruct (from_peer_message p false) as [m|]; [|done].
      rewrite run_try_ret_ok in Hrun. revert Hrun. case_decide; [done|]. apply Htry.
    - left. injection Hrun as <- <-. split; [by left|done].
    - right. split; [by intros [|]|]. by injection Hrun as <- _.
    - right. split; [by intros [|]|]. by injection Hrun as <- _.
    - done.
    - left. injection Hrun as <- <-. split; [by right|done]. }
  destruct Hcases as [(Hu & -> & ->)|(Hu & ->)]; split_and!; try done.
Qed.
End updates.

(** ** Starting and restarting *)

Lemma after_plus_disk path : after_plus ("disk+" +:+ path) = Some path.
Proof. done. Qed.

Section restart.
Context {S T : Type} `{FileSystem} `{Serde T} `{!SerdeLaws T}.
Context (get_files : S → Files) (put_files : Files → S → S).

(** A disk storage opened on a file that a write guard of another one has
    written gives the stored value back, up to the precision the format keeps,
    without evaluating the default or touching the file. *)
Theorem disk_storage_reopens path (st : DiskStorage T) fs (default : SM S T) s :
  disk_file st = path → disk_drop st fs = (Done tt, get_files s) →
  open_fails (get_files s) path = false → read_error (get_files s) path = None →
  get_storage get_files put_files ("disk+" +:+ path) default s =
  (Done (Ok (OnDisk (mkDiskStorage (reloaded (disk_data st)) path))), s).
Proof.
  intros Hp (j & Hj & Hfs)%disk_drop_inv Ho Hr. rewrite Hp in Hfs. unfold get_storage.
  rewrite decide_False by done. change (String.prefix "disk" ("disk+" +:+ path)) with true. cbv match.
  rewrite after_plus_disk.
  rewrite (run_bind_done _ _ _ _ _ (from_path_stored get_files put_files path default s (disk_data st) j
             ltac:(by rewrite Hfs, lookup_insert_eq) Hj Ho Hr)).
  done.
Qed.

End restart.

Section starting.
Context `{Externals} `{FileSystem} `{Serde PbftState}.

Lemma load_config_memory b h config h' :
  load_pbft_config b h = (Done config, h') →
  cfg_storage config = "memory" ∧ h' = h ++ [GetSettings b config_keys].
Proof.
  unfold load_pbft_config. intros (r & h1 & [= <- <-] & Hrun)%bind_done_inv.
  destruct (on_get_settings _ _ _) as [settings|]; [|done]. apply lift_done_inv in Hrun as [Hc ->].
  split; [|done]. revert Hc. unfold config_of_settings.
  destruct (get_peers_from_settings settings) as [peers| |]; [|done..]. rewrite done_bind.
  case_bool_decide; [done|]. by intros [= <-].
Qed.

Lemma state_new_done now i n config st :
  state_new now i n config = Done st → n + 1 < two64 →
  tolerant st ∧ role st = role_in (abs (mkSys [] (log_new config) st 0)) 0 ∧
  seq_num st = n + 1 ∧ view st = 0 ∧ phase st = PrePreparing ∧ mode st = Normal ∧ working_block st = None ∧
  st_id st = i.
Proof.
  unfold state_new. intros Hst Hn. destruct (max_faulty _) as [f| |] eqn:Hf; [|done..].
  rewrite done_bind in Hst. case_bool_decide as Hf0; [done|]. rewrite u64_add_small, done_bind in Hst by done.
  destruct (cfg_peers config) as [|p ps] eqn:Hp; [done|]. injection Hst as <-. split_and!; try done.
  - apply (max_faulty_tolerates (p :: ps)); done.
  - unfold role_in, primary_of. cbn -[N.modulo lookup]. rewrite N.Div0.mod_0_l.
    change ((p :: ps) !! N.to_nat 0) with (Some p). case_decide; case_decide; congruence.
Qed.

Lemma start_engine_inv i head w e :
  start_engine i head w = (Done tt, Some e) → bk_block_num head + 1 < two64 →
  node_ok (sys_of e) ∧ seq_num (pbft_state (sys_of e)) = bk_block_num head + 1 ∧
  view (pbft_state (sys_of e)) = 0 ∧ phase (pbft_state (sys_of e)) = PrePreparing ∧
  timeout_state (faulty_primary_timeout (pbft_state (sys_of e))) = Active ∧
  stored (msg_log (sys_of e)) = [] ∧
  (∃ init, eng_service e = w_service w ++ GetSettings (bk_block_id head) config_keys :: init ∧
           (init = [] ∨ init = [InitializeBlock None])) ∧
  storage_path (eng_state e) = None ∧ eng_files e = w_files w ∧
  st_id (pbft_state (sys_of e)) = i ∧ backlog (msg_log (sys_of e)) = [].
Proof.
  unfold start_engine. intros Hrun Hn.
  destruct (load_engine i head w) as [[e0| |] w0] eqn:Hload; [|done..].
  unfold load_engine in Hload. apply bind_done_inv in Hload as (config & w1 & Hconf & Hload).
  unfold zoom in Hconf. destruct (load_pbft_config _ _) as [[config'| |] h1] eqn:Hc; [|done..].
  injection Hconf as -> <-. apply load_config_memory in Hc as [Hmem ->].
  apply bind_done_inv in Hload as (loaded & w2 & Hget & Hload).
  unfold get_storage in Hget. rewrite decide_True in Hget by done.
  apply bind_done_inv in Hget as (st & w3 & Hnew & [= <- <-]).
  unfold mem_storage_new in Hnew. apply bind_done_inv in Hnew as (st0 & w4 & Hdef & [= <- <-]).
  unfold default_state in Hdef. apply bind_done_inv in Hdef as (t & w5 & [= <- <-] & [Hst ->]%lift_done_inv).
  destruct (state_new_done _ _ _ _ _ Hst Hn) as (Htol & Hrole & Hseq & Hview & Hphase & Hmode & Hwb & Hid).
  apply bind_done_inv in Hload as (t1 & w6 & [= <- <-] & Hload).
  apply bind_done_inv in Hload as (t2 & w7 & [= <- <-] & Hload).
  apply bind_done_inv in Hload as (log & w8 & Hnode & Hload). unfold zoom in Hnode.
  destruct (node_new _ _ _) as [[log'| |] h2] eqn:Hnn; [|done..]. injection Hnode as -> <-.
  assert (log = log_new config ∧ ∃ init, h2 = (w_service w ++ [GetSettings (bk_block_id head) config_keys]) ++ init ∧
            (init = [] ∨ init = [InitializeBlock None])) as [-> (init & -> & Hinit)].
  { unfold node_new in Hnn. apply bind_done_inv in Hnn as ([] & h3 & Hinit & [= <- <-]). split; [done|].
    destruct (is_primary _); [apply bind_done_inv in Hinit as (? & ? & [= <- <-] & [= <-])|injection Hinit as <-].
    - exists [InitializeBlock None]. by split; [|right].
    - exists []. split; [by rewrite app_nil_r|by left]. }
  apply bind_done_inv in Hload as (w9 & w10 & [= <- <-] & [= <- <-]).
  unfold with_guard, with_state, zoom in Hrun. cbn in Hrun. injection Hrun as <-.
  rewrite <- app_assoc. cbn. split_and!; try done; [|by exists init].
  split; [done|]. split; [|split; apply hs_new_wf].
  split; [by unfold phase_backed; cbn; rewrite Hphase|]. split; [|by cbn; rewrite Hview].
  intros m m' ? ? Hm. by apply elem_of_nil in Hm.
Qed.

(** C33. Starting the engine, when it succeeds, leaves a node that satisfies the
    invariant, at the height after the head, in view 0, with an empty log and a
    running timer; nothing is committed, and no file is read or written,
    because the configuration always selects the memory storage. *)
Theorem start_engine_ok i head w e :
  start_engine i head w = (Done tt, Some e) → bk_block_num head + 1 < two64 →
  node_ok (sys_of e) ∧ seq_num (pbft_state (sys_of e)) = bk_block_num head + 1 ∧
  view (pbft_state (sys_of e)) = 0 ∧ phase (pbft_state (sys_of e)) = PrePreparing ∧
  timeout_state (faulty_primary_timeout (pbft_state (sys_of e))) = Active ∧
  stored (msg_log (sys_of e)) = [] ∧ committed (eng_service e) = committed (w_service w) ∧
  storage_path (eng_state e) = None ∧ eng_files e = w_files w.
Proof.
  intros Hrun Hn. destruct (start_engine_inv _ _ _ _ Hrun Hn) as (? & ? & ? & ? & ? & ? & (init & Hs & Hinit) & ? & ? & _).
  split_and!; try done. rewrite Hs. unfold committed. rewrite omap_app.
  by destruct Hinit as [-> | ->]; cbn; rewrite app_nil_r.
Qed.

(** A fresh node has cast no votes. *)
Lemma start_engine_votes i head w e :
  start_engine i head w = (Done tt, Some e) → bk_block_num head + 1 < two64 → w_service w = [] →
  node_ok (sys_of e) ∧ votes_good (sys_of e).
Proof.
  intros Hrun Hn Hw. destruct (start_engine_inv _ _ _ _ Hrun Hn) as (Hok & _ & _ & _ & _ & Hlog & (init & Hs & Hinit) & _).
  split; [done|]. unfold votes_good. rewrite Hlog. change (service (sys_of e)) with (eng_service e).
  rewrite Hs, Hw. destruct Hinit as [-> | ->]; apply votes_ok_start.
Qed.
End starting.
