(* ===== verification/RoundSteps.v ===== *)
(** * A round, iteration by iteration

    A peer that has joined a round, having accepted the pre-prepare of its
    working block and sent its prepare, stays in it while its engine handles
    votes and the answers of its validator: the tickers have nothing to do. *)

From S2P Require Import Prelude HashSet MessageType Wire Service Errors Messages.
From S2P Require Import Timing Config NodeState MessageLog Sys Handlers Node NodeFrames.
From S2P Require Import Storage Engine NodeInvariants Protocol Refinement Safety EngineTheorems NodeTheorems Totality Progress.

(** ** What the tickers do *)

Section tickers.
Context `{Externals}.
Implicit Types (s : Sys).

(** The clock is only ever read again. *)
Definition ticks_le s s' : Prop := (ticks s ≤ ticks s')%nat.

#[export] Instance ticks_le_preorder : PreOrder ticks_le.
Proof. split; unfold ticks_le; [intros s; lia|intros s1 s2 s3; lia]. Qed.

Lemma ticks_effects : effects ticks_le.
Proof.
  assert (∀ s s', ticks s' = ticks s → ticks_le s s') as Hsame by (unfold ticks_le; lia).
  assert (∀ s, ticks_le s (mkSys (service s) (msg_log s) (pbft_state s) (S (ticks s)))) as Hnow by (intros s; unfold ticks_le; cbn; lia).
  apply effects_of_plain; intros; auto; try apply _.
  apply respects_view_change; auto. apply _.
Qed.

(** The timer does not expire at the first [k] readings of the clock. *)
Definition in_time (k : nat) (t : Timeout) : Prop :=
  timeout_state t = Inactive ∨
  timeout_state t = Active ∧ ∀ i, (i < k)%nat → clock_at i ≤ timeout_start t + timeout_duration t.

(** Nothing to publish, to expire or to retry. *)
Definition calm (k : nat) s : Prop :=
  (phase (pbft_state s) ≠ PrePreparing ∨ role (pbft_state s) ≠ Primary) ∧
  in_time k (faulty_primary_timeout (pbft_state s)) ∧ backlog (msg_log s) = [].

(** Equal up to the readings of the clock. *)
Definition same_node s s' : Prop :=
  service s' = service s ∧ msg_log s' = msg_log s ∧ pbft_state s' = pbft_state s.

Definition idles s s' : Prop := ticks_le s s' ∧ (calm (ticks s') s → same_node s s').

Lemma calm_le k k' s : (k' ≤ k)%nat → calm k s → calm k' s.
Proof. intros Hk (Hp & [Ht|[Ht Hc]] & Hb); split_and!; try done; [by left|]. right. split; [done|]. intros i Hi. apply Hc. lia. Qed.

Lemma calm_same k s s' : same_node s s' → calm k s → calm k s'.
Proof. intros (_ & Hl & Hst). unfold calm. by rewrite Hl, Hst. Qed.

Lemma same_node_trans s1 s2 s3 : same_node s1 s2 → same_node s2 s3 → same_node s1 s3.
Proof. unfold same_node. intuition congruence. Qed.

#[export] Instance idles_preorder : PreOrder idles.
Proof.
  split; [by intros s|]. intros s1 s2 s3 [Ht12 H12] [Ht23 H23]. split; [by etrans|]. intros Hc.
  assert (same_node s1 s2) as Hs by (apply H12; eapply calm_le; [exact Ht23|done]).
  eapply same_node_trans; [exact Hs|]. apply H23. by eapply calm_same.
Qed.

Lemma try_publish_calm k s : calm k s → try_publish s = (Done (Ok tt), s).
Proof.
  intros (Hp & _ & _). unfold try_publish, is_primary. rewrite run_get_state.
  destruct Hp as [Hp|Hp]; [rewrite (bool_decide_true (_ ≠ _)) by done; by rewrite orb_true_r|by rewrite (bool_decide_false (_ = _))].
Qed.

Lemma retry_backlog_calm fuel k s : calm k s → retry_backlog fuel s = (Done (Ok tt), s).
Proof.
  intros (_ & _ & Hb). unfold retry_backlog. rewrite run_get_log. unfold pop_backlog. rewrite Hb.
  rewrite run_modify_log. by destruct s.
Qed.

Lemma check_timeout_calm s :
  ∃ expired s', check_faulty_primary_timeout_expired s = (Done expired, s') ∧
    (calm (ticks s') s → expired = false ∧ same_node s s').
Proof.
  unfold check_faulty_primary_timeout_expired. rewrite run_get_state. case_decide as Ha.
  - rewrite run_now, run_get_state. cbn [pbft_state].
    destruct (check_expired (clock_at (ticks s)) (faulty_primary_timeout (pbft_state s))) as [x t] eqn:Hx. rewrite run_modify_state.
    eexists _, _. split; [done|]. cbn [ticks set_state]. intros (_ & [Ht|[_ Ht]] & _); [congruence|].
    specialize (Ht (ticks s) ltac:(lia)). unfold check_expired, instant_sub in Hx. rewrite bool_decide_false, Ha in Hx by lia.
    injection Hx as <- <-. split; [done|]. by destruct s as [? ? [] ?].
  - rewrite run_bind. cbn [mret sm_ret]. rewrite run_get_state.
    destruct (check_expired 0 (faulty_primary_timeout (pbft_state s))) as [x t] eqn:Hx. rewrite run_modify_state.
    eexists _, _. split; [done|]. intros (_ & [Ht|[? _]] & _); [|done]. unfold check_expired in Hx.
    rewrite bool_decide_false, Ht in Hx by (by rewrite Ht; intros [? _]). injection Hx as <- <-. split; [done|].
    by destruct s as [? ? [] ?].
Qed.

Context `{FileSystem} `{Serde PbftState}.

Lemma run_with_state {A B} (m : SM Sys A) (k : A → SM Engine B) e o s :
  m (sys_of e) = (Done o, s) → (with_state m ≫= k) e = k o (put_sys s e).
Proof. intros Hm. rewrite run_bind. unfold with_state, zoom. by rewrite Hm. Qed.

Lemma idles_working fuel : respects (lifted idles) (working_callback fuel).
Proof.
  pose proof (eff_peer _ ticks_effects) as HT. pose proof (respects_propose_view_change _ HT fuel) as Hpropose.
  assert (respects (lifted ticks_le) (working_callback fuel)) as Hmono.
  { apply respects_working_callback; [|apply respects_try_publish|apply respects_check_timeout|]; done || apply _. }
  intros e. split; [apply Hmono|]. intros Hc.
  destruct (check_timeout_calm (sys_of e)) as (x & s' & Hx & Hcalm).
  set (e1 := put_sys s' (put_sys (sys_of e) e)).
  assert (working_callback fuel e =
    (if x then (r ← with_state (propose_view_change fuel); handle_pbft_result r) else mret tt) e1) as Hrun.
  { unfold working_callback. rewrite (run_with_state _ _ _ _ _ (try_publish_calm _ _ Hc)), run_ret_bind.
    rewrite (run_with_state _ _ _ x s'); [done|]. by rewrite sys_of_put. }
  rewrite Hrun in Hc |- *. assert (sys_of e1 = s') as He1 by apply sys_of_put.
  destruct Hcalm as [-> Hs].
  { eapply calm_le; [|exact Hc]. rewrite <- He1. destruct x; [|done].
    assert (respects (lifted ticks_le) (r ← with_state (propose_view_change fuel); handle_pbft_result r)) as Hk; [|apply (Hk e1)].
    pose proof (respects_with_state _ _ Hpropose). pose proof (respects_handle_result ticks_le). solve_respects. }
  cbn. by rewrite He1.
Qed.

Lemma idles_backlog fuel : respects (lifted idles) (backlog_callback fuel).
Proof.
  pose proof (eff_peer _ ticks_effects) as HT.
  assert (respects (lifted ticks_le) (backlog_callback fuel)) as Hmono.
  { apply respects_backlog_callback, respects_retry_backlog; done || apply _. }
  intros e. split; [apply Hmono|]. intros Hc. unfold backlog_callback.
  rewrite (run_with_state _ _ _ _ _ (retry_backlog_calm fuel _ _ Hc)). cbn. by rewrite sys_of_put.
Qed.

(** An iteration that leaves the node calm does nothing after the update. *)
Lemma iteration_calm fuel u e again e' :
  iteration fuel u e = (Done again, e') →
  ∃ r s, handle_update fuel u (sys_of e) = (Done r, s) ∧ (calm (eng_ticks e') s → same_node s (sys_of e')).
Proof.
  intros (r & s & Hu & HR)%iteration_split. exists r, s. split; [done|]. apply (HR idles); [apply _|].
  apply respects_after_callbacks; [apply _| |apply idles_working|apply idles_backlog].
  intros s0. split; [cbn; unfold ticks_le; cbn; lia|done].
Qed.
End tickers.

(** ** Joined peers *)

Section joined.
Context `{Externals} `{!CodecLaws}.
Context (f n v : N) (b : PbftBlock).
Context (Haccept : ∀ h, on_commit_block h (pb_block_id b) = Ok tt).
Implicit Types (s : Sys) (m : ParsedMessage) (u : Result Update RecvTimeoutError).

Record joined s : Prop := {
  jn_round : in_round f n v b s;
  jn_time : on_time f n v b s;
  jn_timer : timeout_state (faulty_primary_timeout (pbft_state s)) = Inactive;
  jn_backlog : backlog (msg_log s) = [];
  jn_prepare : voted n v b Prepare s;
  jn_commit : (3 ≤ progress s)%nat → voted n v b Commit s
}.

Lemma joined_forward s s' :
  in_round f n v b s' → on_time f n v b s' → forward s s' →
  ((3 ≤ progress s')%nat → (3 ≤ progress s)%nat ∨ voted n v b Commit s') → joined s → joined s'.
Proof.
  intros Hr Ht Hf Hc [_ _ Htm Hb Hp Hcom]. split; [done..| | | |].
  - by rewrite (fw_timer s s' Hf).
  - by rewrite (fw_backlog s s' Hf).
  - by eapply voted_forward.
  - intros H3. destruct (Hc H3) as [?|?]; [|done]. eapply voted_forward; [done|auto].
Qed.

Lemma joined_same s s' : same_node s s' → joined s → joined s'.
Proof.
  intros (Hs & Hl & Hst) Hj. destruct s as [h l st t], s' as [h' l' st' t']. cbn in *. subst.
  apply (joined_forward (mkSys h l st t)); [by destruct (jn_round _ Hj)|exact (jn_time _ Hj)|by split|by left|exact Hj].
Qed.

(** ** Waiting peers

    A backup in the first phase, at the height and view of the round, that has
    seen its block announced, but no pre-prepare. *)
Record waits s : Prop := {
  wt_sized : sized (pbft_state s);
  wt_faults : st_f (pbft_state s) = f;
  wt_typed : blocks_typed (stored (msg_log s));
  wt_unique : unique_pre_prepare (stored (msg_log s));
  wt_height : seq_num (pbft_state s) = n;
  wt_view : view (pbft_state s) = v;
  wt_block : working_block (pbft_state s) = Some b;
  wt_phase : phase (pbft_state s) = PrePreparing;
  wt_role : role (pbft_state s) ≠ Primary;
  wt_backlog : backlog (msg_log s) = [];
  wt_announced : ∃ m, m ∈ stored (msg_log s) ∧ has_type_seq BlockNew n m ∧ get_block m = Done b;
  wt_none : ∀ m, m ∈ stored (msg_log s) → ¬ has_type_seq_view PrePrepare n v m
}.

Lemma waits_same s s' : same_node s s' → waits s → waits s'.
Proof. intros (_ & Hl & Hst) []. by split; rewrite ?Hl, ?Hst. Qed.

Lemma waits_stored m s : vote m → waits s → waits (stored_state m s).
Proof.
  intros Hm [Hsz Hf Hty Hu Hn Hv Hb Hp Hr Hbl Ha Hno]. destruct (votable_stored m s) as (_ & Hu' & Hty').
  { split_and!; try done. by destruct Hm. }
  { by destruct Hm as [[-> | ->] _]. }
  assert (∀ x, x ∈ stored (msg_log (stored_state m s)) ↔ x = m ∨ x ∈ stored (msg_log s)) as Hin
    by (intros x; apply elem_of_hs_insert).
  split; try done.
  - destruct Ha as (x & Hx & Hrest). exists x. split; [apply Hin; by right|done].
  - intros x [-> | Hx]%Hin; [|by apply Hno]. intros Hpp%msg_type_of_type_seq_view.
    destruct Hm as [[Ht|Ht] _]; congruence.
Qed.

Lemma not_pre_prepared s b' : waits s → ¬ pre_prepared (stored (msg_log s)) n v b'.
Proof. intros Hw (m & Hin & Hm & _). by apply (wt_none s Hw m). Qed.

(** Early votes are stored, and do nothing else. *)
Lemma waits_vote fuel m s :
  vote m → waits s →
  ∃ r, on_peer_message (S fuel) m s = (Done r, if decide (mi_view (info m) = v) then stored_state m s else s).
Proof.
  intros Hm Hw. pose proof (waits_stored _ _ Hm Hw) as Hw1.
  assert (votable m s) as Hvot.
  { split; [apply Hw|]. split; [apply Hw|]. split; [apply Hw|apply Hm]. }
  destruct Hm as [[Ht|Ht] _].
  - destruct (prepare_effect fuel m s Ht Hvot) as (Hrefused & Hnot & _). rewrite (wt_height s Hw), (wt_view s Hw) in *.
    case_decide; [|by eexists; apply Hrefused]. eexists. apply Hnot; [done|].
    intros (_ & _ & b' & Hp & _). by eapply not_pre_prepared.
  - destruct (commit_effect fuel m s Ht Hvot) as (Hrefused & Hnot & _). rewrite (wt_height s Hw), (wt_view s Hw) in *.
    case_decide; [|by eexists; apply Hrefused]. eexists. apply Hnot; [done|].
    intros (_ & _ & b' & [Hp _] & _). by eapply not_pre_prepared.
Qed.

(** A pre-prepare of the primary for the announced block is accepted. *)
Lemma waits_guard pp s :
  waits s → round_vote n v b PrePrepare pp → get_primary_id (pbft_state s) = Done (mi_signer_id (info pp)) →
  pre_prepare_guard pp s.
Proof.
  intros Hw [(_ & Hn & Hv) Hb] Hp. split; [done|]. split; [|split].
  - rewrite (any_same_block_exists pp b); [|done|].
    + destruct (wt_announced s Hw) as (m & Hin & Hm & Hmb). f_equal. apply existsb_exists. exists m. rewrite Hn.
      split; [by apply list_elem_of_In, elem_of_type_seq|]. by apply bool_decide_eq_true.
    + intros x [[Hx _] Hin]%elem_of_type_seq. apply (wt_typed s Hw x Hin). by rewrite Hx.
  - destruct (get_one_msg _ _ _) as [pp'|] eqn:Hone; [|done]. apply get_one_msg_some in Hone as [Hm Hin].
    rewrite Hn, Hv in Hm. by destruct (wt_none s Hw pp' Hin).
  - right. by rewrite (wt_view s Hw).
Qed.

(** ** What happens to peers that wait or have joined *)

Definition engaged s : Prop := waits s ∨ joined s.

Lemma engaged_same s s' : same_node s s' → engaged s → engaged s'.
Proof. intros Hs [?|?]; [left; by eapply waits_same|right; by eapply joined_same]. Qed.

Lemma waits_joined s : waits s → joined s → False.
Proof. intros Hw Hj. pose proof (jn_time s Hj) as Ht. unfold on_time in Ht. by rewrite (wt_phase s Hw) in Ht. Qed.

Lemma engaged_calm k s : engaged s → in_time k (faulty_primary_timeout (pbft_state s)) → calm k s.
Proof.
  intros [Hw|Hj] Ht; (split; [|split; [done|apply Hw || apply Hj]]).
  - right. apply Hw.
  - left. pose proof (jn_time s Hj) as Hon. unfold on_time in Hon. by destruct (phase (pbft_state s)).
Qed.

Lemma engaged_height s : engaged s → seq_num (pbft_state s) = n ∧ working_block (pbft_state s) = Some b.
Proof. intros [Hw|[Hr _ _ _ _ _]]; [split; apply Hw|split; apply Hr]. Qed.

(** It stays, forgets nothing, and its timer is left alone. *)
Record stays s s' : Prop := {
  sy_engaged : engaged s';
  sy_joined : joined s → joined s';
  sy_stored m : m ∈ stored (msg_log s) → m ∈ stored (msg_log s');
  sy_timer : faulty_primary_timeout (pbft_state s') = faulty_primary_timeout (pbft_state s)
}.

Lemma stays_refl s : engaged s → stays s s.
Proof. by split. Qed.

Lemma stays_joined s s' : joined s' → forward s s' → stays s s'.
Proof. intros Hj Hf. split; [by right|done|apply Hf|apply Hf]. Qed.

(** What a round brings: votes, answers of the validator, and what the node
    ignores. *)
Definition round_message m : Prop := vote m ∨ msg_type_of m = BlockNew ∨ msg_type_of m = Unset.

Definition round_update u : Prop :=
  match u with
  | Ok (UpdateBlockValid _) | Ok (UpdatePeerConnected _) | Ok (UpdatePeerDisconnected _) | Err RecvTimeout => True
  | Ok (UpdateBlockNew blk) => bk_block_num blk < n
  | Ok (UpdatePeerMessage message _) => ∀ m, from_peer_message message false = Ok m → round_message m
  | _ => False
  end.

Lemma engaged_vote fuel m s r s' :
  on_peer_message (S fuel) m s = (Done r, s') → vote m → engaged s →
  stays s s' ∧ (mi_view (info m) = v → m ∈ stored (msg_log s')).
Proof.
  intros Hrun Hm [Hw|Hj].
  - destruct (waits_vote fuel m s Hm Hw) as [r' Hrun']. rewrite Hrun in Hrun'. injection Hrun' as _ ->.
    case_decide; [|by split; [apply stays_refl; left|]]. split; [|intros _; apply elem_of_stored_state].
    split; [left; by apply waits_stored|intros Hj; by destruct (waits_joined s)| |done]. intros x Hx. apply elem_of_hs_insert. by right.
  - destruct (round_any f n v b fuel Haccept m s Hm (jn_round s Hj) (jn_time s Hj)) as (a & s1 & Hrun' & Hr & Ht & Hf & Hin & Hc).
    rewrite Hrun in Hrun'. injection Hrun' as _ <-. split; [|done]. apply stays_joined; [|done].
    eapply joined_forward; [done..| |exact Hj]. auto.
Qed.

Lemma engaged_message fuel m s r s' :
  on_peer_message (S fuel) m s = (Done r, s') → round_message m → engaged s → stays s s'.
Proof.
  intros Hrun [Hm|Hm] He; [by eapply engaged_vote|]. assert (s' = s) as ->; [|by apply stays_refl].
  revert Hrun. cbn [on_peer_message]. rewrite on_peer_message_body_arms. fold (msg_type_of m).
  by destruct Hm as [-> | ->]; intros [= _ <-].
Qed.

Lemma engaged_valid fuel id s r s' :
  on_block_valid (S fuel) id s = (Done r, s') → engaged s → stays s s'.
Proof.
  intros Hrun He. destruct (on_block_valid_effect (S fuel) id s) as (_ & Hquiet & Hother & _).
  destruct (engaged_height s He) as [_ Hwb]. destruct (decide (pb_block_id b = id)) as [Hid|Hne].
  2: { rewrite (Hother b Hwb Hne) in Hrun. injection Hrun as _ <-. by apply stays_refl. }
  destruct He as [Hw|Hj].
  - rewrite (Hquiet b Hwb Hid) in Hrun by (rewrite (wt_phase s Hw); done). injection Hrun as _ <-. by apply stays_refl; left.
  - subst id. destruct (round_validated f n v b fuel Haccept s (jn_round s Hj) (jn_time s Hj)) as (a & s1 & Hrun' & Hr & Ht & Hf & _ & Hc).
    rewrite Hrun in Hrun'. injection Hrun' as _ <-. apply stays_joined; [|done].
    eapply joined_forward; [done..| |exact Hj]. destruct Hc as [Hc|[-> _]]; [by right|by left].
Qed.

Lemma try_ok_inv {A B} (m : NodeM A) (x : B) s r s' :
  (try_bind (λ _, mret (Ok x)) m : NodeM B) s = (Done r, s') → ∃ r', m s = (Done r', s').
Proof. rewrite run_try. destruct (m s) as [[[]| |] s1]; [..|done|done]; intros [= _ <-]; by eexists. Qed.

(** A message that gets through is handled. *)
Lemma handled fuel message m s r s' :
  from_peer_message message false = Ok m →
  handle_update fuel (Ok (UpdatePeerMessage message (mi_signer_id (info m)))) s = (Done r, s') →
  ∃ r', on_peer_message fuel m s = (Done r', s').
Proof.
  intros Hm. cbn [handle_update]. rewrite Hm, run_try_ret_ok, decide_False by auto. apply try_ok_inv.
Qed.

Lemma engaged_update fuel u s r s' :
  handle_update (S fuel) u s = (Done r, s') → round_update u → engaged s → stays s s'.
Proof.
  intros Hrun Hu He. pose proof (stays_refl s He) as Hsame. destruct (engaged_height s He) as [Hn _].
  destruct u as [[blk|id|id|id|message sender| | |]|[]]; try done; cbn [handle_update round_update] in *;
    try (by injection Hrun as _ <-).
  - apply try_ok_inv in Hrun as [r' Hrun]. assert (s' = s) as ->; [|done]. revert Hrun.
    unfold on_block_new, on_block_new_body. rewrite run_get_state, Hn, bool_decide_true by done. by intros [= _ <-].
  - apply try_ok_inv in Hrun as [r' Hrun]. by eapply engaged_valid.
  - destruct (from_peer_message message false) as [m|e] eqn:Hm; [|by injection Hrun as _ <-]. rewrite run_try_ret_ok in Hrun.
    revert Hrun. case_decide; [by intros [= _ <-]|]. intros [r' Hrun]%try_ok_inv. by eapply engaged_message; [|apply Hu|].
Qed.

Context `{FileSystem} `{Serde PbftState}.

(** The vote an update brings is stored. *)
Definition stores u s' : Prop :=
  ∀ message m, from_peer_message message false = Ok m → vote m → mi_view (info m) = v →
    u = Ok (UpdatePeerMessage message (mi_signer_id (info m))) → m ∈ stored (msg_log s').

(** An iteration, while the timer does not expire. *)
Lemma engaged_iteration fuel u e again e' :
  iteration (S fuel) u e = (Done again, e') → round_update u → engaged (sys_of e) →
  in_time (eng_ticks e') (faulty_primary_timeout (pbft_state (sys_of e))) →
  engaged (sys_of e') ∧ (joined (sys_of e) → joined (sys_of e')) ∧
  (∀ m, m ∈ stored (eng_log e) → m ∈ stored (eng_log e')) ∧ stores u (sys_of e').
Proof.
  intros (r & s & Hrun & Hcalm)%iteration_calm Hu He Ht. destruct (engaged_update _ _ _ _ _ Hrun Hu He) as [He1 Hj1 Hin Htm].
  assert (same_node s (sys_of e')) as Hs by (apply Hcalm, engaged_calm; [done|by rewrite Htm]).
  split; [by eapply engaged_same|]. split; [intros Hj; by apply (joined_same s), Hj1|].
  pose proof Hs as (_ & Hl & _). unfold stores. change (eng_log e') with (msg_log (sys_of e')). rewrite Hl.
  split; [exact Hin|]. intros message m Hm Hvote Hv ->. apply handled in Hrun as [r' Hrun]; [|done].
  eapply engaged_vote in Hrun as [_ Hst]; [by apply Hst|done..].
Qed.

(** A waiting peer that gets the pre-prepare joins. *)
Lemma proposal_iteration fuel message pp e again e' :
  iteration (S (S fuel)) (Ok (UpdatePeerMessage message (mi_signer_id (info pp)))) e = (Done again, e') →
  from_peer_message message false = Ok pp → round_vote n v b PrePrepare pp →
  get_primary_id (pbft_state (sys_of e)) = Done (mi_signer_id (info pp)) → waits (sys_of e) →
  joined (sys_of e') ∧ ∀ m, m ∈ stored (eng_log e) → m ∈ stored (eng_log e').
Proof.
  intros (r & s & Hrun & Hcalm)%iteration_calm Hpp Hvote Hp Hw. apply handled in Hrun as [r' Hrun]; [|done].
  destruct (round_starts f n v b fuel pp (sys_of e))
    as (a & s1 & Hrun' & Hr & Ht & Hst & Hv & Hb & Hprog & Htm); [apply Hw..|done|by apply waits_guard|].
  rewrite Hrun in Hrun'. injection Hrun' as _ <-.
  assert (joined s) as Hj by (split; try done; [rewrite Hb; apply Hw|lia]).
  assert (same_node s (sys_of e')) as Hs by (apply Hcalm, engaged_calm; [by right|by left]).
  split; [by eapply joined_same|]. destruct Hs as (_ & Hl & _). change (eng_log e') with (msg_log (sys_of e')). rewrite Hl. exact Hst.
Qed.

(** A peer that has finished has committed the block. *)
Lemma joined_finished s : joined s → phase (pbft_state s) = Finished → CommitBlock (pb_block_id b) ∈ service s.
Proof. intros Hj Hp. pose proof (jn_time s Hj) as Ht. unfold on_time in Ht. by rewrite Hp in Ht. Qed.
End joined.
