(* ===== verification/Decisions.v ===== *)
(** * Decisions

    The block a node commits is the one its log is committable for, as long as
    its validator carries out commits and finds valid only blocks that the node
    has pre-prepared at its height and view.  NetworkRuns.v shows what happens
    otherwise. *)

From S2P Require Import Prelude HashSet MessageType Wire Service Errors Messages.
From S2P Require Import Timing Config NodeState MessageLog Sys Handlers Node NodeFrames.
From S2P Require Import Storage Engine NodeInvariants Protocol Refinement BlockCommit Safety.
From S2P Require Import NodeTheorems EngineTheorems.

(** ** Of the protocol *)

(** A node that has finished has last committed the block it could commit. *)
Definition decided (a : Protocol) : Prop :=
  a_phase a = Finished → ∃ b, committable_at a b ∧ last (a_commits a) = Some (pb_block_id b).

(** A node that commits is short of votes. *)
Definition undecided (a : Protocol) : Prop :=
  a_phase a = Committing → votes_typed (a_log a) (a_height a) (a_view a) → ∀ b, ¬ committable_at a b.

Definition decisive (a : Protocol) : Prop := decided a ∧ undecided a.

Lemma decided_log log a : a_log a `prefix_of` log → decided a → decided (with_log log a).
Proof.
  intros Hp Hd Hph. destruct (Hd Hph) as (b & Hb & Hl). exists b. split; [|done]. by eapply committable_prefix.
Qed.

Lemma votes_store_not m ms t n v b :
  ¬ has_type_seq_view t n v m → votes (store m ms) t n v b = votes ms t n v b.
Proof.
  intros Hm. unfold store. case_decide; [done|]. unfold votes.
  rewrite filter_app, filter_cons_False, filter_nil, app_nil_r; [done|]. by intros [? _].
Qed.

Lemma votes_typed_subset ms ms' n v : (∀ m, m ∈ ms → m ∈ ms') → votes_typed ms' n v → votes_typed ms n v.
Proof. intros Hs Hty t m Ht Hin. apply Hty; auto. Qed.

(** Nothing but a commit of the height and view decides. *)
Lemma undecided_store m a :
  ¬ has_type_seq_view Commit (a_height a) (a_view a) m →
  protocol_ok a → protocol_ok (with_log (store m (a_log a)) a) →
  undecided a → undecided (with_log (store m (a_log a)) a).
Proof.
  intros Hm (Hb & _ & _) (_ & Hu & _) Hun Hph Hty b [[Hpp _] Hc].
  assert (a_phase a = Committing) as Hph' by done. unfold phase_backed in Hb. rewrite Hph' in Hb.
  destruct Hb as (b0 & [Hpp0 Hq0]). assert (b0 = b) as ->.
  { destruct Hpp as (m1 & Hin1 & Hm1 & Hb1), Hpp0 as (m0 & Hin0 & Hm0 & Hb0).
    assert (get_block m1 = get_block m0); [|congruence].
    apply (Hu m1 m0 (a_height a) (a_view a)); [done| |done..]. apply elem_of_store. by right. }
  apply (Hun Hph') with b.
  - eapply votes_typed_subset; [|exact Hty]. intros x Hx. apply elem_of_store. by right.
  - split; [by split|]. cbn [with_log a_log a_height a_view] in Hc. by rewrite votes_store_not in Hc.
Qed.

Lemma decisive_store m a :
  ¬ has_type_seq_view Commit (a_height a) (a_view a) m →
  protocol_ok a → protocol_ok (with_log (store m (a_log a)) a) →
  decisive a → decisive (with_log (store m (a_log a)) a).
Proof. intros Hm Hok Hok' [Hd Hu]. split; [by apply decided_log; [apply store_prefix|]|by apply undecided_store]. Qed.

(** Away from the last two phases there is nothing to show. *)
Lemma decisive_other a : a_phase a ≠ Committing → a_phase a ≠ Finished → decisive a.
Proof. by intros Hc Hf; split; intros ?. Qed.

(** ** Of the handlers *)

Section handlers.
Context `{Externals}.
Context (Haccept : ∀ h id, on_commit_block h id = Ok tt).
Implicit Types (s : Sys) (m : ParsedMessage).

(** Protocol steps that keep the log and the commits in accord. *)
Definition decides s s' : Prop :=
  refines s s' ∧ (sane (abs s) → protocol_ok (abs s) → decisive (abs s) → decisive (abs s')).

#[local] Instance decides_preorder : PreOrder decides.
Proof.
  split; [by intros s|]. intros s1 s2 s3 [Hr Hd] [Hr' Hd']. split; [by etrans|].
  intros Hs Hok Hdec. pose proof (Hr Hs) as Hsteps. apply Hd'; [by eapply sane_steps|by eapply protocol_steps_ok|auto].
Qed.

Lemma decides_same s s' : abs s' = abs s → decides s s'.
Proof. intros Heq. split; [by apply refines_same|by rewrite Heq]. Qed.

Lemma decides_of s s' :
  refines s s' → (sane (abs s) → protocol_ok (abs s) → protocol_ok (abs s') → decisive (abs s) → decisive (abs s')) →
  decides s s'.
Proof.
  intros Hr Hd. split; [done|]. intros Hs Hok. apply Hd; [done..|]. by eapply protocol_steps_ok; [apply Hr|].
Qed.

Lemma decides_store m s :
  refines s (stored_state m s) → ¬ has_type_seq_view Commit (seq_num (pbft_state s)) (view (pbft_state s)) m →
  decides s (stored_state m s).
Proof.
  intros Hr Hm. apply decides_of; [done|]. rewrite abs_stored_state. intros _. by apply decisive_store.
Qed.

(** A phase change to neither of the last two phases. *)
Lemma decides_switch p s :
  p ≠ Committing → p ≠ Finished →
  refines s (set_state (switch_phase p (pbft_state s)).2 s) → decides s (set_state (switch_phase p (pbft_state s)).2 s).
Proof.
  intros Hc Hf Hr. split; [done|]. destruct (switch_phase_cases p (pbft_state s)) as [->|[_ ->]].
  - by destruct s.
  - intros _ _ _. by apply decisive_other.
Qed.

Lemma not_commit m n v : msg_type_of m ≠ Commit → ¬ has_type_seq_view Commit n v m.
Proof. by intros Ht Hm%msg_type_of_type_seq_view. Qed.

Lemma decides_lifts : lifts decides.
Proof.
  split.
  - apply decides_same.
  - intros s m Ht Hr. by apply decides_store, not_commit.
  - intros s p Hp. by apply decides_switch; destruct Hp as [-> | ->].
Qed.

(** A commit, in a node short of votes or for the pre-prepared block. *)
Definition apt s m : Prop :=
  undecided (abs s) ∨
  mi_seq_num (info m) = seq_num (pbft_state s) ∧
  ∀ b, get_block m = Done b → ∃ b', pre_prepared_at (abs s) b' ∧ pb_block_id b' = pb_block_id b.

Lemma undecided_checked s i :
  protocol_ok (abs s) → sane (abs s) → mi_seq_num i = seq_num (pbft_state s) → mi_view i = view (pbft_state s) →
  check_committable (msg_log s) i (st_f (pbft_state s)) ≠ Done true → undecided (abs s).
Proof.
  intros (_ & Hu & _) [_ Hq] Hn Hv Hc _ Hty b Hb. apply Hc. cbn in Hty, Hu.
  apply (check_committable_of_typed _ _ _ (quorum (abs s)) b); rewrite ?Hn, ?Hv; try done.
  by apply two_f_plus_one_small.
Qed.

(** The block of a commit that brings a quorum is the block committable. *)
Lemma apt_block s m b cb :
  protocol_ok (abs s) → protocol_ok (abs (stored_state m s)) → apt s m →
  has_type_seq_view Commit (seq_num (pbft_state s)) (view (pbft_state s)) m →
  phase (pbft_state s) = Committing →
  votes_typed (stored (msg_log (stored_state m s))) (seq_num (pbft_state s)) (view (pbft_state s)) →
  committable_at (abs (stored_state m s)) b → get_block m = Done cb → pb_block_id cb = pb_block_id b.
Proof.
  intros Hok Hok' Hapt Hm Hph Hty Hb Hcb. destruct (decide (cb = b)) as [->|Hne]; [done|].
  assert (∀ b', pre_prepared_at (abs s) b' → b' = b) as Hone.
  { intros b' (m' & Hin' & Hm' & Hb'). destruct Hok' as (_ & Hu & _), Hb as [[(m0 & Hin0 & Hm0 & Hb0) _] _].
    assert (get_block m' = get_block m0); [|congruence].
    apply (Hu m' m0 (seq_num (pbft_state s)) (view (pbft_state s))); [|done..]. by apply elem_of_hs_insert; right. }
  destruct Hapt as [Hun|Hpp].
  - exfalso. destruct Hok as (Hback & _ & _). unfold phase_backed in Hback. cbn in Hback. rewrite Hph in Hback.
    destruct Hback as (b0 & Hb0). pose proof (Hone b0 (proj1 Hb0)) as ->.
    apply (Hun Hph) with b; [|split; [done|]].
    + eapply votes_typed_subset; [|exact Hty]. intros x Hx. by apply elem_of_hs_insert; right.
    + destruct Hb as [_ Hc]. unfold quorum in *. rewrite abs_stored_state in Hc. cbn [with_log a_log a_height a_view a_f abs] in Hc.
      unfold store in Hc. case_decide; [exact Hc|]. unfold votes in Hc.
      rewrite filter_app, filter_cons_False, filter_nil, app_nil_r in Hc; [exact Hc|]. intros [_ ?]. congruence.
  - destruct (proj2 Hpp cb Hcb) as (b' & Hb' & <-). by rewrite (Hone b' Hb').
Qed.

Lemma commit_arm_decisive m s :
  msg_type_of m = Commit → mi_view (info m) = view (pbft_state s) → sane (abs s) → protocol_ok (abs s) →
  decided (abs s) → apt s m → decisive (abs (commit_arm m s).2).
Proof.
  intros Ht Hv Hsane Hok Hdec Hapt. unfold commit_arm. rewrite run_add_message, decide_True by by right.
  fold (stored_state m s). set (s1 := stored_state m s).
  assert (protocol_ok (abs s1)) as Hok1.
  { eapply protocol_steps_ok; [|exact Hok]. apply receive_refines; [by rewrite Ht|by right|done]. }
  assert (decided (abs s1)) as Hdec1.
  { unfold s1. rewrite abs_stored_state. apply decided_log; [apply store_prefix|done]. }
  rewrite run_get_state, run_get_log, run_guarded. case_decide as Hn.
  2: { assert (undecided (abs s1)) as Hu; [|by split]. destruct Hapt as [Hun|[? _]]; [|done].
       revert Hok1. unfold s1. rewrite abs_stored_state. intros Hok1. apply undecided_store; [|done..]. by intros (_ & ? & _). }
  assert (has_type_seq_view Commit (seq_num (pbft_state s)) (view (pbft_state s)) m) as Hm by by apply msg_type_seq_view.
  pose proof (undecided_checked s1 (info m) Hok1 Hsane Hn Hv) as Hshort.
  destruct (check_committable (msg_log s1) (info m) (st_f (pbft_state s1))) as [[]| |] eqn:Hc;
    [|by split; [|apply Hshort]..].
  pose proof (check_committable_votes_typed _ _ _ Hc) as Hty. rewrite Hn, Hv in Hty.
  apply check_committable_true in Hc as (q & b & Hq & Hcom).
  rewrite two_f_plus_one_small in Hq by apply Hsane. injection Hq as <-. rewrite Hn, Hv in Hcom.
  unfold commit_block_if_committing. rewrite run_get_state. case_decide as Hph; [|split; [exact Hdec1|by intros ?]].
  destruct (Hty Commit m) as [cb Hcb]; [by right|apply elem_of_stored_state|done|].
  pose proof (apt_block s m b cb Hok Hok1 Hapt Hm Hph Hty Hcom Hcb) as Hid.
  unfold commit. rewrite (run_lift_done _ _ _ _ Hcb). unfold svc_commit_block. rewrite run_call, Haccept.
  cbn [map_err]. rewrite run_try_ret_ok, run_switch_phase, run_ret. cbn [snd].
  set (s2 := set_service _ s1). assert ((switch_phase Finished (pbft_state s2)).2 = set_phase Finished (pbft_state s1)) as Hsw.
  { unfold switch_phase. change (pbft_state s2) with (pbft_state s1). by rewrite Hph. }
  rewrite Hsw. split; [|by intros ?]. intros _. exists b. split; [exact Hcom|].
  cbn. rewrite committed_snoc. cbn. by rewrite last_snoc, Hid.
Qed.

Lemma decides_commit_arm m : msg_type_of m = Commit → respects decides (commit_arm m).
Proof.
  intros Ht s. split; [by apply commit_arm_refines|]. intros Hs Hok [Hd Hu].
  destruct (decide (mi_view (info m) = view (pbft_state s))) as [Hv|Hv]; [by apply commit_arm_decisive; [..|left]|].
  unfold commit_arm. rewrite run_add_message, decide_False; [by split|].
  intros [?|?]; [unfold msg_type_of in Ht; congruence|done].
Qed.

Lemma decides_peer_effects : peer_effects decides.
Proof.
  assert (∀ s c, quiet c → decides s (set_service (service s ++ [c]) s)) as Hcall.
  { intros s c [Hc _]. by apply decides_same, abs_call. }
  split; intros; auto; try (by apply decides_same).
  - by apply decides_same, abs_call.
  - apply decides_same. destruct (pop_backlog_cases (msg_log s)) as [->|[b ->]]; by destruct s.
  - assert (msg_type_of m ≠ Commit ∧ msg_type_of m ≠ PrePrepare) as [Hc Hp] by by destruct H0 as [->|[-> _]].
    pose proof (add_refines m s Hp) as Hr. revert Hr. rewrite add_message_cases.
    case_decide; intros Hr; [by apply decides_store; [|apply not_commit]|]. by apply decides_same; destruct s.
  - split; [by apply (eff_mode refines refines_effects)|]. by intros _ _ [Hd Hu].
  - apply pre_prepare_lifts; [apply _|apply decides_lifts|done].
  - apply prepare_arm_lifts; [apply _|apply decides_lifts|done].
  - by apply decides_commit_arm.
  - intros s. split; [apply view_change_refines|]. intros [Hne _] _ Hd.
    destruct (view_change_result m s Hne) as [->|(p & _ & _ & ->)]; [done|]. by apply decisive_other.
Qed.

(** ** Blocks the validator finds valid *)

(** The block is pre-prepared at the node's height and view. *)
Definition validates id s : Prop := ∃ b, pre_prepared_at (abs s) b ∧ pb_block_id b = id.

(** A message of the height and view that proposes the block. *)
Definition proposes id s m : Prop :=
  has_type_seq_view PrePrepare (seq_num (pbft_state s)) (view (pbft_state s)) m ∧
  match get_block m with Done b => pb_block_id b = id | _ => False end.

#[local] Instance proposes_dec id s m : Decision (proposes id s m).
Proof. unfold proposes. destruct (get_block m); apply _. Defined.

Lemma validates_exists id s : validates id s ↔ Exists (proposes id s) (stored (msg_log s)).
Proof.
  rewrite Exists_exists. split.
  - intros (b & (m & Hin & Hm & Hb) & Hid). exists m. unfold proposes. by rewrite Hb.
  - intros (m & Hin & Hm & Hb). destruct (get_block m) as [b| |] eqn:Hg; [|done..]. exists b. split; [by exists m|done].
Qed.

#[export] Instance validates_dec id s : Decision (validates id s).
Proof.
  refine (cast_if (decide (Exists (proposes id s) (stored (msg_log s))))); abstract (by rewrite validates_exists).
Defined.

Lemma decides_on_block_valid `{!CodecLaws} fuel id s :
  validates id s → decides s (on_block_valid (S fuel) id s).2.
Proof.
  intros (b & Hb & Hid). split; [apply (respects_on_block_valid refines refines_effects)|].
  intros Hs Hok Hdec. destruct (on_block_valid_effect (S fuel) id s) as (Hsend & Hquiet & Hother & Hnone).
  destruct (working_block (pbft_state s)) as [wb|] eqn:Hwb; [|by rewrite Hnone].
  destruct (decide (pb_block_id wb = id)) as [Hwid|Hwid]; [|by rewrite (Hother wb)].
  destruct (decide (phase (pbft_state s) = Checking ∨ phase (pbft_state s) = Committing)) as [Hph|Hph].
  2: { rewrite (Hquiet wb) by (try done; intros ?; apply Hph; auto). done. }
  destruct (Hsend wb eq_refl Hwid Hph) as (bs & _ & Hrun). rewrite Hrun. clear Hsend Hquiet Hother Hnone Hrun.
  set (own := mkParsedMessage [] [] _ bs true).
  match goal with |- context [on_peer_message _ _ ?x] => set (s1 := x) end.
  cbn [on_peer_message]. rewrite on_peer_message_body_arms. change (message_type_of_str (mi_msg_type (info own))) with Commit.
  assert (protocol_ok (abs s1)) as Hok1.
  { destruct Hok as (Hback & Hu & Hr). split; [|by split]. unfold phase_backed in *. cbn in Hback |- *.
    by destruct Hph as [Hp|Hp]; rewrite Hp in Hback. }
  apply commit_arm_decisive; [done..| |].
  - by intros ?.
  - right. split; [done|]. intros cb [= <-]. exists b. split; [exact Hb|]. by trans id.
Qed.
End handlers.

(** ** Of the engine *)

Section engine.
Context `{Externals} `{FileSystem} `{Serde PbftState} `{!CodecLaws}.
Context (Haccept : ∀ h id, on_commit_block h id = Ok tt).
Implicit Types (e : Engine) (u : Result Update RecvTimeoutError).

#[local] Existing Instance decides_preorder.

(** The validator answers for a block the node has pre-prepared. *)
Definition answers u s : Prop :=
  match u with Ok (UpdateBlockValid id) => validates id s | _ => True end.

Lemma handle_update_decisive fuel u s r s' :
  handle_update (S fuel) u s = (Done r, s') → ¬ catches_up u s → answers u s → bounded s → node_ok s →
  decisive (abs s) → decisive (abs s').
Proof.
  intros Hrun Hcu Hu (Hn & Hv & Hl) (Ht & Hok & Hwf) Hd. destruct (block_commit_update u) as [[id ->]|Hnc].
  - apply bind_done_inv in Hrun as ([] & s1 & Hrun & [= _ <-]).
    pose proof (on_block_commit_inv _ _ _ Hrun) as [[-> _]|(Hp & Hwb & _)]; [done|].
    destruct (on_block_commit_advances _ _ _ Hrun Hp Hwb Hn Hv Hwf); by apply decisive_other.
  - pose proof (respects_plain_update decides (decides_peer_effects Haccept)
      ltac:(intros; by apply decides_same) ltac:(intros; by apply decides_same) (S fuel) u s) as Hr.
    destruct Hr as [_ Hr]; [|done..|].
    + intros id ->. by apply decides_on_block_valid.
    + rewrite Hrun in Hr. apply Hr; [by apply sized_sane|done..].
Qed.

Lemma iteration_decisive fuel u e again e' :
  iteration (S fuel) u e = (Done again, e') → ¬ catches_up u (sys_of e) → answers u (sys_of e) →
  bounded (sys_of e) → len (peer_ids (pbft_state (sys_of e'))) < two64 → node_ok (sys_of e) →
  decisive (abs (sys_of e)) → decisive (abs (sys_of e')).
Proof.
  intros (r & s & Hupd & HR)%iteration_inv Hcu Hu Hb Hl Hok Hd.
  destruct (handle_update_step _ _ _ _ _ Hupd Hcu Hb Hok) as [_ (Ht & Hok' & _)].
  assert (peer_ids (pbft_state s) = peer_ids (pbft_state (sys_of e'))) as Hpeers
    by exact (f_equal (λ h : N * list PeerId * N, h.1.2) (HR _ _ height_effects)).
  rewrite <- Hpeers in Hl. destruct (HR decides _ (decides_peer_effects Haccept)) as [_ Hdec].
  apply Hdec; [by apply sized_sane|done|]. by eapply handle_update_decisive.
Qed.
End engine.
