(* ===== verification/Origins.v ===== *)
(** * Where stored messages come from

    Everything in a node's log or backlog was broadcast by the node itself,
    delivered by its validator, or announces a block ([BlockNew], which never
    travels).  What a delivered message must satisfy is a parameter; Network.v
    instantiates it. *)

From S2P Require Import Prelude HashSet MessageType Wire Service Errors Messages.
From S2P Require Import Timing Config NodeState MessageLog Sys Handlers Node NodeFrames.
From S2P Require Import NodeInvariants Protocol Refinement BlockCommit Storage Engine EngineTheorems.

Section origins.
Context `{Externals} `{!CodecLaws}.
Context (self : PeerId) (received : ParsedMessage → Prop).
Implicit Types (s : Sys) (m : ParsedMessage) (h : list ServiceCall).

(** A message as the node parses it back from its own broadcast. *)
Inductive own_message h : ParsedMessage → Prop :=
| own_pbft_message i b bs :
    mi_signer_id i = self →
    message_to_bytes (mkPbftMessage (Some i) (Some b)) = Ok bs →
    Broadcast (mi_msg_type i) bs ∈ h →
    own_message h (mkParsedMessage [] [] (WMessage (mkPbftMessage (Some i) (Some b))) bs true)
| own_view_change_message i seal bs :
    mi_signer_id i = self → mi_msg_type i = string_of_message_type ViewChange →
    view_change_to_bytes (mkPbftViewChange (Some i) (Some seal)) = Ok bs →
    Broadcast (mi_msg_type i) bs ∈ h →
    own_message h (mkParsedMessage [] [] (WViewChange (mkPbftViewChange (Some i) (Some seal))) bs true).

Definition announcement m : Prop := msg_type_of m = BlockNew ∧ ∃ b, get_block m = Done b.

Definition origin h m : Prop := announcement m ∨ own_message h m ∨ received m.

(** Every broadcast names the node and the type it is sent as. *)
Definition signed_calls h : Prop :=
  ∀ t bs pm, Broadcast t bs ∈ h → message_of_bytes bs = Ok pm →
    mi_msg_type (pm_get_info pm) = t ∧ mi_signer_id (pm_get_info pm) = self.

Record heard s : Prop := {
  heard_id : st_id (pbft_state s) = self;
  heard_calls : signed_calls (service s);
  heard_log m : m ∈ stored (msg_log s) → origin (service s) m;
  heard_backlog m : m ∈ backlog (msg_log s) → origin (service s) m
}.

Lemma own_message_prefix h h' m : h `prefix_of` h' → own_message h m → own_message h' m.
Proof.
  intros Hh. destruct 1 as [i b bs Hi Hbs Hin|i seal bs Hi Ht Hbs Hin].
  - apply own_pbft_message; [done..|by eapply elem_of_prefix].
  - apply own_view_change_message; [done..|by eapply elem_of_prefix].
Qed.

Lemma origin_prefix h h' m : h `prefix_of` h' → origin h m → origin h' m.
Proof. intros Hh [?|[?|?]]; [by left|right; left; by eapply own_message_prefix|by right; right]. Qed.

(** ** Handlers

    [since h] adds to the invariant that the calls [h] have been made, so that
    a message with its origin in [h] may be stored. *)
Definition since h s : Prop := heard s ∧ h `prefix_of` service s.

Lemma since_same h s s' :
  service s' = service s → st_id (pbft_state s') = st_id (pbft_state s) →
  (∀ m, m ∈ stored (msg_log s') → m ∈ stored (msg_log s)) →
  (∀ m, m ∈ backlog (msg_log s') → m ∈ backlog (msg_log s)) → keeps (since h) s s'.
Proof.
  intros Hsv Hid Hlog Hback [[Hi Hc Hl Hb] Hh]. split; [|by rewrite Hsv].
  split; rewrite ?Hsv, ?Hid; auto.
Qed.

Lemma since_call h s c :
  (∀ t bs pm, c = Broadcast t bs → message_of_bytes bs = Ok pm →
     mi_msg_type (pm_get_info pm) = t ∧ mi_signer_id (pm_get_info pm) = self) →
  keeps (since h) s (set_service (service s ++ [c]) s).
Proof.
  intros Hc [[Hi Hcs Hl Hb] Hh]. assert (service s `prefix_of` service s ++ [c]) by (by apply prefix_app_r).
  split; [|by etrans]. split; cbn [set_service service msg_log pbft_state]; [done|..].
  - intros t bs m [Hin|Heq%list_elem_of_singleton]%elem_of_app; [by apply Hcs|]. by eapply Hc.
  - intros m Hm. by eapply origin_prefix; [|apply Hl].
  - intros m Hm. by eapply origin_prefix; [|apply Hb].
Qed.

Lemma since_commit_effects h : commit_effects (keeps (since h)).
Proof.
  split; intros; try by apply since_same.
  - apply since_call. naive_solver.
  - match goal with Hg : garbage_collect _ _ _ = _ |- _ => rename Hg into Hgc end.
    apply since_same; [done..| |].
    + intros m. cbn [set_log msg_log]. by eapply garbage_collect_stored.
    + intros m. cbn [set_log msg_log]. by apply garbage_collect_max in Hgc as [_ ->].
Qed.

Lemma since_add h m : origin h m → respects (keeps (since h)) (log_add_message m).
Proof.
  intros Hm. apply respects_log_add_message. intros s. rewrite add_message_cases.
  case_decide; [|by apply since_same]. intros [[Hi Hc Hl Hb] Hh]. split; [|done].
  split; cbn [set_log msg_log service pbft_state]; [done..| |done].
  intros m' [-> | ?]%elem_of_hs_insert; [by eapply origin_prefix|by apply Hl].
Qed.

Lemma since_push h m : origin h m → respects (keeps (since h)) (modify_log (push_backlog m)).
Proof.
  intros Hm. apply respects_modify. intros s [[Hi Hc Hl Hb] Hh]. split; [|done].
  split; cbn [set_log msg_log service pbft_state]; [done..|].
  cbn. intros m' [?| ->%list_elem_of_singleton]%elem_of_app; [by apply Hb|by eapply origin_prefix].
Qed.
(** Bytes a node may broadcast as [t], with what it makes of them itself. *)
Definition sendable (t : PbftMessageType) (bs : bytes) : Prop :=
  (∀ pm, message_of_bytes bs = Ok pm →
     mi_msg_type (pm_get_info pm) = string_of_message_type t ∧ mi_signer_id (pm_get_info pm) = self) ∧
  ∀ p h, from_bytes bs = Ok p → Broadcast (string_of_message_type t) bs ∈ h → own_message h p.

Lemma sendable_pbft_message t v n b bs :
  t ≠ ViewChange → make_msg_bytes (make_msg_info t v n self) b = Ok bs → sendable t bs.
Proof.
  intros Ht Hbs. unfold make_msg_bytes in Hbs.
  set (pm := mkPbftMessage (Some (make_msg_info t v n self)) (Some b)) in *.
  assert (mi_msg_type (pm_get_info pm) ≠ "ViewChange") as Hvc by by destruct t.
  destruct (message_roundtrip pm) as (bs1 & Hw1 & Hr1). rewrite Hbs in Hw1. injection Hw1 as <-.
  destruct (from_bytes_message pm Hvc) as (bs2 & Hw2 & Hp2). rewrite Hbs in Hw2. injection Hw2 as <-.
  split.
  - intros pm' Hpm'. rewrite Hr1 in Hpm'. by injection Hpm' as <-.
  - intros p h Hp Hin. rewrite Hp2 in Hp. injection Hp as <-. by apply own_pbft_message.
Qed.

Lemma sendable_view_change v n seal bs :
  view_change_to_bytes (mkPbftViewChange (Some (make_msg_info ViewChange v n self)) (Some seal)) = Ok bs →
  sendable ViewChange bs.
Proof.
  intros Hbs. set (vc := mkPbftViewChange _ _) in Hbs.
  destruct (from_bytes_view_change vc eq_refl) as (bs2 & Hw2 & Hp2). rewrite Hbs in Hw2. injection Hw2 as <-.
  split.
  - intros pm Hpm. pose proof (view_change_as_message _ _ _ Hbs Hpm) as Hi. unfold pm_get_info. by rewrite Hi.
  - intros p h Hp Hin. rewrite Hp2 in Hp. injection Hp as <-. by apply own_view_change_message.
Qed.

(** What a handler of messages owes: it keeps the invariant for every message
    that has an origin in calls already made. *)
Definition hears (on_own_message : ParsedMessage → NodeM ()) : Prop :=
  ∀ h m, origin h m → respects (keeps (since h)) (on_own_message m).

Lemma since_broadcast on_own h t bs :
  hears on_own → sendable t bs → respects (keeps (since h)) (broadcast_message on_own t bs).
Proof.
  intros Hown [Hparse Hself] s Hs. unfold broadcast_message, svc_broadcast. rewrite run_call.
  set (s1 := set_service _ s).
  assert (since h s1) as Hs1.
  { revert Hs. apply since_call. intros t' bs' pm [= <- <-]. apply Hparse. }
  destruct (from_bytes bs) as [p|e] eqn:Hp; [|by rewrite run_try_ret_err]. rewrite run_try_ret_ok.
  destruct Hs1 as [Hs1 Hh]. destruct (Hown (service s1) p) with (s := s1) as [Hs2 Hh2]; [|by split|].
  - right. left. apply (Hself p); [done|]. cbn. apply elem_of_app. right. by apply list_elem_of_singleton.
  - split; [done|by etrans].
Qed.

Lemma since_broadcast_pbft_message on_own h n t b :
  hears on_own → t ≠ ViewChange → respects (keeps (since h)) (broadcast_pbft_message (broadcast_message on_own) n t b).
Proof.
  intros Hown Ht s Hs. unfold broadcast_pbft_message. rewrite run_get_state. case_match; [done|].
  rewrite (heard_id s) by apply Hs.
  destruct (message_roundtrip (mkPbftMessage (Some (make_msg_info t (view (pbft_state s)) n self)) (Some b)))
    as (bs & Hbs & _).
  unfold make_msg_bytes. rewrite Hbs. apply since_broadcast; [done| |done]. by eapply sendable_pbft_message.
Qed.

Lemma since_propose_view_change_with on_own h :
  hears on_own → respects (keeps (since h)) (propose_view_change_with (broadcast_message on_own)).
Proof.
  intros Hown s Hs. unfold propose_view_change_with. rewrite run_get_state. case_decide; [done|].
  rewrite run_modify_state. set (s1 := set_state _ s).
  assert (since h s1) as Hs1 by (revert Hs; by apply since_same). generalize s1 Hs1. clear s1 Hs1. intros s1 Hs1.
  rewrite run_bind. unfold sm_lift at 1. destruct (u64_add _ _) as [v| |]; [|done..].
  rewrite run_bind. unfold sm_lift at 1. destruct (u64_sub _ _) as [n| |]; [|done..].
  rewrite run_get_log. destruct (get_consensus_seal _ _) as [seal|]; [|by rewrite run_try_ret_err].
  rewrite run_try_ret_ok. destruct (view_change_roundtrip (mkPbftViewChange
    (Some (make_msg_info ViewChange v n (st_id (pbft_state s)))) (Some seal))) as (bs & Hbs & _).
  rewrite Hbs. cbn [map_err]. rewrite run_try_ret_ok. rewrite (heard_id s) in Hbs by apply Hs.
  apply since_broadcast; [done| |done]. by eapply sendable_view_change.
Qed.

#[local] Hint Resolve since_commit_effects since_add since_push since_propose_view_change_with : respects.

Lemma since_pre_prepare h m : origin h m → respects (keeps (since h)) (pre_prepare m).
Proof.
  intros Hm s Hs. destruct (pre_prepare m s) as [o s'] eqn:Hrun. cbn [snd].
  apply pre_prepare_cases in Hrun as [[-> _]|(_ & (_ & _ & _ & Hv) & ->)]; [done|].
  assert (since h (stored_state m s)) as Hst.
  { pose proof (since_add h m Hm s Hs) as Ha. rewrite log_add_message_snd, add_message_cases in Ha.
    by rewrite decide_True in Ha. }
  revert Hst. apply since_same; unfold preparing_state; case_decide; try done.
  cbn. unfold switch_phase. by case_decide.
Qed.

Lemma since_on_peer_message fuel : hears (on_peer_message fuel).
Proof.
  induction fuel as [|fuel IH]; intros h m Hm; cbn [on_peer_message]; [apply respects_lift; apply _|].
  pose proof (since_commit_effects h) as HC. pose proof (since_add h m Hm) as Hadd.
  rewrite on_peer_message_body_arms. fold (msg_type_of m). destruct (msg_type_of m).
  - pose proof (since_pre_prepare h m Hm). pose proof (since_push h m Hm).
    assert (respects (keeps (since h)) (broadcast_pre_prepare (broadcast_message (on_peer_message fuel)) m)) as Hvote.
    { unfold broadcast_pre_prepare. apply respects_bind; [apply _|apply respects_lift; apply _|].
      intros b. by apply since_broadcast_pbft_message. }
    solve_respects.
  - pose proof (ce_check_blocks _ HC m). unfold prepare_arm. solve_respects.
  - pose proof (ce_commit_block _ HC m). unfold commit_arm. solve_respects.
  - solve_respects.
  - pose proof (ce_view_change _ HC m). pose proof (since_propose_view_change_with _ h IH).
    unfold propose_view_change_if_enough_messages. solve_respects.
  - solve_respects.
Qed.

(** ** Updates and iterations *)

(** What the validator must deliver. *)
Definition delivers (u : Result Update RecvTimeoutError) : Prop :=
  match u with
  | Ok (UpdatePeerMessage message sender_id) =>
      ∀ m, from_peer_message message false = Ok m → mi_signer_id (info m) = sender_id → received m
  | _ => True
  end.

Lemma since_verify_seal h b : respects (keeps (since h)) (verify_consensus_seal b).
Proof.
  pose proof (ce_get_peers_at _ (since_commit_effects h)) as Hp. unfold verify_consensus_seal. solve_respects.
Qed.

Lemma since_propose fuel h : respects (keeps (since h)) (propose_view_change fuel).
Proof. apply since_propose_view_change_with, since_on_peer_message. Qed.

Lemma since_announce h fuel b : respects (keeps (since h)) (announce_block (mret (Ok tt)) fuel b).
Proof.
  assert (∀ wb, respects (keeps (since h)) (modify_state (set_working_block wb))) as Hw
    by (intros; apply respects_modify; intros s; by apply since_same).
  assert (∀ n blk, respects (keeps (since h)) (broadcast_pbft_message (broadcast_message (on_peer_message fuel)) n PrePrepare blk))
    by (intros; apply since_broadcast_pbft_message; [apply since_on_peer_message|done]).
  intros s. unfold announce_block. rewrite run_get_state, run_bind. unfold sm_lift at 1.
  destruct (from_pbft_message _) as [p| |] eqn:Hp; [|done..].
  assert (respects (keeps (since h)) (log_add_message p)) as Hadd.
  { apply since_add. left. apply from_pbft_message_inv in Hp as [Hp _].
    unfold announcement, msg_type_of, info, get_block. rewrite Hp. split; [done|by eexists]. }
  match goal with |- keeps _ ?s1 (?k ?s2).2 => enough (respects (keeps (since h)) k) as Hk by exact (Hk s1) end.
  solve_respects.
Qed.

Lemma since_on_block_new h fuel b s :
  ¬ catching_up b (pbft_state s) → keeps (since h) s (on_block_new fuel b s).2.
Proof.
  intros Hno. rewrite on_block_new_catchup, (on_block_new_no_catchup _ _ _ (mret (Ok tt))) by done.
  pose proof (since_verify_seal h b). pose proof (since_propose fuel h). pose proof (since_announce h fuel b).
  assert (∀ n seal, respects (keeps (since h)) (modify_log (add_consensus_seal (bk_block_id b) n seal)))
    by (intros; apply respects_modify; intros s'; by apply since_same).
  assert (respects (keeps (since h)) (with_service (svc_fail_block (bk_block_id b))))
    by by apply (ce_respects_call _ (since_commit_effects h)).
  match goal with |- keeps _ ?s1 (?k _).2 => enough (respects (keeps (since h)) k) as Hk by exact (Hk s1) end.
  unfold on_block_new_with, fail_block. solve_respects.
Qed.

Lemma since_handle_update h fuel u s :
  delivers u → ¬ catches_up u s → keeps (since h) s (handle_update fuel u s).2.
Proof.
  intros Hu Hcu. destruct u as [[b|id|id|id|m sender| | |]|[]]; cbn [handle_update]; try reflexivity.
  - apply respects_then; [apply _|]. by apply since_on_block_new.
  - apply respects_then; [apply _|]. revert s Hcu. intros s _.
    match goal with |- keeps _ ?s1 (?k _).2 => enough (respects (keeps (since h)) k) as Hk by exact (Hk s1) end.
    pose proof (ce_state_switch _ (since_commit_effects h)).
    assert (∀ n blk, respects (keeps (since h)) (broadcast_pbft_message (broadcast_message (on_peer_message fuel)) n Commit blk))
      by (intros; apply since_broadcast_pbft_message; [apply since_on_peer_message|done]).
    unfold on_block_valid, on_block_valid_body. solve_respects.
  - apply respects_then; [apply _|]. apply since_propose.
  - match goal with |- keeps _ ?s1 (?k _).2 => enough (respects (keeps (since h)) k) as Hk by exact (Hk s1) end.
    apply respects_bind; [apply _|apply ce_on_block_commit; [apply _|apply since_commit_effects]|].
    intros ?. apply respects_ret. apply _.
  - cbn [delivers] in Hu. destruct (from_peer_message m false) as [p|]; [|done]. rewrite run_try_ret_ok.
    case_decide as Hs; [done|]. apply respects_then; [apply _|]. apply since_on_peer_message.
    right. right. by apply Hu.
Qed.

Lemma since_retry_backlog h fuel : respects (keeps (since h)) (retry_backlog fuel).
Proof.
  intros s Hs. unfold retry_backlog. rewrite run_get_log. unfold pop_backlog.
  destruct (backlog (msg_log s)) as [|m ms] eqn:Hb; rewrite run_modify_log; [by destruct s|].
  destruct Hs as [Hh Hp].
  assert (since h (set_log (set_backlog ms (msg_log s)) s)) as [Hs1 _].
  { apply (since_same h s); [done..| |by split]. cbn. intros m'. rewrite Hb. by right. }
  destruct (since_on_peer_message fuel (service s) m) with (s := set_log (set_backlog ms (msg_log s)) s) as [? Hle].
  - apply (heard_backlog s Hh). rewrite Hb. by left.
  - by split.
  - split; [done|]. by etrans.
Qed.

Lemma heard_iteration `{FileSystem} `{Serde PbftState} fuel u e again e' :
  iteration fuel u e = (Done again, e') → delivers u → ¬ catches_up u (sys_of e) →
  heard (sys_of e) → heard (sys_of e') ∧ eng_service e `prefix_of` eng_service e'.
Proof.
  intros (e1 & fs & Hbody & -> & _)%with_guard_inv Hu Hcu Hh. change (sys_of (set_files fs e1)) with (sys_of e1).
  rewrite iteration_body_after in Hbody. apply bind_done_inv in Hbody as (r & e2 & Hupd & Hrest).
  assert (since (eng_service e) (sys_of e2)) as He2.
  { unfold with_state, zoom in Hupd. pose proof (since_handle_update (eng_service e) fuel u (sys_of e) Hu Hcu) as Hk.
    destruct (handle_update fuel u (sys_of e)) as [o s]. injection Hupd as _ <-. rewrite sys_of_put.
    by apply Hk. }
  pose proof (since_commit_effects (eng_service e)) as HC.
  assert (respects (lifted (keeps (since (eng_service e)))) (after_update fuel r)) as Hafter.
  { apply respects_after_update; [apply _|apply ce_respects_now; done|..].
    - apply ce_try_publish; [apply _|done].
    - apply ce_check_timeout; [apply _|done].
    - apply since_propose.
    - apply since_retry_backlog. }
  apply (respects_eq _ _ _ _ _ Hafter Hrest He2).
Qed.
End origins.
