(* ===== verification/TypeSafety.v ===== *)
(** * Well-typed engines

    An engine that is only delivered messages with a block wherever their type
    calls for one holds only such messages, and so never crashes on the next. *)

From S2P Require Import Prelude HashSet MessageType Wire Service Errors Messages.
From S2P Require Import Timing Config NodeState MessageLog Sys Handlers Node NodeFrames.
From S2P Require Import NodeInvariants Protocol Refinement BlockCommit Votes Termination Storage Engine.
From S2P Require Import Safety Totality EngineTheorems Origins.

(** Heights only go up. *)
Lemma node_steps_height a a' : rtc node_step a a' → a_height a ≤ a_height a'.
Proof.
  induction 1 as [|a1 a2 a3 [Hs|Hs] _ IH]; [done|..]; (etrans; [|exact IH]).
  - apply protocol_step_static in Hs as [[= _ _ _ ->] _]. done.
  - apply advance_step_log in Hs as [-> _]. lia.
Qed.

Section typed.
Context `{Externals} `{!CodecLaws} `{FileSystem} `{Serde PbftState}.
Implicit Types (e : Engine) (m : ParsedMessage) (u : Result Update RecvTimeoutError).

(** Runs of the engine in which every delivered message is typed. *)
Inductive typed_run (fuel : nat) (e0 : Engine) : Engine → Prop :=
| typed_start : typed_run fuel e0 e0
| typed_iteration e u e' :
    typed_run fuel e0 e → iteration fuel u e = (Done true, e') → delivers typed u →
    ¬ catches_up u (sys_of e) → bounded (sys_of e) → bounded (sys_of e') →
    typed_run fuel e0 e'.

Lemma typed_run_reachable fuel e0 e : typed_run fuel e0 e → reachable fuel e0 e.
Proof. induction 1; [apply reachable_start|by eapply reachable_iteration]. Qed.

Lemma typed_run_heard self fuel e0 e :
  typed_run fuel e0 e → heard self typed (sys_of e0) → heard self typed (sys_of e).
Proof.
  induction 1 as [|e u e' _ IH Hit Hd Hcu _ _]; [done|]. intros Hh. by eapply heard_iteration; [..|apply IH].
Qed.

Lemma origin_typed self h m : origin self typed h m → typed m.
Proof.
  intros [[_ Hb]|[Hown|?]]; [by intros _| |done]. destruct Hown as [i b bs _ _ _|i seal bs _ Ht _ _].
  - intros _. by eexists.
  - intros []. exact Ht.
Qed.

Lemma start_engine_heard self received i head w e0 :
  start_engine i head w = (Done tt, Some e0) → bk_block_num head + 1 < two64 → w_service w = [] → self = i →
  heard self received (sys_of e0).
Proof.
  intros Hstart Hn Hw ->.
  destruct (start_engine_inv _ _ _ _ Hstart Hn) as (_ & _ & _ & _ & _ & Hlog & (init & Hs & Hinit) & _ & _ & Hid & Hback).
  split; [done|..].
  - intros t bs pm Hin. change (service (sys_of e0)) with (eng_service e0) in Hin. rewrite Hs, Hw in Hin.
    exfalso. destruct Hinit as [-> | ->]; cbn in Hin; rewrite !elem_of_cons, elem_of_nil in Hin; by repeat destruct Hin as [Hin|Hin].
  - intros m. rewrite Hlog. by intros ?%elem_of_nil.
  - intros m. rewrite Hback. by intros ?%elem_of_nil.
Qed.

(** Well-typed engines do not go wrong: an engine started afresh that has
    only been delivered messages with a block if their type has one holds only
    such messages, in its log and in its backlog, and handling the next one, or
    the oldest of its backlog, returns. *)
Theorem typed_engines_return i head w e0 fuel e :
  start_engine i head w = (Done tt, Some e0) → bk_block_num head + 1 < two64 → w_service w = [] →
  typed_run fuel e0 e → bounded (sys_of e) → (2 ≤ fuel)%nat →
  (∀ m, m ∈ stored (eng_log e) ∨ m ∈ backlog (eng_log e) → typed m) ∧
  (∀ m, typed m → ∃ r s', on_peer_message fuel m (sys_of e) = (Done r, s')) ∧
  ∃ r s', retry_backlog fuel (sys_of e) = (Done r, s').
Proof.
  intros Hstart Hn Hw Hrun (Hb1 & Hb2 & Hb3) Hfuel.
  pose proof (start_engine_heard i typed _ _ _ _ Hstart Hn Hw eq_refl) as Hh0.
  pose proof (typed_run_heard _ _ _ _ Hrun Hh0) as Hh.
  destruct (start_engine_votes _ _ _ _ Hstart Hn Hw) as [Hok0 _].
  destruct (reachable_ok _ _ _ Hok0 (typed_run_reachable _ _ _ Hrun)) as [(Htol & _) Hsteps%node_steps_height].
  destruct (start_engine_inv _ _ _ _ Hstart Hn) as (_ & Hseq & _).
  change (a_height (abs (sys_of e0))) with (seq_num (pbft_state (sys_of e0))) in Hsteps. rewrite Hseq in Hsteps.
  change (a_height (abs (sys_of e))) with (seq_num (pbft_state (sys_of e))) in Hsteps.
  assert (∀ m, m ∈ stored (eng_log e) ∨ m ∈ backlog (eng_log e) → typed m) as Htyped.
  { intros m [Hm|Hm]; eapply origin_typed; [by apply (heard_log _ _ _ Hh)|by apply (heard_backlog _ _ _ Hh)]. }
  assert (∀ m s, typed m → pbft_state s = pbft_state (sys_of e) → stored (msg_log s) = stored (eng_log e) →
            ∃ r s', on_peer_message fuel m s = (Done r, s')) as Hreturns.
  { intros m s Hm Hst Hlog. destruct (message_returns fuel m s) as (r & s' & Hr & _); [done|done|..].
    - by rewrite Hst.
    - intros x. rewrite Hlog. intros Hx. apply Htyped. by left.
    - rewrite Hst. lia.
    - by rewrite Hst.
    - by exists r, s'. }
  split; [done|]. split; [intros m Hm; by apply Hreturns|].
  unfold retry_backlog. rewrite run_get_log. unfold pop_backlog. change (msg_log (sys_of e)) with (eng_log e).
  destruct (backlog (eng_log e)) as [|m ms] eqn:Hbl; rewrite run_modify_log; [by eexists _, _|].
  apply Hreturns; [|done|done]. apply Htyped. right. by left.
Qed.
End typed.
