(* ===== verification/Survival.v ===== *)
(** * What an engine survives

    Every operation of the node returns, with or without an error, in an
    environment in which the validator serves the settings and its blocks and
    messages are decent ([configured], [hospitable], [decent]).  The invariant is
    one of plain data: it does not say that the node is right, only that no
    operation on it panics.  At the end, what a node does not survive. *)

From S2P Require Import Prelude HashSet MessageType Wire Service Errors Messages.
From S2P Require Import Timing Config NodeState MessageLog Sys Handlers Node NodeFrames.
From S2P Require Import Storage Engine NodeInvariants Protocol Refinement BlockCommit Seals.
From S2P Require Import Termination Safety Totality EngineTheorems.

(** ** Runs that end, in stages *)

Section ends.
Context {S : Type}.
Implicit Types (I J : S → Prop) (s : S).

Lemma ends_weaken {A} I J (m : SM S A) s : (∀ s', I s' → J s') → ends_in I m s → ends_in J m s.
Proof. intros HIJ (a & s' & Hm & Hs). exists a, s'. auto. Qed.

Lemma ends_seq {A B} I J (m : SM S A) (k : A → SM S B) s :
  ends_in J m s → (∀ a s', J s' → ends_in I (k a) s') → ends_in I (m ≫= k) s.
Proof. intros (a & s' & Hm & Hs) Hk. unfold ends_in. rewrite (run_bind_done _ _ _ _ _ Hm). by apply Hk. Qed.

Lemma ends_try_seq {A B E} I J (m : SM S (Result A E)) (k : A → SM S (Result B E)) s :
  (∀ s', J s' → I s') → ends_in J m s → (∀ a s', J s' → ends_in I (k a) s') → ends_in I (try_bind k m) s.
Proof. intros HJ Hm Hk. eapply ends_seq; [exact Hm|]. intros [a|e] s' Hs; [by apply Hk|by apply ends_ret, HJ]. Qed.

Lemma ends_frame {A} I (R : relation S) (m : SM S A) s :
  ends_in I m s → respects R m → ends_in (λ s', I s' ∧ R s s') m s.
Proof. intros (a & s' & Hm & Hs) HR. exists a, s'. split_and!; [done..|]. specialize (HR s). by rewrite Hm in HR. Qed.
End ends.

(** ** The invariant *)

(** Messages in the backlog: none of them changes the view. *)
Definition calm (m : ParsedMessage) : Prop := typed m ∧ msg_type_of m ≠ ViewChange.

(** A block with a successor. *)
Definition numbered (b : PbftBlock) : Prop := pb_block_num b + 1 < two64.

(** A node at a height of at most [n] in a view of at most [v]. *)
Record fit (n v : N) (s : Sys) : Prop := {
  fit_good : good v calm numbered s;
  fit_seq : 1 ≤ seq_num (pbft_state s) ≤ n;
  fit_period : forced_view_change_period (pbft_state s) ≠ 0
}.

Lemma fit_le n v n' v' s : n ≤ n' → v ≤ v' → fit n v s → fit n' v' s.
Proof. intros Hn Hv [[] ? ?]. split; [split|..]; auto; lia. Qed.

(** Numbers of peers as the settings give them. *)
Definition enough_peers (peers : list PeerId) : Prop := 4 ≤ len peers ∧ len peers < two64.

Section environment.
Context `{Externals}.

(** The validator answers for the settings, with enough peers. *)
Definition hospitable : Prop := ∀ h id, ∃ peers, peers_at h id peers ∧ enough_peers peers.

(** The parts of a vote that checking it depends on. *)
Definition decent_vote (v : N) (vote : PbftSignedCommitVote) : Prop :=
  (∀ header, header_of_bytes (sv_header_bytes vote) = Ok header →
     is_Some (public_key_from_hex (hex_encode (ph_signer_id header)))) ∧
  ∀ m, message_of_bytes (sv_message_bytes vote) = Ok m →
    mi_view (pm_get_info m) ≤ v ∧ numbered (pm_get_block m).

(** A block whose seal, if it has one, names the parent or an id that can be
    printed, and has keys that parse and no views above [v]. *)
Record decent_block (v : N) (block : Block) : Prop := {
  db_num : bk_block_num block + 1 < two64;
  db_seal seal : seal_of_bytes (bk_payload block) = Ok seal →
    (ps_previous_id seal = bk_previous_id block ∨
     3 ≤ length (ps_previous_id seal) ∧ 3 ≤ length (bk_previous_id block))%nat ∧
    Forall (decent_vote v) (ps_previous_commit_votes seal)
}.

(** Updates that an engine survives. *)
Definition decent (v : N) (u : Result Update RecvTimeoutError) : Prop :=
  match u with
  | Ok (UpdateBlockNew block) => decent_block v block
  | Ok (UpdatePeerMessage message _) => ∀ m, from_peer_message message false = Ok m → typed m ∧ within v m
  | _ => True
  end.
End environment.

Section survival.
Context `{Externals} `{!CodecLaws}.
Implicit Types (s : Sys) (m : ParsedMessage) (n v : N).

Lemma fit_state n v n' v' s s' :
  st_f (pbft_state s') = st_f (pbft_state s) → peer_ids (pbft_state s') = peer_ids (pbft_state s) →
  stored (msg_log s') = stored (msg_log s) → backlog (msg_log s') = backlog (msg_log s) →
  forced_view_change_period (pbft_state s') = forced_view_change_period (pbft_state s) →
  working_block (pbft_state s') = working_block (pbft_state s) ∨ working_block (pbft_state s') = None →
  1 ≤ seq_num (pbft_state s') ≤ n' → view (pbft_state s') ≤ v' → fit n v s → fit n' v' s'.
Proof.
  intros Hf Hp Hl Hb Hper Hw Hn Hv [[Hs Hlog _ Hbl Hwb] _ Hper0]. split; [split|done|congruence].
  - revert Hs. unfold sized, tolerant. by rewrite Hf, Hp.
  - by rewrite Hl.
  - done.
  - by rewrite Hb.
  - intros b. destruct Hw as [-> | ->]; [apply Hwb|done].
Qed.

(** An update of fields that [fit] does not look at, or looks at for bounds. *)
Ltac fit_same Hs := pose proof Hs as [[] ? _]; eapply fit_state; [..|exact Hs]; cbn; auto; lia.

Lemma fit_call n v c s : fit n v s → fit n v (set_service (service s ++ [c]) s).
Proof. intros Hs. fit_same Hs. Qed.

Lemma fit_switch n v p s : fit n v s → fit n v (set_state (switch_phase p (pbft_state s)).2 s).
Proof.
  intros Hs. destruct (switch_phase_cases p (pbft_state s)) as [->|[_ ->]]; fit_same Hs.
Qed.

Lemma fit_log n v l s :
  (∀ m, m ∈ stored l → m ∈ stored (msg_log s)) → backlog l = backlog (msg_log s) → fit n v s → fit n v (set_log l s).
Proof. intros Hl Hb [[] ? ?]. split; [split|..]; cbn; rewrite ?Hb; auto. Qed.

Lemma fit_add n v m s : storable numbered m → fit n v s → ends_in (fit n v) (log_add_message m) s.
Proof.
  intros Hm [Hg Hn Hp]. apply ends_weaken with (λ s', good v calm numbered s' ∧ pbft_state s' = pbft_state s).
  - intros s' [? Hst]. split; by rewrite ?Hst.
  - destruct (good_add v calm numbered m s Hm Hg) as (a & s' & Hr & Hs'). exists a, s'. split_and!; [done..|].
    pose proof (add_message_state m s) as Hst. by rewrite Hr in Hst.
Qed.

(** What handlers of peer messages leave alone. *)
Lemma fit_of_good {A} n v v' (m : SM Sys A) s :
  fit n v s → respects (frame height_part) m → respects (frame fixed_part) m →
  ends_in (good v' calm numbered) m s → ends_in (fit n v') m s.
Proof.
  intros [_ Hn Hp] Hh Hf Hm. eapply ends_weaken; [|eapply ends_frame; [eapply ends_frame; [exact Hm|exact Hh]|exact Hf]].
  intros s' [[Hg Hheight] Hfixed]. split; [done|..].
  - injection Hheight as <- _ _. done.
  - injection Hfixed as _ <- _ _. done.
Qed.

Lemma good_le v v' s : v ≤ v' → good v calm numbered s → good v' calm numbered s.
Proof. intros Hv []. split; auto. lia. Qed.

(** ** Handlers of peer messages *)

Lemma calm_pre_prepare m : msg_type_of m = PrePrepare → typed m → calm m.
Proof. intros Ht Hm. split; [done|]. by rewrite Ht. Qed.

Section peer_messages.
Context (fuel : nat) (Hfuel : (2 ≤ fuel)%nat).

Lemma message_fit n v m s :
  typed m → within (v + 1) m → v + 1 < two64 → fit n v s → ends_in (fit n (v + 1)) (on_peer_message fuel m) s.
Proof.
  intros Hm Hw Hv Hs. eapply fit_of_good; [exact Hs|..].
  - apply respects_on_peer_message; [apply _|apply height_effects].
  - apply respects_on_peer_message; [apply _|apply fixed_effects].
  - pose proof Hs as [Hg [Hn _] _]. pose proof (good_view _ _ _ _ Hg).
    apply on_peer_message_total; [apply calm_pre_prepare|done..| |].
    + eapply good_le; [|exact Hg]. lia.
    + right. lia.
Qed.

Lemma calm_message_fit n v m s : calm m → fit n v s → ends_in (fit n v) (on_peer_message fuel m) s.
Proof.
  intros [Hm Hvc] Hs. eapply fit_of_good; [exact Hs|..].
  - apply respects_on_peer_message; [apply _|apply height_effects].
  - apply respects_on_peer_message; [apply _|apply fixed_effects].
  - apply on_peer_message_total; [apply calm_pre_prepare|done..|by intros ?|apply Hs|done].
Qed.

Lemma propose_fit n v s : v + 1 < two64 → fit n v s → ends_in (fit n (v + 1)) (propose_view_change fuel) s.
Proof.
  intros Hv Hs. eapply fit_of_good; [exact Hs|..].
  - apply respects_propose_view_change; [apply _|apply height_effects].
  - apply respects_propose_view_change; [apply _|apply fixed_effects].
  - pose proof Hs as [Hg [Hn _] _]. pose proof (good_view _ _ _ _ Hg).
    apply propose_view_change_total; [apply calm_pre_prepare|done..|eapply good_le; [|exact Hg]; lia|]. right. lia.
Qed.

(** Messages of a node's own, but for proposals of a view change. *)
Lemma broadcast_fit n v num t b s :
  t ≠ Prepare → t ≠ ViewChange → fit n v s →
  ends_in (fit n v) (broadcast_pbft_message (broadcast_message (on_peer_message fuel)) num t b) s.
Proof.
  intros Hp Ht Hs. eapply fit_of_good; [exact Hs|..].
  - apply respects_broadcast_own; [apply _|apply height_effects|done].
  - apply respects_broadcast_own; [apply _|apply fixed_effects|done].
  - apply broadcast_total; [done..| |apply Hs].
    intros m s' Hm Hty Hg. apply on_peer_message_total; [apply calm_pre_prepare|done..| |done|]; intros ?; congruence.
Qed.

Lemma on_block_valid_fit n v id s : fit n v s → ends_in (fit n v) (on_block_valid fuel id) s.
Proof.
  intros Hs. apply ends_get_state. eapply ends_try; [by apply ends_ret|].
  intros b s1 [= _ <-] _. apply ends_switch, broadcast_fit; [done..|]. by apply fit_switch.
Qed.
End peer_messages.

(** ** Committed blocks *)

Section served.
Context (Hserves : hospitable).

Lemma get_peers_run id s :
  ∃ peers, get_peers_at id s = (Done peers, set_service (service s ++ [GetSettings id [peers_key]]) s) ∧ enough_peers peers.
Proof. destruct (Hserves (service s) id) as (peers & Hp & He). exists peers. split; [by apply get_peers_at_inv|done]. Qed.

Lemma update_membership_fit n v id s : fit n v s → ends_in (fit n v) (update_membership id) s.
Proof.
  intros Hs. unfold update_membership. destruct (get_peers_run id s) as (peers & Hrun & Hge & Hlt).
  apply (fit_call n v (GetSettings id [peers_key])) in Hs. revert Hrun Hs. generalize (set_service (service s ++ [GetSettings id [peers_key]]) s).
  intros s1 Hrun Hs. unfold ends_in. rewrite (run_bind_done _ _ _ _ _ Hrun). apply ends_get_state. cbv zeta.
  case_decide; [|by apply ends_ret]. apply ends_modify_state.
  assert (1 ≤ (len peers - 1) / 3) by (apply N.div_le_lower_bound; lia).
  apply (ends_lift _ _ _ _ ((len peers - 1) / 3)); [unfold max_faulty; by rewrite u64_sub_small by lia|].
  rewrite bool_decide_false by lia. apply ends_modify_state, ends_ret.
  destruct Hs as [[] ? ?]. split; [split|..]; try done.
Qed.

Lemma force_view_change_fit n v s : v + 1 < two64 → fit n v s → ends_in (fit n (v + 1)) force_view_change s.
Proof.
  intros Hv Hs. pose proof Hs as [Hg Hn _]. pose proof (good_view _ _ _ _ Hg) as Hvs. unfold force_view_change. apply ends_get_state.
  apply (ends_lift _ _ _ _ (view (pbft_state s) + 1)); [apply u64_add_small; lia|]. apply ends_modify_state.
  destruct (good_primary v calm numbered s (view (pbft_state s) + 1) Hg) as [p Hp].
  unfold check_is_primary. set (s1 := set_state (set_view (view (pbft_state s) + 1) (pbft_state s)) s).
  change (get_primary_id (pbft_state s1) = Done p) in Hp.
  exists tt, (roled p s1). split; [|unfold roled; fit_same Hs].
  rewrite run_bind, run_get_state, (run_lift_done _ _ _ _ Hp), run_ret. apply run_become.
Qed.

Lemma next_working_block n v num s :
  fit n v s → ∃ wb,
    match head (get_messages_of_type_seq (msg_log s) BlockNew num) with
    | Some msg => b ← get_block msg; Done (Some b)
    | None => Done None
    end = Done wb ∧ ∀ b, wb = Some b → numbered b.
Proof.
  intros [Hg _ _]. destruct (head _) as [m|] eqn:Hh; [|by exists None].
  apply head_elem_of, elem_of_type_seq in Hh as [[Ht _] Hin]. destruct (good_log _ _ _ _ Hg m Hin) as [Hty Hq].
  assert (msg_type_of m = BlockNew) as Hbn by (unfold msg_type_of; by rewrite Ht).
  destruct (typed_block m _ Hbn) as [b Hb]; [done..|]. exists (Some b). rewrite Hb. split; [done|].
  intros b' [= <-]. by apply Hq.
Qed.

Lemma forced_done n v s : fit n v s → ∃ r, at_forced_view_change (pbft_state s) = Done r.
Proof.
  intros [_ _ Hp]. unfold at_forced_view_change. case_bool_decide; [|by eexists].
  rewrite u64_rem_pos by lia. by eexists.
Qed.

Lemma garbage_collect_fit n v id s l :
  garbage_collect (seq_num (pbft_state s)) id (msg_log s) = Done l → fit n v s → fit n v (set_log l s).
Proof.
  intros Hgc. apply fit_log.
  - intros m. by apply (garbage_collect_stored _ _ _ _ _ Hgc).
  - by apply garbage_collect_max in Hgc as [_ ->].
Qed.

Lemma on_block_commit_fit n v id s :
  n + 1 < two64 → v + 1 < two64 → fit n v s → ends_in (fit (n + 1) (v + 1)) (on_block_commit id) s.
Proof.
  intros Hn Hv Hs. assert (fit (n + 1) (v + 1) s) as Hs' by by eapply fit_le; [..|exact Hs]; lia.
  unfold on_block_commit. apply ends_get_state. cbv zeta. case_decide; [by apply ends_ret|].
  destruct (negb _); [by apply ends_ret|]. clear Hs'. apply ends_switch. pose proof (fit_seq _ _ _ Hs) as Hseq.
  apply (fit_switch _ _ PrePreparing) in Hs. revert Hs. generalize (set_state (switch_phase PrePreparing (pbft_state s)).2 s).
  intros s1 Hs. apply (ends_lift _ _ _ _ (seq_num (pbft_state s) + 1)); [apply u64_add_small; lia|].
  apply ends_modify_state, ends_get_log. set (s2 := set_state _ s1).
  assert (fit (n + 1) v s2) as Hs2 by (fit_same Hs).
  destruct (next_working_block (n + 1) v (seq_num (pbft_state s) + 1) s2 Hs2) as (wb & Hwb & Hnum).
  apply (ends_lift _ _ _ _ wb); [exact Hwb|]. apply ends_modify_state, ends_get_state.
  set (s3 := set_state _ s2). assert (fit (n + 1) v s3) as Hs3 by (destruct Hs2 as [[] ? ?]; split; [split|..]; auto).
  destruct (forced_done _ _ _ Hs3) as [forced Hforced]. apply (ends_lift _ _ _ _ forced); [done|].
  apply (ends_seq _ (fit (n + 1) v)); [destruct forced; [by apply ends_ret|by apply update_membership_fit]|].
  intros change s4 Hs4. apply (ends_seq _ (fit (n + 1) (v + 1))).
  { destruct change; [by apply force_view_change_fit|]. apply ends_ret. eapply fit_le; [..|exact Hs4]; lia. }
  intros _ s5 Hs5. apply ends_get_state, ends_get_log.
  destruct (garbage_collect_done (seq_num (pbft_state s5)) id (msg_log s5)) as (l & Hl & _); [apply Hs5|].
  apply (ends_lift _ _ _ _ l); [done|]. apply (ends_seq _ (fit (n + 1) (v + 1))).
  { apply ends_modify. by eapply garbage_collect_fit. }
  intros _ s6 Hs6. apply (ends_seq _ (fit (n + 1) (v + 1))).
  { eexists _, _. split; [done|]. fit_same Hs6. }
  intros _ s7 Hs7. apply ends_get_state.
  destruct (_ && _); [by apply ends_call, ends_ret, fit_call|by apply ends_ret].
Qed.

(** ** New blocks *)

Lemma verify_vote_returns v vote seal :
  decent_vote v vote → ∃ r, verify_consensus_vote vote seal = Done r.
Proof.
  intros [Hkey _]. unfold verify_consensus_vote. destruct (message_of_bytes _); [|by eexists].
  case_decide; [by eexists|]. destruct (header_of_bytes _) as [header|]; [|by eexists].
  destruct (Hkey header eq_refl) as [key ->]. split_match; by eexists.
Qed.

Lemma verify_votes_returns v vs seal ids :
  Forall (decent_vote v) vs → ∃ r, verify_votes vs seal ids = Done r.
Proof.
  intros Hvs. revert ids. induction Hvs as [|vote vs Hv _ IH]; intros ids; [by eexists|]. cbn -[verify_consensus_vote].
  destruct (verify_vote_returns v vote seal Hv) as [[id|e] Hr]; unfold try_bind; rewrite Hr, done_bind; [apply IH|by eexists].
Qed.

(** Checking a seal returns; if there is none, the block is one of the first two. *)
Lemma verify_seal_returns n v block s :
  decent_block v block → fit n v s →
  ∃ r s', verify_consensus_seal block s = (Done r, s') ∧ fit n v s' ∧
    (r = Ok None → bk_block_num block < 2).
Proof.
  intros [_ Hseal] Hs. unfold verify_consensus_seal.
  case_bool_decide as Hlow; [by eexists _, _|]. case_decide; [by eexists _, _|].
  destruct (seal_of_bytes (bk_payload block)) as [seal|e] eqn:Hof; [|by eexists _, _].
  destruct (Hseal seal eq_refl) as [Hid Hvotes]. cbn [map_err]. rewrite run_try_ret_ok.
  case_decide.
  { destruct Hid as [?|[Hid Hprev]]; [done|]. rewrite !(run_lift_done _ _ _ _ (slice_prefix_done 3 _ Hid)), (run_lift_done _ _ _ _ (slice_prefix_done 3 _ Hprev)).
    by eexists _, _. }
  case_decide; [by eexists _, _|]. rewrite run_try. unfold sm_lift at 1.
  destruct (verify_votes_returns v _ seal ∅ Hvotes) as [[ids|e] ->]; [|by eexists _, _].
  destruct (get_peers_run (bk_previous_id block) s) as (peers & Hpeers & _).
  rewrite (run_bind_done _ _ _ _ _ Hpeers). cbv zeta. apply (fit_call _ _ (GetSettings (bk_previous_id block) [peers_key])) in Hs.
  case_decide; [by eexists _, _|]. rewrite run_get_state.
  destruct (fit_good _ _ _ Hs) as [[Htol%tolerant_f Hlt]]. set (s1 := set_service _ s) in *.
  assert (u64_mul 2 (st_f (pbft_state s1)) = Done (2 * st_f (pbft_state s1))) as Hmul by (apply u64_mul_small; lia).
  rewrite (run_lift_done _ _ _ _ Hmul). case_bool_decide; by eexists _, _.
Qed.

(** ** Catching up *)

(** A message taken from a vote. *)
Definition vote_message v m : Prop :=
  ∃ pm, message m = WMessage pm ∧ mi_view (pm_get_info pm) ≤ v ∧ numbered (pm_get_block pm).

Lemma vote_message_storable v m : vote_message v m → storable numbered m.
Proof.
  intros (pm & Hm & _ & Hn). unfold storable, typed, get_block. rewrite Hm. split; [by eexists|].
  by intros b _ [= <-].
Qed.

Lemma parse_votes_returns v vs :
  Forall (decent_vote v) vs →
  ∃ r, parse_votes vs = Done r ∧ ∀ ms, r = Ok ms → length ms = length vs ∧ Forall (vote_message v) ms.
Proof.
  induction 1 as [|vote vs [_ Hv] _ (r & Hr & IH)]; [exists (Ok []); split; [done|by intros ? [= <-]]|]. cbn.
  destruct (message_of_bytes _) as [pm|e]; [|by eexists; split].
  destruct (from_pbft_message_done pm) as (bs & _ & ->). rewrite done_bind. unfold try_bind. rewrite Hr, done_bind.
  destruct r as [ms|e]; [|by eexists; split]. eexists. split; [done|]. intros ? [= <-].
  destruct (IH ms eq_refl) as [Hlen Hms]. split; [cbn; by rewrite Hlen|]. constructor; [|done].
  exists pm. split; [done|]. by apply Hv.
Qed.

Lemma add_all_fit n v ms s : Forall (storable numbered) ms → fit n v s → ends_in (fit n v) (add_all_messages ms) s.
Proof.
  intros Hms. revert s. induction Hms as [|m ms Hm _ IH]; intros s Hs; [by apply ends_ret|]. cbn.
  apply ends_try; [by apply fit_add|]. auto.
Qed.

Lemma commit_fit n v m b s : get_block m = Done b → fit n v s → ends_in (fit n v) (commit m) s.
Proof.
  intros Hb Hs. apply (ends_lift _ _ _ _ b); [done|]. apply ends_call, ends_try; [by apply ends_ret, fit_call|].
  intros _ s1 _ Hs1. apply ends_switch, ends_ret. by apply fit_switch.
Qed.

Lemma catchup_fit n v block seal s :
  n + 1 < two64 → v + 1 < two64 →
  seal_of_bytes (bk_payload block) = Ok seal → ps_previous_commit_votes seal ≠ [] →
  Forall (decent_vote v) (ps_previous_commit_votes seal) →
  fit n v s → ends_in (fit (n + 1) (v + 1)) (catchup block) s.
Proof.
  intros Hn Hv Hof Hne Hvotes Hs. assert (∀ s, fit n v s → fit (n + 1) (v + 1) s) as Hup.
  { intros s'. apply fit_le; lia. }
  unfold catchup. apply ends_get_state. apply (ends_try_seq _ (fit n v)); [done|..].
  { destruct (working_block (pbft_state s)) as [wb|] eqn:Hwb; [|by apply ends_ret].
    pose proof (good_working _ _ _ _ (fit_good _ _ _ Hs) wb Hwb).
    apply (ends_lift _ _ _ _ (pb_block_num wb + 1)); [by apply u64_add_small|]. by apply ends_ret. }
  intros _ s1 Hs1. rewrite Hof. cbn [map_err]. apply ends_try; [by apply ends_ret, Hup|]. intros ? s2 [= <- <-] _.
  destruct (parse_votes_returns v _ Hvotes) as (r & Hr & Hms). rewrite Hr.
  destruct r as [ms|e]; [|eexists _, _; split; [done|by apply Hup]].
  destruct (Hms ms eq_refl) as [Hlen Hall]. unfold try_bind at 1. eapply ends_lift; [done|]. cbn.
  destruct ms as [|first ms]; [by destruct (ps_previous_commit_votes seal)|].
  pose proof (Forall_inv Hall) as (pm & Hpm & Hpv & _).
  assert (get_block first = Done (pm_get_block pm)) as Hb by (unfold get_block; by rewrite Hpm).
  apply ends_get_state. apply (ends_seq _ (fit n v)).
  { case_bool_decide; [|by apply ends_ret]. apply ends_modify. unfold info. rewrite Hpm. fit_same Hs1. }
  intros _ s2 Hs2. apply (ends_try_seq _ (fit n v)); [done|apply add_all_fit; [|done]|].
  { by eapply Forall_impl; [|apply vote_message_storable]. }
  intros _ s3 Hs3. apply ends_modify_state. set (s4 := set_state _ s3). assert (fit n v s4) as Hs4 by fit_same Hs3.
  unfold as_msg_type, get_pbft_message. rewrite Hpm. eapply ends_lift; [done|].
  apply (ends_try_seq _ (fit n v)); [done|by eapply commit_fit|].
  intros _ s5 Hs5. apply (ends_lift _ _ _ _ _ Hb). apply (ends_seq _ (fit (n + 1) (v + 1))); [by apply on_block_commit_fit|].
  intros _ s6 Hs6. by apply ends_ret.
Qed.

(** ** New blocks, as a whole *)

Context (fuel : nat) (Hfuel : (2 ≤ fuel)%nat).

(** What catching up on a block needs of its seal. *)
Definition sealed (block : Block) : Prop :=
  ∃ seal, seal_of_bytes (bk_payload block) = Ok seal ∧ ps_previous_commit_votes seal ≠ [].

(** A seal that passes the check has votes. *)
Lemma accepted_sealed n v block s s' seal :
  fit n v s → verify_consensus_seal block s = (Done (Ok (Some seal)), s') → sealed block.
Proof.
  intros Hs [[_ _ Hof _ _ (voters & peers & q & Hvotes & _ & _ & Hq & Hsize)] _]%verify_seal_sound. exists seal. split; [done|].
  intros Hnil. rewrite Hnil in Hvotes. apply Forall2_nil_inv_l in Hvotes as ->. cbn in Hsize.
  destruct (fit_good _ _ _ Hs) as [[Htol%tolerant_f Hlt]]. rewrite u64_mul_small in Hq by lia. injection Hq as <-.
  rewrite size_empty in Hsize. lia.
Qed.

Lemma announce_fit n v block s :
  n + 1 < two64 → v + 1 < two64 → decent_block v block → (2 ≤ bk_block_num block → sealed block) →
  fit n v s → ends_in (fit (n + 1) (v + 1)) (announce_block (catchup block) fuel block) s.
Proof.
  intros Hn Hv Hdec Hsealed Hs. assert (∀ s, fit n v s → fit (n + 1) (v + 1) s) as Hup.
  { intros s'. apply fit_le; lia. }
  unfold announce_block. apply ends_get_state. cbv zeta. set (pm := mkPbftMessage _ _).
  destruct (from_pbft_message_done pm) as (bs & _ & Hpm). eapply ends_lift; [exact Hpm|].
  apply (ends_try_seq _ (fit n v)); [done|apply fit_add; [|done]|].
  { split; [intros _; by eexists|]. intros b _ [= <-]. apply Hdec. }
  intros _ s1 Hs1. pose proof (fit_seq _ _ _ Hs). apply (ends_lift _ _ _ _ (seq_num (pbft_state s) + 1)); [apply u64_add_small; lia|].
  case_decide as Hc.
  - destruct Hsealed as (seal & Hof & Hne); [lia|]. eapply catchup_fit; [done..| |done]. by eapply db_seal.
  - case_decide; [|by apply ends_ret, Hup]. apply ends_modify_state. set (s2 := set_state _ s1).
    assert (fit n v s2) as Hs2.
    { destruct Hs1 as [[] ? ?]. split; [split|..]; try done. intros b [= <-]. apply Hdec. }
    apply ends_get_state. destruct (is_primary _); [|by apply ends_ret, Hup].
    eapply ends_weaken; [exact Hup|]. by apply broadcast_fit.
Qed.

Lemma fail_block_fit n v block err s :
  v + 1 < two64 → fit n v s → ends_in (fit n (v + 1)) (fail_block fuel block err) s.
Proof.
  intros Hv Hs. unfold fail_block. apply ends_call. apply (ends_try_seq _ (fit n v)).
  - intros s'. apply fit_le; lia.
  - by apply ends_ret, fit_call.
  - intros _ s1 Hs1. apply (ends_try_seq _ (fit n (v + 1))); [done|by apply propose_fit|]. intros. by apply ends_ret.
Qed.

Lemma on_block_new_fit n v block s :
  n + 1 < two64 → v + 1 < two64 → decent_block v block → fit n v s →
  ends_in (fit (n + 1) (v + 1)) (on_block_new fuel block) s.
Proof.
  intros Hn Hv Hdec Hs. assert (∀ s, fit n v s → fit (n + 1) (v + 1) s) as Hup.
  { intros s'. apply fit_le; lia. }
  rewrite on_block_new_catchup. unfold on_block_new_with. apply ends_get_state.
  destruct (bool_decide _); [by apply ends_ret, Hup|].
  destruct (verify_seal_returns n v block s Hdec Hs) as (r & s1 & Hr & Hs1 & Hnone).
  unfold ends_in. rewrite (run_bind_done _ _ _ _ _ Hr). destruct r as [[seal|]|err].
  - apply (ends_try_seq _ (fit n v)); [done|..].
    + apply ends_bind; [|intros; by apply ends_ret]. apply ends_modify. by apply fit_log.
    + intros _ s2 Hs2. apply announce_fit; try done. intros _. eapply accepted_sealed; [exact Hs|exact Hr].
  - apply (ends_try_seq _ (fit n v)); [done|by apply ends_ret|]. intros _ s2 Hs2. apply announce_fit; try done.
    specialize (Hnone eq_refl). lia.
  - apply ends_try; [eapply ends_weaken; [|by apply fail_block_fit]|].
    + intros s'. apply fit_le; lia.
    + by intros [] s2 ?%fail_block_fails.
Qed.

(** ** Periodic work *)

Lemma build_seal_fit n v summary s : fit n v s → ends_in (fit n v) (build_seal summary) s.
Proof.
  intros Hs. destruct (fit_good _ _ _ Hs) as [[Htol%tolerant_f Hlt]]. pose proof (fit_seq _ _ _ Hs).
  unfold build_seal. apply ends_get_state. apply (ends_lift _ _ _ _ (2 * st_f (pbft_state s))); [apply u64_mul_small; lia|].
  apply (ends_lift _ _ _ _ (seq_num (pbft_state s) - 1)); [apply u64_sub_small; lia|]. apply ends_get_log.
  destruct (get_enough_messages _ _ _ _) as [ms|] eqn:Hms.
  2: { by apply ends_try; [apply ends_ret|]. }
  apply ends_try; [by apply ends_ret|]. intros ? s1 [= <- <-] _.
  apply get_enough_messages_some in Hms as (v' & Hms & Hne & _). destruct ms as [|m ms]; [done|].
  assert (m ∈ received_in_view (msg_log s) Commit (seq_num (pbft_state s) - 1) v') as (Hin & Ht & _)%elem_of_received_in_view
    by (rewrite <- Hms; by left).
  destruct (stored_block v calm numbered s m _ _ _ (fit_good _ _ _ Hs) Hin Ht) as [b Hb]; [done|].
  apply (ends_lift _ _ _ _ b); [done|]. by apply ends_ret.
Qed.

Lemma try_publish_fit n v s : fit n v s → ends_in (fit n v) try_publish s.
Proof.
  intros Hs. unfold try_publish. apply ends_get_state. destruct (_ || _); [by apply ends_ret|]. apply ends_call.
  apply (fit_call _ _ SummarizeBlock) in Hs. destruct (on_summarize_block _); [|by apply ends_ret].
  apply ends_try.
  { case_bool_decide; [by apply ends_ret|by apply build_seal_fit]. }
  intros data s1 _ Hs1. apply ends_call. apply (fit_call _ _ (FinalizeBlock data)) in Hs1.
  split_match; by apply ends_ret.
Qed.

Lemma check_timeout_fit n v s : fit n v s → ends_in (fit n v) check_faulty_primary_timeout_expired s.
Proof.
  intros Hs. unfold check_faulty_primary_timeout_expired. apply ends_get_state. apply (ends_seq _ (fit n v)).
  { case_decide; [|by apply ends_ret]. eexists _, _. split; [done|]. fit_same Hs. }
  intros t s1 Hs1. apply ends_get_state. destruct (check_expired _ _) as [b timeout]. apply ends_modify_state, ends_ret. fit_same Hs1.
Qed.

Lemma retry_backlog_fit n v s : fit n v s → ends_in (fit n v) (retry_backlog fuel) s.
Proof.
  intros Hs. unfold retry_backlog. apply ends_get_log. unfold pop_backlog.
  destruct (backlog (msg_log s)) as [|m ms] eqn:Hbl.
  - apply (ends_seq _ (fit n v)); [by apply ends_modify; destruct s|]. intros. by apply ends_ret.
  - pose proof (good_backlog _ _ _ _ (fit_good _ _ _ Hs) m ltac:(rewrite Hbl; by left)) as Hm.
    apply (ends_seq _ (fit n v)); [apply ends_modify|intros; by apply calm_message_fit].
    destruct Hs as [[? ? ? Hb ?] ? ?]. split; [split|..]; try done. cbn. intros x Hx. apply Hb. rewrite Hbl. by right.
Qed.

(** ** Updates *)

Lemma then_fit {A B} n v (m : SM Sys (Result A PbftError)) (r : Result B PbftError) s :
  ends_in (fit n v) m s → ends_in (fit n v) (try_bind (λ _, mret r) m) s.
Proof. intros Hm. apply ends_try; [done|]. intros. by apply ends_ret. Qed.

Lemma handle_update_fit n v u s :
  n + 1 < two64 → v + 1 < two64 → decent v u → fit n v s → ends_in (fit (n + 1) (v + 1)) (handle_update fuel u) s.
Proof.
  intros Hn Hv Hu Hs. assert (∀ s, fit n (v + 1) s → fit (n + 1) (v + 1) s) as Hup.
  { intros s'. apply fit_le; lia. }
  assert (fit (n + 1) (v + 1) s) as Hs' by (eapply fit_le; [..|exact Hs]; lia).
  destruct u as [[b|id|id|id|m sender| | |]|[]]; cbn [handle_update]; try by apply ends_ret.
  - by apply then_fit, on_block_new_fit.
  - apply then_fit. eapply ends_weaken; [|by apply on_block_valid_fit]. intros s'. apply fit_le; lia.
  - apply then_fit. eapply ends_weaken; [exact Hup|by apply propose_fit].
  - apply (ends_seq _ (fit (n + 1) (v + 1))); [by apply on_block_commit_fit|]. intros. by apply ends_ret.
  - destruct (from_peer_message m false) as [p|e] eqn:Hp; [|by apply ends_try; [apply ends_ret|]].
    destruct (Hu p Hp) as [Hty Hw]. apply ends_try; [by apply ends_ret|]. intros ? s1 [= <- <-] _.
    case_decide; [by apply ends_ret|]. apply then_fit. eapply ends_weaken; [exact Hup|].
    apply message_fit; try done. intros Ht. specialize (Hw Ht). lia.
Qed.

(** ** Iterations *)

Context `{FileSystem} `{Serde PbftState}.
Implicit Types (e : Engine) (u : Result Update RecvTimeoutError).

(** An engine with a fit node, whose state is in memory. *)
Definition fits n v e : Prop := fit n v (sys_of e) ∧ storage_path (eng_state e) = None.

Lemma fits_le n v n' v' e : n ≤ n' → v ≤ v' → fits n v e → fits n' v' e.
Proof. intros Hn Hv [? ?]. split; [by eapply fit_le|done]. Qed.

Lemma ends_with_state {A} n v n' v' (m : SM Sys A) e :
  fits n v e → ends_in (fit n' v') m (sys_of e) → ends_in (fits n' v') (with_state m) e.
Proof.
  intros [_ Hp] (a & s' & Hm & Hs). exists a, (put_sys s' e). unfold with_state, zoom. rewrite Hm.
  split; [done|]. split; [by rewrite sys_of_put|]. cbn [put_sys eng_state].
  by rewrite (storage_path_put (St:=AnyStorage)).
Qed.

Lemma ends_handle_result n v r e : fits n v e → ends_in (fits n v) (handle_pbft_result r) e.
Proof. intros He. destruct r as [|[]]; eexists _, _; by split. Qed.

Lemma ends_now n v e : fits n v e → ends_in (fits n v) engine_now e.
Proof.
  intros He. eapply ends_with_state; [exact He|]. destruct He as [Hs _]. eexists _, _. split; [done|]. fit_same Hs.
Qed.

Lemma ends_tick n v n' v' (cb : SM Engine ()) t e :
  n ≤ n' → v ≤ v' → (∀ e, fits n v e → ends_in (fits n' v') cb e) → fits n v e →
  ends_in (fits n' v') (tick engine_now cb t) e.
Proof.
  intros Hn Hv Hcb He. unfold tick. apply (ends_seq _ (fits n v)); [by apply ends_now|]. intros now1 e1 He1. cbv zeta.
  case_bool_decide; [|apply ends_ret; by eapply fits_le].
  apply (ends_seq _ (fits n' v')); [by apply Hcb|]. intros _ e2 He2.
  apply (ends_seq _ (fits n' v')); [by apply ends_now|]. intros ? e3 He3. by apply ends_ret.
Qed.

Lemma working_callback_fits n v e : v + 1 < two64 → fits n v e → ends_in (fits n (v + 1)) (working_callback fuel) e.
Proof.
  intros Hv He. assert (∀ e, fits n v e → fits n (v + 1) e) as Hup by (intros e'; apply fits_le; lia).
  unfold working_callback. apply (ends_seq _ (fits n v)).
  { eapply ends_with_state; [exact He|]. apply try_publish_fit, He. }
  intros r e1 He1. apply (ends_seq _ (fits n v)); [destruct r; eexists _, _; by split|].
  intros _ e2 He2. apply (ends_seq _ (fits n v)).
  { eapply ends_with_state; [exact He2|]. apply check_timeout_fit, He2. }
  intros expired e3 He3. destruct expired; [|by apply ends_ret, Hup]. apply (ends_seq _ (fits n (v + 1))).
  { eapply ends_with_state; [exact He3|]. apply propose_fit; [done..|apply He3]. }
  intros r' e4 He4. by apply ends_handle_result.
Qed.

Lemma backlog_callback_fits n v e : fits n v e → ends_in (fits n v) (backlog_callback fuel) e.
Proof.
  intros He. apply (ends_seq _ (fits n v)).
  - eapply ends_with_state; [exact He|]. apply retry_backlog_fit, He.
  - intros r e1 He1. by apply ends_handle_result.
Qed.

(** What ends the loop. *)
Definition stops u : Prop := u = Ok UpdateShutdown ∨ u = Err RecvDisconnected.

Lemma handle_update_stops n v u s :
  n + 1 < two64 → v + 1 < two64 → decent v u → fit n v s →
  ∃ r s', handle_update fuel u s = (Done r, s') ∧ fit (n + 1) (v + 1) s' ∧ (r = Ok false ↔ stops u).
Proof.
  intros Hn Hv Hu Hs. destruct (handle_update_fit n v u s) as (r & s' & Hr & Hs'); [done..|].
  exists r, s'. split_and!; [done..|]. destruct r as [again|err].
  - destruct (loop_ends_on_shutdown fuel u s again s' Hr) as [Hiff _]. unfold stops. rewrite <- Hiff. by split; [intros [=]|intros ->].
  - split; [done|]. by intros [-> | ->].
Qed.

(** The two tickers of an iteration. *)
Definition tickers : SM Engine bool :=
  e ← sm_gets eng_working;
  t ← tick engine_now (working_callback fuel) e;
  _ ← sm_modify (set_working t);
  e ← sm_gets eng_backlog;
  t ← tick engine_now (backlog_callback fuel) e;
  _ ← sm_modify (set_backlog_ticker t);
  mret true.

Lemma after_update_tickers r :
  after_update fuel r =
  if decide (r = Ok false) then mret false
  else _ ← match r with Ok _ => mret tt | Err err => handle_pbft_result (Err err) end; tickers.
Proof. by destruct r as [[]|]. Qed.

Lemma tickers_fits n v e : v + 1 < two64 → fits n v e → ends_in (fits n (v + 1)) tickers e.
Proof.
  intros Hv He. apply (ends_seq _ (fits n v)); [by eexists _, _|]. intros t e1 He1.
  apply (ends_seq _ (fits n (v + 1))).
  { eapply ends_tick; [..|exact He1]; [lia..|]. intros. by apply working_callback_fits. }
  intros t1 e2 He2. apply (ends_seq _ (fits n (v + 1))); [by apply ends_modify|].
  intros _ e3 He3. apply (ends_seq _ (fits n (v + 1))); [by eexists _, _|]. intros t2 e4 He4.
  apply (ends_seq _ (fits n (v + 1))).
  { eapply ends_tick; [..|exact He4]; [done..|]. intros. by apply backlog_callback_fits. }
  intros t3 e5 He5. apply (ends_seq _ (fits n (v + 1))); [by apply ends_modify|]. intros. by apply ends_ret.
Qed.

(** What follows the update goes on, but for a stop. *)
Lemma after_update_fits n v r e :
  v + 1 < two64 → fits n v e → ends_in (fits n (v + 1)) (after_update fuel r) e.
Proof.
  intros Hv He. rewrite after_update_tickers. case_decide; [apply ends_ret; eapply fits_le; [..|exact He]; lia|].
  apply (ends_seq _ (fits n v)); [destruct r; [by apply ends_ret|by apply ends_handle_result]|].
  intros _ e1 He1. by apply tickers_fits.
Qed.

Lemma after_update_again r e again e' : after_update fuel r e = (Done again, e') → again = false ↔ r = Ok false.
Proof.
  rewrite after_update_tickers. case_decide; [by intros [= <- _]|]. unfold tickers. intros Hrun.
  do 7 apply bind_done_inv in Hrun as (? & ? & _ & Hrun). by injection Hrun as <- _.
Qed.

Lemma with_guard_fits {A} n v (m : SM Engine A) e :
  ends_in (fits n v) m e → ∃ a e1 e', m e = (Done a, e1) ∧ with_guard m e = (Done a, e') ∧ fits n v e'.
Proof.
  intros (a & e1 & Hm & Hs & Hp). unfold with_guard. rewrite Hm.
  destruct (eng_state e1) as [st|st] eqn:Hst; [|done]. cbn. eexists a, e1, _. split_and!; [done..|].
  split; [exact Hs|]. cbn. by rewrite Hst.
Qed.

Lemma iteration_fits n v u e :
  n + 1 < two64 → v + 2 < two64 → decent v u → fits n v e →
  ∃ again e', iteration fuel u e = (Done again, e') ∧ fits (n + 1) (v + 2) e' ∧ (again = false ↔ stops u).
Proof.
  intros Hn Hv Hu He. pose proof He as [Hs Hp].
  destruct (handle_update_stops n v u (sys_of e)) as (r & s1 & Hr & Hs1 & Hstops); [done|lia|done..|].
  destruct (ends_with_state n v (n + 1) (v + 1) (handle_update fuel u) e He) as (r' & e1 & Hh & He1); [by eexists _, _|].
  assert (r' = r) as ->. { unfold with_state, zoom in Hh. rewrite Hr in Hh. by injection Hh. }
  assert (ends_in (fits (n + 1) (v + 2)) (iteration_body fuel u) e) as Hbody.
  { rewrite iteration_body_after. unfold ends_in. rewrite (run_bind_done _ _ _ _ _ Hh).
    replace (v + 2) with (v + 1 + 1) by lia. apply after_update_fits; [lia|done]. }
  destruct (with_guard_fits _ _ _ _ Hbody) as (again & e2 & e' & Hb & Hit & He'). exists again, e'.
  split_and!; [done..|]. rewrite <- Hstops. rewrite iteration_body_after, (run_bind_done _ _ _ _ _ Hh) in Hb.
  by apply after_update_again in Hb.
Qed.

Lemma decent_le v v' u : v ≤ v' → decent v u → decent v' u.
Proof.
  intros Hv. destruct u as [[b| | | |m sender| | |]|]; try done; cbn.
  - intros [Hn Hs]. split; [done|]. intros seal Hof. destruct (Hs seal Hof) as [? Hall]. split; [done|].
    eapply Forall_impl; [exact Hall|]. intros vote [Hk Hm]. split; [done|]. intros pm Hpm. destruct (Hm pm Hpm). split; [lia|done].
  - intros Hm p Hp. destruct (Hm p Hp) as [? Hw]. split; [done|]. intros Ht. specialize (Hw Ht). lia.
Qed.

Lemma event_loop_fits updates n v e :
  n + len updates < two64 → v + 2 * len updates < two64 → Forall (decent v) updates → fits n v e →
  ∃ again e', event_loop fuel updates e = (Done again, e') ∧
    fits (n + len updates) (v + 2 * len updates) e' ∧ (again = false ↔ Exists stops updates).
Proof.
  revert n v e. induction updates as [|u us IH]; intros n v e; cbn [event_loop].
  - intros _ _ _ He. exists true, e. split_and!; [done|by eapply fits_le; [..|exact He]; lia|]. by rewrite Exists_nil.
  - assert (len (u :: us) = len us + 1) as -> by (unfold len; cbn; lia). intros Hn Hv [Hu Hus]%Forall_cons He.
    destruct (iteration_fits n v u e) as (again & e1 & Hit & He1 & Hstop); [lia|lia|done..|].
    rewrite (run_bind_done _ _ _ _ _ Hit). destruct again.
    + destruct (IH (n + 1) (v + 2) e1) as (again & e2 & Hl & He2 & Hs); [lia|lia| |done|].
      { eapply Forall_impl; [exact Hus|]. intros u'. apply decent_le. lia. }
      exists again, e2. split_and!; [done| |].
      * eapply fits_le; [..|exact He2]; lia.
      * rewrite Hs, Exists_cons. split; [by right|]. intros [Hu'|]; [|done]. by apply Hstop in Hu'.
    + exists false, e1. split_and!; [done|by eapply fits_le; [..|exact He1]; lia|].
      split; [|done]. intros _. left. by apply Hstop.
Qed.

(** ** Starting *)

(** The settings at the head of the chain make a configuration with enough
    peers and a period of forced view changes. *)
Definition configured (head : Block) (w : World) : Prop :=
  ∃ settings config,
    on_get_settings (w_service w) (bk_block_id head) config_keys = Ok settings ∧
    config_of_settings settings = Done config ∧
    enough_peers (cfg_peers config) ∧ cfg_forced_view_change_period config ≠ 0.

Lemma state_new_enough now i num config :
  enough_peers (cfg_peers config) → num + 1 < two64 → ∃ st, state_new now i num config = Done st ∧
    sized st ∧ seq_num st = num + 1 ∧ view st = 0 ∧ working_block st = None ∧
    forced_view_change_period st = cfg_forced_view_change_period config.
Proof.
  intros [Hge Hlt] Hn. unfold state_new, max_faulty. rewrite u64_sub_small, done_bind by lia.
  assert (1 ≤ (len (cfg_peers config) - 1) / 3) by (apply N.div_le_lower_bound; lia).
  rewrite done_bind, bool_decide_false, u64_add_small, done_bind by lia.
  destruct (cfg_peers config) as [|p ps] eqn:Hp; [by unfold len in Hge|]. eexists. by split_and!; [done|split; [split|]|..].
Qed.

Lemma load_config_run id h settings config :
  on_get_settings h id config_keys = Ok settings → config_of_settings settings = Done config →
  load_pbft_config id h = (Done config, h ++ [GetSettings id config_keys]).
Proof.
  intros Hget Hconf. unfold load_pbft_config, svc_get_settings. rewrite run_bind. unfold call. cbn. rewrite Hget.
  unfold sm_lift. by rewrite Hconf.
Qed.

Lemma start_engine_fits i head w :
  configured head w → bk_block_num head + 1 < two64 →
  ∃ e, start_engine i head w = (Done tt, Some e) ∧ fits (bk_block_num head + 1) 0 e.
Proof.
  intros (settings & config & Hget & Hconf & Hpeers & Hper) Hn.
  pose proof (load_config_run _ _ _ _ Hget Hconf) as Hload.
  pose proof (load_config_memory _ _ _ _ Hload) as [Hmem _].
  destruct (state_new_enough (clock_at (w_ticks w)) i (bk_block_num head) config Hpeers Hn)
    as (st & Hst & Hsized & Hseq & Hview & Hwb & Hperiod).
  assert (∃ e0 w', load_engine i head w = (Done e0, w') ∧ pbft_state (sys_of e0) = st ∧
            msg_log (sys_of e0) = log_new config ∧ storage_path (eng_state e0) = None) as (e0 & w' & Hrun & Hst0 & Hlog0 & Hp0).
  { unfold load_engine. rewrite run_bind. unfold zoom at 1. rewrite Hload.
    unfold get_storage. rewrite decide_True by done. rewrite run_bind, run_bind. unfold mem_storage_new, default_state.
    rewrite run_bind, run_bind. unfold world_now at 1. cbn [w_ticks world_put_service]. unfold sm_lift at 1. rewrite Hst.
    rewrite run_ret, run_ret. rewrite run_bind. unfold world_now at 1. rewrite run_bind. unfold world_now at 1.
    rewrite run_bind. unfold zoom at 1, node_new. destruct (is_primary _); eexists _, _; split; done. }
  assert (fits (bk_block_num head + 1) 0 e0) as He0.
  { split; [split; [split|..]|done]; rewrite ?Hst0, ?Hlog0; try done.
    - by intros m Hm%elem_of_nil.
    - by rewrite Hview.
    - by intros m Hm%elem_of_nil.
    - by rewrite Hwb.
    - lia.
    - by rewrite Hperiod. }
  destruct (with_guard_fits (bk_block_num head + 1) 0 (with_state start_faulty_primary_timeout) e0) as ([] & e1 & e & _ & Hg & He).
  - eapply ends_with_state; [exact He0|]. destruct He0 as [Hs _]. eexists _, _. split; [done|]. fit_same Hs.
  - exists e. unfold start_engine. by rewrite Hrun, Hg.
Qed.

End served.
End survival.

(** ** What is not survived *)

Section crashes.
Context `{Externals}.
Implicit Types (s : Sys).

Lemma slice_prefix_short n (l : bytes) : (length l < n)%nat → ∃ e, slice_prefix n l = Panic e.
Proof. intros Hl. unfold slice_prefix. rewrite bool_decide_false by lia. by eexists. Qed.

Lemma on_block_new_panics fuel block s e s' :
  seq_num (pbft_state s) ≤ bk_block_num block → verify_consensus_seal block s = (Panic e, s') →
  on_block_new fuel block s = (Panic e, s').
Proof.
  intros Hn Hv. rewrite on_block_new_catchup. unfold on_block_new_with.
  by rewrite run_get_state, bool_decide_false, run_bind, Hv by lia.
Qed.

(** C17. Conditions of [engine_survives] that updates and settings decide cannot be dropped.  A
    new block, not below the node's height, crashes the node if its seal names a
    parent that is not the block's and one of the two ids is shorter than three
    bytes, and if the first vote of its seal is for the parent and has a header
    with a key that does not parse.  With a period of forced view changes of zero
    the commit of the first finished block crashes it. *)
Theorem what_crashes_a_node fuel block id s :
  (∀ seal, seq_num (pbft_state s) ≤ bk_block_num block → 2 ≤ bk_block_num block → bk_payload block ≠ [] →
     seal_of_bytes (bk_payload block) = Ok seal →
     (ps_previous_id seal ≠ bk_previous_id block ∧ (length (ps_previous_id seal) < 3 ∨ length (bk_previous_id block) < 3)%nat ∨
      ps_previous_id seal = bk_previous_id block ∧ ps_summary seal = bk_summary block ∧
      ∃ vote votes message header,
        ps_previous_commit_votes seal = vote :: votes ∧ message_of_bytes (sv_message_bytes vote) = Ok message ∧
        pb_block_id (pm_get_block message) = ps_previous_id seal ∧
        header_of_bytes (sv_header_bytes vote) = Ok header ∧ public_key_from_hex (hex_encode (ph_signer_id header)) = None) →
     ∃ e, on_block_new fuel block s = (Panic e, s)) ∧
  (forced_view_change_period (pbft_state s) = 0 → phase (pbft_state s) = Finished → is_working_block id (pbft_state s) →
     seq_num (pbft_state s) + 1 < two64 → ∃ e s', on_block_commit id s = (Panic e, s')).
Proof.
  split.
  - intros seal Hn H2 Hpay Hseal Hcases.
    enough (∃ e, verify_consensus_seal block s = (Panic e, s)) as [e Hv] by (exists e; by apply on_block_new_panics).
    unfold verify_consensus_seal. rewrite bool_decide_false, decide_False, Hseal by (done || lia).
    cbn [map_err]. rewrite run_try_ret_ok.
    destruct Hcases as [[Hne Hshort]|(Heq & Hsum & vote & votes & message & header & Hvotes & Hm & Hid & Hh & Hk)].
    + rewrite decide_True by done. rewrite run_bind. unfold sm_lift at 1.
      destruct (slice_prefix 3 (ps_previous_id seal)) eqn:Hs; [|by eexists|].
      * destruct Hshort as [Hl|Hl]; apply slice_prefix_short in Hl as [e He]; [congruence|].
        rewrite run_bind. unfold sm_lift at 1. rewrite He. by eexists.
      * unfold slice_prefix in Hs. by case_bool_decide.
    + rewrite decide_False by tauto. rewrite decide_False by tauto. rewrite Hvotes, run_try.
      cbn [verify_votes]. unfold verify_consensus_vote. rewrite Hm, decide_False, Hh, Hk by tauto. by eexists.
  - intros Hz Hp (blk & Hblk & Hid) Hn. unfold on_block_commit.
    rewrite run_get_state, decide_False by tauto. rewrite Hblk, bool_decide_true by done. cbn [negb].
    rewrite run_switch_phase. unfold switch_phase. rewrite Hp. cbn [next_phase]. rewrite decide_True by done. cbn [snd].
    rewrite (run_lift_done _ _ _ _ (u64_add_small _ _ Hn)), run_modify_state, run_get_log, run_bind. unfold sm_lift at 1.
    destruct (head _) as [m|]; [unfold get_block; destruct (message m)|]; cbn [mbind outcome_bind];
      [|by eexists _, _|].
    all: rewrite run_modify_state, run_get_state, run_bind; unfold sm_lift at 1, at_forced_view_change;
      rewrite bool_decide_true by (cbn; lia); unfold u64_rem; cbn; rewrite Hz; by eexists _, _.
Qed.
End crashes.

