(* ===== verification/Network.v ===== *)
(** * A network of peers

    Peers that are not faulty run the engine, each beside a validator of its
    own.  A step of the free network ([free_step]) is an iteration of one honest
    engine on an update its validator may deliver: faulty peers send anything in
    their own name.  In this network honest logs need not agree
    ([NetworkRuns.votes_signed_twice_fork]): the code counts stored messages, not
    their signers, so a faulty peer makes a quorum of one vote by signing it
    several times; and a seal that is caught up on adds votes in any name.  The
    theorems are about the restricted network ([net_step]), in which no honest
    peer catches up on a sealed block and only admitted updates are delivered:
    for agreement, those in which every peer signs each of its prepares once
    ([signs_once]); for progress (NetworkProgress.v), any.  That honest peers vote once at every height and view, and
    that what is stored in their name was sent by them, is not assumed but
    follows from their code. *)

From stdpp Require Import functions.
From S2P Require Import Prelude HashSet MessageType Wire Service Errors Messages.
From S2P Require Import Timing Config NodeState MessageLog Sys Handlers Node NodeFrames.
From S2P Require Import Storage Engine NodeInvariants Protocol Refinement BlockCommit Votes Safety.
From S2P Require Import Agreement EngineTheorems Origins.

(** The state of the network: the engines of the honest peers. *)
Abbreviation Net := (PeerId → Engine) (only parsing).

(** The contents of the messages a node has broadcast. *)
Definition broadcasts (h : list ServiceCall) : list bytes :=
  omap (λ c, match c with Broadcast _ bs => Some bs | _ => None end) h.

Lemma elem_of_broadcasts bs h : bs ∈ broadcasts h ↔ ∃ t, Broadcast t bs ∈ h.
Proof.
  unfold broadcasts. rewrite list_elem_of_omap. split.
  - intros (c & Hin & Hc). destruct c; try done. injection Hc as <-. by eexists.
  - intros [t Hin]. by exists (Broadcast t bs).
Qed.

(** What the code does not enforce: a peer, faulty or not, signs its prepare for
    a block at a height and view once, so that all copies of it are the one
    message [ballot] gives. *)
Definition signs_once `{Codec} `{Crypto} (ballot : PeerId → N → N → PbftBlock → PeerMessage) (u : Result Update RecvTimeoutError) : Prop :=
  match u with
  | Ok (UpdatePeerMessage message sender_id) =>
      ∀ m b, from_peer_message message false = Ok m → msg_type_of m = Prepare → get_block m = Done b →
        message = ballot sender_id (mi_seq_num (info m)) (mi_view (info m)) b
  | _ => True
  end.

(** [signs_once], computed. *)
Definition is_signed_once `{Codec} `{Crypto} (ballot : PeerId → N → N → PbftBlock → PeerMessage) (u : Result Update RecvTimeoutError) : bool :=
  match u with
  | Ok (UpdatePeerMessage message sender_id) =>
      match from_peer_message message false with
      | Ok m =>
          match get_block m with
          | Done b => bool_decide (msg_type_of m = Prepare → message = ballot sender_id (mi_seq_num (info m)) (mi_view (info m)) b)
          | _ => true
          end
      | Err _ => true
      end
  | _ => true
  end.

Lemma is_signed_once_iff `{Codec} `{Crypto} ballot u : is_signed_once ballot u = true ↔ signs_once ballot u.
Proof.
  destruct u as [[b|id|id|id|message sender| | |]|]; try done. cbn [is_signed_once signs_once]. split.
  - intros Hballot m b Hm Ht Hb. rewrite Hm, Hb, bool_decide_eq_true in Hballot. by apply Hballot.
  - intros Hballot. destruct (from_peer_message message false) as [m|]; [|done].
    destruct (get_block m) as [b| |] eqn:Hb; [|done..]. apply bool_decide_eq_true. intros Ht. by apply Hballot.
Qed.

#[export] Instance signs_once_dec `{Codec} `{Crypto} ballot u : Decision (signs_once ballot u).
Proof. refine (cast_if (decide (is_signed_once ballot u = true))); abstract by rewrite <- is_signed_once_iff. Defined.

(** No restriction. *)
Definition anything (u : Result Update RecvTimeoutError) : Prop := True.

#[export] Instance anything_dec u : Decision (anything u) := left I.

Section network.
(** The peers run one program on one set of libraries; machine, hash seeds,
    validator and clock are their own. *)
Context `{Codec} `{Crypto} `{Json} `{FileSystem} `{Serde PbftState}.
Context (platform : PeerId → Platform) (order : PeerId → HashOrder).
Context (validator : PeerId → Service) (clock : PeerId → Clock).
Context (peers : list PeerId) (faulty : gset PeerId) (fuel : nat).

(** What may be delivered, beyond what validators see to. *)
Context (admits : Result Update RecvTimeoutError → Prop).

Definition env (p : PeerId) : Externals := {|
  ext_platform := platform p; ext_order := order p; ext_codec := _; ext_crypto := _; ext_json := _;
  ext_service := validator p; ext_clock := clock p
|}.

Definition honest (p : PeerId) : Prop := p ∈ peers ∧ p ∉ faulty.

Implicit Types (net : Net) (p q : PeerId) (u : Result Update RecvTimeoutError).

(** What the engine of [p] has stored. *)
Definition log_of net p : list ParsedMessage := stored (eng_log (net p)).

(** What the peer [p] has broadcast. *)
Definition said net p (content : bytes) : Prop := content ∈ broadcasts (eng_service (net p)).

(** Updates the validator of [p] may deliver: it passes on messages of other
    members of the network under their name, and in the name of an honest peer
    only what that peer has broadcast. *)
Definition authentic net p u : Prop :=
  match u with
  | Ok (UpdatePeerMessage message sender_id) =>
      sender_id ∈ peers ∧ sender_id ≠ p ∧
      (sender_id ∉ faulty → said net sender_id (pe_content message))
  | _ => True
  end.

Definition deliverable net p u : Prop := authentic net p u ∧ admits u.

(** A step of the free network. *)
Inductive free_iteration net p u : Net → Prop :=
| free_iteration_done e :
    honest p → authentic net p u → @iteration (env p) _ _ fuel u (net p) = (Done true, e) →
    bounded (sys_of (net p)) → bounded (sys_of e) →
    free_iteration net p u (<[p := e]> net).

(** A step of the restricted network: the update is admitted, and the iteration
    does not catch up. *)
Inductive peer_step net p u : Net → Prop :=
| peer_iteration e :
    honest p → deliverable net p u → @iteration (env p) _ _ fuel u (net p) = (Done true, e) →
    ¬ @catches_up (env p) u (sys_of (net p)) → bounded (sys_of (net p)) → bounded (sys_of e) →
    peer_step net p u (<[p := e]> net).

Lemma peer_step_free net p u net' :
  peer_step net p u net' ↔ free_iteration net p u net' ∧ admits u ∧ ¬ @catches_up (env p) u (sys_of (net p)).
Proof.
  split.
  - intros [e Hp [Ha Hs] Hit Hcu Hb Hb']. by split.
  - intros ([e Hp Ha Hit Hb Hb'] & Hs & Hcu). by constructor.
Qed.

Definition free_step net net' : Prop := ∃ p u, free_iteration net p u net'.

Definition net_step net net' : Prop := ∃ p u, peer_step net p u net'.

Definition net_start net : Prop :=
  ∀ p, honest p → ∃ head w, w_service w = [] ∧ bk_block_num head + 1 < two64 ∧
    @start_engine (env p) _ _ p head w = (Done tt, Some (net p)).

(** ** What every honest engine keeps *)

Definition received net p (m : ParsedMessage) : Prop :=
  ∃ message, from_peer_message message false = Ok m ∧
             deliverable net p (Ok (UpdatePeerMessage message (mi_signer_id (info m)))).

Record peer_ok net p : Prop := {
  peer_node : node_ok (sys_of (net p));
  peer_votes : @votes_good (env p) (sys_of (net p));
  peer_heard : @heard (env p) p (received net p) (sys_of (net p))
}.

Definition net_ok net : Prop := ∀ p, honest p → peer_ok net p.

(** Histories of calls only grow. *)
Definition net_le net net' : Prop := ∀ p, eng_service (net p) `prefix_of` eng_service (net' p).

Lemma received_le net net' p m : net_le net net' → received net p m → received net' p m.
Proof.
  intros Hle (message & Hm & (Hin & Hne & Hsaid) & Hballot). exists message. split; [done|]. split; [|done].
  split_and!; [done..|]. intros Hf. pose proof (Hsaid Hf) as [t Ht]%elem_of_broadcasts.
  apply elem_of_broadcasts. exists t. eapply elem_of_prefix; [apply Hle|done].
Qed.

Lemma heard_weaken e self (received1 received2 : ParsedMessage → Prop) s :
  (∀ m, received1 m → received2 m) → @heard e self received1 s → @heard e self received2 s.
Proof.
  intros Hr [Hi Hc Hl Hb].
  assert (∀ m, @origin e self received1 (service s) m → @origin e self received2 (service s) m) as Ho.
  { intros m [?|[?|?]]; [by left|by right; left|right; right; by apply Hr]. }
  split; auto.
Qed.

Lemma peer_ok_le net net' p : net_le net net' → net p = net' p → peer_ok net p → peer_ok net' p.
Proof.
  intros Hle Hp [Hn Hv Hh]. split; rewrite <- Hp; [done..|].
  eapply heard_weaken; [|exact Hh]. intros m. by apply received_le.
Qed.

Lemma deliverable_delivers net p u : deliverable net p u → @delivers (env p) (received net p) u.
Proof.
  destruct u as [[]|]; try done. intros Hd m Hm <-. by exists message.
Qed.

Context `{!CodecLaws}.

Lemma peer_step_ok net p u net' : peer_step net p u net' → net_ok net → net_ok net' ∧ net_le net net'.
Proof.
  intros [e Hp Hd Hit Hcu Hb Hb'] Hok. destruct (Hok p Hp) as [Hn Hv Hh].
  destruct (heard_iteration (H:=env p) _ _ _ _ _ _ _ Hit (deliverable_delivers _ _ _ Hd) Hcu Hh) as [Hh' Hle].
  assert (net_le net (<[p := e]> net)) as Hgrow.
  { intros q. destruct (decide (p = q)) as [<-|Hne]; [by rewrite fn_lookup_insert|by rewrite fn_lookup_insert_ne]. }
  split; [|done]. intros q Hq. destruct (decide (p = q)) as [<-|Hne].
  - split; rewrite fn_lookup_insert.
    + apply (iteration_step (H:=env p) _ _ _ _ _ Hit Hcu Hb); [apply Hb'|done].
    + by apply (iteration_votes (H:=env p) _ _ _ _ _ Hit Hcu Hb Hn).
    + eapply heard_weaken; [|exact Hh']. intros m. by apply received_le.
  - eapply peer_ok_le; [exact Hgrow|by rewrite fn_lookup_insert_ne|by apply Hok].
Qed.

Lemma net_start_ok net : net_start net → net_ok net.
Proof.
  intros Hstart p Hp. destruct (Hstart p Hp) as (head & w & Hw & Hn & Hrun).
  destruct (start_engine_votes (H:=env p) _ _ _ _ Hrun Hn Hw) as [Hok Hv].
  destruct (start_engine_inv (H:=env p) _ _ _ _ Hrun Hn) as (_ & _ & _ & _ & _ & Hlog & (init & Hs & Hinit) & _ & _ & Hid & Hback).
  split; [done..|]. split; [done|..].
  - intros t bs m Hin. change (service (sys_of (net p))) with (eng_service (net p)) in Hin. rewrite Hs, Hw in Hin.
    exfalso. destruct Hinit as [-> | ->]; cbn in Hin; rewrite !elem_of_cons, elem_of_nil in Hin; by repeat destruct Hin as [Hin|Hin].
  - intros m. rewrite Hlog. by intros ?%elem_of_nil.
  - intros m. rewrite Hback. by intros ?%elem_of_nil.
Qed.

#[local] Instance net_le_preorder : PreOrder net_le.
Proof. split; [by intros net p|]. intros net1 net2 net3 H12 H23 p. etrans; [apply H12|apply H23]. Qed.

Lemma net_steps_ok net net' : rtc net_step net net' → net_ok net → net_ok net' ∧ net_le net net'.
Proof.
  induction 1 as [|net1 net2 net3 (p & u & Hstep) _ IH]; intros Hok; [done|].
  destruct (peer_step_ok _ _ _ _ Hstep Hok) as [Hok2 Hle]. destruct (IH Hok2) as [? Hle']. split; [done|by etrans].
Qed.

Lemma net_reachable_ok net0 net : net_start net0 → rtc net_step net0 net → net_ok net.
Proof. intros Hs%net_start_ok Hr. by apply (net_steps_ok _ _ Hr). Qed.

(** ** Stored prepares are votes of distinct peers *)

Lemma prepare_typed n v m : has_type_seq_view Prepare n v m → mi_msg_type (info m) = "Prepare".
Proof. by intros [Ht _]. Qed.

Lemma prepare_vote_in h bs pm :
  Broadcast "Prepare" bs ∈ h → message_of_bytes bs = Ok pm →
  (mi_seq_num (pm_get_info pm), mi_view (pm_get_info pm), pm_get_block pm) ∈ prepare_votes h.
Proof.
  intros Hin Hbs. apply list_elem_of_omap. exists (Broadcast "Prepare" bs). split; [done|].
  cbn [prepare_vote]. rewrite decide_True by done. by rewrite Hbs.
Qed.

(** A prepare in the log of an honest peer is from a peer of the network and,
    if that one is honest, one of its votes. *)
Lemma stored_prepare net p m n v b :
  net_ok net → honest p → m ∈ log_of net p → has_type_seq_view Prepare n v m → get_block m = Done b →
  mi_signer_id (info m) ∈ peers ∧
  (mi_signer_id (info m) ∉ faulty → (n, v, b) ∈ prepare_votes (eng_service (net (mi_signer_id (info m))))).
Proof.
  intros Hok Hp Hin Ht Hb. pose proof (prepare_typed _ _ _ Ht) as Htype. destruct Ht as (_ & <- & <-).
  pose proof (Hok p Hp) as [_ _ Hh]. apply (heard_log (H:=env p) _ _ _ Hh) in Hin as [[Hbn _]|[Hown|Hrec]].
  - unfold msg_type_of in Hbn. by rewrite Htype in Hbn.
  - destruct Hown as [i blk bs Hi Hbs Hc|i seal bs Hi Hvc _ _]; [|cbn in Htype, Hvc; congruence].
    cbn in Htype, Hb. injection Hb as <-. unfold info. cbn. rewrite Hi. split; [apply Hp|]. intros _.
    destruct (message_roundtrip (mkPbftMessage (Some i) (Some blk))) as (bs' & Hbs' & Hr).
    cbn in Hbs. rewrite Hbs in Hbs'. injection Hbs' as <-. rewrite Htype in Hc. exact (prepare_vote_in _ _ _ Hc Hr).
  - destruct Hrec as (message & Hm & (Hq & _ & Hsaid) & _). split; [done|]. intros Hf.
    pose proof (Hsaid Hf) as [t Hc]%elem_of_broadcasts. destruct (Hok (mi_signer_id (info m)) (conj Hq Hf)) as [_ _ Hhq].
    apply from_peer_message_ok in Hm as (Hw & _). apply get_block_done in Hb as (pm & Hpm & ->).
    rewrite Hpm in Hw. apply parse_wrapper_inv in Hw. unfold info in Htype. rewrite Hpm in Htype.
    pose proof (heard_calls (H:=env _) _ _ _ Hhq _ _ _ Hc Hw) as [Ht _]. rewrite Htype in Ht. subst t.
    unfold info at 1 2. rewrite Hpm. exact (prepare_vote_in _ _ _ Hc Hw).
Qed.

(** ** Prepares that are signed once *)

Section signed_once.
Context (ballot : PeerId → N → N → PbftBlock → PeerMessage) (Honce : ∀ u, admits u → signs_once ballot u).

(** Two prepares of one peer for one block are one message. *)
Lemma stored_prepare_unique net p m1 m2 n v b :
  net_ok net → honest p → m1 ∈ log_of net p → m2 ∈ log_of net p →
  has_type_seq_view Prepare n v m1 → has_type_seq_view Prepare n v m2 →
  get_block m1 = Done b → get_block m2 = Done b →
  mi_signer_id (info m1) = mi_signer_id (info m2) → m1 = m2.
Proof.
  intros Hok Hp Hin1 Hin2 Ht1 Ht2 Hb1 Hb2 Hs. pose proof (Hok p Hp) as [_ _ Hh].
  pose proof (prepare_typed _ _ _ Ht1) as Hty1. pose proof (prepare_typed _ _ _ Ht2) as Hty2.
  assert (∀ m, m ∈ log_of net p → mi_msg_type (info m) = "Prepare" →
    @own_message (env p) p (eng_service (net p)) m ∧ mi_signer_id (info m) = p ∨ received net p m) as Hcases.
  { intros m [[Hbn _]|[Hown|Hrec]]%(heard_log (H:=env p) _ _ _ Hh) Ht; [|left|by right].
    - unfold msg_type_of in Hbn. by rewrite Ht in Hbn.
    - split; [done|]. by destruct Hown. }
  destruct Ht1 as (_ & Hn1 & Hv1), Ht2 as (_ & Hn2 & Hv2).
  destruct (Hcases m1 Hin1 Hty1) as [[Ho1 Hp1]|Hr1], (Hcases m2 Hin2 Hty2) as [[Ho2 Hp2]|Hr2].
  - destruct Ho1 as [i1 b1 bs1 Hi1 Hbs1 _|i1 seal bs1 _ Hvc _ _]; [|cbn in Hty1, Hvc; congruence].
    destruct Ho2 as [i2 b2 bs2 Hi2 Hbs2 _|i2 seal bs2 _ Hvc _ _]; [|cbn in Hty2, Hvc; congruence].
    cbn in *. injection Hb1 as <-. injection Hb2 as <-.
    assert (i1 = i2) as <- by (destruct i1, i2; cbn in *; congruence).
    rewrite Hbs1 in Hbs2. by injection Hbs2 as <-.
  - destruct Hr2 as (message & _ & (_ & Hne & _) & _). congruence.
  - destruct Hr1 as (message & _ & (_ & Hne & _) & _). congruence.
  - destruct Hr1 as (message1 & Hm1 & _ & Hbal1%Honce), Hr2 as (message2 & Hm2 & _ & Hbal2%Honce). cbn [signs_once] in Hbal1, Hbal2.
    assert (message1 = message2) as <-; [|congruence].
    rewrite (Hbal1 m1 b), (Hbal2 m2 b) by (try done; unfold msg_type_of; by rewrite ?Hty1, ?Hty2). congruence.
Qed.

Lemma net_distinct_voters net p n v : net_ok net → honest p → distinct_voters peers (log_of net p) n v.
Proof.
  intros Hok Hp b. split.
  - apply NoDup_fmap_2_strong.
    + intros m1 m2 ((Ht1 & Hb1) & Hin1)%list_elem_of_filter ((Ht2 & Hb2) & Hin2)%list_elem_of_filter Hs.
      by eapply stored_prepare_unique.
    + apply NoDup_filter. destruct (Hok p Hp) as [(_ & _ & Hwf) _ _]. apply Hwf.
  - intros q (m & Hin & Ht & Hb & <-)%elem_of_signers. by eapply stored_prepare.
Qed.

(** ** Agreement *)

Section agreement.
Context (f : N).
Context (Hpeers : NoDup peers) (Hlen : len peers = 3 * f + 1) (Hsize : len peers < two64).
Context (Hfaulty : N.of_nat (size faulty) ≤ f).

(** The blocks prepared by honest peers at one height and view are one, now and
    later. *)
Lemma prepared_agree net net' p1 p2 n v b1 b2 :
  net_ok net → net_ok net' → net_le net net' → honest p1 → honest p2 →
  prepared (log_of net p1) n v (2 * f + 1) b1 → prepared (log_of net' p2) n v (2 * f + 1) b2 → b1 = b2.
Proof.
  intros Hok Hok' Hle Hp1 Hp2 Hb1 Hb2.
  destruct (prepared_meet peers faulty f (log_of net p1) (log_of net' p2) n v b1 b2) as (q & Hq & Hs1 & Hs2);
    [done|done|done|by apply net_distinct_voters|by apply net_distinct_voters|done|done|].
  assert (∀ net p b, net_ok net → honest p → q ∈ signers (log_of net p) Prepare n v b →
            q ∈ peers ∧ (n, v, b) ∈ prepare_votes (eng_service (net q))) as Hvoted.
  { intros net1 p b Hok1 Hp (m & Hin & Ht & Hb & <-)%elem_of_signers.
    destruct (stored_prepare net1 p m n v b Hok1 Hp Hin Ht Hb) as [? Hv]. split; [done|by apply Hv]. }
  destruct (Hvoted net p1 b1 Hok Hp1 Hs1) as [Hqp Hv1], (Hvoted net' p2 b2 Hok' Hp2 Hs2) as [_ Hv2].
  destruct (Hok' q (conj Hqp Hq)) as [_ Hvotes _]. eapply (vo_once _ _ _ Hvotes n v b1 b2); [|exact Hv2].
  destruct (Hle q) as [k Hk]. change (service (sys_of (net' q))) with (eng_service (net' q)). rewrite Hk.
  unfold prepare_votes. rewrite omap_app. apply elem_of_app. by left.
Qed.

(** C3. Agreement of logs, in the restricted network: of 3f+1 peers at most f are
    faulty, the others run the engine, no honest peer catches up on a sealed
    block, and every peer, faulty ones included, signs its prepare for a block at
    a height and view once.  Then two honest peers whose logs pass
    [check_committable] at one height and view have it for the same block, and no
    other block is prepared there at any honest peer.  Without the condition on
    signing it does not hold ([NetworkRuns.votes_signed_twice_fork]). *)
Theorem honest_peers_agree net0 net p1 p2 i :
  net_start net0 → rtc net_step net0 net → honest p1 → honest p2 →
  @check_committable (order p1) (platform p1) (eng_log (net p1)) i f = Done true →
  @check_committable (order p2) (platform p2) (eng_log (net p2)) i f = Done true →
  ∃ b, committable (log_of net p1) (mi_seq_num i) (mi_view i) (2 * f + 1) b ∧
       committable (log_of net p2) (mi_seq_num i) (mi_view i) (2 * f + 1) b ∧
    ∀ p b', honest p → prepared (log_of net p) (mi_seq_num i) (mi_view i) (2 * f + 1) b' → b' = b.
Proof.
  intros Hstart Hr Hp1 Hp2 (q1 & b1 & Hq1 & Hc1)%check_committable_true (q2 & b2 & Hq2 & Hc2)%check_committable_true.
  pose proof (net_reachable_ok _ _ Hstart Hr) as Hok.
  rewrite two_f_plus_one_small in Hq1 by lia. rewrite two_f_plus_one_small in Hq2 by lia. injection Hq1 as <-. injection Hq2 as <-.
  exists b1. split; [done|].
  assert (b2 = b1) as -> by (eapply (prepared_agree net net p2 p1); [done..|apply Hc2|apply Hc1]).
  split; [done|]. intros p b' Hp Hb'. by eapply (prepared_agree net net p p1); [..|apply Hc1].
Qed.
End agreement.
End signed_once.

(** ** Running a network

    Steps on concrete updates, checked as they are made. *)

#[local] Instance said_dec net p content : Decision (said net p content).
Proof. unfold said. apply _. Defined.
#[local] Instance honest_dec p : Decision (honest p).
Proof. unfold honest. apply _. Defined.
#[local] Instance bounded_dec s : Decision (bounded s).
Proof. unfold bounded. apply _. Defined.

#[local] Instance authentic_dec net p u : Decision (authentic net p u).
Proof. destruct u as [[]|]; unfold authentic; apply _. Defined.

#[local] Instance catches_up_dec p u s : Decision (@catches_up (env p) u s).
Proof. destruct u as [[]|]; unfold catches_up, catching_up; apply _. Defined.

Definition free_next net p u : option Net :=
  match @iteration (env p) _ _ fuel u (net p) with
  | (Done true, e) =>
      if bool_decide (honest p ∧ authentic net p u ∧ bounded (sys_of (net p)) ∧ bounded (sys_of e))
      then Some (<[p := e]> net) else None
  | _ => None
  end.

Context `{!∀ u, Decision (admits u)}.

Definition net_next net p u : option Net :=
  if bool_decide (admits u ∧ ¬ @catches_up (env p) u (sys_of (net p))) then free_next net p u else None.

Fixpoint run_with (next : Net → PeerId → Result Update RecvTimeoutError → option Net)
    (events : list (PeerId * Result Update RecvTimeoutError)) net : option Net :=
  match events with
  | [] => Some net
  | (p, u) :: events => net' ← next net p u; run_with next events net'
  end.

Definition free_run := run_with free_next.
Definition net_run := run_with net_next.

Lemma free_next_step net p u net' : free_next net p u = Some net' → free_iteration net p u net'.
Proof.
  unfold free_next. destruct (@iteration (env p) _ _ fuel u (net p)) as [[[]| |] e] eqn:Hit; [|done..].
  case_bool_decide as Hc; [|done]. intros [= <-]. destruct Hc as (Hp & Ha & Hb & Hb'). by constructor.
Qed.

Lemma net_next_step net p u net' : net_next net p u = Some net' → peer_step net p u net'.
Proof.
  unfold net_next. case_bool_decide as Hc; [|done]. intros Hn%free_next_step. by apply peer_step_free.
Qed.

Lemma run_with_reachable next (step : relation Net) events net net' :
  (∀ net p u net', next net p u = Some net' → step net net') → run_with next events net = Some net' → rtc step net net'.
Proof.
  intros Hnext. revert net. induction events as [|[p u] events IH]; intros net; cbn [run_with]; [by intros [= <-]|].
  destruct (next net p u) as [net1|] eqn:Hn; [|done]. intros Hr.
  eapply rtc_l; [by eapply Hnext|by apply IH].
Qed.

Lemma free_run_reachable events net net' : free_run events net = Some net' → rtc free_step net net'.
Proof. apply run_with_reachable. intros net1 p u net2 Hn%free_next_step. by exists p, u. Qed.

Lemma net_run_reachable events net net' : net_run events net = Some net' → rtc net_step net net'.
Proof. apply run_with_reachable. intros net1 p u net2 Hn%net_next_step. by exists p, u. Qed.
End network.
