(* ===== verification/NetworkProgress.v ===== *)
(** * A round ends in a network

    Once the honest peers have joined a round, it cannot stop short: in any run,
    however votes are delayed, repeated, signed again or mixed with those of
    faulty peers, if some honest peer has not committed the block then a vote has
    still to reach it or its validator has still to answer.  What is left out is
    catching up on sealed blocks, and what would take a peer out of the round:
    view changes, new blocks of its height, and timers that expire. *)

From stdpp Require Import functions.
From S2P Require Import Prelude HashSet MessageType Wire Service Errors Messages.
From S2P Require Import Timing Config NodeState MessageLog Sys Handlers Node NodeFrames.
From S2P Require Import Storage Engine NodeInvariants Protocol Refinement BlockCommit Votes Safety.
From S2P Require Import Agreement NodeTheorems Progress EngineTheorems RoundSteps Origins Network.

(** Enough peers are honest for a quorum, oneself left out. *)
Lemma honest_others (peers : list PeerId) (faulty : gset PeerId) f (p : PeerId) :
  NoDup peers → len peers = 3 * f + 1 → N.of_nat (size faulty) ≤ f →
  2 * f ≤ len (filter (λ q, q ∉ faulty ∧ q ≠ p) peers).
Proof.
  intros Hnd Hlen Hf. set (qs := filter _ peers).
  assert ((list_to_set peers : gset PeerId) ⊆ list_to_set qs ∪ (faulty ∪ {[p]})) as Hsub.
  { intros q. rewrite !elem_of_union, !elem_of_list_to_set, elem_of_singleton. intros Hq. unfold qs. rewrite list_elem_of_filter.
    destruct (decide (q ∈ faulty)); [by right; left|]. destruct (decide (q = p)); [by right; right|by left]. }
  apply subseteq_size in Hsub. pose proof (size_union_alt (list_to_set qs : gset PeerId) (faulty ∪ {[p]})) as H1.
  assert (size ((faulty ∪ {[p]}) ∖ list_to_set qs : gset PeerId) ≤ size (faulty ∪ {[p]}))%nat as H2
    by (apply subseteq_size; set_solver).
  pose proof (size_union_alt faulty {[p]}) as H3.
  assert (size ({[p]} ∖ faulty : gset PeerId) ≤ 1)%nat as H4.
  { rewrite <- (size_singleton (C:=gset PeerId) p). apply subseteq_size. set_solver. }
  pose proof (size_list_to_set peers Hnd) as H5. pose proof (size_list_to_set qs (NoDup_filter _ _ Hnd)) as H6. lia.
Qed.

Section progress.
Context `{Codec} `{Crypto} `{Json} `{FileSystem} `{Serde PbftState} `{!CodecLaws}.
Context (platform : PeerId → Platform) (order : PeerId → HashOrder).
Context (validator : PeerId → Service) (clock : PeerId → Clock).
Context (peers : list PeerId) (faulty : gset PeerId) (fuel : nat).
Context (admits : Result Update RecvTimeoutError → Prop).
Context (f n v : N) (b : PbftBlock).
Context (Haccept : ∀ p h, @on_commit_block (validator p) h (pb_block_id b) = Ok tt).

#[local] Abbreviation in_network d := (d platform order validator clock peers faulty) (only parsing).
#[local] Abbreviation in_runs d := (in_network d (S (S fuel)) admits) (only parsing).
#[local] Abbreviation environment := (env platform order validator clock) (only parsing).
#[local] Abbreviation honest := (honest peers faulty) (only parsing).
#[local] Abbreviation Event := (PeerId * Result Update RecvTimeoutError)%type (only parsing).

Implicit Types (net : Net) (p q : PeerId) (u : Result Update RecvTimeoutError) (t : PbftMessageType).

(** ** What peers of the round have done *)

Definition casts net p t : Prop :=
  ∃ bs, message_to_bytes (own_vote n v b t p) = Ok bs ∧ Broadcast (string_of_message_type t) bs ∈ eng_service (net p).

(** The peer has voted and committed; nothing undoes that. *)
Definition settled net p : Prop :=
  casts net p Prepare ∧ casts net p Commit ∧ CommitBlock (pb_block_id b) ∈ eng_service (net p).

(** The peer waits for the pre-prepare, or has joined the round. *)
Definition waiting net p : Prop := waits f n v b (sys_of (net p)).
Definition joins net p : Prop := joined (H:=environment p) f n v b (sys_of (net p)).

(** The peer [p] has the vote of [q]. *)
Definition hears net p q t : Prop :=
  ∃ m, m ∈ log_of net p ∧ round_vote n v b t m ∧ from_self m = false ∧ mi_signer_id (info m) = q.

(** A waiting peer gets the pre-prepare of its primary. *)
Definition proposes net p u : Prop :=
  waiting net p ∧ ∃ message pp, u = Ok (UpdatePeerMessage message (mi_signer_id (info pp))) ∧
    from_peer_message message false = Ok pp ∧ round_vote n v b PrePrepare pp ∧
    get_primary_id (pbft_state (sys_of (net p))) = Done (mi_signer_id (info pp)).

(** What an update of a run must be: settled peers get anything, the others
    what belongs to the round, and not so late that their timer expires. *)
Definition fitting net p u net1 : Prop :=
  settled net p ∨ proposes net p u ∨
  round_update (H:=environment p) n u ∧
  in_time (H:=environment p) (eng_ticks (net1 p)) (faulty_primary_timeout (pbft_state (sys_of (net p)))).

Inductive round_run : list Event → Net → Net → Prop :=
| round_run_nil net : round_run [] net net
| round_run_cons p u events net net1 net' :
    in_runs peer_step net p u net1 → fitting net p u net1 →
    round_run events net1 net' → round_run ((p, u) :: events) net net'.

(** The run delivers the vote of [q], or a pre-prepare, to [p]. *)
Definition delivered (events : list Event) p q t : Prop :=
  ∃ message m, (p, Ok (UpdatePeerMessage message q)) ∈ events ∧ from_peer_message message false = Ok m ∧
    round_vote n v b t m ∧ mi_signer_id (info m) = q.

Definition proposed (events : list Event) p : Prop :=
  ∃ message sender pp, (p, Ok (UpdatePeerMessage message sender)) ∈ events ∧ from_peer_message message false = Ok pp ∧
    msg_type_of pp = PrePrepare.

Lemma settled_le net net' p : net_le net net' → settled net p → settled net' p.
Proof.
  intros Hle ((bs & Hbs & Hp) & (bs' & Hbs' & Hc) & Hb). specialize (Hle p).
  split_and!; [exists bs|exists bs'|]; try split; try done; by eapply elem_of_prefix.
Qed.

Lemma joins_casts net p t : in_network peer_ok admits net p → voted (H:=environment p) n v b t (sys_of (net p)) → casts net p t.
Proof.
  intros [_ _ Hh] [(bs & Hbs & Hin) _]. rewrite (heard_id (H:=environment p) _ _ _ Hh) in Hbs. by exists bs.
Qed.

Lemma joins_finished net p :
  in_network peer_ok admits net p → joins net p → phase (pbft_state (sys_of (net p))) = Finished → settled net p.
Proof.
  intros Hok Hj Hp. split_and!.
  - apply (joins_casts _ _ _ Hok). by apply jn_prepare in Hj.
  - apply (joins_casts _ _ _ Hok). apply jn_commit in Hj; [done|]. unfold progress. rewrite Hp. lia.
  - exact (joined_finished (H:=environment p) _ _ _ _ _ Hj Hp).
Qed.

(** ** Steps *)

Lemma step_ok net p u net1 :
  in_runs peer_step net p u net1 → in_network net_ok admits net → in_network net_ok admits net1 ∧ net_le net net1.
Proof. intros Hstep Hok. by eapply peer_step_ok. Qed.

(** A step of a peer that is not settled, for the peer itself or another. *)
Record stepped net p u net1 q : Prop := {
  sp_engaged : waiting net1 q ∨ joins net1 q;
  sp_joins : joins net q ∨ proposed [(p, u)] q → joins net1 q;
  sp_hears q' t : t = Prepare ∨ t = Commit → hears net q q' t ∨ delivered [(p, u)] q q' t → hears net1 q q' t
}.

Lemma hears_stored net net1 q q' t :
  (∀ m, m ∈ log_of net q → m ∈ log_of net1 q) → hears net q q' t → hears net1 q q' t.
Proof. intros Hin (m & Hm & Hrest). exists m. split; [by apply Hin|done]. Qed.

Lemma stepped_other net p u e q : p ≠ q → waiting net q ∨ joins net q → stepped net p u (<[p := e]> net) q.
Proof.
  intros Hne He. assert ((<[p := e]> net) q = net q) as Hq by by rewrite fn_lookup_insert_ne.
  split; unfold waiting, joins, hears, log_of; rewrite ?Hq; [done|..].
  - intros [?|(message & sender & pp & [= ? _]%list_elem_of_singleton & _)]; done.
  - intros q' t _ [?|(message & m & [= ? _]%list_elem_of_singleton & _)]; done.
Qed.

Lemma stepped_self net p u e :
  @iteration (environment p) _ _ (S (S fuel)) u (net p) = (Done true, e) →
  fitting net p u (<[p := e]> net) → waiting net p ∨ joins net p → settled net p ∨ stepped net p u (<[p := e]> net) p.
Proof.
  intros Hit [Hs|[(Hw & message & pp & -> & Hpp & Hvote & Hp)|[Hu Ht]]] He; [by left|right..].
  - destruct (proposal_iteration (H:=environment p) _ _ _ _ _ _ _ _ _ _ Hit Hpp Hvote Hp Hw) as [Hj Hin].
    assert (joins (<[p := e]> net) p) as Hj' by (unfold joins; by rewrite fn_lookup_insert).
    split; [by right|done|]. intros q' t Ht [Hh|(message' & m & [= <- _]%list_elem_of_singleton & Hm & [Hmv _] & _)].
    + eapply hears_stored; [|exact Hh]. unfold log_of. rewrite fn_lookup_insert. exact Hin.
    + exfalso. rewrite Hpp in Hm. injection Hm as <-. destruct Hvote as [Hv _].
      apply msg_type_of_type_seq_view in Hmv, Hv. destruct Ht; congruence.
  - rewrite fn_lookup_insert in Ht.
    destruct (engaged_iteration (H:=environment p) _ _ _ _ (Haccept p) _ _ _ _ _ Hit Hu He Ht) as (He' & Hj & Hin & Hst).
    split; unfold waiting, joins; rewrite ?fn_lookup_insert; [done|..].
    + intros [?|(message & sender & pp & [= <-]%list_elem_of_singleton & Hm & Hty)]; [by apply Hj|].
      destruct (Hu pp Hm) as [[[?|?] _]|[?|?]]; congruence.
    + intros q' t Htt [Hh|(message & m & [= <-]%list_elem_of_singleton & Hm & Hv & <-)].
      * eapply hears_stored; [|exact Hh]. unfold log_of. rewrite fn_lookup_insert. exact Hin.
      * exists m. unfold log_of. rewrite fn_lookup_insert. split; [|split; [done|split; [|done]]].
        -- eapply Hst; [exact Hm|by apply (round_vote_vote n v b t)|by destruct Hv as [(_ & _ & ?) _]|done].
        -- by apply from_peer_message_ok in Hm as (_ & _ & ? & _).
Qed.

Lemma fitting_step net p u net1 q :
  in_runs peer_step net p u net1 → fitting net p u net1 → waiting net q ∨ joins net q →
  settled net q ∨ stepped net p u net1 q.
Proof.
  intros [e Hp Hd Hit Hcu Hb Hb'] Hu He. destruct (decide (p = q)) as [<-|Hne]; [by apply stepped_self|].
  right. by apply stepped_other.
Qed.

(** ** Runs *)

Lemma round_run_ok events net net' :
  round_run events net net' → in_network net_ok admits net → in_network net_ok admits net' ∧ net_le net net'.
Proof.
  induction 1 as [|p u events net net1 net' Hstep Hu _ IH]; intros Hok; [by split; [|intros q]|].
  destruct (step_ok _ _ _ _ Hstep Hok) as [Hok1 Hle1]. destruct (IH Hok1) as [Hok' Hle'].
  split; [done|]. intros q. by etrans; [apply Hle1|apply Hle'].
Qed.

(** What a peer that is not settled has got in the end. *)
Lemma round_run_gets events net net' q :
  round_run events net net' → in_network net_ok admits net → waiting net q ∨ joins net q →
  settled net' q ∨
  (joins net q ∨ proposed events q → joins net' q) ∧
  (∀ q' t, t = Prepare ∨ t = Commit → hears net q q' t ∨ delivered events q q' t → hears net' q q' t).
Proof.
  induction 1 as [|p u events net net1 net' Hstep Hu Hrun IH]; intros Hok He.
  { right. split; [by intros [?|(message & sender & pp & ?%elem_of_nil & _)]|].
    by intros q' t _ [?|(message & m & ?%elem_of_nil & _)]. }
  destruct (step_ok _ _ _ _ Hstep Hok) as [Hok1 Hle1].
  destruct (round_run_ok _ _ _ Hrun Hok1) as [_ Hle'].
  destruct (fitting_step _ _ _ _ q Hstep Hu He) as [Hs|[He1 Hj1 Hh1]]; [left; by eapply settled_le, settled_le|].
  destruct (IH Hok1 He1) as [?|[Hj' Hh']]; [by left|right]. split.
  - intros [?|(message & sender & pp & [?|?]%elem_of_cons & Hrest)]; apply Hj'; [left; apply Hj1; by left|left|right].
    + apply Hj1. right. exists message, sender, pp. split; [by apply list_elem_of_singleton|done].
    + by exists message, sender, pp.
  - intros q' t Ht [?|(message & m & [?|?]%elem_of_cons & Hrest)]; apply Hh'; try done; [left; apply Hh1; auto|left|right].
    + apply Hh1; [done|]. right. exists message, m. split; [by apply list_elem_of_singleton|done].
    + by exists message, m.
Qed.

(** ** Quorums of votes heard *)

Context (Hpeers : NoDup peers) (Hlen : len peers = 3 * f + 1) (Hfaulty : N.of_nat (size faulty) ≤ f).

Lemma hears_quorum net p t :
  voted (H:=environment p) n v b t (sys_of (net p)) → (∀ q, honest q → p ≠ q → hears net p q t) →
  needed f ≤ len (votes (log_of net p) t n v b).
Proof.
  intros Hv Hall. set (qs := filter (λ q, q ∉ faulty ∧ q ≠ p) peers).
  assert (∃ ms, Forall2 (λ q m, m ∈ log_of net p ∧ round_vote n v b t m ∧ from_self m = false ∧ mi_signer_id (info m) = q) qs ms)
    as [ms Hms].
  { apply list_choice. intros q ([Hf Hne] & Hin)%list_elem_of_filter. by apply Hall. }
  assert (∀ m, m ∈ ms → m ∈ log_of net p ∧ round_vote n v b t m ∧ from_self m = false) as Hin.
  { intros m (i & Hi)%list_elem_of_lookup. destruct (Forall2_lookup_r _ _ _ _ _ Hms Hi) as (q & _ & ? & ? & ? & _). done. }
  apply (received_and_own (H:=environment p) f n v b t ms (sys_of (net p))); [|done|intros m Hm; by apply Hin]. split; [|split].
  - apply (NoDup_fmap_1 (λ m, mi_signer_id (info m))).
    assert ((λ m, mi_signer_id (info m)) <$> ms = qs) as -> by (clear -Hms; induction Hms as [|q m qs ms (_ & _ & _ & <-) _ IH]; [done|cbn; by rewrite IH]).
    by apply NoDup_filter.
  - unfold len. rewrite <- (Forall2_length _ _ _ Hms). by apply honest_others.
  - intros m Hm. apply Hin in Hm. naive_solver.
Qed.


(** ** Running a round

    [waits], [proposes] and [fitting], computed. *)

Definition has_block m : bool := match get_block m with Done _ => true | _ => false end.

Lemma has_block_true m : has_block m = true ↔ ∃ b', get_block m = Done b'.
Proof. unfold has_block. destruct (get_block m); split; try done; [by eexists|by intros []..]. Qed.

#[local] Instance sized_dec st : Decision (sized st).
Proof. unfold sized, tolerant. apply _. Defined.

Definition may_wait (s : Sys) : bool :=
  bool_decide (sized (pbft_state s) ∧ st_f (pbft_state s) = f ∧ seq_num (pbft_state s) = n ∧ view (pbft_state s) = v ∧
    working_block (pbft_state s) = Some b ∧ phase (pbft_state s) = PrePreparing ∧ role (pbft_state s) ≠ Primary ∧
    backlog (msg_log s) = [] ∧ Forall (λ m, msg_type_of m ≠ PrePrepare ∧ has_block m = true) (stored (msg_log s)) ∧
    Exists (λ m, has_type_seq BlockNew n m ∧ get_block m = Done b) (stored (msg_log s))).

Lemma may_wait_sound s : may_wait s = true → waits f n v b s.
Proof.
  unfold may_wait. rewrite bool_decide_eq_true, Forall_forall, Exists_exists.
  intros (Hsz & Hf & Hn & Hv & Hwb & Hp & Hr & Hbl & Hall & Ha). split; try done.
  - intros m Hm _. by apply has_block_true, Hall.
  - intros m m' n' v' Hm _ Hpp%msg_type_of_type_seq_view _. by destruct (Hall m Hm).
  - intros m Hm Hpp%msg_type_of_type_seq_view. by destruct (Hall m Hm).
Qed.

#[local] Instance round_message_dec m : Decision (round_message m).
Proof.
  refine (cast_if (decide (((msg_type_of m = Prepare ∨ msg_type_of m = Commit) ∧ has_block m = true) ∨
    msg_type_of m = BlockNew ∨ msg_type_of m = Unset))); abstract (unfold round_message, vote; by rewrite <- has_block_true).
Defined.

Definition may_update u : bool :=
  match u with
  | Ok (UpdateBlockValid _) | Ok (UpdatePeerConnected _) | Ok (UpdatePeerDisconnected _) | Err RecvTimeout => true
  | Ok (UpdateBlockNew blk) => bool_decide (bk_block_num blk < n)
  | Ok (UpdatePeerMessage message _) =>
      match from_peer_message message false with Ok m => bool_decide (round_message m) | Err _ => true end
  | _ => false
  end.

Lemma may_update_sound p u : may_update u = true → round_update (H:=environment p) n u.
Proof.
  destruct u as [[]|[]]; cbn; try done; [by rewrite bool_decide_eq_true|]. intros Hb m Hm.
  change (from_peer_message message false = Ok m) in Hm. rewrite Hm in Hb. by apply bool_decide_eq_true in Hb.
Qed.

Definition may_propose net p u : bool :=
  match u with
  | Ok (UpdatePeerMessage message sender) =>
      match from_peer_message message false with
      | Ok pp => may_wait (sys_of (net p)) && bool_decide (sender = mi_signer_id (info pp) ∧ round_vote n v b PrePrepare pp ∧
                   get_primary_id (pbft_state (sys_of (net p))) = Done (mi_signer_id (info pp)))
      | Err _ => false
      end
  | _ => false
  end.

Lemma may_propose_sound net p u : may_propose net p u = true → proposes net p u.
Proof.
  destruct u as [[| | | |message sender| | |]|]; try done. cbn [may_propose].
  destruct (from_peer_message message false) as [pp|] eqn:Hpp; [|done].
  rewrite andb_true_iff, bool_decide_eq_true. intros [Hw (-> & Hv & Hp)]. split; [by apply may_wait_sound|].
  by exists message, pp.
Qed.

(** The timer does not expire at the readings made by then. *)
Definition may_take_time (p : PeerId) (k : nat) (t : Timeout) : bool :=
  bool_decide (timeout_state t = Inactive ∨ timeout_state t = Active ∧
    Forall (λ i, @clock_at (clock p) i ≤ timeout_start t + timeout_duration t) (seq 0 k)).

Lemma may_take_time_sound p k (t : Timeout) : may_take_time p k t = true → in_time (H:=environment p) k t.
Proof.
  unfold may_take_time. rewrite bool_decide_eq_true, Forall_forall. intros [?|[? Hall]]; [by left|right].
  split; [done|]. intros i Hi. apply Hall, elem_of_seq. lia.
Qed.

Definition fits net p u net1 : bool :=
  may_propose net p u ||
  (may_update u && may_take_time p (eng_ticks (net1 p)) (faulty_primary_timeout (pbft_state (sys_of (net p))))).

Lemma fits_sound net p u net1 : fits net p u net1 = true → fitting net p u net1.
Proof.
  unfold fits. rewrite orb_true_iff, andb_true_iff. intros [?%may_propose_sound|[? ?]]; [by right; left|right; right].
  split; [by apply may_update_sound|by apply may_take_time_sound].
Qed.

Context `{!∀ u, Decision (admits u)}.

Fixpoint run_round (events : list Event) net : option Net :=
  match events with
  | [] => Some net
  | (p, u) :: events =>
      net' ← in_runs net_next net p u;
      if fits net p u net' then run_round events net' else None
  end.

Lemma run_round_run events net net' : run_round events net = Some net' → round_run events net net'.
Proof.
  revert net. induction events as [|[p u] events IH]; intros net; cbn [run_round]; [intros [= <-]; constructor|].
  intros (net1 & Hn & Hr)%bind_Some. destruct (fits net p u net1) eqn:Hf; [|done].
  econstructor; [by eapply net_next_step|by apply fits_sound|by apply IH].
Qed.
End progress.
