(* ===== verification/NetworkCommits.v ===== *)
(** * What the peers of a network commit

    In the restricted network of Network.v, in which prepares are signed once and
    no honest peer catches up, if validators carry out commits and find valid only
    blocks that are pre-prepared at the height and view of their node, the blocks
    that honest peers commit at a height and view are the same. *)

From stdpp Require Import functions.
From S2P Require Import Prelude HashSet MessageType Wire Service Errors Messages.
From S2P Require Import Timing Config NodeState MessageLog Sys Handlers Node NodeFrames.
From S2P Require Import Storage Engine NodeInvariants Protocol Refinement BlockCommit Safety.
From S2P Require Import EngineTheorems Decisions Network.

Section commits.
Context `{Codec} `{Crypto} `{Json} `{FileSystem} `{Serde PbftState} `{!CodecLaws}.
Context (platform : PeerId → Platform) (order : PeerId → HashOrder).
Context (validator : PeerId → Service) (clock : PeerId → Clock).
Context (peers : list PeerId) (faulty : gset PeerId) (fuel : nat).
Context (admits : Result Update RecvTimeoutError → Prop).

#[local] Abbreviation in_network d := (d platform order validator clock peers faulty) (only parsing).
#[local] Abbreviation in_runs d := (in_network d (S fuel) admits) (only parsing).
#[local] Abbreviation environment := (env platform order validator clock) (only parsing).

Implicit Types (net : Net) (p : PeerId) (u : Result Update RecvTimeoutError).

(** A step in which the validator answers as it should. *)
Definition steady_step net net' : Prop :=
  ∃ p u, in_runs peer_step net p u net' ∧ answers u (sys_of (net p)).

Lemma steady_steps net net' : rtc steady_step net net' → rtc (in_runs net_step) net net'.
Proof. apply rtc_subrel. intros net1 net2 (p & u & Hs & _). by exists p, u. Qed.

Lemma steady_steps_ok net net' :
  rtc steady_step net net' → in_network net_ok admits net → in_network net_ok admits net' ∧ net_le net net'.
Proof. intros Hr%steady_steps Hok. eapply net_steps_ok; [apply _|exact Hr|exact Hok]. Qed.

Section agreement.
Context (Haccept : ∀ p h id, @on_commit_block (validator p) h id = Ok tt).

Definition all_decisive net : Prop := ∀ p, honest peers faulty p → decisive (abs (sys_of (net p))).

Lemma start_decisive net : in_network net_start net → all_decisive net.
Proof.
  intros Hstart p Hp. destruct (Hstart p Hp) as (head & w & _ & Hn & Hrun).
  destruct (start_engine_inv (H:=environment p) _ _ _ _ Hrun Hn) as (_ & _ & _ & Hph & _).
  apply decisive_other; change (a_phase (abs (sys_of (net p)))) with (phase (pbft_state (sys_of (net p)))); by rewrite Hph.
Qed.

Lemma steady_step_decisive net net' :
  steady_step net net' → in_network net_ok admits net → all_decisive net → all_decisive net'.
Proof.
  intros (p & u & [e Hp Hd Hit Hcu Hb Hb'] & Ha) Hok Hall q Hq.
  destruct (decide (p = q)) as [<-|Hne]; [rewrite fn_lookup_insert|rewrite fn_lookup_insert_ne by done; by apply Hall].
  eapply (iteration_decisive (H:=environment p)); [apply Haccept|exact Hit|done..|apply Hb'|by apply Hok|by apply Hall].
Qed.

Lemma steady_steps_decisive net net' :
  rtc steady_step net net' → in_network net_ok admits net → all_decisive net → all_decisive net'.
Proof.
  induction 1 as [|net1 net2 net3 Hstep _ IH]; [done|]. intros Hok Hall. apply IH.
  - destruct Hstep as (p & u & Hs & _). by eapply peer_step_ok.
  - by eapply steady_step_decisive.
Qed.

Context (ballot : PeerId → N → N → PbftBlock → PeerMessage) (Honce : ∀ u, admits u → signs_once ballot u).
Context (f : N).
Context (Hpeers : NoDup peers) (Hlen : len peers = 3 * f + 1).
Context (Hfaulty : N.of_nat (size faulty) ≤ f).

(** C4. Agreement on what is committed, in the restricted network: of 3f+1 peers
    at most f are faulty, no honest peer catches up on a sealed block, and every
    peer, faulty ones included, signs its prepare for a block at a height and view
    once.  If validators carry out commits and find a block valid only where it is
    pre-prepared, the last commits of two honest peers that are finished at one
    height and view, now or later, name one block, which has the votes of a quorum
    in both logs. *)
Theorem honest_peers_commit_alike net0 net net' p1 p2 :
  in_network net_start net0 → rtc steady_step net0 net → rtc steady_step net net' →
  honest peers faulty p1 → honest peers faulty p2 →
  let s1 := pbft_state (sys_of (net p1)) in let s2 := pbft_state (sys_of (net' p2)) in
  phase s1 = Finished → phase s2 = Finished → seq_num s2 = seq_num s1 → view s2 = view s1 →
  st_f s1 = f → st_f s2 = f →
  ∃ b, committable (log_of net p1) (seq_num s1) (view s1) (2 * f + 1) b ∧
       committable (log_of net' p2) (seq_num s1) (view s1) (2 * f + 1) b ∧
       last (committed (eng_service (net p1))) = Some (pb_block_id b) ∧
       last (committed (eng_service (net' p2))) = Some (pb_block_id b).
Proof.
  intros Hstart Hsteps Hsteps' Hp1 Hp2 s1 s2 Hf1 Hf2 Hn Hv Hq1 Hq2.
  assert (in_network net_ok admits net0) as Hok0 by by eapply net_start_ok.
  destruct (steady_steps_ok _ _ Hsteps Hok0) as [Hok _]. destruct (steady_steps_ok _ _ Hsteps' Hok) as [Hok' Hle].
  pose proof (steady_steps_decisive _ _ Hsteps Hok0 (start_decisive _ Hstart)) as Hall.
  pose proof (steady_steps_decisive _ _ Hsteps' Hok Hall) as Hall'.
  destruct (proj1 (Hall p1 Hp1) Hf1) as (b1 & Hb1 & Hl1), (proj1 (Hall' p2 Hp2) Hf2) as (b2 & Hb2 & Hl2).
  assert (committable (log_of net p1) (seq_num s1) (view s1) (2 * f + 1) b1) as Hc1 by (rewrite <- Hq1; exact Hb1).
  assert (committable (log_of net' p2) (seq_num s1) (view s1) (2 * f + 1) b2) as Hc2 by (rewrite <- Hq2, <- Hn, <- Hv; exact Hb2).
  assert (b1 = b2) as <-; [|by exists b1].
  eapply (prepared_agree platform order validator clock peers faulty admits ballot Honce f Hpeers Hlen Hfaulty net net' p1 p2);
    [done..|exact (proj1 Hc1)|exact (proj1 Hc2)].
Qed.
End agreement.

(** ** Running a network with such validators *)

#[local] Instance answers_dec u s : Decision (answers u s).
Proof. destruct u as [[]|]; unfold answers; apply _. Defined.

Context `{!∀ u, Decision (admits u)}.

Fixpoint steady_run (events : list (PeerId * Result Update RecvTimeoutError)) net : option Net :=
  match events with
  | [] => Some net
  | (p, u) :: events =>
      if bool_decide (answers u (sys_of (net p))) then net' ← in_runs net_next net p u; steady_run events net' else None
  end.

Lemma steady_run_reachable events net net' : steady_run events net = Some net' → rtc steady_step net net'.
Proof.
  revert net. induction events as [|[p u] events IH]; intros net; cbn [steady_run]; [by intros [= <-]|].
  case_bool_decide as Ha; [|done]. intros (net1 & Hn & Hr)%bind_Some.
  eapply rtc_l; [|by apply IH]. exists p, u. split; [by eapply net_next_step|done].
Qed.
End commits.
