(* ===== verification/Runs.v ===== *)
(** * Inputs that show the limits of the code

    A run in which a node sends commits for two blocks, and the blocks, seals and
    settings at which the theorems of Forgery.v and Survival.v are applied. *)

From S2P Require Import Prelude HashSet MessageType Wire Service Errors Messages.
From S2P Require Import Timing Config NodeState MessageLog Sys Handlers Node Refinement Fixture.
From Stdlib Require Import Strings.Byte.

#[local] Existing Instance fix_env.

(** The blocks a node has broadcast commits for, with view and height. *)
Definition commits_sent (s : Sys) : list (N * N * BlockId) :=
  omap (λ c, match c with
             | Broadcast _ b =>
                 match from_bytes b with
                 | Ok m =>
                     if decide (message_type_of_str (mi_msg_type (info m)) = Commit) then
                       match get_block m with
                       | Done blk => Some (mi_view (info m), mi_seq_num (info m), pb_block_id blk)
                       | _ => None
                       end
                     else None
                 | Err _ => None
                 end
             | _ => None
             end) (service s).

(** A second block at the first height. *)
Definition rival : Block := mkBlock (x62 :: peer 9) (x62 :: peer 0) [] 1 [] [].

(** A late prepare for the rival block, the block itself, and the validator's
    answer to the check the prepare caused. *)
Definition run_rival_prepared : Sys :=
  after (on_peer_message fuel (sample_msg Prepare 0 1 rival (peer 0))) run_committing.
Definition run_rival_announced : Sys := after (on_block_new fuel rival) run_rival_prepared.
Definition run_rival_valid : Outcome (Result () PbftError) * Sys :=
  on_block_valid fuel (bk_block_id rival) run_rival_announced.

(** A node that has broadcast its commit for one block can be led to check
    and to broadcast a commit for another block of the same height and view:
    one late prepare for that block and its announcement are enough. *)
Theorem node_commits_to_two_blocks :
  commits_sent run_committing = [(0, 1, bk_block_id (sample_block 1))] ∧
  CheckBlocks [bk_block_id rival] ∈ service run_rival_prepared ∧
  run_rival_valid.1 = Done (Ok tt) ∧
  commits_sent run_rival_valid.2 = [(0, 1, bk_block_id (sample_block 1)); (0, 1, bk_block_id rival)] ∧
  bk_block_id (sample_block 1) ≠ bk_block_id rival.
Proof.
  split_and!; try (vm_compute; reflexivity).
  - apply (bool_decide_unpack _). vm_compute. exact I.
  - by vm_compute.
Qed.

(** A vote for the first block in the name of [voter], signed by [key]. *)
Definition vote_of_type (t : PbftMessageType) (key voter : PeerId) : PbftSignedCommitVote :=
  let content := message_bytes (sample_msg t 0 1 (sample_block 1) voter) in
  mkPbftSignedCommitVote (x0d :: enc (mkPeerMessageHeader key content)) key content.

Definition vote_signed_by (key voter : PeerId) : PbftSignedCommitVote := vote_of_type Commit key voter.

Definition seal_signed_by (key : PeerId) (voters : list PeerId) : PbftSeal :=
  mkPbftSeal (bk_block_id (sample_block 1)) [] (vote_signed_by key <$> voters).

(** The second block, published by peer 0. *)
Definition sealed_block (seal : PbftSeal) : Block :=
  mkBlock (x62 :: peer 2) (bk_block_id (sample_block 1)) (peer 0) 2 (x0c :: enc seal) [].

(** Prepares in the names of peers 2 and 3, one of them signed by peer 9, who is
    not in the network. *)
Definition strange_seal : PbftSeal :=
  mkPbftSeal (bk_block_id (sample_block 1)) [] [vote_of_type Prepare (peer 9) (peer 2); vote_of_type Prepare (peer 3) (peer 3)].

(** A seal for another block, with an id of one byte, and one with a header
    without a key. *)
Definition short_seal : PbftSeal := mkPbftSeal [x01] [] [].
Definition keyless_seal : PbftSeal := mkPbftSeal (bk_block_id (sample_block 1)) [] [vote_signed_by [] (peer 2)].

(** A node with a period of forced view changes of zero. *)
Definition without_period (s : Sys) : Sys :=
  let st := pbft_state s in
  set_state (mkPbftState (st_id st) (seq_num st) (view st) (phase st) (role st) (mode st) (peer_ids st) (st_f st)
    (faulty_primary_timeout st) 0 (working_block st)) s.
