(* ===== verification/HashOrders.v ===== *)
(** * Iteration order

    Rust iterates a hash set in an unspecified order.  Handling the messages of
    peers does not depend on it; what a node works on after a commit does: it can
    be any of the blocks announced for the next height. *)

From S2P Require Import Prelude HashSet MessageType Wire Service Errors Messages.
From S2P Require Import Timing Config NodeState MessageLog Sys Handlers Node NodeFrames.
From S2P Require Import Protocol Refinement BlockCommit Termination Safety LogTheorems Totality Fixture Runs.
From Stdlib Require Import Strings.Byte.

(** The externals with another order of iteration. *)
Definition with_order (e : Externals) (o : HashOrder) : Externals := {|
  ext_platform := ext_platform; ext_order := o; ext_codec := ext_codec; ext_crypto := ext_crypto; ext_json := ext_json;
  ext_service := ext_service; ext_clock := ext_clock
|}.

(** A node whose log its own checks have kept in order. *)
Definition regular (s : Sys) : Prop :=
  sized (pbft_state s) ∧ unique_pre_prepare (stored (msg_log s)) ∧ blocks_typed (stored (msg_log s)).

Lemma regular_same s s' :
  peer_ids (pbft_state s') = peer_ids (pbft_state s) → st_f (pbft_state s') = st_f (pbft_state s) →
  stored (msg_log s') = stored (msg_log s) → regular s → regular s'.
Proof. intros Hp Hf Hl (Hs & Hu & Ht). unfold regular, sized, tolerant in *. by rewrite Hp, Hf, Hl. Qed.

(** ** Computations that agree from a regular state, and leave one *)

Definition agrees {A} (s : Sys) (m1 m2 : SM Sys A) : Prop := m1 s = m2 s ∧ regular (m1 s).2.

Section agrees.
Implicit Types (s : Sys).

Lemma agrees_ret {A} (a : A) s : regular s → agrees s (mret a) (mret a).
Proof. by split. Qed.

Lemma agrees_bind {A B} (m1 m2 : SM Sys A) (k1 k2 : A → SM Sys B) s :
  agrees s m1 m2 → (∀ a s', regular s' → m1 s = (Done a, s') → agrees s' (k1 a) (k2 a)) → agrees s (m1 ≫= k1) (m2 ≫= k2).
Proof.
  intros [Hm Hr] Hk. unfold agrees. rewrite !run_bind, <- Hm. destruct (m1 s) as [[a| |] s']; [|done..]. by apply Hk.
Qed.

Lemma agrees_try {A B E} (m1 m2 : SM Sys (Result A E)) (k1 k2 : A → SM Sys (Result B E)) s :
  agrees s m1 m2 → (∀ a s', regular s' → m1 s = (Done (Ok a), s') → agrees s' (k1 a) (k2 a)) → agrees s (try_bind k1 m1) (try_bind k2 m2).
Proof. intros Hm Hk. apply agrees_bind; [done|]. intros [a|e] s' Hs' Hr; [by apply Hk|by apply agrees_ret]. Qed.

Lemma agrees_state {A} (k1 k2 : PbftState → SM Sys A) s :
  agrees s (k1 (pbft_state s)) (k2 (pbft_state s)) → agrees s (get_state ≫= k1) (get_state ≫= k2).
Proof. done. Qed.

Lemma agrees_log {A} (k1 k2 : PbftLog → SM Sys A) s :
  agrees s (k1 (msg_log s)) (k2 (msg_log s)) → agrees s (get_log ≫= k1) (get_log ≫= k2).
Proof. done. Qed.

Lemma agrees_lift {A B} (o1 o2 : Outcome A) (k1 k2 : A → SM Sys B) s :
  regular s → o1 = o2 → (∀ a, o1 = Done a → agrees s (k1 a) (k2 a)) → agrees s (sm_lift o1 ≫= k1) (sm_lift o2 ≫= k2).
Proof. intros Hs <- Hk. apply agrees_bind; [by split|]. intros a s' _ [= Ha <-]. by apply Hk. Qed.

(** A computation that the order has no part in. *)
Lemma agrees_self {A} (m : SM Sys A) s : regular (m s).2 → agrees s m m.
Proof. by split. Qed.
End agrees.

Section independence.
Context `{E : Externals} `{!CodecLaws} (o1 o2 : HashOrder).
Implicit Types (s : Sys) (m : ParsedMessage).

#[local] Abbreviation E1 := (with_order E o1) (only parsing).
#[local] Abbreviation E2 := (with_order E o2) (only parsing).

(** ** The log *)

Lemma agrees_call {A B} (answer : list ServiceCall → A) c (k1 k2 : A → SM Sys B) s :
  regular s → (∀ a s', regular s' → agrees s' (k1 a) (k2 a)) →
  agrees s (with_service (call answer c) ≫= k1) (with_service (call answer c) ≫= k2).
Proof. intros Hs Hk. apply agrees_bind; [by apply agrees_self|]. intros a s' Hs' _. by apply Hk. Qed.

Lemma agrees_modify {A} f (k1 k2 : () → SM Sys A) s :
  (∀ st, peer_ids (f st) = peer_ids st ∧ st_f (f st) = st_f st) → regular s →
  (∀ s', regular s' → agrees s' (k1 tt) (k2 tt)) → agrees s (modify_state f ≫= k1) (modify_state f ≫= k2).
Proof.
  intros Hf Hs Hk. apply agrees_bind.
  - apply agrees_self. by eapply regular_same; [apply Hf..|done|exact Hs].
  - intros [] s' Hs' _. by apply Hk.
Qed.

Lemma agrees_switch {A} p (k1 k2 : () → SM Sys A) s :
  regular s → (∀ s', regular s' → agrees s' (k1 tt) (k2 tt)) →
  agrees s (state_switch_phase p ≫= k1) (state_switch_phase p ≫= k2).
Proof. apply agrees_modify. intros st. by destruct (switch_phase_cases p st) as [->|[_ ->]]. Qed.

Lemma regular_stored m s :
  typed m → msg_type_of m ≠ PrePrepare → regular s → regular (stored_state m s).
Proof.
  intros Hm Ht (Hs & Hu & Hty). split; [done|]. unfold stored_state. cbn [set_log msg_log]. rewrite stored_insert. split.
  - apply unique_pre_prepare_store; [|done]. by intros pp _ n v ?%msg_type_of_type_seq_view _.
  - intros x [->|Hx]%elem_of_store; [done|by apply Hty].
Qed.

Lemma agrees_add m s (k1 k2 : () → NodeM ()) :
  typed m → msg_type_of m ≠ PrePrepare → regular s →
  (∀ s', regular s' → agrees s' (k1 tt) (k2 tt)) → agrees s (try_bind k1 (log_add_message m)) (try_bind k2 (log_add_message m)).
Proof.
  intros Hm Ht Hs Hk. unfold agrees. rewrite !run_add_message. case_decide; [|done]. apply Hk. by apply regular_stored.
Qed.

Lemma regular_quorum s : regular s → 2 * st_f (pbft_state s) + 1 < two64.
Proof. intros ([Ht Hl] & _). apply tolerant_f in Ht. lia. Qed.

Lemma required_any l t m n :
  @log_has_required_msgs o1 l t m false n = @log_has_required_msgs o2 l t m false n.
Proof. by rewrite !(@log_has_required_msgs_any _). Qed.

Lemma regular_predicates s i :
  regular s →
  @check_prepared o1 _ (msg_log s) i (st_f (pbft_state s)) = @check_prepared o2 _ (msg_log s) i (st_f (pbft_state s)) ∧
  @check_committable o1 _ (msg_log s) i (st_f (pbft_state s)) = @check_committable o2 _ (msg_log s) i (st_f (pbft_state s)).
Proof.
  intros Hs. pose proof (regular_quorum s Hs) as Hq. destruct Hs as (_ & Hu & Ht).
  by destruct (log_predicates_order_independent o1 o2 (msg_log s) i (st_f (pbft_state s)) 0 Hu Ht Hq) as (? & ? & _).
Qed.

Lemma agrees_guarded {A} (c : Prop) `{Decision c} (q1 q2 : Outcome bool) (k1 k2 : bool → NodeM A) s :
  regular s → q1 = q2 → (∀ r, agrees s (k1 r) (k2 r)) →
  agrees s (go ← (if decide c then sm_lift q1 else mret false); k1 go) (go ← (if decide c then sm_lift q2 else mret false); k2 go).
Proof.
  intros Hs <- Hk. case_decide; [by apply agrees_lift|]. apply agrees_bind; [by apply agrees_ret|]. intros a s' _ [= <- <-]. apply Hk.
Qed.

(** ** Votes *)

Lemma prepare_arm_agrees m s :
  typed m → msg_type_of m = Prepare → regular s → agrees s (prepare_arm (H:=E1) m) (prepare_arm (H:=E2) m).
Proof.
  intros Hm Ht Hs. apply agrees_add; [done|by rewrite Ht|done|]. intros s1 Hs1. apply agrees_state, agrees_log.
  apply agrees_guarded; [done|by apply (regular_predicates s1)|]. intros []; [|by apply agrees_ret].
  apply agrees_state. case_decide; [|by apply agrees_ret]. apply agrees_switch; [done|]. intros s2 Hs2.
  apply agrees_lift; [done..|]. intros b _. apply agrees_call; [done|]. intros r s3 Hs3. by apply agrees_ret.
Qed.

Lemma commit_arm_agrees m s :
  typed m → msg_type_of m = Commit → regular s → agrees s (commit_arm (H:=E1) m) (commit_arm (H:=E2) m).
Proof.
  intros Hm Ht Hs. apply agrees_add; [done|by rewrite Ht|done|]. intros s1 Hs1. apply agrees_state, agrees_log.
  apply agrees_guarded; [done|by apply (regular_predicates s1)|]. intros []; [|by apply agrees_ret].
  apply agrees_state. case_decide; [|by apply agrees_ret].
  apply agrees_lift; [done..|]. intros b _. apply agrees_call; [done|]. intros r s2 Hs2.
  apply agrees_try; [by apply agrees_ret|]. intros _ s3 Hs3 _. apply agrees_switch; [done|]. intros s4 Hs4. by apply agrees_ret.
Qed.
(** ** Pre-prepares *)

(** Blocks are looked for in any order. *)
Lemma any_announced m b l n :
  blocks_typed (stored l) → get_block m = Done b →
  any_o (λ x, same_block x m) (@get_messages_of_type_seq o1 l BlockNew n) =
  any_o (λ x, same_block x m) (@get_messages_of_type_seq o2 l BlockNew n).
Proof.
  intros Hty Hb.
  assert (∀ o, any_o (λ x, same_block x m) (@get_messages_of_type_seq o l BlockNew n) =
               Done (existsb (λ x, bool_decide (get_block x = Done b)) (@get_messages_of_type_seq o l BlockNew n))) as Hany.
  { intros o. apply any_same_block_exists; [done|]. intros x [[Hx _] Hin]%elem_of_type_seq. apply Hty; [exact Hin|by rewrite Hx]. }
  rewrite !Hany. f_equal. apply eq_true_iff_eq. rewrite !existsb_exists.
  setoid_rewrite <- list_elem_of_In. by setoid_rewrite (@elem_of_type_seq _).
Qed.

(** The pre-prepare found for a message has one block. *)
Lemma one_pre_prepare l i :
  unique_pre_prepare (stored l) →
  match @get_one_msg o1 l i PrePrepare, @get_one_msg o2 l i PrePrepare with
  | Some m1, Some m2 => get_block m1 = get_block m2
  | None, None => True
  | _, _ => False
  end.
Proof.
  intros Hu. destruct (@get_one_msg o1 l i PrePrepare) as [m1|] eqn:H1, (@get_one_msg o2 l i PrePrepare) as [m2|] eqn:H2; [|..|done].
  - apply (@get_one_msg_some _) in H1 as [Hm1 Hin1], H2 as [Hm2 Hin2]. by eapply Hu.
  - apply (@get_one_msg_some _) in H1 as [Hm1 Hin1]. rewrite (@get_one_msg_none _) in H2. by apply (H2 m1).
  - apply (@get_one_msg_some _) in H2 as [Hm2 Hin2]. rewrite (@get_one_msg_none _) in H1. by apply (H1 m2).
Qed.

Lemma regular_pre_prepare m s :
  typed m → regular s → regular (pre_prepare (H:=E1) m s).2.
Proof.
  intros Hm Hs. destruct (pre_prepare (H:=E1) m s) as [o s'] eqn:Hrun. cbn [snd].
  apply (@pre_prepare_cases E1) in Hrun as [[-> _]|(_ & Hg & ->)]; [done|].
  destruct Hs as (Hsz & Hu & Hty).
  assert (regular (stored_state m s)) as Hst.
  { split; [done|]. split; [by apply (@guard_unique E1)|]. unfold stored_state. cbn [set_log msg_log]. rewrite stored_insert.
    intros x [->|Hx]%elem_of_store; [done|by apply Hty]. }
  unfold preparing_state. case_decide; [|done]. eapply regular_same; [..|exact Hst];
    cbn [set_state pbft_state set_timeout peer_ids st_f msg_log]; try done;
    by destruct (switch_phase_cases Preparing (pbft_state (stored_state m s))) as [->|[_ ->]].
Qed.

Lemma pre_prepare_agrees m s :
  typed m → msg_type_of m = PrePrepare → regular s → agrees s (pre_prepare (H:=E1) m) (pre_prepare (H:=E2) m).
Proof.
  intros Hm Ht Hs. split; [|by apply regular_pre_prepare]. pose proof Hs as (_ & Hu & Hty).
  destruct (typed_block m _ Ht) as [b Hb]; [done..|].
  unfold pre_prepare. rewrite !run_get_state. rewrite !run_bind. unfold sm_lift at 1 5.
  destruct (get_primary_id (pbft_state s)) as [p| |]; [|done..]. case_decide; [done|].
  rewrite !run_get_log, !run_bind. cbn [ext_order with_order]. rewrite (any_announced m b) by done.
  unfold sm_lift at 1 4. destruct (any_o _ _) as [[]| |]; cbn [negb]; [|done..].
  rewrite !run_try. pose proof (one_pre_prepare (msg_log s) (info m) Hu) as Hone.
  destruct (@get_one_msg o1 _ _ _) as [m1|], (@get_one_msg o2 _ _ _) as [m2|]; try done. by rewrite Hone.
Qed.
(** ** Sending *)

Section sending.
Context (h1 h2 : ParsedMessage → NodeM ()) (Hh : ∀ m s, typed m → regular s → agrees s (h1 m) (h2 m)).

Lemma broadcast_agrees t bs s p :
  from_bytes bs = Ok p → typed p → regular s →
  agrees s (broadcast_message (H:=E1) h1 t bs) (broadcast_message (H:=E2) h2 t bs).
Proof.
  intros Hp Ht Hs. apply agrees_call; [done|]. intros r s1 Hs1. change (from_bytes (H:=ext_codec (Externals:=E1)) bs) with (from_bytes bs).
  change (from_bytes (H:=ext_codec (Externals:=E2)) bs) with (from_bytes bs). rewrite Hp.
  apply agrees_try; [by apply agrees_ret|]. intros q s2 Hs2 [= <- <-]. by apply Hh.
Qed.

Lemma broadcast_pbft_message_agrees n t b s :
  t ≠ ViewChange → regular s →
  agrees s (broadcast_pbft_message (H:=E1) (broadcast_message (H:=E1) h1) n t b)
           (broadcast_pbft_message (H:=E2) (broadcast_message (H:=E2) h2) n t b).
Proof.
  intros Ht Hs. apply agrees_state. cbv zeta. case_match; [by apply agrees_ret|].
  set (m := mkPbftMessage (Some (make_msg_info t (view (pbft_state s)) n (st_id (pbft_state s)))) (Some b)).
  destruct (from_bytes_message m) as (bs & Hw & Hp); [by destruct t|].
  assert (make_msg_bytes (H:=E1) (make_msg_info t (view (pbft_state s)) n (st_id (pbft_state s))) b = Ok bs) as -> by exact Hw.
  assert (make_msg_bytes (H:=E2) (make_msg_info t (view (pbft_state s)) n (st_id (pbft_state s))) b = Ok bs) as -> by exact Hw.
  eapply broadcast_agrees; [exact Hp| |done]. intros _. by eexists.
Qed.

Lemma propose_agrees s :
  regular s → agrees s (propose_view_change_with (H:=E1) (broadcast_message (H:=E1) h1))
                       (propose_view_change_with (H:=E2) (broadcast_message (H:=E2) h2)).
Proof.
  intros Hs. apply agrees_state. case_decide; [by apply agrees_ret|]. apply agrees_modify; [done|done|]. intros s1 Hs1.
  apply agrees_lift; [done..|]. intros v _. apply agrees_lift; [done..|]. intros n _. apply agrees_log. cbv zeta.
  destruct (log_predicates_order_independent (H:=ext_platform) o1 o2 (msg_log s1) (make_msg_info ViewChange v n []) 0 n)
    as (_ & _ & Hseal); [apply Hs1..|done|].
  apply agrees_try; [split; [unfold mret, sm_ret; by do 2 f_equal|done]|]. intros seal s2 Hs2 _.
  set (vc := mkPbftViewChange _ _). destruct (from_bytes_view_change vc) as (bs & Hw & Hp); [done|].
  apply agrees_try; [by apply agrees_ret|]. intros bs' s3 Hs3 [= Hbs _].
  assert (bs' = bs) as ->. { revert Hbs. change (view_change_to_bytes (Codec:=ext_codec (Externals:=E1)) vc) with (view_change_to_bytes vc). rewrite Hw. by intros [= <-]. }
  eapply broadcast_agrees; [exact Hp|by intros []|done].
Qed.

Lemma view_change_agrees m s : regular s → agrees s (view_change (H:=E1) m) (view_change (H:=E2) m).
Proof.
  intros Hs. apply agrees_bind.
  { apply agrees_state, agrees_log. apply agrees_lift; [done..|]. intros q _. split; [unfold sm_lift; by rewrite (required_any _ _ m)|done]. }
  intros enough s1 Hs1 _. destruct enough; cbn [negb]; [|by apply agrees_ret].
  apply agrees_modify; [done|done|]. intros s2 Hs2. apply agrees_bind.
  { apply agrees_state, agrees_lift; [done..|]. intros p _. by apply agrees_ret. }
  intros primary s3 Hs3 _. apply agrees_bind.
  { apply agrees_self. destruct primary; [|by eapply regular_same; [..|exact Hs3]].
    unfold become_primary. rewrite run_modify_state, run_get_state. destruct (working_block _); by eapply regular_same; [..|exact Hs3]. }
  intros [] s4 Hs4 _. apply agrees_bind; [by apply agrees_self|]. intros t s5 Hs5 _.
  apply agrees_modify; [done|done|]. intros s6 Hs6. by apply agrees_ret.
Qed.

Lemma on_peer_message_body_agrees m s :
  typed m → regular s → agrees s (on_peer_message_body (H:=E1) (broadcast_message (H:=E1) h1) m)
                                 (on_peer_message_body (H:=E2) (broadcast_message (H:=E2) h2) m).
Proof.
  intros Hm Hs. rewrite !(@on_peer_message_body_arms _). fold (msg_type_of m).
  destruct (msg_type_of m) eqn:Ht; try by apply agrees_ret.
  - apply agrees_bind; [by apply pre_prepare_agrees|]. intros r s1 Hs1 _. destruct r as [|e].
    + apply agrees_lift; [done..|]. intros b _. by apply broadcast_pbft_message_agrees.
    + destruct e; try by apply agrees_ret.
  - by apply prepare_arm_agrees.
  - by apply commit_arm_agrees.
  - apply agrees_add; [done|by rewrite Ht|done|]. intros s1 Hs1. apply agrees_try.
    + apply agrees_state. case_decide; [|by apply agrees_ret]. apply agrees_log. apply agrees_lift; [done..|]. intros q _.
      apply agrees_lift; [done|apply required_any|]. intros enough _. case_match; [|by apply agrees_ret].
      apply agrees_try; [by apply propose_agrees|]. intros _ s2 Hs2 _. by apply agrees_ret.
    + intros stop s2 Hs2 _. destruct stop; [by apply agrees_ret|by apply view_change_agrees].
Qed.
End sending.

Lemma on_peer_message_agrees fuel m s :
  typed m → regular s → agrees s (on_peer_message (H:=E1) fuel m) (on_peer_message (H:=E2) fuel m).
Proof.
  revert m s. induction fuel as [|fuel IH]; intros m s Hm Hs; [by apply agrees_self|].
  by apply on_peer_message_body_agrees.
Qed.
Lemma on_block_valid_agrees fuel id s :
  regular s → agrees s (on_block_valid (H:=E1) fuel id) (on_block_valid (H:=E2) fuel id).
Proof.
  intros Hs. apply agrees_state, agrees_try; [by apply agrees_ret|]. intros b s1 Hs1 _.
  apply agrees_switch; [done|]. intros s2 Hs2. apply broadcast_pbft_message_agrees; [|done..].
  intros m s' Hm Hs'. by apply on_peer_message_agrees.
Qed.

Lemma propose_view_change_agrees fuel s :
  regular s → agrees s (propose_view_change (H:=E1) fuel) (propose_view_change (H:=E2) fuel).
Proof. intros Hs. apply propose_agrees; [|done]. intros m s' Hm Hs'. by apply on_peer_message_agrees. Qed.

(** C24. What a node does with the message of a peer, with a block its validator
    finds valid or when it proposes a view change, does not depend on the order
    in which its hash sets are iterated, though the handlers take the first of
    several stored messages. *)
Theorem peer_messages_order_independent fuel m s :
  typed m → sized (pbft_state s) → unique_pre_prepare (stored (msg_log s)) → blocks_typed (stored (msg_log s)) →
  on_peer_message (H:=E1) fuel m s = on_peer_message (H:=E2) fuel m s ∧
  (∀ id, on_block_valid (H:=E1) fuel id s = on_block_valid (H:=E2) fuel id s) ∧
  propose_view_change (H:=E1) fuel s = propose_view_change (H:=E2) fuel s.
Proof.
  intros Hm Hs Hu Ht. assert (regular s) as Hr by done. split; [by apply on_peer_message_agrees|].
  split; [intros id; by apply on_block_valid_agrees|by apply propose_view_change_agrees].
Qed.
End independence.

(** ** Committed blocks *)

(** An order that starts at a position. *)
Program Definition front (k : nat) : HashOrder := {| iter_order _ _ l := drop k l ++ take k l |}.
Next Obligation. intros k A g l. by rewrite (comm (++)), take_drop. Qed.

Lemma front_head {A} (P : A → Prop) `{!∀ x, Decision (P x)} (l : list A) k x :
  l !! k = Some x → P x → head (filter P (drop k l ++ take k l)) = Some x.
Proof. intros Hk HP. by rewrite (drop_S _ _ _ Hk), <- app_comm_cons, filter_cons_True. Qed.

Section next_height.
Context `{E : Externals}.
Implicit Types (s : Sys) (m : ParsedMessage).

(** The log is collected alike in any order. *)
Lemma collected_alike e1 e2 b s1 s2 l :
  1 ≤ seq_num (pbft_state s1) → msg_log s2 = msg_log s1 → seq_num (pbft_state s2) = seq_num (pbft_state s1) →
  @garbage_collect (@ext_order e1) (@ext_platform e1) (seq_num (pbft_state s1)) b (msg_log s1) = Done l →
  ∃ l', @garbage_collect (@ext_order e2) (@ext_platform e2) (seq_num (pbft_state s2)) b (msg_log s2) = Done l' ∧
    ∀ m, m ∈ stored l' ↔ m ∈ stored l.
Proof.
  intros Hn -> -> Hl.
  destruct (@garbage_collect_done (@ext_order e1) (@ext_platform e1) _ b (msg_log s1) Hn) as (l1 & Hl1 & Hm1 & _).
  destruct (@garbage_collect_done (@ext_order e2) (@ext_platform e2) _ b (msg_log s1) Hn) as (l2 & Hl2 & Hm2 & _).
  rewrite Hl in Hl1. injection Hl1 as <-. exists l2. split; [exact Hl2|]. intros m. etrans; [apply Hm2|]. symmetry. apply Hm1.
Qed.

(** C25. What a node works on after a commit does depend on that order: of the
    blocks announced for the next height it may take any, as its working block
    is the one that is iterated first and nothing else of its state depends on
    which that is.  If the round is for another block, the validator's approval
    of that block is an error, which changes nothing. *)
Theorem next_height_takes_any_block fuel id s s0 m b :
  on_block_commit id s = (Done tt, s0) → phase (pbft_state s) = Finished → is_working_block id (pbft_state s) →
  m ∈ stored (msg_log s) → has_type_seq BlockNew (seq_num (pbft_state s) + 1) m → get_block m = Done b →
  seq_num (pbft_state s) + 1 < two64 →
  ∃ o s', on_block_commit (H:=with_order E o) id s = (Done tt, s') ∧
    pbft_state s' = set_working_block (Some b) (pbft_state s0) ∧
    (∀ x, x ∈ stored (msg_log s') ↔ x ∈ stored (msg_log s0)) ∧
    ∀ id', id' ≠ pb_block_id b → on_block_valid (H:=with_order E o) fuel id' s' = (Done (Err NotReadyForMessage), s').
Proof.
  intros Hrun Hp Hwb Hin Ht Hb Hn. apply on_block_commit_inv in Hrun as [[_ [?|?]]|(_ & _ & n & wb & s2 & Hnext & Hfirst & Hview & l & Hl & ->)];
    [done..|]. rewrite u64_add_small in Hnext by done. injection Hnext as <-.
  apply list_elem_of_lookup in Hin as Hk. destruct Hk as [k Hk].
  apply (view_after_block (Some b)) in Hview as Hview'. destruct Hview' as (s2' & Hview' & Hst & Hlog & Htk).
  apply view_after_settles in Hview as (Hset & Hlog2 & _).
  assert (seq_num (pbft_state s2) = seq_num (pbft_state s) + 1) as Hseq by by destruct Hset.
  destruct (collected_alike E (with_order E (front k)) id s2 s2' l) as (l' & Hl' & Hsame);
    [lia|done|by rewrite Hst|done|].
  exists (front k). eexists. split.
  - apply (on_block_commit_run (H:=with_order E (front k)) id s (seq_num (pbft_state s) + 1) (Some b) s2');
      [done|done|by apply u64_add_small| |exact Hview'|by exists l'].
    unfold get_messages_of_type_seq, hs_iter. cbn. by rewrite (front_head _ _ k m), Hb.
  - split_and!; [cbn [pbft_state]; by rewrite Hst, Htk|exact Hsame|]. intros id' Hid. unfold on_block_valid, on_block_valid_body. rewrite run_get_state. cbn [pbft_state]. rewrite Hst.
    cbn [set_timeout set_working_block working_block]. by rewrite decide_False by congruence.
Qed.
End next_height.

(** Two blocks on the first one, with the votes of peers 2 and 3. *)
Definition first_seal : PbftSeal :=
  mkPbftSeal (bk_block_id (sample_block 1)) [] [vote_signed_by (peer 2) (peer 2); vote_signed_by (peer 3) (peer 3)].
Definition second_block : Block := sealed_block first_seal.
Definition second_rival : Block := mkBlock (x72 :: peer 2) (bk_block_id (sample_block 1)) (peer 0) 2 (x0c :: enc first_seal) [].

(** Both are announced when the first block is finished. *)
Definition both_announced : Sys :=
  after (_ ← on_block_new (H:=fix_env) fuel second_block; on_block_new (H:=fix_env) fuel second_rival) run_finished.
