(* ===== verification/Testing.v ===== *)
(** * What the repository's tests are written in

    The tests under [#[cfg(test)]] are translated like the rest of the code: a
    test is an outcome, and passes when it is [Done].  This file has the
    assertions, [unwrap], the mock service and the mock data of node.rs; the
    libraries are those of Fixture.v. *)

From S2P Require Import Prelude HashSet MessageType Wire Service Errors Messages.
From S2P Require Import Timing Config NodeState MessageLog Sys Handlers Node Fixture.
From Stdlib Require Import Strings.Byte.

(** ** Assertions *)

Definition passes {A} (test : Outcome A) : bool := match test with Done _ => true | _ => false end.

Definition assert (b : bool) : Outcome () :=
  if b then Done tt else Panic "assertion failed".
Definition assert_eq `{EqDecision A} (a b : A) : Outcome () := assert (bool_decide (a = b)).

Definition unwrap {A E} (r : Result A E) : Outcome A :=
  match r with Ok a => Done a | Err _ => Panic "called `Result::unwrap()` on an `Err` value" end.
Definition is_ok {A E} (r : Result A E) : bool := match r with Ok _ => true | Err _ => false end.
Definition is_err {A E} (r : Result A E) : bool := negb (is_ok r).
Definition is_some {A} (o : option A) : bool := match o with Some _ => true | None => false end.

(** [v[i]]. *)
Definition index {A} (l : list A) (i : N) : Outcome A :=
  match l !! N.to_nat i with Some a => Done a | None => Panic "index out of bounds" end.

(** [for x in l { .. }]. *)
Fixpoint for_each {A} (l : list A) (body : A → Outcome ()) : Outcome () :=
  match l with [] => Done tt | x :: l => _ ← body x; for_each l body end.
Fixpoint fold_o {A B} (l : list A) (acc : B) (body : B → A → Outcome B) : Outcome B :=
  match l with [] => Done acc | x :: l => acc ← body acc x; fold_o l acc body end.

(** [a..b]. *)
Definition range (a b : N) : list N := (λ k, N.of_nat k) <$> seq (N.to_nat a) (N.to_nat (b - a)).

(** ** The machine the tests run on *)

(** [serde_json] on arrays of plain strings. *)
Fixpoint strip (s : string) : string :=
  match s with
  | EmptyString => EmptyString
  | String c s =>
      if decide (Ascii.N_of_ascii c ∈ [32; 34; 91; 93]) then strip s else String c (strip s)
  end.
#[local] Instance test_json : Json := {| json_strings := λ s, Some (split_commas EmptyString (strip s)) |}.

Definition quoted (s : string) : string :=
  let quote := String (Ascii.ascii_of_N 34) EmptyString in quote +:+ s +:+ quote.

#[local] Existing Instance fix_codec.
#[local] Existing Instance fix_crypto.

Definition mock_block_id (num : N) : BlockId :=
  hash_sha256 (String.list_byte_of_string ("I'm a block with block num " +:+ pretty num)).

(** [MockService]: the chain it keeps is the genesis block and the blocks it
    was told to commit. *)
Definition mock_chain (h : list ServiceCall) : list BlockId :=
  mock_block_id 0 :: omap (λ c, match c with CommitBlock b => Some b | _ => None end) h.

Definition mock_service : Service := {|
  on_initialize_block := λ _ _, Ok tt;
  on_summarize_block := λ _, Ok [];
  on_finalize_block := λ _ _, Ok [];
  on_check_blocks := λ _ _, Ok tt;
  on_commit_block := λ _ _, Ok tt;
  on_ignore_block := λ _ _, Ok tt;
  on_fail_block := λ _ _, Ok tt;
  on_get_settings := λ _ _ _,
    Ok {[ peers_key := "[" +:+ quoted "00" +:+ ", " +:+ quoted "01" +:+ ", " +:+ quoted "02" +:+ ", " +:+ quoted "03" +:+ "]" ]};
  on_broadcast := λ _ _ _, Ok tt
|}.

(** A build, the order in which hash sets are iterated, and a clock that
    advances by a nanosecond at every reading. *)
Definition test_env (checks : bool) (order : HashOrder) : Externals := {|
  ext_platform := {| overflow_checks := checks |};
  ext_order := order;
  ext_codec := fix_codec;
  ext_crypto := fix_crypto;
  ext_json := test_json;
  ext_service := mock_service;
  ext_clock := {| clock_at := N.of_nat |}
|}.
