(* ===== verification/NodeTests.v ===== *)
(** * The tests of the node, its state, its log and its handlers

    Translations of the test modules of node.rs, state.rs, message_log.rs and
    handlers.rs.  In a test build [_broadcast_message] does nothing. *)

From S2P Require Import Prelude HashSet MessageType Wire Service Errors Messages.
From S2P Require Import Timing Config NodeState MessageLog Sys Handlers Node Fixture Testing.
From Stdlib Require Import Strings.Byte.

Section tests.
Context (checks : bool) (order : HashOrder).

#[local] Instance env : Externals := test_env checks order.

Implicit Types (node_id : PeerId).

(** The handlers in a test build. *)
Definition test_on_block_new (block : Block) : NodeM () := on_block_new_body broadcast_message_disabled block.
Definition test_on_block_valid (id : BlockId) : NodeM () := on_block_valid_body broadcast_message_disabled id.
Definition test_on_peer_message (m : ParsedMessage) : NodeM () := on_peer_message_body broadcast_message_disabled m.
Definition test_propose : NodeM () := propose_view_change_with broadcast_message_disabled.

(** ** Mock data *)

(** [Vec<u8>] of one byte. *)
Definition id_of (n : N) : PeerId := peer n.

Definition new_state (id : PeerId) : Outcome PbftState := state_new 0 id 0 (mock_config 4).

(** A mock node and a state, the variables of a test. *)
Definition mock_node node_id (state : PbftState) : Outcome Sys :=
  let '(log, h) := node_new (mock_config 4) (bool_decide (node_id = id_of 0)) [] in
  log ← log; Done (mkSys h log state 0).

Definition mock_block (num : N) : Outcome Block :=
  previous ← u64_sub num 1;
  Done (mkBlock (mock_block_id num) (mock_block_id previous) [] num [] []).

Definition mock_msg (t : PbftMessageType) (v n : N) (block : Block) (from : PeerId) : Outcome ParsedMessage :=
  from_pbft_message (mkPbftMessage (Some (make_msg_info t v n from)) (Some (pbft_block_from_block block))).

Definition get_chain_head (h : list ServiceCall) : Outcome Block :=
  let chain := mock_chain h in
  let prev_num := len chain - 2 in
  last ← match last chain with Some b => Done b | None => Panic "called `Option::unwrap()` on a `None` value" end;
  previous ← index chain prev_num;
  Done (mkBlock last previous [] (len chain - 1) [] []).

(** A commit for [block_id], signed with a fresh key. *)
Definition signed_commit (i n : N) (block_id : BlockId) : Outcome ParsedMessage :=
  message ← from_pbft_message (mkPbftMessage (Some (mkPbftMessageInfo "Commit" 0 n (id_of i)))
                                 (Some (mkPbftBlock block_id [] 0 [])));
  let pub_key := x6b :: id_of i in
  let header := mkPeerMessageHeader pub_key (hash_sha512 (message_bytes message)) in
  Done (mkParsedMessage (x0d :: enc header) pub_key (Messages.message message) (message_bytes message) false).

Definition handle_pbft_err (e : PbftError) : Outcome () :=
  match e with
  | TimeoutError => Done tt
  | WrongNumMessages _ _ _ | NotReadyForMessage => Done tt
  | _ => Panic "{}"
  end.

(** [.unwrap()] and [.unwrap_or_else(handle_pbft_err)] on a method's result. *)
Definition unwrapped {A} (m : NodeM A) : SM Sys A := r ← m; sm_lift (unwrap r).
Definition handled (m : NodeM ()) : SM Sys () :=
  r ← m; match r with Ok _ => mret tt | Err e => sm_lift (handle_pbft_err e) end.

(** Adds three signed commits for the previous block and builds a seal. *)
Definition seal_from_commits (n : N) : SM Sys bytes :=
  head ← sm_lift (mock_block n);
  commits ← sm_lift (map_o (λ i, signed_commit i n (bk_block_id head)) (range 0 3));
  _ ← unwrapped (add_all_messages commits);
  unwrapped (build_seal [x01; x02; x03]).

Definition mock_block_with_seal (num : N) : SM Sys Block :=
  previous ← sm_lift (u64_sub num 1);
  block ← sm_lift (mock_block num);
  payload ← seal_from_commits previous;
  mret (mkBlock (bk_block_id block) (bk_previous_id block) (bk_signer_id block) (bk_block_num block)
          payload [x01; x02; x03]).

(** Runs a test of one node. *)
Definition with_node {A} node_id (state : Outcome PbftState) (test : SM Sys A) : Outcome () :=
  state ← state; s ← mock_node node_id state; _ ← (test s).1; Done tt.

Definition expect (P : PbftState → Outcome ()) : SM Sys () := st ← get_state; sm_lift (P st).

Definition block_is (block : Block) (st : PbftState) : Outcome () :=
  assert_eq (working_block st) (Some (pbft_block_from_block block)).

(** ** node.rs *)

Definition block_new_initial : Outcome () :=
  block ← mock_block 1;
  _ ← with_node (id_of 0) (new_state (id_of 0))
    (_ ← unwrapped (test_on_block_new block);
     expect (λ st, _ ← assert_eq (phase st) PrePreparing; _ ← assert_eq (seq_num st) 1; block_is block st));
  with_node (id_of 1) (new_state [])
    (_ ← handled (test_on_block_new block);
     expect (λ st, _ ← assert_eq (phase st) PrePreparing; block_is block st)).

Definition expect_head_is_genesis : SM Sys () :=
  h ← sm_gets service;
  sm_lift (head ← get_chain_head h; _ ← assert_eq (bk_block_num head) 0;
           _ ← assert_eq (bk_block_id head) (mock_block_id 0); assert_eq (bk_previous_id head) (mock_block_id 0)).

Definition expect_normal (working : option PbftBlock) : SM Sys () :=
  expect (λ st,
    _ ← assert_eq (st_id st) (id_of 0); _ ← assert_eq (view st) 0; _ ← assert_eq (phase st) PrePreparing;
    _ ← assert_eq (mode st) Normal; _ ← assert_eq (peer_ids st) (id_of <$> range 0 4); _ ← assert_eq (st_f st) 1;
    _ ← assert_eq (forced_view_change_period st) 30; _ ← assert_eq (working_block st) working;
    assert (is_primary st)).

Definition next_seq_num : SM Sys () :=
  st ← get_state; n ← sm_lift (u64_add (seq_num st) 1); modify_state (set_seq_num n).

Fixpoint following_blocks (nums : list N) : SM Sys () :=
  match nums with
  | [] => mret tt
  | i :: nums =>
      _ ← expect (λ st, assert_eq (seq_num st) i);
      block ← mock_block_with_seal i;
      _ ← unwrapped (test_on_block_new block);
      _ ← expect_normal (Some (pbft_block_from_block block));
      _ ← next_seq_num;
      following_blocks nums
  end.

Definition block_new_first_10_blocks : Outcome () :=
  block ← mock_block 1;
  with_node (id_of 0) (new_state (id_of 0))
    (_ ← expect_head_is_genesis;
     _ ← expect_normal None;
     _ ← unwrapped (test_on_block_new block);
     _ ← expect_head_is_genesis;
     _ ← expect (λ st, assert_eq (seq_num st) 1);
     _ ← expect_normal (Some (pbft_block_from_block block));
     _ ← next_seq_num;
     following_blocks (range 2 10)).

Definition block_new_consensus : Outcome () :=
  block ← mock_block 7;
  with_node (id_of 1) (new_state [])
    (_ ← modify_state (set_seq_num 7);
     seal ← seal_from_commits 6;
     unwrapped (test_on_block_new (mkBlock (bk_block_id block) (bk_previous_id block) (bk_signer_id block)
                                     (bk_block_num block) seal [x01; x02; x03]))).

Definition block_valid : Outcome () :=
  block ← mock_block 1;
  with_node (id_of 0) (new_state (id_of 0))
    (_ ← modify_state (set_phase Checking);
     _ ← modify_state (set_working_block (Some (pbft_block_from_block block)));
     _ ← handled (test_on_block_valid (mock_block_id 1));
     expect (λ st, assert_eq (phase st) Committing)).

Definition block_commit : Outcome () :=
  block ← mock_block 1;
  with_node (id_of 0) (new_state (id_of 0))
    (_ ← modify_state (set_phase Finished);
     _ ← modify_state (set_working_block (Some (pbft_block_from_block block)));
     _ ← expect (λ st, assert_eq (seq_num st) 1);
     _ ← on_block_commit (mock_block_id 1);
     expect (λ st, _ ← assert_eq (phase st) PrePreparing; _ ← assert_eq (working_block st) None; assert_eq (seq_num st) 2)).

(** Three votes, the phase being [p] before each. *)
Fixpoint three_votes (t : PbftMessageType) (p : PbftPhase) (block : Block) (peers : list N) : SM Sys () :=
  match peers with
  | [] => mret tt
  | i :: peers =>
      _ ← expect (λ st, assert_eq (phase st) p);
      msg ← sm_lift (mock_msg t 0 1 block (id_of i));
      _ ← handled (test_on_peer_message msg);
      three_votes t p block peers
  end.

Definition multicast_protocol : Outcome () :=
  block ← mock_block 1;
  pre_prepare ← mock_msg PrePrepare 0 1 block (id_of 0);
  with_node (id_of 1) (new_state [])
    (_ ← handled (test_on_block_new block);
     _ ← handled (test_on_peer_message pre_prepare);
     _ ← expect (λ st, _ ← assert_eq (phase st) Preparing; _ ← assert_eq (seq_num st) 1;
                        assert_eq (pb_block_id <$> working_block st) (Some (mock_block_id 1)));
     _ ← three_votes Prepare Preparing block (range 0 3);
     _ ← expect (λ st, assert_eq (phase st) Checking);
     r ← test_on_block_valid (mock_block_id 1);
     _ ← sm_lift (assert (is_ok r));
     _ ← three_votes Commit Committing block (range 0 3);
     _ ← expect (λ st, assert_eq (phase st) Finished);
     _ ← on_block_commit (mock_block_id 1);
     _ ← expect (λ st, assert_eq (phase st) PrePreparing);
     h ← sm_gets service;
     sm_lift (_ ← assert_eq (len (mock_chain h)) 2; b ← index (mock_chain h) 1; assert_eq b (mock_block_id 1))).

Fixpoint three_view_changes (peers : list N) : SM Sys () :=
  match peers with
  | [] => mret tt
  | i :: peers =>
      _ ← expect (λ st, assert_eq (mode st) (if bool_decide (i < 2) then Normal else ViewChanging));
      msg ← sm_lift (from_view_change_message
                       (mkPbftViewChange (Some (make_msg_info ViewChange 1 0 (id_of i))) (Some default_seal)));
      _ ← handled (test_on_peer_message msg);
      three_view_changes peers
  end.

Definition test_view_change : Outcome () :=
  with_node (id_of 1) (new_state (id_of 1))
    (_ ← expect (λ st, assert (negb (is_primary st)));
     _ ← modify_log (add_consensus_seal (mock_block_id 0) 0 default_seal);
     _ ← three_view_changes (range 0 3);
     expect (λ st, _ ← assert (is_primary st); assert_eq (view st) 1)).

Definition test_propose_view_change : Outcome () :=
  with_node (id_of 1) (new_state [])
    (_ ← expect (λ st, assert_eq (mode st) Normal);
     _ ← modify_log (add_consensus_seal (mock_block_id 0) 0 default_seal);
     _ ← handled test_propose;
     expect (λ st, assert_eq (mode st) ViewChanging)).

Definition test_try_publish : Outcome () :=
  block ← mock_block 1;
  commits ← map_o (λ i, from_pbft_message (mkPbftMessage (Some (mkPbftMessageInfo "Commit" 0 0 (id_of i))) None)) (range 0 3);
  with_node (id_of 0) (new_state (id_of 0))
    (_ ← unwrapped (add_all_messages commits);
     _ ← modify_state (set_phase PrePreparing);
     _ ← modify_state (set_working_block (Some (pbft_block_from_block block)));
     unwrapped try_publish).

Definition node_tests : list (Outcome ()) :=
  [block_new_initial; block_new_first_10_blocks; block_new_consensus; block_valid; block_commit;
   multicast_protocol; test_view_change; test_propose_view_change; test_try_publish].
(** ** state.rs *)

Definition no_fault_tolerance : Outcome () :=
  assert match state_new 0 (id_of 0) 0 (mock_config 1) with Panic _ => true | _ => false end.

Definition initial_config : Outcome () :=
  state0 ← new_state (id_of 0);
  state1 ← new_state [];
  _ ← assert (is_primary state0);
  _ ← assert (negb (is_primary state1));
  _ ← assert_eq (st_f state0) 1;
  _ ← assert_eq (st_f state1) 1;
  _ ← assert_eq (check_msg_type state0) PrePrepare;
  _ ← assert_eq (check_msg_type state1) PrePrepare;
  primary0 ← get_primary_id state0; first0 ← index (peer_ids state0) 0;
  _ ← assert_eq primary0 first0;
  primary1 ← get_primary_id state1; first1 ← index (peer_ids state1) 0;
  assert_eq primary1 first1.

Definition role_changes : Outcome () :=
  state ← new_state (id_of 0);
  let state := downgrade_role state in
  _ ← assert (negb (is_primary state));
  let state := upgrade_role state in
  assert (is_primary state).

(** Whether each of the phase changes is allowed, in turn. *)
Fixpoint phase_changes_from (changes : list (PbftPhase * bool)) (state : PbftState) : Outcome () :=
  match changes with
  | [] => Done tt
  | (p, allowed) :: changes =>
      let '(r, state) := switch_phase p state in
      _ ← assert (Bool.eqb (is_some r) allowed); phase_changes_from changes state
  end.

Definition phase_changes : Outcome () :=
  state ← new_state (id_of 0);
  phase_changes_from [(Preparing, true); (Checking, true); (Committing, true); (Finished, true); (PrePreparing, true);
                      (Finished, false); (Checking, false)] state.

Definition state_tests : list (Outcome ()) := [no_fault_tolerance; initial_config; role_changes; phase_changes].

(** ** message_log.rs *)

Definition make_msg (t : PbftMessageType) (v n : N) (signer_id block_signer_id : PeerId) : Outcome ParsedMessage :=
  from_pbft_message (mkPbftMessage (Some (mkPbftMessageInfo (string_of_message_type t) v n signer_id))
                       (Some (mkPbftBlock (mock_block_id n) block_signer_id n []))).

Definition get_peer_id (cfg : PbftConfig) (which : N) : Outcome PeerId := index (cfg_peers cfg) which.

(** Adds a message of height [n] and view 0 by the peer [which]. *)
Definition add_made (state : PbftState) (t : PbftMessageType) (n : N) (log : PbftLog) (which : N) : Outcome (PbftLog * ParsedMessage) :=
  signer ← get_peer_id (mock_config 4) which;
  block_signer ← get_peer_id (mock_config 4) 0;
  msg ← make_msg t 0 n signer block_signer;
  let '(r, log) := add_message msg state log in
  _ ← unwrap r; Done (log, msg).

Definition one_message : Outcome () :=
  state ← new_state [];
  '(log, msg) ← add_made state PrePrepare 1 (log_new (mock_config 4)) 0;
  let gotten_msgs := get_messages_of_type_seq_view log PrePrepare 1 0 in
  _ ← assert_eq (len gotten_msgs) 1;
  first ← index gotten_msgs 0;
  assert_eq msg first.

(** The two predicates, as expected. *)
Definition log_is (prepared committable : bool) (log : PbftLog) (msg : ParsedMessage) : Outcome () :=
  p ← check_prepared log (info msg) 1;
  _ ← assert (Bool.eqb p prepared);
  c ← check_committable log (info msg) 1;
  assert (Bool.eqb c committable).

Definition prepared_committed : Outcome () :=
  state ← new_state [];
  '(log, msg) ← add_made state BlockNew 1 (log_new (mock_config 4)) 0;
  _ ← log_is false false log msg;
  '(log, msg) ← add_made state PrePrepare 1 log 0;
  _ ← log_is false false log msg;
  log ← fold_o (range 0 4) log (λ log which,
    '(log, msg) ← add_made state Prepare 1 log which;
    _ ← log_is (bool_decide (2 ≤ which)) false log msg; Done log);
  _ ← fold_o (range 0 4) log (λ log which,
    '(log, msg) ← add_made state Commit 1 log which;
    c ← check_committable log (info msg) 1;
    _ ← assert (Bool.eqb c (bool_decide (2 ≤ which))); Done log);
  Done tt.

Definition made_only (r : Outcome (PbftLog * ParsedMessage)) : Outcome PbftLog := '(log, _) ← r; Done log.

Definition garbage_collection : Outcome () :=
  state ← new_state [];
  log ← fold_o (range 1 5) (log_new (mock_config 4)) (λ log n,
    log ← made_only (add_made state BlockNew n log 0);
    log ← made_only (add_made state PrePrepare n log 0);
    log ← fold_o (range 0 4) log (λ log which, made_only (add_made state Prepare n log which));
    fold_o (range 0 4) log (λ log which, made_only (add_made state Commit n log which)));
  log ← garbage_collect 5 [] (mkPbftLog (messages log) 20 (backlog log) (seals log));
  let count t n := len (get_messages_of_type_seq_view log t n 0) in
  _ ← for_each (range 1 3) (λ old, for_each [BlockNew; PrePrepare; Prepare; Commit] (λ t, assert_eq (count t old) 0));
  _ ← for_each [BlockNew; PrePrepare] (λ t, assert_eq (count t 4) 1);
  for_each [Prepare; Commit] (λ t, assert_eq (count t 4) 4).

Definition log_tests : list (Outcome ()) := [one_message; prepared_committed; garbage_collection].

(** ** handlers.rs *)

(** The module's own mock block, signed by peer 0. *)
Definition handlers_mock_block (num : N) : Outcome Block :=
  previous ← u64_sub num 1;
  Done (mkBlock (mock_block_id num) (mock_block_id previous) (id_of 0) num [] []).

Definition test_pre_prepare_at (id : PeerId) (msg block_new : ParsedMessage) : Outcome () :=
  state ← new_state id;
  let '(r, s) := pre_prepare msg (mkSys [] (log_new (mock_config 4)) state 0) in
  r ← r;
  _ ← assert (is_err r);
  let '(r, s) := log_add_message block_new s in
  r ← r;
  _ ← unwrap r;
  let '(r, s) := pre_prepare msg (set_state (set_seq_num 1 (pbft_state s)) s) in
  r ← r;
  _ ← assert (is_ok r);
  assert_eq (seq_num (pbft_state s)) 1.

Definition test_pre_prepare : Outcome () :=
  block ← handlers_mock_block 1;
  pre_prep_msg ← mock_msg PrePrepare 0 1 block (id_of 0);
  block_new ← mock_msg BlockNew 0 1 block (id_of 0);
  _ ← test_pre_prepare_at (id_of 0) pre_prep_msg block_new;
  test_pre_prepare_at (id_of 1) pre_prep_msg block_new.

Definition handlers_tests : list (Outcome ()) := [test_pre_prepare].
End tests.
