(* ===== verification/ComponentTests.v ===== *)
(** * The tests of the storages and the timers

    Translations of the test modules of storage/mod.rs and timing.rs, and the
    result of all the tests.  A test of the storages runs on files of its own;
    a test of the timers runs on a clock. *)

From S2P Require Import Prelude HashSet MessageType Wire Service Errors Messages.
From S2P Require Import Timing Config NodeState MessageLog Sys Handlers Node Storage Fixture Testing NodeTests.

(** ** storage/mod.rs *)

Section storage_tests.
Context (checks : bool).

#[local] Instance platform : Platform := {| overflow_checks := checks |}.
#[local] Existing Instance fix_files.
#[local] Existing Instance decimal.

(** A [u32] sum. *)
Definition u32_add (a b : N) : Outcome N :=
  if bool_decide (a + b < 2 ^ 32) then Done (a + b) else u64_overflow "add" ((a + b) mod 2 ^ 32).

(** [DiskStorage::from_path(..).unwrap()]. *)
Definition open_disk (filename : string) (default : N) : SM Files (DiskStorage N) :=
  r ← from_path id (λ fs _, fs) filename (mret default); sm_lift (unwrap r).

(** [**storage.write() = x], the guard dropped at the end of its scope. *)
Definition write {St} `{Storage St} (x : N) (storage : St N) : SM Files (St N) :=
  let storage := storage_put x storage in
  _ ← storage_drop storage; mret storage.

Definition read_is {St} `{Storage St} (storage : St N) (x : N) : SM Files () :=
  sm_lift (assert_eq (storage_read storage) x).

Definition remove_file (filename : string) : SM Files () := λ fs,
  match fs !! filename with
  | Some _ => (Done tt, delete filename fs)
  | None => (Panic "called `Result::unwrap()` on an `Err` value", fs)
  end.

Context (filename : string).

Definition test_read_guard : SM Files () :=
  storage ← open_disk filename 1;
  _ ← read_is storage 1;
  _ ← read_is storage 1;
  remove_file filename.

Definition test_disk_persistence : SM Files () :=
  storage ← open_disk filename 0;
  storage ← write 5 storage;
  _ ← read_is storage 5;
  storage ← open_disk filename 0;
  _ ← read_is storage 5;
  remove_file filename.

Definition test_truncation : SM Files () :=
  storage ← open_disk filename 500;
  _ ← read_is storage 500;
  storage ← open_disk filename 0;
  _ ← read_is storage 500;
  storage ← write 2 storage;
  _ ← read_is storage 2;
  storage ← open_disk filename 0;
  _ ← read_is storage 2;
  remove_file filename.

Definition test_write_guard : SM Files () :=
  storage ← open_disk filename 1;
  _ ← read_is storage 1;
  storage ← write 5 storage;
  _ ← read_is storage 5;
  storage ← open_disk filename 1;
  _ ← read_is storage 5;
  storage ← write 64 storage;
  _ ← read_is storage 64;
  remove_file filename.

(** [*foo += bar]. *)
Definition add_refs (foo bar : N) : Outcome N := u32_add foo bar.

(** [**foo.write() += **bar.read()]. *)
Definition add_storages {St St'} `{Storage St, Storage St'} (foo : St N) (bar : St' N) : SM Files (St N) :=
  sum ← sm_lift (u32_add (storage_read foo) (storage_read bar));
  write sum foo.

Definition test_fn_arg : SM Files () :=
  diskval ← open_disk filename 1;
  memval ← mem_storage_new (mret 5);
  _ ← read_is diskval 1;
  sum ← sm_lift (add_refs (storage_read diskval) (storage_read memval));
  diskval ← write sum diskval;
  _ ← read_is diskval 6;
  _ ← read_is memval 5;
  memval ← add_storages memval diskval;
  _ ← read_is memval 11;
  remove_file filename.

Definition test_get_storage : SM Files () :=
  memval ← (r ← get_storage id (λ fs _, fs) "memory" (mret 1); sm_lift (unwrap r));
  diskval ← (r ← get_storage id (λ fs _, fs) ("disk+" +:+ filename) (mret 1); sm_lift (unwrap r));
  _ ← read_is memval 1;
  diskval ← write 128 diskval;
  _ ← read_is diskval 128;
  remove_file filename.

Definition storage_tests : list (Outcome ()) :=
  (λ test : SM Files (), (test ∅).1) <$>
  [test_read_guard; test_disk_persistence; test_truncation; test_write_guard; test_fn_arg; test_get_storage].
End storage_tests.

(** ** timing.rs *)

Section timing_tests.
(** The clock: reading it takes [step] nanoseconds. *)
Context (step : N).

Definition now : SM N N := λ time, (Done time, time + step).
Definition sleep (d : N) : SM N () := λ time, (Done tt, time + d).

(** [assert_tolerance!]. *)
Definition assert_tolerance (val1 val2 tol : N) : Outcome () :=
  if bool_decide (val1 < val2 ∧ tol < val2 - val1) then Panic "Value is not within tolerance"
  else if bool_decide (val2 < val1 ∧ tol < val1 - val2) then Panic "Value is not within tolerance"
  else Done tt.

(** [while !triggered { t.tick(..) }], the state being the time, [end_time] and
    [triggered]. *)
Definition Ticking : Type := N * N * bool.
Definition with_time {A} (m : SM N A) : SM Ticking A :=
  zoom (λ s : Ticking, s.1.1) (λ time s, (time, s.1.2, s.2)) m.

Fixpoint tick_until_triggered (fuel : nat) (t : Ticker) : SM Ticking () :=
  match fuel with
  | O => sm_lift OutOfFuel
  | S fuel =>
      triggered ← sm_gets (λ s : Ticking, s.2);
      if triggered : bool then mret tt else
      t ← tick (with_time now) (end_time ← with_time now; sm_modify (λ s : Ticking, (s.1.1, end_time, true))) t;
      tick_until_triggered fuel t
  end.

Definition test_ticker (fuel : nat) : SM Ticking () :=
  let time := from_millis 100 in
  created ← with_time now;
  let t := ticker_new created time in
  start_time ← with_time now;
  end_time ← with_time now;
  _ ← sm_modify (λ s : Ticking, (s.1.1, end_time, false));
  _ ← tick_until_triggered fuel t;
  end_time ← sm_gets (λ s : Ticking, s.1.2);
  sm_lift (assert_tolerance (instant_sub end_time start_time) time (from_millis 1)).

Definition test_timeout : SM N () :=
  start_time ← now;
  created ← now;
  let t := timeout_new created (from_millis 100) in
  _ ← sm_lift (assert_eq (timeout_state t) Inactive);
  _ ← sm_lift (assert_tolerance (timeout_start t) start_time (from_millis 1));
  started ← now;
  let t := start started t in
  _ ← sm_lift (assert_eq (timeout_state t) Active);
  _ ← sleep (from_millis 110);
  checked ← now;
  let '(expired, t) := check_expired checked t in
  _ ← sm_lift (assert expired);
  _ ← sm_lift (assert_eq (timeout_state t) Expired);
  stopped ← now;
  sm_lift (assert_eq (timeout_state (stop stopped t)) Inactive).

(** With readings 0.2 ms apart at most 500 ticks come before the callback. *)
Definition timing_tests : list (Outcome ()) :=
  [(test_ticker 600 (0, 0, false)).1; (test_timeout 0).1].
End timing_tests.

(** ** All tests *)

Definition all_tests (checks : bool) (order : HashOrder) (filename : string) (step : N) : list (Outcome ()) :=
  node_tests checks order ++ state_tests checks order ++ log_tests checks order ++ handlers_tests checks order ++
  storage_tests checks filename ++ timing_tests step.

(** The repository's tests of the node, the state, the log, the handlers, the
    storages and the timers, 25 in all, pass when they are run on the model, in
    a debug and in a release build and whichever way hash sets are iterated. *)
Theorem repository_tests_pass :
  (∀ checks, Forall (λ order, forallb passes (all_tests checks order "/tmp/test" 200000) = true) [fix_order; rev_order]) ∧
  length (all_tests true fix_order "/tmp/test" 200000) = 25%nat.
Proof. split; [|by vm_compute]. intros []; repeat constructor; vm_compute; reflexivity. Qed.
