(* ===== verification/NetworkRuns.v ===== *)
(** * A network that forks

    Four peers, of which peer 0 is faulty, in the environment of Fixture.v.
    Honest logs agree within a view in the restricted network (Network.v).  The
    runs here show that more cannot be had: nothing carries what was prepared in
    one view into the next, a node whose log is right can commit another block,
    and without the restriction to one signature per prepare the logs need not
    agree.  One run is of a round that ends: the network settles on one block at
    each honest node (NetworkProgress.v). *)

From S2P Require Import Prelude HashSet MessageType Wire Service Errors Messages.
From S2P Require Import Timing Config NodeState MessageLog Sys Handlers Node NodeFrames.
From S2P Require Import Storage Engine Refinement EngineTheorems Decisions Network NetworkProgress NetworkCommits Fixture.
From Stdlib Require Import Strings.Byte.

#[local] Existing Instance fix_files.
#[local] Existing Instance fix_serde.

(** A start on the genesis block. *)
Definition genesis : Block := mkBlock (x62 :: peer 0) [] [] 0 [] [].
Definition world : World := mkWorld [] ∅ 0.

(** ** Messages of the peers, signed *)

Definition envelope (from : PeerId) (content : bytes) : PeerMessage :=
  let header := mkPeerMessageHeader from content in
  mkPeerMessage header (x0d :: enc header) from content.

Definition content_of (t : PbftMessageType) (v n : N) (from : PeerId) (b : PbftBlock) : bytes :=
  x0a :: enc (mkPbftMessage (Some (make_msg_info t v n from)) (Some b)).

Definition ballot (from : PeerId) (n v : N) (b : PbftBlock) : PeerMessage :=
  envelope from (content_of Prepare v n from b).

Definition deliver (content : bytes) (from to : N) : PeerId * Result Update RecvTimeoutError :=
  (peer to, Ok (UpdatePeerMessage (envelope (peer from) content) (peer from))).

Definition deliver_message (t : PbftMessageType) (v n : N) (b : Block) (from to : N) :=
  deliver (content_of t v n (peer from) (pbft_block_from_block b)) from to.

Definition deliver_view_change (v n : N) (seal : PbftSeal) (from to : N) :=
  deliver (x0b :: enc (mkPbftViewChange (Some (make_msg_info ViewChange v n (peer from))) (Some seal))) from to.

(** The seal for a block committed at height [n] in view 0. *)
Definition seal_for (n : N) (b : Block) (voters : list N) : PbftSeal :=
  mkPbftSeal (bk_block_id b) []
    ((λ k, let m := envelope (peer k) (content_of Commit 0 n (peer k) (pbft_block_from_block b)) in
           mkPbftSignedCommitVote (pe_header_bytes m) (pe_header_signature m) (pe_content m)) <$> voters).

Definition block_on (previous : Block) (seal : PbftSeal) (id : bytes) (signer : N) : Block :=
  mkBlock id (bk_block_id previous) (peer signer) (bk_block_num previous + 1) (x0c :: enc seal) [].

(** ** The network *)

#[local] Existing Instance fix_codec.
#[local] Existing Instance fix_crypto.
#[local] Existing Instance fix_json.

Definition peers_4 : list PeerId := cfg_peers (mock_config 4).

#[local] Abbreviation in_network f :=
  (f (λ _, {| overflow_checks := false |}) (λ _, fix_order) (λ _, accepting_service four_peers)
     (λ _, {| clock_at := N.of_nat |}) peers_4 {[ peer 0 ]}) (only parsing).

(** A faulty peer's engine, which takes no step. *)
Definition idle_engine : Engine :=
  mkEngine [] (log_new (mock_config 4)) 0 (InMemory (mkMemStorage (sample_state (peer 0) 4))) ∅
    (ticker_new 0 0) (ticker_new 0 0) [].

Definition net_0 : PeerId → Engine := λ p,
  default idle_engine (@start_engine fix_env _ _ p genesis world).2.

Definition after_events (events : list (PeerId * Result Update RecvTimeoutError)) (net : PeerId → Engine) : PeerId → Engine :=
  default net (in_network net_run fuel (signs_once ballot) events net).

(** Every honest peer goes through a height in view 0; [commits] are the pairs
    of peers between which commits are delivered. *)
Definition honest_peers : list N := [1; 2; 3].
Definition among (tos froms : list N) : list (N * N) :=
  filter (λ ft, ft.1 ≠ ft.2) (tos ≫= λ t, (λ f, (f, t)) <$> froms).
Definition announce (b : Block) (tos : list N) : list (PeerId * Result Update RecvTimeoutError) :=
  (λ t, (peer t, Ok (UpdateBlockNew b))) <$> tos.
Definition validate (b : Block) (tos : list N) : list (PeerId * Result Update RecvTimeoutError) :=
  (λ t, (peer t, Ok (UpdateBlockValid (bk_block_id b)))) <$> tos.
Definition committed_by (b : Block) (tos : list N) : list (PeerId * Result Update RecvTimeoutError) :=
  (λ t, (peer t, Ok (UpdateBlockCommit (bk_block_id b)))) <$> tos.
Definition exchange (t : PbftMessageType) (v n : N) (b : Block) (pairs : list (N * N)) : list (PeerId * Result Update RecvTimeoutError) :=
  (λ ft, deliver_message t v n b ft.1 ft.2) <$> pairs.

Definition up_to_prepared (v n : N) (b : Block) (primary : N) (backups tos froms : list N) :=
  announce b tos ++ exchange PrePrepare v n b (among backups [primary]) ++ exchange Prepare v n b (among tos froms).

Definition up_to_valid (n : N) (b : Block) : list (PeerId * Result Update RecvTimeoutError) :=
  up_to_prepared 0 n b 0 honest_peers honest_peers (0 :: honest_peers) ++ validate b honest_peers.

Definition round (n : N) (b : Block) : list (PeerId * Result Update RecvTimeoutError) :=
  up_to_valid n b ++ exchange Commit 0 n b (among honest_peers (0 :: honest_peers)) ++ committed_by b honest_peers.

(** Two heights as they should be. *)
Definition block_2 : Block := block_on (sample_block 1) (seal_for 1 (sample_block 1) [1; 2]) (x62 :: peer 2) 0.
Definition seal_2 : PbftSeal := seal_for 1 (sample_block 1) [1; 2].

(** The third height: peer 0 proposes [block_3]; the commits for it reach peer
    3 only.  Peers 1 and 2 then see a block without a seal, change the view with
    the help of peer 0, and commit the block of the new primary. *)
Definition block_3 : Block := block_on block_2 (seal_for 2 block_2 [1; 2]) (x62 :: peer 3) 0.
Definition rival_3 : Block := block_on block_2 (seal_for 2 block_2 [2; 3]) (x72 :: peer 3) 1.
Definition unsealed_3 : Block := mkBlock (x75 :: peer 3) (bk_block_id block_2) (peer 0) 3 [] [].

Definition height_3 : list (PeerId * Result Update RecvTimeoutError) :=
  up_to_valid 3 block_3 ++
  exchange Commit 0 3 block_3 [(0, 3); (1, 3); (2, 3)] ++
  announce unsealed_3 [1; 2] ++
  [deliver_view_change 1 2 seal_2 0 1; deliver_view_change 1 2 seal_2 2 1;
   deliver_view_change 1 2 seal_2 0 2; deliver_view_change 1 2 seal_2 1 2] ++
  up_to_prepared 1 3 rival_3 1 [2] [1; 2] [0; 1; 2] ++ validate rival_3 [1; 2] ++
  exchange Commit 1 3 rival_3 (among [1; 2] [0; 1; 2]).

Definition net_2 : PeerId → Engine := after_events (round 1 (sample_block 1) ++ round 2 block_2) net_0.

Definition net_3 : PeerId → Engine := after_events height_3 net_2.

(** The second height again, with two blocks on the first.  Peer 1 has announced
    both and has finished the first height, but does not know it is committed,
    when the pre-prepare for [block_2] comes; it stays in the first phase of the
    second height, where a prepare of peer 0 makes it check [rival_2], until the
    pre-prepare comes once more. *)
Definition rival_2 : Block := block_on (sample_block 1) (seal_for 1 (sample_block 1) [2; 3]) (x72 :: peer 2) 0.

Definition height_1_but_one : list (PeerId * Result Update RecvTimeoutError) :=
  up_to_valid 1 (sample_block 1) ++
  exchange Commit 0 1 (sample_block 1) (among honest_peers (0 :: honest_peers)) ++ committed_by (sample_block 1) [2; 3].

Definition height_2 : list (PeerId * Result Update RecvTimeoutError) :=
  announce rival_2 [1] ++ announce block_2 [1] ++ exchange PrePrepare 0 2 block_2 [(0, 1)] ++ committed_by (sample_block 1) [1] ++
  up_to_prepared 0 2 block_2 0 [2; 3] [2; 3] [0; 2; 3] ++ exchange Prepare 0 2 block_2 [(0, 1); (2, 1); (3, 1)] ++
  exchange Prepare 0 2 rival_2 [(0, 1)] ++ validate block_2 [2; 3] ++
  exchange Commit 0 2 block_2 (among honest_peers [0; 2; 3]) ++
  exchange PrePrepare 0 2 block_2 [(0, 1)] ++ validate rival_2 [1].

Definition net_1 : PeerId → Engine := after_events height_1_but_one net_0.
Definition net_2_forked : PeerId → Engine := after_events height_2 net_1.

Lemma after_events_reachable events net :
  (if in_network net_run fuel (signs_once ballot) events net then true else false) = true →
  rtc (in_network net_step fuel (signs_once ballot)) net (after_events events net).
Proof.
  unfold after_events. destruct (in_network net_run fuel (signs_once ballot) events net) as [net'|] eqn:Hr; [|done].
  intros _. by eapply net_run_reachable.
Qed.

Lemma honest_cases p : honest peers_4 {[ peer 0 ]} p → p = peer 1 ∨ p = peer 2 ∨ p = peer 3.
Proof.
  intros [Hin Hf]. rewrite not_elem_of_singleton in Hf. change (p ∈ [peer 0; peer 1; peer 2; peer 3]) in Hin.
  rewrite !elem_of_cons, elem_of_nil in Hin. naive_solver.
Qed.

Lemma net_0_start : in_network net_start net_0.
Proof.
  intros p Hp. exists genesis, world. split; [done|]. split; [by vm_compute|].
  by destruct (honest_cases p Hp) as [-> |[-> | ->]]; vm_compute.
Qed.

Lemma net_2_reachable : rtc (in_network net_step fuel (signs_once ballot)) net_0 net_2.
Proof. apply after_events_reachable. by vm_compute. Qed.

Lemma net_3_reachable : rtc (in_network net_step fuel (signs_once ballot)) net_0 net_3.
Proof. trans net_2; [apply net_2_reachable|]. apply after_events_reachable. by vm_compute. Qed.

(** *** A run in which validators answer only for what is pre-prepared

    The first height up to the commit of peer 1, then to those of the others. *)

Definition after_steady_events (events : list (PeerId * Result Update RecvTimeoutError)) (net : PeerId → Engine) : PeerId → Engine :=
  default net (in_network steady_run (pred fuel) (signs_once ballot) events net).

Definition net_first : PeerId → Engine :=
  after_steady_events (up_to_valid 1 (sample_block 1) ++ exchange Commit 0 1 (sample_block 1) (among [1] (0 :: honest_peers))) net_0.
Definition net_rest : PeerId → Engine :=
  after_steady_events (exchange Commit 0 1 (sample_block 1) (among [2; 3] (0 :: honest_peers))) net_first.

Lemma after_steady_events_reachable events net :
  (if in_network steady_run (pred fuel) (signs_once ballot) events net then true else false) = true →
  rtc (in_network steady_step (pred fuel) (signs_once ballot)) net (after_steady_events events net).
Proof.
  unfold after_steady_events. destruct (in_network steady_run (pred fuel) (signs_once ballot) events net) as [net'|] eqn:Hr; [|done].
  intros _. by eapply steady_run_reachable.
Qed.

Lemma net_first_reachable : rtc (in_network steady_step (pred fuel) (signs_once ballot)) net_0 net_first.
Proof. apply after_steady_events_reachable. by vm_compute. Qed.

Lemma net_rest_reachable : rtc (in_network steady_step (pred fuel) (signs_once ballot)) net_first net_rest.
Proof. apply after_steady_events_reachable. by vm_compute. Qed.

(** *** Votes signed again

    One vote, under three signatures. *)

Definition salted_envelope (from : PeerId) (salt : N) (content : bytes) : PeerMessage :=
  let m := envelope from content in
  mkPeerMessage (pe_header m) (pe_header_bytes m) (pe_header_signature m ++ peer salt) (pe_content m).

Definition vote_again (t : PbftMessageType) (b : Block) (from to : N) : list (PeerId * Result Update RecvTimeoutError) :=
  (λ salt, (peer to, Ok (UpdatePeerMessage
     (salted_envelope (peer from) salt (content_of t 0 1 (peer from) (pbft_block_from_block b))) (peer from)))) <$> [1; 2; 3].

Definition rival_1 : Block := mkBlock (x72 :: peer 1) (bk_block_id genesis) (peer 0) 1 [] [].

(** *** A round that ends

    The peers announce the first block.  Peers 1 and 2 join the round for it and
    send their prepares to peer 3, which gets its pre-prepare last; votes of peer
    0 for other blocks, and one for the block, signed three times, are among what
    they get. *)

Definition net_announced : PeerId → Engine :=
  default net_0 (in_network net_run fuel anything (announce (sample_block 1) honest_peers) net_0).

Definition round_1 : list (PeerId * Result Update RecvTimeoutError) :=
  exchange PrePrepare 0 1 (sample_block 1) [(0, 1); (0, 2)] ++
  exchange Prepare 0 1 (sample_block 1) (among honest_peers [1; 2]) ++
  exchange PrePrepare 0 1 (sample_block 1) [(0, 3)] ++
  exchange Commit 0 1 rival_2 (among honest_peers [0]) ++
  vote_again Prepare rival_1 0 1 ++ vote_again Prepare (sample_block 1) 0 2 ++
  exchange Prepare 0 1 (sample_block 1) [(3, 1); (3, 2)] ++ validate (sample_block 1) [1; 2] ++
  exchange Commit 0 1 (sample_block 1) (among honest_peers [1; 2]) ++ validate (sample_block 1) [3] ++
  exchange Commit 0 1 (sample_block 1) [(3, 1); (3, 2)].

Definition after_round_events (v n : N) (b : Block) (events : list (PeerId * Result Update RecvTimeoutError))
    (net : PeerId → Engine) : PeerId → Engine :=
  default net (in_network run_round (pred (pred fuel)) anything 1 n v (pbft_block_from_block b) events net).

Lemma after_round_events_run v n b events net :
  (if in_network run_round (pred (pred fuel)) anything 1 n v (pbft_block_from_block b) events net then true else false) = true →
  in_network round_run (pred (pred fuel)) anything 1 n v (pbft_block_from_block b) events net (after_round_events v n b events net).
Proof.
  unfold after_round_events. destruct (in_network run_round _ _ _ _ _ _ events net) as [net'|] eqn:Hr; [|done].
  intros _. by eapply run_round_run.
Qed.

Definition net_settled : PeerId → Engine := after_round_events 0 1 (sample_block 1) round_1 net_announced.

Lemma net_settled_run :
  in_network round_run (pred (pred fuel)) anything 1 1 0 (pbft_block_from_block (sample_block 1)) round_1 net_announced net_settled.
Proof. apply after_round_events_run. by vm_compute. Qed.

Lemma net_announced_reachable : rtc (in_network net_step fuel anything) net_0 net_announced.
Proof.
  unfold net_announced. destruct (in_network net_run fuel anything _ net_0) as [net|] eqn:Hr; [by eapply net_run_reachable|].
  exfalso. revert Hr. by vm_compute.
Qed.

(** *** Votes signed twice

    Peer 0 is the primary.  It pre-prepares one block at peer 1 and another one at
    peer 2, and sends each three prepares and three commits for its block, which
    are one vote signed three times. *)

Definition alone_with (b : Block) (primary to : N) : list (PeerId * Result Update RecvTimeoutError) :=
  announce b [to] ++ exchange PrePrepare 0 1 b [(primary, to)] ++ vote_again Prepare b primary to ++
  validate b [to] ++ vote_again Commit b primary to.

Definition net_divided : PeerId → Engine :=
  default net_0 (in_network free_run fuel (alone_with (sample_block 1) 0 1 ++ alone_with rival_1 0 2) net_0).

Lemma net_divided_reachable : rtc (in_network free_step fuel) net_0 net_divided.
Proof.
  unfold net_divided. destruct (in_network free_run fuel _ net_0) as [net|] eqn:Hr; [by eapply free_run_reachable|].
  exfalso. revert Hr. by vm_compute.
Qed.

(** A message that its signer has signed. *)
Definition signed_by_signer (m : ParsedMessage) : Prop :=
  header_of_bytes (header_bytes m) = Ok (mkPeerMessageHeader (mi_signer_id (info m)) (sha512 (message_bytes m))) ∧
  match public_key_from_hex (hex_encode (mi_signer_id (info m))) with
  | Some key => verify_signature (hex_encode (header_signature m)) (header_bytes m) key = Ok true
  | None => False
  end.

#[local] Instance signed_by_signer_dec m : Decision (signed_by_signer m).
Proof. unfold signed_by_signer. destruct (public_key_from_hex _); apply _. Defined.

(** C5. The network can fork: four peers, one of them faulty, reach a state in
    which two honest ones have told their validators to commit different blocks
    of the same height on the same chain. *)
Theorem honest_peers_fork :
  NoDup peers_4 ∧ len peers_4 = 3 * 1 + 1 ∧ size ({[ peer 0 ]} : gset PeerId) = 1%nat ∧
  ∃ start net, in_network net_start start ∧ rtc (in_network net_step fuel (signs_once ballot)) start net ∧
    committed (eng_service (net (peer 1))) = bk_block_id <$> [sample_block 1; block_2; rival_3] ∧
    committed (eng_service (net (peer 3))) = bk_block_id <$> [sample_block 1; block_2; block_3] ∧
    bk_block_num rival_3 = bk_block_num block_3 ∧ bk_previous_id rival_3 = bk_previous_id block_3 ∧
    bk_block_id rival_3 ≠ bk_block_id block_3.
Proof.
  split; [apply (bool_decide_unpack _); vm_compute; exact I|]. split; [done|]. split; [by vm_compute|].
  exists net_0, net_3. split; [exact net_0_start|]. split; [exact net_3_reachable|].
  split_and!; by vm_compute.
Qed.

Lemma net_2_forked_reachable : rtc (in_network net_step fuel (signs_once ballot)) net_0 net_2_forked.
Proof. trans net_1; apply after_events_reachable; by vm_compute. Qed.

(** C6. Nor need honest peers commit the same block in one view: of four peers,
    one of them faulty, none of which ever changes its view, one commits a block
    for which it has no pre-prepare, its validator having answered only what it
    was asked, while its log, like those of its peers, is committable for the
    block the others commit. *)
Theorem honest_peers_fork_in_one_view :
  ∃ start net, in_network net_start start ∧ rtc (in_network net_step fuel (signs_once ballot)) start net ∧
    committed (eng_service (net (peer 1))) = bk_block_id <$> [sample_block 1; rival_2] ∧
    committed (eng_service (net (peer 2))) = bk_block_id <$> [sample_block 1; block_2] ∧
    committed (eng_service (net (peer 3))) = bk_block_id <$> [sample_block 1; block_2] ∧
    CheckBlocks [bk_block_id rival_2] ∈ eng_service (net (peer 1)) ∧
    Forall (λ n, view (pbft_state (sys_of (net (peer n)))) = 0 ∧ seq_num (pbft_state (sys_of (net (peer n)))) = 2 ∧
                 committable (log_of net (peer n)) 2 0 3 (pbft_block_from_block block_2) ∧
                 votes (log_of net (peer n)) PrePrepare 2 0 (pbft_block_from_block rival_2) = []) honest_peers ∧
    bk_previous_id rival_2 = bk_previous_id block_2 ∧ bk_block_id rival_2 ≠ bk_block_id block_2.
Proof.
  exists net_0, net_2_forked. split; [exact net_0_start|]. split; [exact net_2_forked_reachable|].
  apply (bool_decide_unpack _). vm_compute. exact I.
Qed.

(** C7. In the free network not even the logs of honest peers agree within a
    view: of four peers, one of them faulty, two honest ones pass
    [check_committable] at one height and view for different blocks, and have
    their validators commit them, though each has heard of one other peer only,
    whose votes it has got three times, correctly signed each time. *)
Theorem votes_signed_twice_fork :
  ∃ start net, in_network net_start start ∧ rtc (in_network free_step fuel) start net ∧
    Forall (λ kb : N * Block,
      @check_committable fix_order {| overflow_checks := false |} (eng_log (net (peer kb.1))) (make_msg_info Commit 0 1 []) 1 = Done true ∧
      committable (log_of net (peer kb.1)) 1 0 3 (pbft_block_from_block kb.2) ∧
      committed (eng_service (net (peer kb.1))) = [bk_block_id kb.2] ∧
      Forall (λ m, mi_signer_id (info m) = peer kb.1 ∨ mi_signer_id (info m) = peer 0 ∧ signed_by_signer m) (log_of net (peer kb.1)))
      [(1, sample_block 1); (2, rival_1)] ∧
    bk_previous_id rival_1 = bk_previous_id (sample_block 1) ∧ bk_block_num rival_1 = bk_block_num (sample_block 1) ∧
    bk_block_id rival_1 ≠ bk_block_id (sample_block 1).
Proof.
  exists net_0, net_divided. split; [exact net_0_start|]. split; [exact net_divided_reachable|].
  apply (bool_decide_unpack _). vm_compute. exact I.
Qed.
