(* ===== verification/Witnesses.v ===== *)
(** * The theorems at concrete inputs

    Each lemma applies one theorem in the environment of Fixture.v, where its
    hypotheses hold. *)

From S2P Require Import Prelude HashSet MessageType Wire Service Errors Messages.
From S2P Require Import Timing Config NodeState MessageLog Sys Handlers Node NodeFrames.
From S2P Require Import Storage Engine NodeInvariants Protocol Refinement BlockCommit Seals Fixture.
From S2P Require Import Termination Safety Agreement Totality NodeTheorems SealTheorems LogTheorems.
From S2P Require Import Progress Stalls ViewChanges CatchUp Forgery StateTheorems EngineTheorems Origins TypeSafety Survival Network RoundSteps NetworkProgress NetworkCommits Runs HashOrders NetworkRuns.
From Stdlib Require Import Strings.Byte.

#[local] Existing Instance fix_env.

(** Evaluates a decidable hypothesis. *)
Ltac by_eval := apply (bool_decide_unpack _); vm_compute; exact I.

#[local] Instance sized_dec st : Decision (sized st).
Proof. unfold sized, tolerant. apply _. Defined.

#[local] Instance codec_laws : @CodecLaws (@ext_codec fix_env) := fix_codec_laws.

Definition commit_from (n : N) : ParsedMessage := sample_msg Commit 0 1 (sample_block 1) (peer n).

(** ** Safety *)

Lemma on_peer_message_refines_witness :
  phase (pbft_state run_almost) = Committing ∧ phase (pbft_state run_finished) = Finished ∧
  rtc protocol_step (abs run_almost) (abs run_finished).
Proof.
  split_and!; [by vm_compute|by vm_compute|].
  apply (on_peer_message_refines fuel (commit_from 2) run_almost). by_eval.
Defined.

Lemma commits_are_justified_witness :
  committed (service run_finished) = [bk_block_id (sample_block 1)] ∧
  ∃ new, committed (service run_finished) = committed (service run_almost) ++ new ∧
    ∀ id, id ∈ new → ∃ v b c cb,
      committable (stored (msg_log run_finished)) (seq_num (pbft_state run_almost)) v
        (2 * st_f (pbft_state run_almost) + 1) b ∧
      c ∈ stored (msg_log run_finished) ∧ has_type_seq_view Commit (seq_num (pbft_state run_almost)) v c ∧
      get_block c = Done cb ∧ pb_block_id cb = id.
Proof.
  split; [by vm_compute|].
  apply (commits_are_justified fuel (commit_from 2) run_almost). by_eval.
Defined.

(** A quorum of view changes for view 1. *)
Definition run_view_changing : Sys :=
  after (_ ← on_peer_message fuel (sample_view_change 1 0 (peer 0));
         on_peer_message fuel (sample_view_change 1 0 (peer 2))) run_announced.

Definition run_view_1 : Sys :=
  after (on_peer_message fuel (sample_view_change 1 0 (peer 3))) run_view_changing.

Lemma view_changes_are_justified_witness :
  view (pbft_state run_view_changing) = 0 ∧ view (pbft_state run_view_1) = 1 ∧
  (view (pbft_state run_view_1) = view (pbft_state run_view_changing) ∨
   ∃ seq, 2 * st_f (pbft_state run_view_changing) + 1 ≤
          len (filter (has_type_seq_view ViewChange seq (view (pbft_state run_view_1))) (stored (msg_log run_view_1)))).
Proof.
  split_and!; [by vm_compute|by vm_compute|].
  apply (view_changes_are_justified fuel (sample_view_change 1 0 (peer 3)) run_view_changing). by_eval.
Defined.

Lemma no_pre_prepare_unique ms :
  Forall (λ m, msg_type_of m ≠ PrePrepare) ms → unique_pre_prepare ms.
Proof.
  intros Hms m m' n v Hm _ Ht _. rewrite Forall_forall in Hms. destruct (Hms m Hm).
  by eapply msg_type_of_type_seq_view.
Qed.

Lemma announced_ok : node_ok run_announced.
Proof.
  split; [|split; [split; [|split]|]].
  - unfold tolerant. by_eval.
  - exact I.
  - apply no_pre_prepare_unique. by_eval.
  - by vm_compute.
  - unfold log_wf, hs_wf. by_eval.
Defined.

Lemma on_peer_message_keeps_invariant_witness :
  node_ok run_announced ∧ node_ok run_pre_prepared ∧ phase (pbft_state run_pre_prepared) = Preparing.
Proof.
  split_and!; [apply announced_ok| |by vm_compute].
  apply (on_peer_message_keeps_invariant fuel (sample_msg PrePrepare 0 1 (sample_block 1) (peer 0)) run_announced).
  - by_eval.
  - apply announced_ok.
Defined.

(** ** Handlers *)

Lemma pre_prepare_accepts_witness :
  let m := sample_msg PrePrepare 0 1 (sample_block 1) (peer 0) in
  pre_prepare_guard m run_announced ∧ (pre_prepare m run_announced).1 = Done (Ok tt).
Proof.
  assert (pre_prepare_guard (sample_msg PrePrepare 0 1 (sample_block 1) (peer 0)) run_announced) as Hg.
  { split; [by vm_compute|]. split; [by vm_compute|]. split; [by vm_compute|right; by vm_compute]. }
  split; [exact Hg|].
  apply (pre_prepare_accepts (sample_msg PrePrepare 0 1 (sample_block 1) (peer 0)) run_announced). exact Hg.
Defined.

Lemma early_pre_prepare_is_queued_witness :
  let m := sample_msg PrePrepare 0 1 (sample_block 1) (peer 0) in
  on_peer_message 3 m run_start =
    (Done (Ok tt), set_log (set_backlog (backlog (msg_log run_start) ++ [m]) (msg_log run_start)) run_start) ∧
  ∀ m0 ms s0, backlog (msg_log s0) = m0 :: ms →
    retry_backlog 2 s0 = on_peer_message 2 m0 (set_log (set_backlog ms (msg_log s0)) s0).
Proof. apply early_pre_prepare_is_queued; by vm_compute. Defined.

(** One view change short of the quorum, and its message stored. *)
Definition run_quorum : Sys := after (log_add_message (sample_view_change 1 0 (peer 3))) run_view_changing.

Lemma view_change_effect_witness :
  view (pbft_state (view_change (sample_view_change 1 0 (peer 3)) run_quorum).2) = 1 ∧
  role (pbft_state (view_change (sample_view_change 1 0 (peer 3)) run_quorum).2) = Primary.
Proof.
  destruct (view_change_effect (sample_view_change 1 0 (peer 3)) run_quorum 3 (peer 1)) as (_ & Hv & Hr & _).
  - by vm_compute.
  - by_eval.
  - by vm_compute.
  - split; [exact Hv|exact Hr].
Defined.

Lemma propose_without_seal_is_stuck_witness :
  let s' := set_state (set_mode ViewChanging (pbft_state run_announced)) run_announced in
  propose_view_change fuel run_announced = (Done (Err (WrongNumSeals 1 0)), s') ∧
  propose_view_change fuel s' = (Done (Ok tt), s').
Proof. apply (propose_without_seal_is_stuck fuel run_announced 1 0); by vm_compute. Defined.

(** A run whose outcome is known ends in the state [after] it. *)
Lemma run_of {S A} (m : SM S A) s o : (m s).1 = o → m s = (o, (m s).2).
Proof. intros <-. apply surjective_pairing. Qed.

Lemma run_next_done : on_block_commit (bk_block_id (sample_block 1)) run_finished = (Done tt, run_next).
Proof.
  unfold run_next, after. apply run_of. vm_compute. reflexivity.
Qed.

Lemma finished_block_1 : is_working_block (bk_block_id (sample_block 1)) (pbft_state run_finished).
Proof. exists block_1. by vm_compute. Qed.

Lemma on_block_commit_effect_witness :
  seq_num (pbft_state run_next) = seq_num (pbft_state run_finished) + 1 ∧ phase (pbft_state run_next) = PrePreparing.
Proof.
  destruct (on_block_commit_effect _ _ _ run_next_done) as [_ Heff].
  destruct Heff as (Hn & Hp & _).
  - by vm_compute.
  - apply finished_block_1.
  - by_eval.
  - split; [exact Hn|exact Hp].
Defined.

Lemma on_block_valid_effect_witness :
  phase (pbft_state run_checking) = Checking ∧
  ∃ bs, message_to_bytes (mkPbftMessage (Some (make_msg_info Commit 0 1 (peer 1))) (Some block_1)) = Ok bs ∧
    on_block_valid fuel (bk_block_id (sample_block 1)) run_checking =
    on_peer_message fuel
      (mkParsedMessage [] [] (WMessage (mkPbftMessage (Some (make_msg_info Commit 0 1 (peer 1))) (Some block_1))) bs true)
      (mkSys (service run_checking ++ [Broadcast "Commit" bs]) (msg_log run_checking)
         (set_phase Committing (pbft_state run_checking)) (ticks run_checking)).
Proof.
  split; [by vm_compute|].
  destruct (on_block_valid_effect fuel (bk_block_id (sample_block 1)) run_checking) as [Hv _].
  destruct (Hv block_1) as (bs & Hbs & Hrun); [by vm_compute|done|left; by vm_compute|].
  exists bs. split; [exact Hbs|exact Hrun].
Defined.

(** ** Totality *)

Lemma blocks_typed_forall ms : Forall (λ m, ∃ b, get_block m = Done b) ms → blocks_typed ms.
Proof. intros Hms m Hm _. by eapply Forall_forall in Hms. Qed.

Lemma announced_typed : blocks_typed (stored (msg_log run_announced)).
Proof. apply blocks_typed_forall. repeat (constructor; [by eexists|]). constructor. Qed.

Lemma self_sends_end_witness :
  let m := sample_msg PrePrepare 0 1 (sample_block 1) (peer 0) in
  on_peer_message 7 m run_announced = on_peer_message 2 m run_announced ∧
  (on_peer_message 7 m run_announced).1 ≠ OutOfFuel.
Proof. apply (self_sends_end 7); lia. Defined.

Lemma on_peer_message_returns_witness :
  ∃ r s', on_peer_message fuel (sample_msg PrePrepare 0 1 (sample_block 1) (peer 0)) run_announced = (Done r, s') ∧
          blocks_typed (stored (msg_log s')).
Proof.
  apply on_peer_message_returns.
  - by_eval.
  - intros _. by eexists.
  - by_eval.
  - apply announced_typed.
  - by_eval.
  - by_eval.
Defined.

(** A view change message that calls itself a prepare. *)
Definition mistyped : ParsedMessage :=
  let m := mkPbftViewChange (Some (make_msg_info Prepare 0 1 (peer 2))) None in
  mkParsedMessage [] [] (WViewChange m) (x0b :: enc m) false.

Lemma mistyped_prepare_panics_witness :
  ∃ reason s', on_peer_message 2 mistyped run_pre_prepared = (Panic reason, s').
Proof.
  apply (mistyped_prepare_panics 1 mistyped run_pre_prepared (sample_msg PrePrepare 0 1 (sample_block 1) (peer 0))).
  - by vm_compute.
  - intros b. by vm_compute.
  - by vm_compute.
  - by vm_compute.
  - by_eval.
  - by_eval.
  - by_eval.
Defined.

(** ** Seals *)

(** A commit for the first block with a header its sender signed. *)
Definition signed_commit (n : N) : ParsedMessage :=
  let m := sample_msg Commit 0 1 (sample_block 1) (peer n) in
  let v := vote_signed_by (peer n) (peer n) in
  mkParsedMessage (sv_header_bytes v) (sv_header_signature v) (message m) (message_bytes m) false.

(** The primary at the second height, with the commits of peers 2 and 3. *)
Definition publishing : Sys :=
  set_log (set_messages (hs_collect 0 [signed_commit 2; signed_commit 3]) (log_new (mock_config 4)))
    (set_state (set_seq_num 2 (sample_state (peer 0) 4)) (sample_sys (peer 0) 4)).

Lemma publishing_commits v :
  received_in_view (msg_log publishing) Commit 1 v =
  if decide (v = 0) then [signed_commit 2; signed_commit 3] else [].
Proof.
  unfold received_in_view.
  change (filter (λ m, has_type_seq Commit 1 m ∧ from_self m = false) (hs_iter (messages (msg_log publishing))))
    with [signed_commit 2; signed_commit 3].
  rewrite !filter_cons, filter_nil. change (mi_view (info (signed_commit 2))) with 0.
  change (mi_view (info (signed_commit 3))) with 0. by repeat case_decide.
Qed.

Lemma signed_vote_valid n :
  n = 2 ∨ n = 3 →
  vote_valid (mkPbftSeal (bk_block_id (sample_block 1)) [] []) (vote_of (signed_commit n)) (mi_signer_id (info (signed_commit n))).
Proof. intros [-> | ->]; apply verify_vote_valid; by vm_compute. Qed.

Lemma built_seal_is_accepted_witness :
  let block := sealed_block (mkPbftSeal (bk_block_id (sample_block 1)) [] (vote_of <$> [signed_commit 2; signed_commit 3])) in
  ∃ seal, verify_consensus_seal block run_next = (Done (Ok (Some seal)), asked_settings block run_next) ∧
          ps_previous_id seal = bk_previous_id block ∧ ps_summary seal = [].
Proof.
  set (seal := mkPbftSeal (bk_block_id (sample_block 1)) [] (vote_of <$> [signed_commit 2; signed_commit 3])).
  assert (∀ m, m ∈ received_in_view (msg_log publishing) Commit 1 0 → ∃ n, (n = 2 ∨ n = 3) ∧ m = signed_commit n) as Hrec.
  { intros m. rewrite publishing_commits. rewrite decide_True by done.
    intros [->|[->|[]%elem_of_nil]%elem_of_cons]%elem_of_cons; eexists; (split; [|done]); auto. }
  apply (built_seal_is_accepted [] (x0c :: enc seal) publishing publishing run_next (sealed_block seal) 0 1).
  - vm_compute. reflexivity.
  - by vm_compute.
  - intros m v'. rewrite publishing_commits. by case_decide; [|intros ?%elem_of_nil].
  - intros m (n & Hn & ->)%Hrec. split; [by apply signed_vote_valid|]. exists block_1. by destruct Hn as [-> | ->].
  - rewrite publishing_commits. by_eval.
  - done.
  - done.
  - done.
  - by_eval.
  - by vm_compute.
  - exists (peer <$> [0; 1; 2; 3]). split.
    + exists four_peers. by vm_compute.
    + intros m (n & [-> | ->] & ->)%Hrec; split; by_eval.
Defined.

(** A peer that is behind gets the second block. *)
Definition sealed_child : Block :=
  sealed_block (mkPbftSeal (bk_block_id (sample_block 1)) [] (vote_of <$> [signed_commit 2; signed_commit 3])).

Lemma catchup_commits_working_block_witness :
  committed (service (catchup sealed_child run_announced).2) = [bk_block_id (sample_block 1)] ∧
  (committed (service (catchup sealed_child run_announced).2) = committed (service run_announced) ∨
   ∃ wb, working_block (pbft_state run_announced) = Some wb ∧ bk_previous_id sealed_child = pb_block_id wb ∧
     committed (service (catchup sealed_child run_announced).2) = committed (service run_announced) ++ [pb_block_id wb]).
Proof.
  split; [by vm_compute|].
  apply (catchup_commits_working_block sealed_child run_announced
           (mkPbftSeal (bk_block_id (sample_block 1)) [] (vote_of <$> [signed_commit 2; signed_commit 3]))
           run_announced (Ok tt)).
  - apply (verify_seal_sound _ _ _ (verify_consensus_seal sealed_child run_announced).2). apply run_of. by vm_compute.
  - apply run_of. by vm_compute.
Defined.

Lemma sealed_child_votes :
  ∃ first ms b, parse_votes (vote_of <$> [signed_commit 2; signed_commit 3]) = Done (Ok (first :: ms)) ∧
    get_block first = Done b ∧ pb_block_id b = bk_block_id (sample_block 1) ∧ mi_view (info first) = 0 ∧
    Forall (λ m, mi_view (info m) = 0) (first :: ms).
Proof.
  eexists _, _, _. split; [vm_compute; reflexivity|]. split; [reflexivity|]. split; [by vm_compute|].
  split; [by vm_compute|]. by_eval.
Defined.

Lemma catchup_effect_witness :
  seq_num (pbft_state run_announced) = 1 ∧
  ∃ s', catchup sealed_child run_announced = (Done (Ok tt), s') ∧
    seq_num (pbft_state s') = 2 ∧ phase (pbft_state s') = PrePreparing ∧
    committed (service s') = committed (service run_announced) ++ [bk_block_id (sample_block 1)].
Proof.
  split; [by vm_compute|]. destruct sealed_child_votes as (first & ms & b & Hvotes & Hb & Hid & Hv & Hms).
  destruct (catchup_effect sealed_child run_announced) as [_ Heff].
  destruct (Heff (pbft_block_from_block (sample_block 1))) as (_ & _ & Hseal); [by vm_compute|by vm_compute|].
  destruct (Hseal (mkPbftSeal (bk_block_id (sample_block 1)) [] (vote_of <$> [signed_commit 2; signed_commit 3])) first ms b)
    as (_ & Hok).
  - by_eval.
  - by vm_compute.
  - exact Hvotes.
  - exact Hb.
  - intros m Hm. right. rewrite Hv. rewrite Forall_forall in Hms. by apply Hms.
  - destruct Hok as [_ Hdone]; [done|]. assert (catchup sealed_child run_announced = (Done (Ok tt), (catchup sealed_child run_announced).2)) as Hrun
      by (apply run_of; by vm_compute).
    rewrite Hid in Hdone. destruct (Hdone _ Hrun) as (Hn & Hph & Hcom); [by vm_compute|].
    eexists. split; [exact Hrun|]. split; [|by split]. by vm_compute.
Defined.

(** ** The log *)

Lemma unique_of_block ms b :
  Forall (λ m, msg_type_of m = PrePrepare → get_block m = Done b) ms → unique_pre_prepare ms.
Proof.
  intros Hms m m' n v Hm Hm' Ht Ht'. rewrite Forall_forall in Hms.
  rewrite (Hms m Hm), (Hms m' Hm') by by eapply msg_type_of_type_seq_view. done.
Qed.

Lemma finished_unique : unique_pre_prepare (stored (msg_log run_finished)).
Proof. apply (unique_of_block _ block_1). by_eval. Qed.

Lemma typed_of_block ms b : Forall (λ m, get_block m = Done b) ms → blocks_typed ms.
Proof. intros Hms m Hm _. exists b. by eapply Forall_forall in Hms. Qed.

Lemma finished_typed : blocks_typed (stored (msg_log run_finished)).
Proof. apply (typed_of_block _ block_1). by_eval. Qed.

(** ** Votes *)

Lemma votable_check m s :
  sized (pbft_state s) → Forall (λ x, get_block x = Done block_1) (stored (msg_log s)) →
  get_block m = Done block_1 → votable m s.
Proof.
  intros Hs Hb Hm. split; [done|]. split; [by apply (unique_of_block _ block_1), (Forall_impl _ _ _ Hb)|].
  split; [by apply (typed_of_block _ block_1)|]. by exists block_1.
Qed.

Definition prepare_from (n : N) : ParsedMessage := sample_msg Prepare 0 1 (sample_block 1) (peer n).

Lemma pre_prepared_check ms n v :
  sample_msg PrePrepare 0 1 (sample_block 1) (peer 0) ∈ ms → n = 1 → v = 0 → pre_prepared ms n v block_1.
Proof. intros Hin -> ->. eexists. split; [exact Hin|]. split; [split_and!; by vm_compute|by vm_compute]. Qed.

Lemma quorum_check ms t n v f :
  3 ≤ len (votes ms t 1 0 block_1) → n = 1 → v = 0 → f = 1 → 2 * f + 1 ≤ len (votes ms t n v block_1).
Proof. by intros ? -> -> ->. Qed.

Lemma prepare_effect_witness :
  ∃ b, get_block (prepare_from 2) = Done b ∧
    on_peer_message fuel (prepare_from 2) run_preparing =
      (Done (map_err (λ _, InternalError "Failed to check blocks") (on_check_blocks (service run_preparing) [pb_block_id b])),
       set_service (service run_preparing ++ [CheckBlocks [pb_block_id b]])
         (set_state (switch_phase Checking (pbft_state run_preparing)).2 (stored_state (prepare_from 2) run_preparing))).
Proof.
  destruct (prepare_effect 2 (prepare_from 2) run_preparing) as (_ & _ & Hready).
  - by vm_compute.
  - apply votable_check; by_eval.
  - apply Hready; [by vm_compute|]. split_and!; [by vm_compute|by_eval|].
    exists block_1. split; [apply pre_prepared_check; [by_eval|by vm_compute..]|apply quorum_check; [by_eval|by vm_compute..]].
Defined.

Lemma commit_effect_witness :
  ∃ b, get_block (commit_from 2) = Done b ∧
    on_peer_message fuel (commit_from 2) run_almost =
      match on_commit_block (service run_almost) (pb_block_id b) with
      | Ok _ => (Done (Ok tt), set_state (set_phase Finished (pbft_state run_almost))
                  (set_service (service run_almost ++ [CommitBlock (pb_block_id b)]) (stored_state (commit_from 2) run_almost)))
      | Err _ => (Done (Err (InternalError "Failed to commit block: {:?}")),
                  set_service (service run_almost ++ [CommitBlock (pb_block_id b)]) (stored_state (commit_from 2) run_almost))
      end.
Proof.
  destruct (commit_effect 2 (commit_from 2) run_almost) as (_ & _ & Hready).
  - by vm_compute.
  - apply votable_check; by_eval.
  - apply Hready; [by vm_compute|]. split_and!; [by vm_compute|by vm_compute|].
    exists block_1. split; [split; [apply pre_prepared_check; [by_eval|by vm_compute..]|]|]; apply quorum_check; first [by_eval|by vm_compute].
Defined.

Lemma on_block_new_effect_witness :
  ∃ bs, message_to_bytes (block_new_message (sample_block 1) (pbft_state run_start)) = Ok bs ∧
    on_block_new fuel (sample_block 1) run_start =
      (Done (Ok tt),
       set_state (set_working_block (Some block_1) (pbft_state run_start))
         (stored_state (mkParsedMessage [] [] (WMessage (block_new_message (sample_block 1) (pbft_state run_start))) bs false)
            run_start)).
Proof.
  destruct (on_block_new_effect fuel (sample_block 1) run_start) as (_ & _ & Hv).
  destruct (Hv None run_start) as (bs & Hbs & Hrun); [by_eval|by vm_compute|by_eval|unfold catching_up; by_eval|].
  exists bs. split; [exact Hbs|exact Hrun].
Defined.

Definition commit_info : PbftMessageInfo := make_msg_info Commit 0 1 (peer 0).


Lemma peer_messages_order_independent_witness :
  let m := sample_msg PrePrepare 0 1 (sample_block 1) (peer 0) in
  phase (pbft_state (on_peer_message (H:=with_order fix_env rev_order) fuel m run_announced).2) = Preparing ∧
  on_peer_message (H:=with_order fix_env fix_order) fuel m run_announced =
  on_peer_message (H:=with_order fix_env rev_order) fuel m run_announced.
Proof.
  intros m. split; [by vm_compute|].
  destruct (peer_messages_order_independent (E:=fix_env) fix_order rev_order fuel m run_announced) as [Hsame _].
  - intros _. by eexists.
  - by_eval.
  - apply announced_ok.
  - apply announced_typed.
  - exact Hsame.
Defined.

Definition sealed_log : PbftLog :=
  add_consensus_seal (bk_block_id (sample_block 1)) 1 (seal_signed_by (peer 2) []) (log_new (mock_config 4)).

Lemma get_consensus_seal_unique_witness :
  get_consensus_seal sealed_log 1 = Ok (seal_signed_by (peer 2) []) ∧
  (∃ e, se_seal e = seal_signed_by (peer 2) [] ∧ ∀ e', e' ∈ seals sealed_log ∧ se_seq_num e' = 1 ↔ e' = e).
Proof.
  assert (get_consensus_seal sealed_log 1 = Ok (seal_signed_by (peer 2) [])) as Hs by by vm_compute.
  split; [exact Hs|].
  apply (get_consensus_seal_unique sealed_log 1); [unfold log_wf, hs_wf; by_eval|exact Hs].
Defined.

Lemma garbage_collect_keeps_votes_witness :
  ∃ l', garbage_collect 2 (bk_block_id (sample_block 1)) (msg_log run_finished) = Done l' ∧ log_wf l' ∧
    (hs_len (messages (msg_log run_finished)) < max_log_size (msg_log run_finished) →
       messages l' = messages (msg_log run_finished)) ∧
    (∀ m, m ∈ messages l' → m ∈ messages (msg_log run_finished)) ∧
    (∀ t n v blk, 2 - 1 ≤ n → votes (stored l') t n v blk ≡ₚ votes (stored (msg_log run_finished)) t n v blk) ∧
    (∀ e, e ∈ seals l' ↔ e ∈ seals (msg_log run_finished) ∧ se_block_id e = bk_block_id (sample_block 1)) ∧
    backlog l' = backlog (msg_log run_finished).
Proof.
  apply (garbage_collect_keeps_votes 2 (bk_block_id (sample_block 1)) (msg_log run_finished));
    [by_eval|unfold log_wf, hs_wf; by_eval].
Defined.

(** ** State and configuration *)

Lemma every_peer_gets_a_view_witness :
  primaries (set_view 5 (sample_state (peer 0) 4)) 4 = Done <$> [peer 1; peer 2; peer 3; peer 0].
Proof. apply (every_peer_gets_a_view (set_view 5 (sample_state (peer 0) 4))). by_eval. Defined.

Lemma state_new_starts_witness :
  (∃ st, state_new 0 (peer 1) 0 (mock_config 4) = Done st ∧ seq_num st = 1) ∧
  (∃ reason, state_new 0 (peer 1) 0 (mock_config 3) = Panic reason).
Proof.
  split.
  - destruct (state_new_starts 0 (peer 1) 0 (mock_config 4)) as [Hs _]; [by_eval|].
    destruct Hs as (st & Hst & _ & _ & _ & Hn & _); [by_eval|]. exists st. split; [exact Hst|exact Hn].
  - apply (state_new_starts 0 (peer 1) 0 (mock_config 3)); by_eval.
Defined.

Definition sample_settings : gmap string string := number_settings 100 5 20 10 500 ∪ four_peers.

Lemma config_honours_settings_witness :
  config_of_settings sample_settings =
  Done {| cfg_peers := peer <$> [0; 1; 2; 3]; cfg_block_duration := from_millis 100; cfg_message_timeout := from_millis 5;
          cfg_faulty_primary_timeout := from_secs 20; cfg_forced_view_change_period := 10;
          cfg_max_log_size := 500; cfg_storage := "memory" |}.
Proof.
  destruct (config_honours_settings sample_settings (peer <$> [0; 1; 2; 3]) 100 5 20 10 500) as [Hset _].
  1-6: by vm_compute.
  apply Hset. apply map_union_subseteq_l.
Defined.

(** ** Quorums *)


Lemma quorums_share_an_honest_peer_witness :
  (∀ q1 q2 : gset PeerId,
     q1 ⊆ list_to_set peers_4 → q2 ⊆ list_to_set peers_4 →
     2 * 1 + 1 ≤ N.of_nat (size q1) → 2 * 1 + 1 ≤ N.of_nat (size q2) →
     1 < N.of_nat (size (q1 ∩ q2))) ↔ len peers_4 = 3 * 1 + 1.
Proof. apply (quorums_share_an_honest_peer peers_4 1); [by vm_compute|by_eval|by_eval]. Defined.

(** Distinct voters, from the signers of all prepares at once. *)
Lemma distinct_voters_check peers ms n v :
  NoDup ((λ m, mi_signer_id (info m)) <$> filter (has_type_seq_view Prepare n v) ms) →
  Forall (λ m, mi_signer_id (info m) ∈ peers) (filter (has_type_seq_view Prepare n v) ms) →
  distinct_voters peers ms n v.
Proof.
  intros Hnd Hin b. unfold signers, votes.
  rewrite <- (filter_and (has_type_seq_view Prepare n v) (λ m, get_block m = Done b)).
  split.
  - eapply sublist_NoDup; [exact Hnd|]. apply fmap_sublist, sublist_filter.
  - intros p (m & -> & [_ Hm]%list_elem_of_filter)%list_elem_of_fmap. by eapply Forall_forall in Hin.
Qed.

(** ** A round *)

Lemma received_votes_check t : received_votes 1 1 0 block_1 t (sample_msg t 0 1 (sample_block 1) <$> [peer 0; peer 2]).
Proof.
  split; [by repeat constructor; destruct t; by_eval|]. split; [by vm_compute|].
  intros m (p & -> & Hp)%list_elem_of_fmap. split; [split; [split_and!; by destruct t|done]|done].
Qed.

(** A commit comes before the prepares, a prepare twice, and votes for another
    block and another height among them. *)
Definition before_approval : list RoundEvent :=
  [Vote (commit_from 0); Vote (prepare_from 0); Vote (sample_msg Commit 0 1 (sample_block 2) (peer 0));
   Vote (prepare_from 0); Vote (sample_msg Prepare 0 2 (sample_block 2) (peer 0)); Vote (prepare_from 2)].


(** The second block and its pre-prepare come before the first is committed. *)
Definition run_early : Sys := after (on_block_new fuel sealed_child) run_finished.
Definition early_pre_prepare : ParsedMessage := sample_msg PrePrepare 0 2 sealed_child (peer 0).
Definition run_late : Sys := after (on_block_commit (bk_block_id (sample_block 1))) (stored_state early_pre_prepare run_early).
Definition late : list (ParsedMessage + BlockId) :=
  ((λ n, inl (sample_msg Prepare 0 2 sealed_child (peer n))) <$> [0; 2; 3]) ++ [inr (bk_block_id sealed_child)] ++
  ((λ n, inl (sample_msg Commit 0 2 sealed_child (peer n))) <$> [0; 2; 3]).

#[local] Instance vote_or_answer_dec e : Decision (vote_or_answer e).
Proof. destruct e; apply _. Defined.

Lemma early_pre_prepare_stalls_witness :
  let s' := (late_events 3 late run_late).2 in
  phase (pbft_state s') = PrePreparing ∧ seq_num (pbft_state s') = 2 ∧
  committable (stored (msg_log s')) 2 0 3 (pbft_block_from_block sealed_child) ∧
  speech (service s') = speech (service run_late).
Proof.
  assert (on_block_commit (bk_block_id (sample_block 1)) (stored_state early_pre_prepare run_early) = (Done tt, run_late)) as Hc
    by (unfold run_late, after; apply run_of; vm_compute; reflexivity).
  edestruct (early_pre_prepare_stalls 2 early_pre_prepare (pbft_block_from_block sealed_child)
              (bk_block_id (sample_block 1)) run_early run_late late) as (_ & _ & Hs & Hp & _).
  - by vm_compute.
  - split; [by vm_compute|]. split; [by vm_compute|]. split; [by vm_compute|right; by vm_compute].
  - by vm_compute.
  - by vm_compute.
  - by vm_compute.
  - eexists. split; by vm_compute.
  - exact Hc.
  - by_eval.
  - split; [exact Hp|]. split; [by vm_compute|]. split; [by_eval|exact Hs].
Defined.

(** ** The engine *)

#[local] Existing Instance fix_files.
#[local] Existing Instance fix_serde.
#[local] Existing Instance decimal.
#[local] Existing Instance decimal_laws.

(** The node of the run, with its state in a file. *)
Definition engine_announced : Engine :=
  mkEngine (service run_announced) (msg_log run_announced) (ticks run_announced)
    (OnDisk (mkDiskStorage (pbft_state run_announced) "pbft.state")) ∅
    (ticker_new 0 (from_millis 200)) (ticker_new 0 (from_millis 10)) [].

Definition delivered (m : ParsedMessage) : Result Update RecvTimeoutError :=
  Ok (UpdatePeerMessage (mkPeerMessage (mkPeerMessageHeader (mi_signer_id (info m)) (message_bytes m)) [] [] (message_bytes m))
        (mi_signer_id (info m))).

Definition engine_pre_prepared : Engine :=
  (iteration fuel (delivered (sample_msg PrePrepare 0 1 (sample_block 1) (peer 0))) engine_announced).2.

Lemma engine_iteration :
  iteration fuel (delivered (sample_msg PrePrepare 0 1 (sample_block 1) (peer 0))) engine_announced =
  (Done true, engine_pre_prepared).
Proof. unfold engine_pre_prepared. apply run_of. vm_compute. reflexivity. Qed.

Lemma reachable_refines_witness :
  phase (pbft_state (sys_of engine_pre_prepared)) = Preparing ∧
  node_ok (sys_of engine_pre_prepared) ∧
  rtc node_step (abs (sys_of engine_announced)) (abs (sys_of engine_pre_prepared)).
Proof.
  split; [by vm_compute|].
  apply (reachable_refines fuel engine_announced engine_pre_prepared).
  - exact announced_ok.
  - eapply reachable_iteration; [apply reachable_start|apply engine_iteration|by intros []|..]; unfold bounded; by_eval.
Defined.

Lemma iteration_persists_witness :
  eng_files engine_pre_prepared !! "pbft.state" = Some "1/0" ∧
  ∃ j, to_json (pbft_state (sys_of engine_pre_prepared)) = Ok j ∧
       eng_files engine_pre_prepared = <["pbft.state" := j]> (eng_files engine_announced).
Proof.
  split; [by vm_compute|].
  apply (iteration_persists fuel _ engine_announced true engine_pre_prepared engine_iteration).
Defined.

Lemma unauthenticated_messages_are_dropped_witness :
  ∃ e, handle_update fuel (Ok (UpdatePeerMessage (mkPeerMessage (mkPeerMessageHeader (peer 0) []) [] []
         (message_bytes (commit_from 0))) (peer 0))) run_announced = (Done (Err e), run_announced).
Proof. apply unauthenticated_messages_are_dropped. left. by vm_compute. Defined.

Lemma disk_storage_reopens_witness :
  get_storage id (λ fs _, fs) ("disk+" +:+ "/tmp/n") (mret 0) {[ "/tmp/n" := "500" ]} =
  (Done (Ok (OnDisk (mkDiskStorage 500 "/tmp/n"))), {[ "/tmp/n" := "500" ]} : gmap string string).
Proof.
  pose proof (disk_storage_reopens (T:=N) id (λ fs _, fs) "/tmp/n" (mkDiskStorage 500 "/tmp/n") ∅ (mret 0)
                {[ "/tmp/n" := "500" ]}) as Hr.
  apply Hr; by vm_compute.
Defined.

Definition started : Engine := default engine_announced (start_engine (peer 1) genesis world).2.

Lemma start_engine_ok_witness : node_ok (sys_of started) ∧ seq_num (pbft_state (sys_of started)) = 1.
Proof.
  destruct (start_engine_ok (peer 1) genesis world started) as (Hok & Hn & _).
  - by vm_compute.
  - by_eval.
  - split; [exact Hok|exact Hn].
Defined.

(** The engine gets the first block and a pre-prepare for it. *)
Definition started_announced : Engine := (iteration fuel (Ok (UpdateBlockNew (sample_block 1))) started).2.
Definition started_preparing : Engine :=
  (iteration fuel (delivered (sample_msg PrePrepare 0 1 (sample_block 1) (peer 0))) started_announced).2.

Lemma started_iterations :
  iteration fuel (Ok (UpdateBlockNew (sample_block 1))) started = (Done true, started_announced) ∧
  iteration fuel (delivered (sample_msg PrePrepare 0 1 (sample_block 1) (peer 0))) started_announced =
    (Done true, started_preparing).
Proof.
  split; [unfold started_announced|unfold started_preparing]; apply run_of; vm_compute; reflexivity.
Qed.

Lemma typed_engines_return_witness :
  phase (pbft_state (sys_of started_preparing)) = Preparing ∧
  (∀ m, m ∈ stored (eng_log started_preparing) ∨ m ∈ backlog (eng_log started_preparing) → typed m) ∧
  (∀ m, typed m → ∃ r s', on_peer_message fuel m (sys_of started_preparing) = (Done r, s')) ∧
  ∃ r s', retry_backlog fuel (sys_of started_preparing) = (Done r, s').
Proof.
  split; [by vm_compute|].
  apply (typed_engines_return (peer 1) genesis world started).
  - by vm_compute.
  - by_eval.
  - done.
  - eapply typed_iteration; [eapply typed_iteration; [apply typed_start|apply started_iterations|..]|apply started_iterations|..].
    + exact I.
    + intros [Hn _]. by vm_compute in Hn.
    + unfold bounded. by_eval.
    + unfold bounded. by_eval.
    + intros m Hm _. vm_compute in Hm. injection Hm as <-. intros _. by eexists.
    + by intros [].
    + unfold bounded. by_eval.
    + unfold bounded. by_eval.
  - unfold bounded. by_eval.
  - by_eval.
Defined.

(** Peer 1 goes through the first height until it has voted to commit, catches
    up on the second block, and is told to shut down. *)
Definition some_updates : list (Result Update RecvTimeoutError) :=
  ((filter (λ e, e.1 = peer 1) (up_to_valid 1 (sample_block 1))).*2) ++
  [Ok (UpdateBlockNew block_2); Err RecvTimeout; Ok UpdateShutdown].

Definition vote_by (k : N) : PbftSignedCommitVote :=
  let m := envelope (peer k) (content_of Commit 0 1 (peer k) (pbft_block_from_block (sample_block 1))) in
  mkPbftSignedCommitVote (pe_header_bytes m) (pe_header_signature m) (pe_content m).

Lemma block_2_decent : decent_block 0 block_2.
Proof.
  split; [by vm_compute|]. intros seal Hs. assert (seal = seal_2) as -> by (vm_compute in Hs; by injection Hs as <-).
  split; [by left|]. change (Forall (decent_vote 0) [vote_by 1; vote_by 2]).
  assert (decent_vote 0 (vote_by 1) ∧ decent_vote 0 (vote_by 2)) as [? ?].
  2: { rewrite !Forall_cons, Forall_nil. done. }
  split; (split; intros x Hx; vm_compute in Hx; injection Hx as <-; [by eexists|by split; vm_compute]).
Qed.

Ltac decent_update :=
  match goal with
  | |- decent _ (Ok (UpdateBlockNew _)) =>
      first [exact block_2_decent | split; [by vm_compute|by intros seal Hs; vm_compute in Hs]]
  | |- decent _ (Ok (UpdatePeerMessage _ _)) =>
      intros m Hm; vm_compute in Hm; injection Hm as <-; split; [intros _; by eexists|by intros ?]
  | |- _ => exact I
  end.

Lemma fix_hospitable : hospitable.
Proof.
  intros h id. exists peers_4. split; [|split; by vm_compute]. eexists. split; [reflexivity|]. by vm_compute.
Qed.


(** At the third height of a network, peer 1 gets view changes of the others. *)
Definition third_height : Sys := sys_of (net_2 (peer 1)).
Definition change_from (k : N) : ParsedMessage :=
  let content := x0b :: enc (mkPbftViewChange (Some (make_msg_info ViewChange 1 2 (peer k))) (Some seal_2)) in
  match from_peer_message (envelope (peer k) content) false with
  | Ok m => m
  | Err _ => mkParsedMessage [] [] (WViewChange (mkPbftViewChange None None)) [] false
  end.

Lemma view_change_finishes_witness :
  view (pbft_state third_height) = 0 ∧
  ∃ s', handle_messages 0 [change_from 2; change_from 2; change_from 0; change_from 3] third_height = (Done tt, s') ∧ entered 0 s'.
Proof.
  split; [by vm_compute|].
  apply (view_change_finishes 1 2 0) with (received := [change_from 0; change_from 2]).
  - by vm_compute.
  - split; [by_eval|by vm_compute|by vm_compute].
  - split; [by vm_compute|]. assert (mode (pbft_state third_height) = Normal) as -> by by vm_compute.
    split; [by vm_compute|]. eexists. vm_compute. reflexivity.
  - repeat (apply Forall_cons; split); [by_eval..|by apply Forall_nil].
  - by_eval.
  - by vm_compute.
  - intros m Hm. rewrite !elem_of_cons, elem_of_nil in Hm.
    destruct Hm as [-> |[-> |[]]]; (split; [by_eval|split; [by vm_compute|right]]); by_eval.
Defined.

Lemma next_height_takes_any_block_witness :
  (∃ o s', on_block_commit (H:=with_order fix_env o) (bk_block_id (sample_block 1)) both_announced = (Done tt, s') ∧
    pbft_state s' = set_working_block (Some (pbft_block_from_block second_rival)) (pbft_state (after (on_block_commit (bk_block_id (sample_block 1))) both_announced)) ∧
    (∀ x, x ∈ stored (msg_log s') ↔ x ∈ stored (msg_log (after (on_block_commit (bk_block_id (sample_block 1))) both_announced))) ∧
    ∀ id', id' ≠ bk_block_id second_rival → on_block_valid (H:=with_order fix_env o) fuel id' s' = (Done (Err NotReadyForMessage), s')) ∧
  working_block (pbft_state (after (on_block_commit (bk_block_id (sample_block 1))) both_announced)) = Some (pbft_block_from_block second_block).
Proof.
  split; [|by vm_compute].
  assert (∃ m, m ∈ stored (msg_log both_announced) ∧ has_type_seq BlockNew 2 m ∧ get_block m = Done (pbft_block_from_block second_rival)) as (m & Hin & Ht & Hb).
  { eexists. split; [|split].
    - apply (list_elem_of_lookup_2 _ 9). vm_compute. reflexivity.
    - by_eval.
    - by vm_compute. }
  apply (next_height_takes_any_block (E:=fix_env) fuel (bk_block_id (sample_block 1)) both_announced) with (m := m);
    [by vm_compute|by vm_compute|eexists; by vm_compute|done|exact Ht|exact Hb|by vm_compute].
Defined.

Lemma any_votes_seal_a_block_witness :
  let block := sealed_block strange_seal in
  verify_consensus_seal block run_pre_prepared = (Done (Ok (Some strange_seal)), asked_settings block run_pre_prepared) ∧
  service run_pre_prepared ++ [GetSettings (bk_previous_id block) [peers_key]; CommitBlock (bk_block_id (sample_block 1))]
    `prefix_of` service (on_block_new fuel block run_pre_prepared).2.
Proof.
  apply (any_votes_seal_a_block fuel (sealed_block strange_seal) run_pre_prepared block_1 Prepare 0 1 block_1 [peer 2; peer 3] peers_4).
  - done.
  - by_eval.
  - by vm_compute.
  - split; by vm_compute.
  - by vm_compute.
  - by vm_compute.
  - by vm_compute.
  - by vm_compute.
  - by vm_compute.
  - by vm_compute.
  - done.
  - done.
  - unfold ballots_of. cbn [ps_previous_commit_votes strange_seal].
    repeat constructor; [exists (peer 9)|exists (peer 3)];
      (split; [by vm_compute|]); eexists _, _; split_and!; vm_compute; reflexivity.
  - done.
  - by vm_compute.
  - eexists. split; [reflexivity|by vm_compute].
  - by_eval.
  - by vm_compute.
  - intros p Hp. rewrite !elem_of_cons, elem_of_nil in Hp. destruct Hp as [-> |[-> |[]]]; by_eval.
Defined.

Lemma what_crashes_a_node_witness :
  (∃ e, on_block_new fuel (sealed_block short_seal) run_next = (Panic e, run_next)) ∧
  (∃ e, on_block_new fuel (sealed_block keyless_seal) run_next = (Panic e, run_next)) ∧
  ∃ e s', on_block_commit (bk_block_id (sample_block 1)) (without_period run_finished) = (Panic e, s').
Proof.
  split_and!.
  - apply (proj1 (what_crashes_a_node fuel (sealed_block short_seal) [] run_next) short_seal);
      [by vm_compute|by vm_compute|by vm_compute|by vm_compute|left; split; [by vm_compute|left; vm_compute; lia]].
  - apply (proj1 (what_crashes_a_node fuel (sealed_block keyless_seal) [] run_next) keyless_seal);
      [by vm_compute|by vm_compute|by vm_compute|by vm_compute|right; split; [done|split; [done|]]].
    eexists _, _, _, _. split_and!; vm_compute; reflexivity.
  - apply (proj2 (what_crashes_a_node fuel (sealed_block short_seal) (bk_block_id (sample_block 1)) (without_period run_finished)));
      [by vm_compute|by vm_compute|eexists; by vm_compute|by vm_compute].
Defined.

(** ** A network of four peers of which peer 0, the primary, is faulty *)

Lemma honest_peers_agree_witness :
  ∃ b, committable (log_of net_2 (peer 1)) 1 0 (2 * 1 + 1) b ∧
       committable (log_of net_2 (peer 2)) 1 0 (2 * 1 + 1) b ∧
       ∀ p b', honest peers_4 {[ peer 0 ]} p → prepared (log_of net_2 p) 1 0 (2 * 1 + 1) b' → b' = b.
Proof.
  apply (honest_peers_agree (λ _, {| overflow_checks := false |}) (λ _, fix_order) (λ _, accepting_service four_peers)
           (λ _, {| clock_at := N.of_nat |}) peers_4 {[ peer 0 ]} fuel (signs_once ballot) ballot (λ _ H, H) 1) with (net0 := net_0) (i := commit_info).
  - by_eval.
  - by vm_compute.
  - by vm_compute.
  - by_eval.
  - exact net_0_start.
  - exact net_2_reachable.
  - split; by_eval.
  - split; by_eval.
  - by vm_compute.
  - by vm_compute.
Defined.

(** The peers settle a round for the first block. *)
Definition signed (t : PbftMessageType) (k : N) : ParsedMessage :=
  let content := content_of t 0 1 (peer k) block_1 in
  match from_peer_message (envelope (peer k) content) false with
  | Ok m => m
  | Err _ => sample_msg t 0 1 (sample_block 1) (peer k)
  end.

Lemma elem_of_exchange t v n b from to pairs : (from, to) ∈ pairs → deliver_message t v n b from to ∈ exchange t v n b pairs.
Proof. intros Hin. unfold exchange. apply list_elem_of_fmap. by exists (from, to). Qed.

Ltac in_exchange := first [left; apply elem_of_exchange; by_eval|apply elem_of_exchange; by_eval|right; in_exchange].

Lemma in_round_1 t k j :
  t = PrePrepare ∧ k = 0 ∨ (t = Prepare ∨ t = Commit) ∧ (k = 1 ∨ k = 2 ∨ k = 3) → j = 1 ∨ j = 2 ∨ j = 3 → k ≠ j →
  deliver_message t 0 1 (sample_block 1) k j ∈ round_1.
Proof.
  intros Hk Hj Hne. unfold round_1. rewrite !elem_of_app.
  destruct Hk as [[-> ->]|[[-> | ->] [-> | [-> | ->]]]], Hj as [-> | [-> | ->]]; try done; in_exchange.
Qed.

Lemma round_1_delivers t p q :
  honest peers_4 {[ peer 0 ]} p → honest peers_4 {[ peer 0 ]} q → p ≠ q → t = Prepare ∨ t = Commit →
  NetworkProgress.delivered 1 0 block_1 round_1 p q t.
Proof.
  assert (∀ k j : N, j ≠ k → k = 1 ∨ k = 2 ∨ k = 3 → j = 1 ∨ j = 2 ∨ j = 3 → t = Prepare ∨ t = Commit →
            NetworkProgress.delivered 1 0 block_1 round_1 (peer k) (peer j) t) as Hdel.
  { intros k j Hne Hk Hj Ht. exists (envelope (peer j) (content_of t 0 1 (peer j) block_1)), (signed t j).
    split; [by apply in_round_1; auto|]. destruct Hj as [-> | [-> | ->]], Ht as [-> | ->];
      (split; [by vm_compute|split; [split; [split_and!; by vm_compute|by vm_compute]|by vm_compute]]). }
  intros Hp Hq Hne Ht. destruct (honest_cases p Hp) as [-> | [-> | ->]], (honest_cases q Hq) as [-> | [-> | ->]];
    try done; apply Hdel; auto; done.
Qed.


Lemma honest_peers_commit_alike_witness :
  ∃ b, committable (log_of net_first (peer 1)) 1 0 (2 * 1 + 1) b ∧
       committable (log_of net_rest (peer 2)) 1 0 (2 * 1 + 1) b ∧
       last (committed (eng_service (net_first (peer 1)))) = Some (pb_block_id b) ∧
       last (committed (eng_service (net_rest (peer 2)))) = Some (pb_block_id b).
Proof.
  apply (honest_peers_commit_alike (λ _, {| overflow_checks := false |}) (λ _, fix_order) (λ _, accepting_service four_peers)
           (λ _, {| clock_at := N.of_nat |}) peers_4 {[ peer 0 ]} (pred fuel) (signs_once ballot) (λ _ _ _, eq_refl) ballot (λ _ H, H)) with (net0 := net_0) (f := 1).
  - by_eval.
  - by vm_compute.
  - by_eval.
  - exact net_0_start.
  - exact net_first_reachable.
  - exact net_rest_reachable.
  - split; by_eval.
  - split; by_eval.
  - by vm_compute.
  - by vm_compute.
  - by vm_compute.
  - by vm_compute.
  - by vm_compute.
  - by vm_compute.
Defined.
